(* ===== verification/_CoqProject ===== *)
-Q . S2P
Prelude.v
Prog.v
CrashLogic.v
Loops.v
Utf8.v
PyJson.v
JsonText.v
Models.v
Iso8601.v
Store.v
MemoryStore.v
StoreProps.v
Timestamp.v
RedisServer.v
RedisStore.v
RedisTable.v
RedisProofs.v
RefCjson.v
RedisProps.v
Backends.v
StoreEvents.v
Guard.v
GuardProps.v
Metrics.v
Consumer.v
ConsumerEvents.v
Handlers.v
Entrypoint.v
ConsumerSpec.v
Cancellation.v
ConsumerShapes.v
ConsumerProps.v
ConsumerExact.v
ConsumerRun.v
ConsumerStore.v
ConsumerStream.v
Timed.v
Interrupted.v
Window.v
ConsumerRetry.v
Settling.v
ConsumerWitness.v
Concurrency.v
Leases.v
Outbox.v
OutboxProps.v
Relays.v
RedisRetry.v
WindowStores.v
Pipeline.v
LoopProps.v
Api.v
Logging.v
Lifecycle.v
Process.v
HandlerRun.v
ConsumerCrash.v
Restart.v
