(* ===== verification/Prelude.v ===== *)
(** * Message deduplication and idempotency framework: a verification library

    The program (Python, under src/src) consumes Kafka messages exactly once in
    effect: a consumer claims a message in a store before it handles it, marks
    the outcome there, retries, dead-letters and commits; the same store makes
    other code idempotent; and an outbox publishes what a database transaction
    wrote.  This library models that code and proves what it guarantees.

    ** The parts and where they are modelled

    - dedup/models.py, config.py: Models.v.  Records, configuration, status
      values; an instant is a [Z] of microseconds, with the range of [datetime].
    - dedup/store.py: Store.v.  The class [DedupStore] is the abstract base
      class; Module [Spec] is an abstract machine on records, one step per call;
      [DedupStoreLaws] says that a backend refines it.
    - dedup/memory_store.py: MemoryStore.v, Module [Memory].  One function per
      method on the dict; [memory_laws] is its refinement.
    - dedup/redis_store.py: RedisStore.v, Module [Redis].  [LUA_CLAIM] and
      [LUA_UPDATE_STATUS] are the two scripts, statement by statement, and one
      function per method calls them; the instants that get_status reads go through
      doubles, Timestamp.v.  Redis and cjson are the interfaces of
      RedisServer.v, with laws for their documented behaviour; RedisTable.v and
      RedisProofs.v prove the refinement [redis_laws]; Ref (RedisServer.v) and
      RefCjson.v show that the laws can hold.
    - idempotency/guard.py: Guard.v.  [aenter], [aexit], [with_guard] for the
      context manager; [idempotent], with the loop [attempts_loop], for the
      decorator.
    - idempotency/outbox.py and the table of scripts/init_db.sql: Outbox.v.  The
      four SQL statements as functions on rows, [write], [process_batch] (the
      connection of the pool around [batch], the transaction), [relay_loop], [start]
      and [stop].  A send that raises may have been delivered all the same
      ([delivery]).
    - consumer/dedup_consumer.py: Consumer.v.  [process_record] is
      _process_record, [execute_and_commit] with [retry_loop] and [on_failure]
      its retry loop, [complete], [send_to_dlq], [commit], [run_consumer],
      [start] and [stop] the methods of these names.
    - consumer/base.py: Lifecycle.v, the class [BaseConsumer], of which
      DedupConsumer is an instance.
    - consumer/handlers: Handlers.v.  consumer/__main__.py: Entrypoint.v
      and Process.v.
    - metrics/dedup_metrics.py: Metrics.v.
    - api.py: Api.v, [health], [ready], [prometheus_metrics].
    - logging_config.py: Logging.v, the two processors and [setup_logging].

    ** How code is translated

    Async code is a tree of events (Prog.v): a node is a call of something
    outside the function, and the continuation takes its outcome, a value or a
    raised exception.  [path] speaks of every answer of the environment, so a
    theorem about paths holds whatever fails; [run] executes the tree in a
    world; Concurrency.v interleaves trees event by event.  Code without await
    is a function, into [res] where it may raise and into [action] where it
    changes a state.  An exception carries its class name, its text, and whether
    [except Exception] catches it.

    CrashLogic.v is a Hoare logic for trees that may be cut off at any call:
    [cwp] asks for a condition at the end and for one at every call.  Timed.v lets
    time pass between the polls of the consumer, by a handler on a larger state;
    Interrupted.v makes a cancellation come out of a call, by another.
    ConsumerEvents.v says which calls a delivery makes, for any predicate on
    calls, so that "a delivery touches no other message" is one lemma.

    A delivery's executions are described by a grammar of traces (ConsumerSpec.v,
    with [process_record_delivery]: every execution is a word of it; and
    ConsumerExact.v: every word is an execution); the shape of its words is
    ConsumerShapes.v.

    Loops are trees with a number of rounds.  Loops.v gives the while loop of the
    language by its rules, [while_path], with nothing that bounds it, and LoopProps.v
    proves that the loops of the model are those of the source.

    Python values are PyJson.v: JSON trees with ordered dicts and Python's
    equality as [≡], and opaque objects that json.dumps refuses.  The json
    module, repr and the text of datetimes are classes ([JsonCodec],
    [PyRuntime], [DatetimeText]) with the laws the code relies on; JsonText.v and
    Iso8601.v implement them, so that the theorems evaluate.  Bytes and their
    decoding are Utf8.v.

    ** What is proved

    - ConsumerProps.v, for every answer of store, Kafka and handler: attempts
      are bounded and each follows its own successful claim; success is final;
      cancellation passes through; failures are marked, backoffs grow linearly;
      an offset is committed at most once and only after the message is settled;
      dead letters are faithful; every message is counted once; and the two
      ways in which a delivery does not do what it means to (a header that is
      not UTF-8, a re-claim that is lost).
    - StoreProps.v, for both backends: refinement of the machine, one winner of
      a claim race, exclusion until the lease ends, finality of COMPLETED in a
      store that guards its updates, well-formed records, recovery of orphans;
      and the in-memory store's mark_failed, which reopens a COMPLETED record.
    - RedisProps.v: the clock, the TTL, the guard, what becomes of a result (equal,
      but that empty lists become empty objects), the warnings that say that a mark
      had no effect; and a record that expires while a lease of it is live.
      Backends.v: the same calls on two stores have the same answers.
    - ConsumerStore.v and ConsumerRetry.v: a delivery and its record, from the
      first claim to the commit, for success, redelivery, retries and
      exhaustion, on any store that serves the message while it waits (the class
      [Steady]); RedisRetry.v shows that Redis does, with its own clock and with
      keys that expire, and evaluates the theorems on both stores.
    - Concurrency.v: one attempt in all consumers together.  Leases.v: who holds
      the lease when deliveries interleave, fail, claim again and crash: at most
      one live holder; and what a consumer does to the others that reports a
      failure after its lease.
    - ConsumerStream.v: the poll loop over any stream with any redeliveries hands
      each message to the handler once.  Window.v: the same when time passes
      between the records and the store forgets: the loop is a filter with a window,
      the reference [windowed]; WindowStores.v: the windows of the two stores, and
      for Redis the bounds in time: calls for one message are more than the TTL
      apart, and no record is skipped for an older call.  Settling.v: the loop when
      attempts fail and time passes: what the handler, the dead-letter queue, the
      clock and the store have seen at the end of the stream, on both stores.  Pipeline.v: from the rows of
      the outbox, through a relay that fails and a Kafka that duplicates, to a handler that may fail: each
      message sent is attempted until it succeeds or is dead-lettered, once for all its copies
      ([outbox_settles]); and where this is not so, when a payload does not name its id.
    - Interrupted.v: a consumer that is cancelled leaves what one leaves that is
      killed at the same call.
    - ConsumerCrash.v: a message is handed to the handler however often its
      deliveries are killed or cancelled, at any call, when it is delivered again
      after the lease; and the two ways to lose one: a redelivery before the lease is over,
      and a dead letter that cannot be sent.  Restart.v: the poll loop over a
      partition, killed or cancelled at any call and started again at its committed offset:
      what is committed has been handed to the handler.
    - HandlerRun.v: deliveries whose handle() is a handler of the program.
    - LoopProps.v: the loops are the while loops of the source, and a delivery
      ends after a bounded number of calls, whatever they answer.
    - Lifecycle.v: what start() opens, stop() closes.  Api.v: what the readiness
      probe answers.  Logging.v: what every record carries, and what the
      configuration sets.
    - GuardProps.v: the guard and the decorator, on every kind of key; a second
      call returns what the first returned.
    - OutboxProps.v: delivery under any failures, the effect of a batch, the
      draining of a backlog, the atomicity of the writer.  Relays.v: any number
      of relays on one table, with row locks, transactions and lost connections;
      the protocol a relay obeys on its connection ([obeys]) is the interface
      between its code and the database.
    - Cancellation.v: an exception that is not an [Exception] runs through the
      consumer, out of whatever call it comes.
    - Entrypoint.v: the calls of main() and its exit code.  Process.v: main() and
      the run() of its three consumers as one program under the rules of asyncio:
      a step relation, the phases of the process as an invariant, the order of
      the calls on each consumer, what the exit code says of the state in which the
      wait ended ([wait_over]), and a bound on the length of the shutdown.
    - ConsumerWitness.v and the last sections of the other files evaluate the
      theorems on concrete inputs.

    ** Bounds and fuel

    The retry loops count [max_retries - attempts + 1] iterations down, which is
    what their condition [attempts <= max_retries] leaves, so no bound is added
    to the code: [loop_fuel] is [max_retries] as a natural number
    ([retry_loop_is_while]).  The poll loop of the consumer and the loop of the
    relay run until they are stopped and take a number of rounds; their theorems
    hold for every number, or for every number that is large enough.  Parsers
    take the length of their text.  Python's integers are unbounded and so are
    those of the model; Lua's numbers are modelled as integers, exact below
    2^53, which is beyond every instant of [datetime] in milliseconds.  The one
    place where Python computes with doubles, the division of the lease by 1000 in
    get_status, rounds in the model as it does there; it is exact up to 2^33 seconds
    (the year 2242, [timestamp_us_exact]), the bound [exact_ms] of the laws of Redis.

    ** What a store can represent

    The laws of a backend are about the calls that it can represent ([st_claim_ok],
    [st_complete_ok], [st_fail_ok], together [op_ok]), and the theorems have them as
    hypotheses: for the in-memory store instants of [datetime]; for Redis also message
    ids in UTF-8, results of JSON without fractions, empty lists or integers of 10^14
    and more, and error texts that are not empty.  What happens outside is stated
    separately in RedisProps.v: [redis_result_roundtrip] and [redis_empty_list_lost],
    [redis_empty_error_lost], [redis_unserializable_result].

    ** What is not modelled

    The log calls inside the components, but for the warnings of the Redis store's
    marks; the reading of the environment by pydantic (the settings are a record);
    the lines under __main__ and the FastAPI object of api.py; the buckets of histograms; the processors and renderers of
    structlog, the rendering of responses by FastAPI.  A payload is a value:
    handlers that change the dict they are given, which the next attempt of the
    same delivery would see, are not (none of the program's does).  Kafka, asyncio
    and PostgreSQL are the answers of the environment: the theorems quantify over
    them, or over the schedule of the failures.  The in-memory store is used from
    one event loop, where each of its methods is one step.

    ** What is left

    Handlers that change their payload (above); the database of the outbox behind an
    interface with laws, where Outbox.v and Relays.v have the four statements of the
    source as functions on rows; windows in which attempts fail, where a record may
    expire while its delivery backs off.  The rest of the source (package exports,
    type variables, the loggers, docstrings) has no behaviour. *)

From Stdlib Require Export Ascii.
From stdpp Require Export base tactics numbers option list strings gmap.

(** Never let [simpl] unfold integer arithmetic. *)
#[global] Arguments Z.add : simpl never.
#[global] Arguments Z.mul : simpl never.
#[global] Arguments Z.sub : simpl never.
#[global] Arguments Z.div : simpl never.
#[global] Arguments Z.leb : simpl never.
#[global] Arguments Z.ltb : simpl never.

(** ** Python exceptions

    [exn_type] is [type(exc).__name__], [exn_str] is [str(exc)], and
    [exn_is_exception] says whether the class derives from [Exception]
    (so that [except Exception] catches it) or only from [BaseException]
    (as [asyncio.CancelledError] does). *)
Record exn := Exn {
  exn_type : string;
  exn_str : string;
  exn_is_exception : bool;
}.

#[export] Instance exn_eq_dec : EqDecision exn.
Proof. solve_decision. Defined.

Definition TypeError (msg : string) : exn := Exn "TypeError" msg true.
Definition ValueError (msg : string) : exn := Exn "ValueError" msg true.
Definition RuntimeError (msg : string) : exn := Exn "RuntimeError" msg true.
Definition CancelledError : exn := Exn "CancelledError" "" false.

(** ** Results: a value, or a raised exception *)
Inductive res (A : Type) : Type :=
| Ok (a : A)
| Err (x : exn).
Arguments Ok {A} _.
Arguments Err {A} _.

#[export] Instance res_eq_dec {A} `{EqDecision A} : EqDecision (res A).
Proof. solve_decision. Defined.

#[export] Instance res_ret : MRet res := λ A a, Ok a.
#[export] Instance res_bind : MBind res := λ A B f m,
  match m with Ok a => f a | Err x => Err x end.
#[export] Instance res_fmap : FMap res := λ A B f m,
  match m with Ok a => Ok (f a) | Err x => Err x end.

Definition is_ok {A} (r : res A) : bool :=
  match r with Ok _ => true | Err _ => false end.

(** ** Stateful actions that may raise: the state survives the exception *)
Definition action (S A : Type) : Type := S → S * res A.

#[export] Instance action_ret {S} : MRet (action S) := λ A a s, (s, Ok a).
#[export] Instance action_bind {S} : MBind (action S) := λ A B f m s,
  match m s with
  | (s', Ok a) => f a s'
  | (s', Err x) => (s', Err x)
  end.

Definition act_raise {S A} (x : exn) : action S A := λ s, (s, Err x).
Definition act_lift {S A} (r : res A) : action S A := λ s, (s, r).
Definition act_get {S} : action S S := λ s, (s, Ok s).
Definition act_put {S} (s' : S) : action S unit := λ _, (s', Ok tt).

(** ** Shared automation *)

(** Split every conjunction and existential of the context. *)
Ltac split_hyps :=
  repeat match goal with
  | H : _ ∧ _ |- _ => destruct H
  | H : ∃ _, _ |- _ => destruct H
  | H : (_, _) = (_, _) |- _ => simplify_eq H; clear H; intros
  | H : Ok _ = Ok _ |- _ => simplify_eq H; clear H; intros
  | H : Err _ = Err _ |- _ => simplify_eq H; clear H; intros
  end.

(** Case on the scrutinee of some boolean test, with its arithmetic meaning. *)
Ltac case_bool :=
  match goal with
  | |- context [ (?a <=? ?b)%Z ] => destruct (Z.leb_spec a b)
  | |- context [ (?a <? ?b)%Z ] => destruct (Z.ltb_spec a b)
  | |- context [ (?a =? ?b)%Z ] => destruct (Z.eqb_spec a b)
  end.

Create HintDb dedup discriminated.
Create Rewrite HintDb dedup.
#[export] Hint Constructors Forall : dedup.

(** ** Generic lemmas *)

Lemma bool_decide_eq_refl {A} `{EqDecision A} (x : A) : bool_decide (x = x) = true.
Proof. by apply bool_decide_eq_true. Qed.
#[export] Hint Rewrite @bool_decide_eq_refl : dedup.

Lemma lookup_insert_cases {A} (m : gmap string A) (i j : string) (x : A) :
  <[i:=x]> m !! j = if decide (i = j) then Some x else m !! j.
Proof. by rewrite lookup_insert. Qed.

Lemma is_ok_spec {A} (r : res A) : is_ok r = true ↔ ∃ a, r = Ok a.
Proof. destruct r; split; [eauto|done|done|by intros [? [=]]]. Qed.

Lemma sum_insert {A} (f : A → nat) l i x y :
  l !! i = Some x → sum_list_with f (<[i:=y]> l) + f x = sum_list_with f l + f y.
Proof.
  revert i. induction l as [|z l IH]; intros [|i] Hi; simplify_eq/=; [lia|].
  specialize (IH _ Hi). lia.
Qed.

(** Where an element of a concatenation lies, when it is not on one side. *)
Lemma app_split_r {A} (l1 l2 h1 h2 : list A) e :
  l1 ++ l2 = h1 ++ e :: h2 → e ∉ l1 → ∃ h, h1 = l1 ++ h ∧ l2 = h ++ e :: h2.
Proof.
  revert h1. induction l1 as [|a l1 IH]; intros h1 H Hn; [by exists h1|].
  destruct h1 as [|b h1]; simplify_eq/=; [by destruct Hn; left|].
  destruct (IH h1) as (h & -> & ->); [done|by intros ?; apply Hn; right|by exists h].
Qed.

Lemma app_split_l {A} (l1 l2 h1 h2 : list A) e :
  l1 ++ l2 = h1 ++ e :: h2 → e ∉ l2 → ∃ h, h2 = h ++ l2 ∧ l1 = h1 ++ e :: h.
Proof.
  revert h1. induction l1 as [|a l1 IH]; intros h1 H Hn; simpl in H.
  { destruct Hn. rewrite H. set_solver. }
  destruct h1 as [|b h1]; simplify_eq/=; [by exists l1|].
  destruct (IH h1) as (h & -> & ->); [done|done|by exists h].
Qed.
