(* ===== verification/Prog.v ===== *)
(** * Effect trees

    Async Python code is translated to trees of events: a node [Vis e k] awaits
    (or calls) the effect [e] and continues with its outcome, a value or a
    raised exception.  One translation of the code then serves three
    semantics: [path] (every response of the environment), [run] (a handler of
    events over a world), and the interleaving of Concurrency.v. *)

From S2P Require Import Prelude.

Section Prog.
Context {E : Type → Type}.

Inductive prog (A : Type) : Type :=
| Ret (a : A)
| Raise (x : exn)
| Vis {X : Type} (e : E X) (k : res X → prog A).
Arguments Ret {A} _.
Arguments Raise {A} _.
Arguments Vis {A X} _ _.

Fixpoint prog_bind {A B} (p : prog A) (f : A → prog B) : prog B :=
  match p with
  | Ret a => f a
  | Raise x => Raise x
  | Vis e k => Vis e (λ r, prog_bind (k r) f)
  end.

(** The outcome of [p] as a value: the core of [try] and [finally]. *)
Fixpoint attempt {A} (p : prog A) : prog (res A) :=
  match p with
  | Ret a => Ret (Ok a)
  | Raise x => Ret (Err x)
  | Vis e k => Vis e (λ r, attempt (k r))
  end.

Definition of_res {A} (r : res A) : prog A :=
  match r with Ok a => Ret a | Err x => Raise x end.

Definition trigger {X} (e : E X) : prog X := Vis e of_res.

(** [try: p except Exception as exc: h(exc)] *)
Definition try_except {A} (p : prog A) (h : exn → prog A) : prog A :=
  prog_bind (attempt p) (λ r,
    match r with
    | Ok a => Ret a
    | Err x => if exn_is_exception x then h x else Raise x
    end).

(** [try: p finally: q] *)
Definition finally {A} (p : prog A) (q : prog unit) : prog A :=
  prog_bind (attempt p) (λ r, prog_bind q (λ _, of_res r)).

(** ** Paths: what an execution may do and how it ends *)

Record step := Step { step_ty : Type; step_ev : E step_ty; step_res : res step_ty }.
Arguments Step {_} _ _.

(** [allowed e r]: the environment may answer [e] with [r]. *)
Variable allowed : ∀ X, E X → res X → Prop.
Arguments allowed {X} _ _.

Fixpoint path {A} (p : prog A) (tr : list step) (o : res A) : Prop :=
  match p, tr with
  | Ret a, [] => o = Ok a
  | Raise x, [] => o = Err x
  | Vis e k, st :: tr' => ∃ r, st = Step e r ∧ allowed e r ∧ path (k r) tr' o
  | _, _ => False
  end.

(** [partial p tr q]: an unfinished execution, with [q] left to do. *)
Fixpoint partial {A} (p : prog A) (tr : list step) (q : prog A) {struct tr} : Prop :=
  match tr, p with
  | [], _ => p = q
  | st :: tr', Vis e k => ∃ r, st = Step e r ∧ allowed e r ∧ partial (k r) tr' q
  | _ :: _, _ => False
  end.

Lemma partial_snoc {A X} (p : prog A) tr (e : E X) k r :
  partial p tr (Vis e k) → allowed e r → partial p (tr ++ [Step e r]) (k r).
Proof.
  revert p. induction tr as [|st tr IH]; intros p H Hr; cbn in *.
  - subst p. by exists r.
  - destruct p; [done..|]. destruct H as (r' & -> & Ha & H). exists r'. split_and!; [done..|].
    by apply IH.
Qed.

(** Where every event has an answer, every execution can be finished. *)
Lemma partial_extend {A} (p q : prog A) tr :
  (∀ X (e : E X), ∃ r, allowed e r) → partial p tr q → ∃ tr' o, path p (tr ++ tr') o.
Proof.
  intros Hall. assert (Hrun : ∀ q : prog A, ∃ tr' o, path q tr' o).
  { intros q'. induction q' as [a|x|X e k IH]; [by exists [], (Ok a)|by exists [], (Err x)|].
    destruct (Hall X e) as [r Hr]. destruct (IH r) as (tr' & o & H).
    exists (Step e r :: tr'), o. by exists r. }
  revert p. induction tr as [|st tr IH]; intros p H; cbn in *; [apply Hrun|].
  destruct p as [| |X e k]; [done..|]. destruct H as (r & -> & Ha & H).
  destruct (IH _ H) as (tr' & o & Hp). exists tr', o, r. done.
Qed.

(** A finished execution has been carried to its outcome. *)
Lemma path_partial {A} (p : prog A) tr o : path p tr o → partial p tr (of_res o).
Proof.
  revert tr. induction p as [a|x|X e k IH]; intros [|st tr] H; cbn in *; try done; [by subst..|].
  destruct H as (r & -> & Ha & H). exists r. split_and!; [done..|by apply IH].
Qed.

(** Trace equivalence: the same executions, with the same outcomes. *)
#[global] Instance prog_equiv {A} : Equiv (prog A) :=
  λ p q, ∀ tr o, path p tr o ↔ path q tr o.

#[global] Instance prog_equivalence {A} : Equivalence (≡@{prog A}).
Proof.
  split; [by intros p tr o | intros p q H tr o; by rewrite (H tr o) |].
  intros p q r H1 H2 tr o. by rewrite (H1 tr o), (H2 tr o).
Qed.

Lemma path_bind {A B} (p : prog A) (f : A → prog B) tr o :
  path (prog_bind p f) tr o ↔
  ∃ tr1 tr2 r, tr = tr1 ++ tr2 ∧ path p tr1 r ∧
    match r with
    | Ok a => path (f a) tr2 o
    | Err x => tr2 = [] ∧ o = Err x
    end.
Proof.
  revert tr. induction p as [a|x|X e k IH]; intros tr; simpl.
  - split.
    + intros H. by exists [], tr, (Ok a).
    + intros ([|??] & tr2 & r & -> & Hr & H); [by subst|done].
  - split.
    + intros H. destruct tr; [|done]. subst. by exists [], [], (Err x).
    + intros ([|??] & tr2 & r & -> & Hr & H); [|done]. subst. by destruct H as [-> ->].
  - split.
    + destruct tr as [|st tr]; [done|]. intros (r & -> & Ha & H).
      apply IH in H as (tr1 & tr2 & r' & -> & H1 & H2).
      exists (Step e r :: tr1), tr2, r'. split_and!; [done|by exists r|done].
    + intros (tr1 & tr2 & r & -> & H1 & H2).
      destruct tr1 as [|st tr1]; [done|]. destruct H1 as (r' & -> & Ha & H1).
      simpl. exists r'. split_and!; [done|done|]. apply IH. by exists tr1, tr2, r.
Qed.

Lemma path_attempt {A} (p : prog A) tr o :
  path (attempt p) tr o ↔ ∃ r, o = Ok r ∧ path p tr r.
Proof.
  revert tr. induction p as [a|x|X e k IH]; intros [|st tr]; cbn; [naive_solver..|].
  split.
  - intros (r & -> & Ha & (r' & -> & Hp)%IH). exists r'. split; [done|]. by exists r.
  - intros (r' & -> & r & -> & Ha & Hp). exists r. split_and!; [done..|]. apply IH. by exists r'.
Qed.

#[global] Instance prog_bind_proper {A B} :
  Proper ((≡@{prog A}) ==> pointwise_relation A (≡@{prog B}) ==> (≡)) prog_bind.
Proof.
  intros p q Hpq f g Hfg tr o. rewrite !path_bind.
  split; intros (tr1 & tr2 & r & -> & H1 & H2); exists tr1, tr2, r;
    (split_and!; [done | by apply Hpq | ]); destruct r as [a|]; try done; by apply (Hfg a).
Qed.

Lemma prog_bind_assoc {A B C} (p : prog A) (f : A → prog B) (g : B → prog C) :
  prog_bind (prog_bind p f) g ≡ prog_bind p (λ a, prog_bind (f a) g).
Proof.
  induction p as [a|x|X e k IH]; [done|done|].
  intros [|st tr] o; [done|]. simpl.
  split; intros (r & -> & Ha & H); exists r; (split_and!; [done|done|]); by apply IH.
Qed.

Lemma prog_bind_ret_r {A} (p : prog A) : prog_bind p Ret ≡ p.
Proof.
  induction p as [a|x|X e k IH]; [done|done|].
  intros [|st tr] o; [done|]. simpl.
  split; intros (r & -> & Ha & H); exists r; (split_and!; [done|done|]); by apply IH.
Qed.

(** ** A Hoare logic over trees

    [δ] folds the events of the execution into a ghost state; [wp] says that
    every execution ends in a ghost state and an outcome that satisfy [Q]. *)
Context {M : Type} (δ : M → step → M).

Fixpoint wp {A} (m : M) (p : prog A) (Q : M → res A → Prop) : Prop :=
  match p with
  | Ret a => Q m (Ok a)
  | Raise x => Q m (Err x)
  | Vis e k => ∀ r, allowed e r → wp (δ m (Step e r)) (k r) Q
  end.

Lemma wp_mono {A} (p : prog A) m (Q Q' : M → res A → Prop) :
  (∀ m' r, Q m' r → Q' m' r) → wp m p Q → wp m p Q'.
Proof.
  intros HQ. revert m. induction p as [a|x|X e k IH]; simpl; intros m; [auto..|].
  intros H r Hr. by apply IH, H.
Qed.

Lemma wp_bind {A B} (p : prog A) (f : A → prog B) m (Q : M → res B → Prop) :
  wp m (prog_bind p f) Q ↔
  wp m p (λ m' r, match r with Ok a => wp m' (f a) Q | Err x => Q m' (Err x) end).
Proof.
  revert m. induction p as [a|x|X e k IH]; simpl; intros m; [done..|].
  split; intros H r Hr; by apply IH, H.
Qed.

Lemma wp_attempt {A} (p : prog A) m (Q : M → res (res A) → Prop) :
  wp m (attempt p) Q ↔ wp m p (λ m' r, Q m' (Ok r)).
Proof.
  revert m. induction p as [a|x|X e k IH]; simpl; intros m; [done..|].
  split; intros H r Hr; by apply IH, H.
Qed.

Lemma wp_of_res {A} (r : res A) m Q : wp m (of_res r) Q ↔ Q m r.
Proof. by destruct r. Qed.

Lemma wp_trigger {X} (e : E X) m (Q : M → res X → Prop) :
  wp m (trigger e) Q ↔ ∀ r, allowed e r → Q (δ m (Step e r)) r.
Proof. simpl. by setoid_rewrite wp_of_res. Qed.

Lemma wp_try_except {A} (p : prog A) (h : exn → prog A) m Q :
  wp m (try_except p h) Q ↔
  wp m p (λ m' r,
    match r with
    | Ok a => Q m' (Ok a)
    | Err x => if exn_is_exception x then wp m' (h x) Q else Q m' (Err x)
    end).
Proof.
  unfold try_except. rewrite wp_bind, wp_attempt.
  split; apply wp_mono; intros m' [a|x]; simpl; auto; destruct exn_is_exception; auto.
Qed.

Lemma wp_finally {A} (p : prog A) (q : prog unit) m Q :
  wp m (finally p q) Q ↔
  wp m p (λ m' r, wp m' q (λ m'' r',
    match r' with Ok _ => Q m'' r | Err x => Q m'' (Err x) end)).
Proof.
  unfold finally. rewrite wp_bind, wp_attempt.
  split; apply wp_mono; intros m' r; rewrite wp_bind; apply wp_mono;
    intros m'' [[]|x]; rewrite ?wp_of_res; auto.
Qed.

(** The logic is exact: it speaks of all paths and of nothing else. *)
Theorem wp_paths {A} (p : prog A) m (Q : M → res A → Prop) :
  wp m p Q ↔ ∀ tr o, path p tr o → Q (foldl δ m tr) o.
Proof.
  revert m. induction p as [a|x|X e k IH]; simpl; intros m.
  - split; [|by intros H; apply (H [] (Ok a))]. intros H [|??] o; [by intros ->|done].
  - split; [|by intros H; apply (H [] (Err x))]. intros H [|??] o; [by intros ->|done].
  - split.
    + intros H [|st tr] o; [done|]. intros (r & -> & Ha & Hp). simpl.
      by apply (proj1 (IH r _) (H r Ha)).
    + intros H r Ha. apply IH. intros tr o Hp.
      apply (H (Step e r :: tr) o). by exists r.
Qed.

End Prog.

Arguments prog : clear implicits.
Arguments Ret {E A} _.
Arguments Raise {E A} _.
Arguments Vis {E A X} _ _.
Arguments step : clear implicits.
Arguments Step {E _} _ _.

#[export] Instance prog_mret {E} : MRet (prog E) := λ A, Ret.
#[export] Instance prog_mbind {E} : MBind (prog E) := λ A B f p, prog_bind p f.

(** ** Running a tree against a world *)
Section Run.
Context {E : Type → Type} {W : Type} (h : ∀ X, E X → action W X).

Fixpoint run {A} (p : prog E A) : action W A := λ w,
  match p with
  | Ret a => (w, Ok a)
  | Raise x => (w, Err x)
  | Vis e k => let '(w', r) := h _ e w in run (k r) w'
  end.

(** The events of the run, with the answers the world gave. *)
Fixpoint run_trace {A} (p : prog E A) (w : W) : list (step E) :=
  match p with
  | Ret _ | Raise _ => []
  | Vis e k => let '(w', r) := h _ e w in Step e r :: run_trace (k r) w'
  end.

Lemma run_bind {A B} (p : prog E A) (f : A → prog E B) w :
  run (prog_bind p f) w =
  match run p w with
  | (w', Ok a) => run (f a) w'
  | (w', Err x) => (w', Err x)
  end.
Proof.
  revert w. induction p as [a|x|X e k IH]; simpl; intros w; [done..|].
  destruct (h X e w) as [w' r]. apply IH.
Qed.

Lemma run_attempt {A} (p : prog E A) w :
  run (attempt p) w = let '(w', r) := run p w in (w', Ok r).
Proof.
  revert w. induction p as [a|x|X e k IH]; simpl; intros w; [done..|].
  destruct (h X e w) as [w' r]. apply IH.
Qed.

Lemma run_of_res {A} (r : res A) w : run (of_res r) w = (w, r).
Proof. by destruct r. Qed.

Lemma run_trigger {X} (e : E X) w : run (trigger e) w = h X e w.
Proof. simpl. destruct (h X e w) as [w' r]. apply run_of_res. Qed.

Lemma run_try_except {A} (p : prog E A) (hd : exn → prog E A) w :
  run (try_except p hd) w =
  match run p w with
  | (w', Ok a) => (w', Ok a)
  | (w', Err x) => if exn_is_exception x then run (hd x) w' else (w', Err x)
  end.
Proof.
  unfold try_except. rewrite run_bind, run_attempt.
  destruct (run p w) as [w' [a|x]]; simpl; [done|]. by destruct exn_is_exception.
Qed.

Lemma run_finally {A} (p : prog E A) (q : prog E unit) w :
  run (finally p q) w =
  let '(w', r) := run p w in
  match run q w' with
  | (w'', Ok _) => (w'', r)
  | (w'', Err x) => (w'', Err x)
  end.
Proof.
  unfold finally. rewrite run_bind, run_attempt.
  destruct (run p w) as [w' r]. rewrite run_bind.
  destruct (run q w') as [w'' [[]|x]]; [apply run_of_res|done].
Qed.

(** Every run is a path: theorems about paths hold of all runs. *)
Lemma run_path (allowed : ∀ X, E X → res X → Prop) {A} (p : prog E A) w :
  (∀ X (e : E X) w', allowed X e (snd (h X e w'))) →
  path allowed p (run_trace p w) (snd (run p w)).
Proof.
  intros Hal. revert w. induction p as [a|x|X e k IH]; simpl; intros w; [done..|].
  specialize (Hal X e w). destruct (h X e w) as [w' r]. by exists r.
Qed.

(** The world after the first [n] events of the tree: where an execution that is cut off leaves it. *)
Fixpoint run_prefix (n : nat) {A} (p : prog E A) (w : W) : W :=
  match n, p with
  | S n', Vis e k => let '(w', r) := h _ e w in run_prefix n' (k r) w'
  | _, _ => w
  end.

(** [I] holds of the world before the first event of the run and after each. *)
Fixpoint always (I : W → Prop) {A} (p : prog E A) (w : W) : Prop :=
  I w ∧
  match p with
  | Ret _ | Raise _ => True
  | Vis e k => let '(w', r) := h _ e w in always I (k r) w'
  end.

Lemma always_prefix I {A} (p : prog E A) n : ∀ w, always I p w → I (run_prefix n p w).
Proof.
  revert n. induction p as [a|x|X e k IH]; intros [|n] w; cbn; try by intros [? _].
  intros [_ Hk]. destruct (h X e w) as [w' r]. by apply IH.
Qed.

Lemma always_bind I {A B} (p : prog E A) (f : A → prog E B) w :
  always I p w → (∀ w' a, run p w = (w', Ok a) → always I (f a) w') → always I (prog_bind p f) w.
Proof.
  revert w. induction p as [a|x|X e k IH]; cbn; intros w; [by auto|done|].
  intros [Hw Hk] Hf. split; [done|]. destruct (h X e w) as [w' r]. by apply IH.
Qed.

Lemma always_attempt I {A} (p : prog E A) w : always I p w → always I (attempt p) w.
Proof.
  revert w. induction p as [a|x|X e k IH]; cbn; intros w; [done..|].
  intros [Hw Hk]. split; [done|]. destruct (h X e w) as [w' r]. by apply IH.
Qed.

Lemma always_mono (I J : W → Prop) {A} (p : prog E A) w :
  (∀ w', I w' → J w') → always I p w → always J p w.
Proof.
  intros HIJ. revert w. induction p as [a|x|X e k IH]; cbn; intros w [Hw Hk]; (split; [by apply HIJ|]); [done..|].
  destruct (h X e w) as [w' r]. by apply IH.
Qed.

(** An invariant of the calls holds throughout. *)
Lemma always_invariant (I : W → Prop) {A} (p : prog E A) :
  (∀ X (e : E X) w, I w → I (h X e w).1) → ∀ w, I w → always I p w.
Proof.
  intros Hh. induction p as [a|x|X e k IH]; cbn; intros w Hw; [done..|]. split; [done|].
  specialize (Hh X e w Hw). destruct (h X e w) as [w' r]. by apply IH.
Qed.

End Run.

(** ** Trees whose calls all satisfy a predicate *)
Section Events.
Context {E : Type → Type} (Q : ∀ X, E X → Prop).

Fixpoint all_events {A} (p : prog E A) : Prop :=
  match p with
  | Ret _ | Raise _ => True
  | Vis e k => Q _ e ∧ ∀ r, all_events (k r)
  end.

Lemma all_events_bind {A B} (p : prog E A) (f : A → prog E B) :
  all_events p → (∀ a, all_events (f a)) → all_events (prog_bind p f).
Proof.
  intros Hp Hf. induction p as [a|x|X e k IH]; cbn in *; [apply Hf|done|].
  destruct Hp as [He Hk]. split; [done|]. intros r. by apply IH.
Qed.

Lemma all_events_attempt {A} (p : prog E A) : all_events p → all_events (attempt p).
Proof.
  induction p as [a|x|X e k IH]; cbn; [done..|]. intros [He Hk]. split; [done|]. intros r. by apply IH.
Qed.

Lemma all_events_of_res {A} (r : res A) : all_events (of_res r).
Proof. by destruct r. Qed.

Lemma all_events_trigger {X} (e : E X) : Q X e → all_events (trigger e).
Proof. intros He. split; [done|apply all_events_of_res]. Qed.

Lemma all_events_finally {A} (p : prog E A) (q : prog E unit) :
  all_events p → all_events q → all_events (finally p q).
Proof.
  intros Hp Hq. apply all_events_bind; [by apply all_events_attempt|]. intros r.
  apply all_events_bind; [done|]. intros _. apply all_events_of_res.
Qed.

Lemma all_events_try_except {A} (p : prog E A) (h : exn → prog E A) :
  all_events p → (∀ x, all_events (h x)) → all_events (try_except p h).
Proof.
  intros Hp Hh. apply all_events_bind; [by apply all_events_attempt|]. intros [a|x]; [done|].
  destruct (exn_is_exception x); [apply Hh|done].
Qed.

(** Handlers that agree on these calls run the tree alike. *)
Lemma run_agree {W} (h1 h2 : ∀ X, E X → action W X) {A} (p : prog E A) w :
  (∀ X (e : E X) w, Q X e → h1 X e w = h2 X e w) → all_events p → run h1 p w = run h2 p w.
Proof.
  intros Hh. revert w. induction p as [a|x|X e k IH]; cbn; intros w; [done..|]. intros [He Hk].
  rewrite (Hh X e w He). destruct (h2 X e w) as [w' r]. by apply IH.
Qed.

End Events.

Create HintDb events discriminated.
#[export] Hint Resolve all_events_bind all_events_attempt all_events_of_res all_events_trigger
  all_events_finally all_events_try_except : events.

Create Rewrite HintDb wp.
Create Rewrite HintDb run.
#[export] Hint Rewrite @wp_bind @wp_attempt @wp_try_except @wp_finally @wp_trigger @wp_of_res : wp.
#[export] Hint Rewrite @run_bind @run_attempt @run_try_except @run_finally @run_trigger @run_of_res : run.
