(* ===== verification/CrashLogic.v ===== *)
(** * A Hoare logic for executions that may be cut off

    [cwp I p w Q]: a run of the tree [p] from the world [w] satisfies the crash
    condition [I] before its first call and after each, so wherever it is cut
    off, and ends in a world and an outcome that satisfy [Q]; as long as every
    call is made in a world that can serve it ([ok]). *)

From S2P Require Import Prelude Prog.

Section CrashLogic.
Context {E : Type → Type} {W : Type} (h : ∀ X, E X → action W X) (ok : ∀ X, E X → W → Prop).
Context (I : W → Prop).

Fixpoint cwp {A} (p : prog E A) (w : W) (Q : W → res A → Prop) : Prop :=
  I w ∧
  match p with
  | Ret a => Q w (Ok a)
  | Raise x => Q w (Err x)
  | Vis e k => ok _ e w → let '(w', r) := h _ e w in cwp (k r) w' Q
  end.

(** The first [n] calls are made in worlds that can serve them. *)
Fixpoint served (n : nat) {A} (p : prog E A) (w : W) : Prop :=
  match n, p with
  | S n', Vis e k => ok _ e w ∧ let '(w', r) := h _ e w in served n' (k r) w'
  | _, _ => True
  end.

(** To serve all the calls of a run is to serve as many as it makes. *)
Lemma served_whole {A} (p : prog E A) : ∀ w n,
  served (length (run_trace h p w)) p w → served n p w.
Proof.
  induction p as [a|x|X e k IH]; intros w [|n]; cbn; try done.
  destruct (h X e w) as [w' r] eqn:Eh. cbn. rewrite Eh. intros [Hok Hs]. split; [done|]. by apply IH.
Qed.

Lemma cwp_crash {A} (p : prog E A) w Q : cwp p w Q → I w.
Proof. destruct p; by intros [? _]. Qed.

(** Wherever the run is cut off, [I] holds. *)
Lemma cwp_prefix {A} (p : prog E A) n : ∀ w Q, cwp p w Q → served n p w → I (run_prefix h n p w).
Proof.
  revert n. induction p as [a|x|X e k IH]; intros [|n] w Q; cbn; try by intros [? _].
  intros [_ Hk] [Hok Hs]. specialize (Hk Hok). destruct (h X e w) as [w' r]. by eapply IH.
Qed.

(** If it is not, [Q] holds of its end. *)
Lemma cwp_run {A} (p : prog E A) : ∀ w Q,
  cwp p w Q → (∀ n, served n p w) → Q (run h p w).1 (run h p w).2.
Proof.
  induction p as [a|x|X e k IH]; intros w Q; cbn; [by intros [_ ?]..|]. intros [_ Hk] Hs.
  destruct (Hs 1) as [Hok _]. specialize (Hk Hok).
  destruct (h X e w) as [w' r] eqn:Eh. apply IH; [done|]. intros n.
  destruct (Hs (S n)) as [_ Hn]. by rewrite Eh in Hn.
Qed.

Lemma cwp_mono {A} (p : prog E A) (Q Q' : W → res A → Prop) : ∀ w,
  (∀ w' r, Q w' r → Q' w' r) → cwp p w Q → cwp p w Q'.
Proof.
  induction p as [a|x|X e k IH]; cbn; intros w HQ [Hi Hk]; (split; [done|]); [by apply HQ..|].
  intros Hok. specialize (Hk Hok). destruct (h X e w) as [w' r]. by apply IH.
Qed.

Lemma cwp_bind {A B} (p : prog E A) (f : A → prog E B) : ∀ w Q,
  cwp p w (λ w' r, match r with Ok a => cwp (f a) w' Q | Err x => Q w' (Err x) end) →
  cwp (prog_bind p f) w Q.
Proof.
  induction p as [a|x|X e k IH]; cbn; intros w Q [Hi Hk]; [done|done|]. split; [done|].
  intros Hok. specialize (Hk Hok). destruct (h X e w) as [w' r]. by apply IH.
Qed.

Lemma cwp_attempt {A} (p : prog E A) : ∀ w (Q : W → res (res A) → Prop),
  cwp p w (λ w' r, Q w' (Ok r)) → cwp (attempt p) w Q.
Proof.
  induction p as [a|x|X e k IH]; cbn; intros w Q [Hi Hk]; [done|done|]. split; [done|].
  intros Hok. specialize (Hk Hok). destruct (h X e w) as [w' r]. by apply IH.
Qed.

Lemma cwp_of_res {A} (r : res A) w (Q : W → res A → Prop) : I w → Q w r → cwp (of_res r) w Q.
Proof. by destruct r; split. Qed.

Lemma cwp_trigger {X} (e : E X) w (Q : W → res X → Prop) :
  I w → (ok _ e w → I (h _ e w).1 ∧ Q (h _ e w).1 (h _ e w).2) → cwp (trigger e) w Q.
Proof.
  intros Hi He. split; [done|]. intros Hok. specialize (He Hok). destruct (h X e w) as [w' r].
  destruct He. by apply cwp_of_res.
Qed.

(** What all calls of the tree keep, from a world where it implies the crash condition. *)
Lemma cwp_invariant (J : W → Prop) (P : ∀ X, E X → Prop) {A} (p : prog E A) :
  (∀ w, J w → I w) → (∀ X (e : E X) w, P X e → ok _ e w → J w → J (h _ e w).1) →
  all_events P p → ∀ w, J w → cwp p w (λ w' _, J w').
Proof.
  intros HJ Hh. induction p as [a|x|X e k IH]; cbn; intros Hp w Hw; (split; [by apply HJ|]); [done..|].
  intros Hok. destruct Hp as [He Hk]. specialize (Hh X e w He Hok Hw).
  destruct (h X e w) as [w' r]. by apply IH.
Qed.

(** The post-condition may speak of the run. *)
Lemma cwp_runs {A} (p : prog E A) : ∀ w Q,
  cwp p w Q → cwp p w (λ w' r, Q w' r ∧ run h p w = (w', r)).
Proof.
  induction p as [a|x|X e k IH]; cbn; intros w Q [Hi Hk]; (split; [done|]); [done..|].
  intros Hok. specialize (Hk Hok). destruct (h X e w) as [w' r]. by apply IH.
Qed.

End CrashLogic.
