(* ===== verification/Loops.v ===== *)
(** * Python's while loops

    [while_path] is the execution of [while cond: body] by the rules of the
    language, with no bound; [loop] is its translation to a tree with a number of
    rounds.  They agree where a measure bounds the rounds, and in the limit. *)

From S2P Require Import Prelude Prog.

Section Loops.
Context {E : Type → Type} (allowed : ∀ X, E X → res X → Prop).
Context {St R : Type} (cond : St → bool) (body : St → prog E (St + R)).

(** The body goes on with [inl] of the next state, or leaves the loop ([break], [return]) with
    [inr]; an exception leaves it as well. *)
Inductive while_path : St → list (step E) → res (St + R) → Prop :=
| while_done s : cond s = false → while_path s [] (Ok (inl s))
| while_next s tr1 s' tr2 o :
    cond s = true → path allowed (body s) tr1 (Ok (inl s')) → while_path s' tr2 o →
    while_path s (tr1 ++ tr2) o
| while_leave s tr r :
    cond s = true → path allowed (body s) tr (Ok (inr r)) → while_path s tr (Ok (inr r))
| while_raise s tr x :
    cond s = true → path allowed (body s) tr (Err x) → while_path s tr (Err x).

(** At most [n] rounds: [None] when they are used up and the condition still holds. *)
Fixpoint loop (n : nat) (s : St) : prog E (option (St + R)) :=
  if cond s then
    match n with
    | O => Ret None
    | S n' =>
        x ← body s;
        match x with inl s' => loop n' s' | inr r => Ret (Some (inr r)) end
    end
  else Ret (Some (inl s)).

(** The outcomes of [loop] that are outcomes of the while loop. *)
Definition finished (o : res (St + R)) : res (option (St + R)) := Some <$> o.

Lemma loop_while n : ∀ s tr o, path allowed (loop n s) tr (finished o) → while_path s tr o.
Proof.
  induction n as [|n IH]; intros s tr o; cbn; destruct (cond s) eqn:Hc.
  - destruct tr; [|done]. by destruct o.
  - destruct tr; [|done]. destruct o as [a|]; [|done]. intros [= ->]. by constructor.
  - unfold mbind, prog_mbind. rewrite path_bind. intros (tr1 & tr2 & [[s'|r]|x] & -> & Hb & Hr).
    + eapply while_next; [done..|]. by apply IH.
    + cbn in Hr. destruct tr2; [|done]. rewrite app_nil_r. destruct o as [a|]; [|done].
      injection Hr as ->. by apply while_leave.
    + destruct Hr as [-> Ho]. rewrite app_nil_r. destruct o as [a|y]; [done|]. injection Ho as ->.
      by apply while_raise.
  - destruct tr; [|done]. destruct o as [a|]; [|done]. intros [= ->]. by constructor.
Qed.

(** A measure of the rounds that are left. *)
Section Measure.
Context (measure : St → nat).
Context (measure_pos : ∀ s, cond s = true → 0 < measure s).
Context (measure_dec : ∀ s tr s', cond s = true → path allowed (body s) tr (Ok (inl s')) →
  measure s' < measure s).

Lemma while_loop s tr o :
  while_path s tr o → ∀ n, measure s ≤ n → path allowed (loop n s) tr (finished o).
Proof.
  induction 1 as [s Hc|s tr1 s' tr2 o Hc Hb Hw IH|s tr r Hc Hb|s tr x Hc Hb]; intros n Hn.
  - by destruct n; cbn; rewrite Hc.
  - pose proof (measure_dec _ _ _ Hc Hb). destruct n as [|n]; [lia|]. cbn. rewrite Hc.
    unfold mbind, prog_mbind. rewrite path_bind. eexists tr1, tr2, _. split_and!; [done..|].
    apply IH. lia.
  - pose proof (measure_pos _ Hc). destruct n as [|n]; [lia|]. cbn. rewrite Hc.
    unfold mbind, prog_mbind. rewrite path_bind. eexists tr, [], _. by rewrite app_nil_r.
  - pose proof (measure_pos _ Hc). destruct n as [|n]; [lia|]. cbn. rewrite Hc.
    unfold mbind, prog_mbind. rewrite path_bind. eexists tr, [], _. by rewrite app_nil_r.
Qed.

(** Enough rounds: the executions are the same, and the rounds are never used up. *)
Lemma loop_is_while n s tr o :
  measure s ≤ n → path allowed (loop n s) tr (finished o) ↔ while_path s tr o.
Proof. intros Hn. split; [apply loop_while|]. intros H. by apply while_loop. Qed.

Lemma loop_finishes n s tr : measure s ≤ n → ¬ path allowed (loop n s) tr (Ok None).
Proof.
  revert s tr. induction n as [|n IH]; intros s tr Hn; cbn; destruct (cond s) eqn:Hc;
    try (by intros Ht; destruct tr; cbn in Ht).
  - pose proof (measure_pos _ Hc). lia.
  - unfold mbind, prog_mbind. rewrite path_bind. intros (tr1 & tr2 & [[s'|r]|x] & -> & Hb & Hr).
    + pose proof (measure_dec _ _ _ Hc Hb). eapply IH; [|done]. lia.
    + by destruct tr2.
    + by destruct Hr.
Qed.

End Measure.

(** In the limit: a finished execution of the while loop takes some number of rounds. *)
Lemma loop_mono n m s tr o : path allowed (loop n s) tr (finished o) → n ≤ m →
  path allowed (loop m s) tr (finished o).
Proof.
  revert m s tr. induction n as [|n IH]; intros m s tr H Hm.
  - cbn in H. destruct (cond s) eqn:Hc; [destruct tr; [by destruct o|done]|].
    by destruct m; cbn; rewrite Hc.
  - destruct m as [|m]; [lia|]. cbn in *. destruct (cond s); [|done]. revert H.
    unfold mbind, prog_mbind. rewrite !path_bind. intros (tr1 & tr2 & r & -> & Hb & Hr).
    exists tr1, tr2, r. split_and!; [done..|]. destruct r as [[s'|r]|x]; [|done..].
    apply IH; [done|lia].
Qed.

Lemma while_rounds s tr o : while_path s tr o ↔ ∃ n, path allowed (loop n s) tr (finished o).
Proof.
  split; [|intros [n H]; by eapply loop_while].
  induction 1 as [s Hc|s tr1 s' tr2 o Hc Hb Hw [n IH]|s tr r Hc Hb|s tr x Hc Hb].
  - exists 0. cbn. by rewrite Hc.
  - exists (S n). cbn. rewrite Hc. unfold mbind, prog_mbind. rewrite path_bind.
    by eexists tr1, tr2, _.
  - exists 1. cbn. rewrite Hc. unfold mbind, prog_mbind. rewrite path_bind.
    eexists tr, [], _. by rewrite app_nil_r.
  - exists 1. cbn. rewrite Hc. unfold mbind, prog_mbind. rewrite path_bind.
    eexists tr, [], _. by rewrite app_nil_r.
Qed.

(** A loop [while True] is left from its body only. *)
Lemma while_true_exit s tr s' :
  (∀ s, cond s = true) → ¬ while_path s tr (Ok (inl s')).
Proof. intros Hc H. remember (Ok (inl s')) as o. induction H; congruence || eauto. Qed.

End Loops.

(** ** The length of executions *)
Section Within.
Context {E : Type → Type}.

(** [within n p]: no execution of [p] makes more than [n] calls, whatever they answer. *)
Fixpoint within {A} (n : nat) (p : prog E A) {struct p} : Prop :=
  match p with
  | Ret _ | Raise _ => True
  | Vis e k => match n with O => False | S n' => ∀ r, within n' (k r) end
  end.

Lemma within_mono {A} (p : prog E A) n m : within n p → n ≤ m → within m p.
Proof.
  revert n m. induction p as [a|x|X e k IH]; intros [|n] [|m] H Hm; cbn in *; try done; [lia|].
  intros r. eapply IH; [apply H|lia].
Qed.

Lemma within_bind {A B} (p : prog E A) (f : A → prog E B) n m :
  within n p → (∀ a, within m (f a)) → within (n + m) (prog_bind p f).
Proof.
  intros Hp Hf. revert n Hp. induction p as [a|x|X e k IH]; intros n Hp; cbn in *.
  - eapply within_mono; [apply Hf|lia].
  - done.
  - destruct n as [|n]; [done|]. intros r. apply IH, Hp.
Qed.

Lemma within_attempt {A} (p : prog E A) n : within n p → within n (attempt p).
Proof.
  revert n. induction p as [a|x|X e k IH]; intros n Hp; cbn in *; [done..|].
  destruct n as [|n]; [done|]. intros r. apply IH, Hp.
Qed.

Lemma within_of_res {A} (r : res A) n : within n (of_res (E := E) r).
Proof. by destruct r. Qed.

Lemma within_trigger {X} (e : E X) : within 1 (trigger e).
Proof. intros r. apply within_of_res. Qed.

Lemma within_finally {A} (p : prog E A) (q : prog E unit) n m :
  within n p → within m q → within (n + m) (finally p q).
Proof.
  intros Hp Hq. apply within_bind; [by apply within_attempt|]. intros r.
  replace m with (m + 0) by lia. apply within_bind; [done|]. intros _. apply within_of_res.
Qed.

Lemma within_try_except {A} (p : prog E A) (h : exn → prog E A) n m :
  within n p → (∀ x, within m (h x)) → within (n + m) (try_except p h).
Proof.
  intros Hp Hh. apply within_bind; [by apply within_attempt|]. intros [a|x]; [done|].
  destruct (exn_is_exception x); [apply Hh|done].
Qed.

(** Every execution, also an unfinished one, is that short. *)
Lemma within_partial allowed {A} (p q : prog E A) tr n :
  within n p → partial allowed p tr q → length tr ≤ n.
Proof.
  revert p n. induction tr as [|st tr IH]; intros p n Hn Hp; cbn; [lia|].
  destruct p as [a|x|X e k]; [done..|]. destruct Hp as (r & -> & _ & Hp).
  destruct n as [|n]; [done|]. specialize (IH _ n (Hn r) Hp). lia.
Qed.

End Within.
