(* ===== verification/Utf8.v ===== *)
(** * Bytes and text

    A Python [bytes] value is a [string] of 8-bit characters; a Python [str] is
    the [string] of its UTF-8 encoding.  This file models [bytes.decode()] in
    its two uses in the program: strict (the message id header) and with
    [errors="replace"] (the dead-letter payload). *)

From S2P Require Import Prelude.

Definition byte_in (lo hi : N) (a : ascii) : bool :=
  (N.leb lo (N_of_ascii a) && N.leb (N_of_ascii a) hi)%bool.

Definition is_cont : ascii → bool := byte_in 0x80 0xBF.

(** What the first byte of a sequence announces: the length, and for three and
    four bytes the range of the second byte. *)
Inductive lead := Lead1 | Lead2 | Lead3 (lo hi : N) | Lead4 (lo hi : N) | LeadBad.

Definition utf8_lead (a : ascii) : lead :=
  let n := N_of_ascii a in
  if N.leb n 0x7F then Lead1
  else if N.ltb n 0xC2 then LeadBad
  else if N.leb n 0xDF then Lead2
  else if N.eqb n 0xE0 then Lead3 0xA0 0xBF
  else if N.eqb n 0xED then Lead3 0x80 0x9F
  else if N.leb n 0xEF then Lead3 0x80 0xBF
  else if N.eqb n 0xF0 then Lead4 0x90 0xBF
  else if N.leb n 0xF3 then Lead4 0x80 0xBF
  else if N.eqb n 0xF4 then Lead4 0x80 0x8F
  else LeadBad.

Fixpoint utf8_valid (s : string) : bool :=
  match s with
  | EmptyString => true
  | String a s1 =>
      match utf8_lead a, s1 with
      | Lead1, _ => utf8_valid s1
      | Lead2, String b s2 => (is_cont b && utf8_valid s2)%bool
      | Lead3 lo hi, String b (String c s3) =>
          (byte_in lo hi b && is_cont c && utf8_valid s3)%bool
      | Lead4 lo hi, String b (String c (String d s4)) =>
          (byte_in lo hi b && is_cont c && is_cont d && utf8_valid s4)%bool
      | _, _ => false
      end
  end.

Definition UnicodeDecodeError : exn :=
  Exn "UnicodeDecodeError" "'utf-8' codec can't decode bytes" true.

(** [value.decode()] *)
Definition bytes_decode (b : string) : res string :=
  if utf8_valid b then Ok b else Err UnicodeDecodeError.

(** U+FFFD, the replacement character. *)
Definition fffd (s : string) : string :=
  String (ascii_of_N 0xEF) (String (ascii_of_N 0xBF) (String (ascii_of_N 0xBD) s)).

(** [value.decode(errors="replace")]: every maximal ill-formed prefix of a
    sequence becomes one U+FFFD. *)
Fixpoint utf8_replace (s : string) : string :=
  match s with
  | EmptyString => EmptyString
  | String a s1 =>
      match utf8_lead a with
      | LeadBad => fffd (utf8_replace s1)
      | Lead1 => String a (utf8_replace s1)
      | Lead2 =>
          match s1 with
          | String b s2 =>
              if is_cont b then String a (String b (utf8_replace s2))
              else fffd (utf8_replace s1)
          | EmptyString => fffd EmptyString
          end
      | Lead3 lo hi =>
          match s1 with
          | String b s2 =>
              if byte_in lo hi b then
                match s2 with
                | String c s3 =>
                    if is_cont c then String a (String b (String c (utf8_replace s3)))
                    else fffd (utf8_replace s2)
                | EmptyString => fffd EmptyString
                end
              else fffd (utf8_replace s1)
          | EmptyString => fffd EmptyString
          end
      | Lead4 lo hi =>
          match s1 with
          | String b s2 =>
              if byte_in lo hi b then
                match s2 with
                | String c s3 =>
                    if is_cont c then
                      match s3 with
                      | String d s4 =>
                          if is_cont d
                          then String a (String b (String c (String d (utf8_replace s4))))
                          else fffd (utf8_replace s3)
                      | EmptyString => fffd EmptyString
                      end
                    else fffd (utf8_replace s2)
                | EmptyString => fffd EmptyString
                end
              else fffd (utf8_replace s1)
          | EmptyString => fffd EmptyString
          end
      end
  end.

(** Strong induction on the length of a string. *)
Lemma string_len_ind (P : string → Prop) :
  (∀ s, (∀ s', String.length s' < String.length s → P s') → P s) → ∀ s, P s.
Proof.
  intros H s. remember (String.length s) as n eqn:Hn. revert s Hn.
  induction (lt_wf n) as [n _ IH]. intros s ->. apply H. intros s' Hs.
  by apply (IH _ Hs).
Qed.

Lemma utf8_valid_fffd s : utf8_valid (fffd s) = utf8_valid s.
Proof. done. Qed.

(** Case analysis along [utf8_replace], keeping the tests. *)
Ltac utf8_cases :=
  repeat (match goal with
  | |- context [ utf8_lead ?a ] => destruct (utf8_lead a) eqn:?
  | |- context [ match ?s with EmptyString => _ | String _ _ => _ end ] => is_var s; destruct s
  | |- context [ if ?b then _ else _ ] => destruct b eqn:?
  end; cbv match in *);
  rewrite ?utf8_valid_fffd.

Lemma utf8_replace_valid s : utf8_valid (utf8_replace s) = true.
Proof.
  induction s as [[|a s] IH] using string_len_ind; [done|].
  cbn [utf8_replace]. utf8_cases; try (apply IH; cbn; lia); try done;
    cbn [utf8_valid];
    repeat match goal with H : ?t = _ |- context [ ?t ] => rewrite H end; cbn [andb];
    apply IH; cbn; lia.
Qed.

Lemma utf8_replace_id s : utf8_valid s = true → utf8_replace s = s.
Proof.
  induction s as [[|a s] IH] using string_len_ind; [done|].
  cbn [utf8_replace utf8_valid]. utf8_cases; intros H; try done;
    rewrite ?andb_true_iff in H; destruct_and?; try congruence;
    repeat f_equal; apply IH; (cbn; lia) || done.
Qed.

Lemma bytes_decode_ok b s : bytes_decode b = Ok s ↔ s = b ∧ utf8_valid b = true.
Proof. unfold bytes_decode. destruct (utf8_valid b); naive_solver. Qed.
