(* ===== verification/PyJson.v ===== *)
(** * Python values that travel as JSON

    [json] is the Python object tree that [json.loads] builds: a dict keeps its
    insertion order.  [jtree] forgets that order (Python's [==] on dicts does,
    and so do Lua's tables); two values with the same [json_canon] are equal to
    Python.  [JsonCodec] is the interface of the module [json] to the rest of
    the program; JsonText.v implements it. *)

From S2P Require Import Prelude Utf8.
From Stdlib Require Import DecimalString DecimalPos DecimalZ.

(** A float is kept as the text of its literal. *)
Inductive json : Type :=
| JNull
| JBool (b : bool)
| JInt (z : Z)
| JFloat (lit : string)
| JStr (s : string)
| JArr (l : list json)
| JObj (kvs : list (string * json)).

(** Python values a handler may return: JSON-like ones, and objects that
    [json.dumps] refuses, known by the name of their class. *)
Inductive pyval : Type :=
| PyJson (j : json)
| PyOpaque (cls : string).

Definition PyNone : pyval := PyJson JNull.

Definition is_none (v : pyval) : bool :=
  match v with PyJson JNull => true | _ => false end.

Section json_ind'.
Variable P : json → Prop.
Hypotheses (Hnull : P JNull) (Hbool : ∀ b, P (JBool b)) (Hint : ∀ z, P (JInt z))
  (Hfloat : ∀ l, P (JFloat l)) (Hstr : ∀ s, P (JStr s))
  (Harr : ∀ l, Forall P l → P (JArr l))
  (Hobj : ∀ kvs, Forall (λ kv, P kv.2) kvs → P (JObj kvs)).

Fixpoint json_ind' (j : json) : P j :=
  match j with
  | JNull => Hnull
  | JBool b => Hbool b
  | JInt z => Hint z
  | JFloat l => Hfloat l
  | JStr s => Hstr s
  | JArr l => Harr l ((fix go l : Forall P l :=
      match l with
      | [] => Forall_nil_2 _
      | x :: l' => Forall_cons_2 _ _ _ (json_ind' x) (go l')
      end) l)
  | JObj kvs => Hobj kvs ((fix go kvs : Forall (λ kv, P kv.2) kvs :=
      match kvs with
      | [] => Forall_nil_2 _
      | kv :: kvs' => Forall_cons_2 (λ kv, P kv.2) _ _ (json_ind' kv.2) (go kvs')
      end) kvs)
  end.
End json_ind'.

(** ** Dicts *)

(** [d.get(k)]; a missing key reads as [None]. *)
Fixpoint dict_lookup (k : string) (kvs : list (string * json)) : option json :=
  match kvs with
  | [] => None
  | (k', v) :: kvs' => if decide (k' = k) then Some v else dict_lookup k kvs'
  end.

Definition dict_get (k : string) (kvs : list (string * json)) : json :=
  default JNull (dict_lookup k kvs).

(** [d[k] = v]: an existing key keeps its place. *)
Fixpoint dict_set (k : string) (v : json) (kvs : list (string * json)) : list (string * json) :=
  match kvs with
  | [] => [(k, v)]
  | (k', v') :: kvs' =>
      if decide (k' = k) then (k', v) :: kvs' else (k', v') :: dict_set k v kvs'
  end.

(** [d.pop(k, None)] *)
Fixpoint dict_pop (k : string) (kvs : list (string * json)) : list (string * json) :=
  match kvs with
  | [] => []
  | (k', v') :: kvs' => if decide (k' = k) then kvs' else (k', v') :: dict_pop k kvs'
  end.

(** ** Printing *)

Definition Z_to_string (z : Z) : string := NilZero.string_of_int (Z.to_int z).
Definition Z_of_string (s : string) : option Z := Z.of_int <$> NilZero.int_of_string s.

Lemma Z_of_to_string z : Z_of_string (Z_to_string z) = Some z.
Proof.
  unfold Z_of_string, Z_to_string. rewrite NilZero.isi.
  - simpl. by rewrite DecimalZ.of_to.
  - destruct z; simpl; [done|intros [=]..]; by destruct (Unsigned.to_uint_nonnil p).
  - destruct z; simpl; [done|intros [=]..]; by destruct (Unsigned.to_uint_nonnil p).
Qed.

Lemma Z_to_string_nonempty z : Z_to_string z ≠ ""%string.
Proof. intros H. pose proof (Z_of_to_string z) as Hz. by rewrite H in Hz. Qed.

(** What the program uses of CPython that has no short definition: the text of
    a float ([repr(float(lit))]) and whether it is non-zero, [repr] of a [str],
    and the decoding of the UTF-16 and UTF-32 encodings that [json.loads]
    detects in a [bytes] argument. *)
Class PyRuntime := {
  float_repr : string → string;
  float_nonzero : string → bool;
  str_repr : string → string;
  decode_wide : string → string → res string;
}.

Section Values.
Context `{PyRuntime}.

(** [bool(v)] *)
Definition py_truthy (j : json) : bool :=
  match j with
  | JNull => false
  | JBool b => b
  | JInt z => negb (z =? 0)%Z
  | JFloat lit => float_nonzero lit
  | JStr s => negb (s =? "")%string
  | JArr l => match l with [] => false | _ => true end
  | JObj kvs => match kvs with [] => false | _ => true end
  end.

(** [a or b] *)
Definition py_or (a b : json) : json := if py_truthy a then a else b.

Fixpoint sep_concat (sep : string) (l : list string) : string :=
  match l with
  | [] => ""
  | [x] => x
  | x :: l' => x +:+ sep +:+ sep_concat sep l'
  end.

(** [repr(v)] *)
Fixpoint py_repr (j : json) : string :=
  match j with
  | JNull => "None"
  | JBool true => "True"
  | JBool false => "False"
  | JInt z => Z_to_string z
  | JFloat lit => float_repr lit
  | JStr s => str_repr s
  | JArr l => "[" +:+ sep_concat ", " (map py_repr l) +:+ "]"
  | JObj kvs =>
      "{" +:+ sep_concat ", " (map (λ kv, str_repr kv.1 +:+ ": " +:+ py_repr kv.2) kvs)
      +:+ "}"
  end.

(** [str(v)] *)
Definition py_str (j : json) : string :=
  match j with JStr s => s | _ => py_repr j end.

End Values.

(** ** Order-free values *)

Inductive jtree : Type :=
| TNull
| TBool (b : bool)
| TInt (z : Z)
| TFloat (lit : string)
| TStr (s : string)
| TArr (l : list jtree)
| TObj (m : gmap string jtree).

Fixpoint json_canon (j : json) : jtree :=
  match j with
  | JNull => TNull
  | JBool b => TBool b
  | JInt z => TInt z
  | JFloat lit => TFloat lit
  | JStr s => TStr s
  | JArr l => TArr (map json_canon l)
  | JObj kvs => TObj (list_to_map (map (λ kv, (kv.1, json_canon kv.2)) kvs))
  end.

(** Python's equality of the values. *)
#[export] Instance json_equiv : Equiv json := λ a b, json_canon a = json_canon b.
#[export] Instance json_equivalence : Equivalence (≡@{json}).
Proof.
  split; unfold equiv, json_equiv; [by intros ?|by intros ?? ->|].
  by intros ??? -> ->.
Qed.

#[export] Instance pyval_equiv : Equiv pyval := λ a b,
  match a, b with
  | PyJson x, PyJson y => x ≡ y
  | PyOpaque c, PyOpaque d => c = d
  | _, _ => False
  end.
#[export] Instance pyval_equivalence : Equivalence (≡@{pyval}).
Proof.
  split; unfold equiv, pyval_equiv.
  - by intros [].
  - intros [] []; try done; by symmetry.
  - intros [] [] []; try done; [apply transitivity|congruence].
Qed.

#[export] Instance is_none_proper : Proper ((≡@{pyval}) ==> (=)) is_none.
Proof. by intros [[]|] [[]|]. Qed.

(** Reading a dict only depends on its canonical form. *)
Lemma dict_lookup_canon k kvs :
  json_canon <$> dict_lookup k kvs =
  (list_to_map (map (λ kv, (kv.1, json_canon kv.2)) kvs) : gmap string jtree) !! k.
Proof.
  induction kvs as [|[k' v] kvs IH]; simpl; [done|].
  rewrite lookup_insert. case_decide; [done|apply IH].
Qed.

(** A dict with the canonical form [m] reads like [m]. *)
Lemma canon_TObj_inv j m :
  json_canon j = TObj m →
  ∃ kvs, j = JObj kvs ∧ ∀ k, json_canon <$> dict_lookup k kvs = m !! k.
Proof.
  destruct j as [| | | | | |kvs]; try done. intros [= <-].
  exists kvs. split; [done|]. intros k. apply dict_lookup_canon.
Qed.

Lemma canon_TStr_inv j s : json_canon j = TStr s → j = JStr s.
Proof. destruct j; by intros [= ->]. Qed.
Lemma canon_TInt_inv j z : json_canon j = TInt z → j = JInt z.
Proof. destruct j; by intros [= ->]. Qed.
Lemma canon_TNull_inv j : json_canon j = TNull → j = JNull.
Proof. by destruct j. Qed.

Lemma canon_lookup_Some k kvs (m : gmap string jtree) t :
  (∀ k, json_canon <$> dict_lookup k kvs = m !! k) → m !! k = Some t →
  ∃ v, dict_lookup k kvs = Some v ∧ json_canon v = t.
Proof.
  intros H Hk. specialize (H k). rewrite Hk in H.
  destruct (dict_lookup k kvs) as [v|]; [|done]. exists v. naive_solver.
Qed.

Lemma canon_lookup_None k kvs (m : gmap string jtree) :
  (∀ k, json_canon <$> dict_lookup k kvs = m !! k) → m !! k = None → dict_lookup k kvs = None.
Proof. intros H Hk. specialize (H k). rewrite Hk in H. by destruct (dict_lookup k kvs). Qed.

Lemma dict_lookup_pop_ne k k' kvs : k' ≠ k → dict_lookup k' (dict_pop k kvs) = dict_lookup k' kvs.
Proof.
  intros Hne. induction kvs as [|[k0 v] kvs IH]; simpl; [done|].
  case_decide; simpl; [by rewrite decide_False by congruence|]. by rewrite IH.
Qed.

Lemma dict_lookup_set k k' v kvs :
  dict_lookup k' (dict_set k v kvs) = if decide (k = k') then Some v else dict_lookup k' kvs.
Proof.
  induction kvs as [|[k0 v0] kvs IH]; simpl; [done|].
  destruct (decide (k0 = k)) as [->|]; simpl; [by repeat case_decide|].
  rewrite IH. repeat case_decide; congruence.
Qed.

(** ** The module [json] *)

Class JsonCodec := {
  json_dumps : json → string;                 (* json.dumps(v) *)
  json_loads : string → res json;             (* json.loads(text), text a str *)
  json_loads_bytes : string → res json;       (* json.loads(data), data a bytes *)
  json_wf : json → bool;
  json_loads_dumps : ∀ j, json_wf j = true → json_loads (json_dumps j) = Ok j;
  json_dumps_nonempty : ∀ j, json_dumps j ≠ ""%string;
}.

Definition JSONDecodeError (msg : string) : exn := Exn "JSONDecodeError" msg true.

Definition not_serializable (cls : string) : exn :=
  TypeError ("Object of type " +:+ cls +:+ " is not JSON serializable").

(** [json.dumps] on any Python value. *)
Definition py_dumps `{JsonCodec} (v : pyval) : res string :=
  match v with
  | PyJson j => Ok (json_dumps j)
  | PyOpaque cls => Err (not_serializable cls)
  end.
