(* ===== verification/JsonText.v ===== *)
(** * JSON text: an implementation of [JsonCodec]

    A printer and a parser of RFC 8259 text over the values of PyJson.v, with
    the round trip that [JsonCodec] asks for.  The printer separates as
    json.dumps does, and writes non-ASCII characters as they are (json.dumps
    escapes them; the reader takes both forms, escapes of the basic plane). *)

From S2P Require Import Prelude Utf8 PyJson.
From Stdlib Require Import DecimalString.

Module JsonText.

Definition quote_char : ascii := ascii_of_N 34.
Definition backslash : ascii := ascii_of_N 92.

(** ** Strings *)

Definition hex_digit (n : N) : ascii :=
  ascii_of_N (if N.ltb n 10 then 48 + n else 87 + n).

Definition hex_value (a : ascii) : option N :=
  let n := N_of_ascii a in
  if (N.leb 48 n && N.leb n 57)%bool then Some (n - 48)%N
  else if (N.leb 97 n && N.leb n 102)%bool then Some (n - 87)%N
  else if (N.leb 65 n && N.leb n 70)%bool then Some (n - 55)%N
  else None.

Definition escape_char (a : ascii) (rest : string) : string :=
  let n := N_of_ascii a in
  if (N.eqb n 34 || N.eqb n 92)%bool then String backslash (String a rest)
  else if N.ltb n 32 then
    String backslash (String "u" (String "0" (String "0"
      (String (hex_digit (n / 16)) (String (hex_digit (n mod 16)) rest)))))
  else String a rest.

(** The characters of a literal and its closing quote, then [rest]. *)
Fixpoint escape (s rest : string) : string :=
  match s with
  | EmptyString => String quote_char rest
  | String a s' => escape_char a (escape s' rest)
  end.

Definition utf8_encode (n : N) (rest : string) : option string :=
  if N.ltb n 0x80 then Some (String (ascii_of_N n) rest)
  else if N.ltb n 0x800 then
    Some (String (ascii_of_N (0xC0 + n / 64)) (String (ascii_of_N (0x80 + n mod 64)) rest))
  else if (N.leb 0xD800 n && N.leb n 0xDFFF)%bool then None
  else Some (String (ascii_of_N (0xE0 + n / 4096))
         (String (ascii_of_N (0x80 + n / 64 mod 64)) (String (ascii_of_N (0x80 + n mod 64)) rest))).

Definition simple_escape (a : ascii) : option ascii :=
  match N_of_ascii a with
  | 34%N | 92%N | 47%N => Some a
  | 98%N => Some (ascii_of_N 8)
  | 102%N => Some (ascii_of_N 12)
  | 110%N => Some (ascii_of_N 10)
  | 114%N => Some (ascii_of_N 13)
  | 116%N => Some (ascii_of_N 9)
  | _ => None
  end.

(** The contents of a literal up to its closing quote, and what follows. *)
Fixpoint scan_string (s : string) : option (string * string) :=
  match s with
  | EmptyString => None
  | String a s1 =>
      if N.eqb (N_of_ascii a) 34 then Some (EmptyString, s1)
      else if N.eqb (N_of_ascii a) 92 then
        match s1 with
        | EmptyString => None
        | String b s2 =>
            match simple_escape b with
            | Some c => '(t, rest) ← scan_string s2; Some (String c t, rest)
            | None =>
                match s2 with
                | String h1 (String h2 (String h3 (String h4 s6))) =>
                    if N.eqb (N_of_ascii b) 117 then
                      n1 ← hex_value h1; n2 ← hex_value h2; n3 ← hex_value h3; n4 ← hex_value h4;
                      '(t, rest) ← scan_string s6;
                      u ← utf8_encode (((n1 * 16 + n2) * 16 + n3) * 16 + n4) t;
                      Some (u, rest)
                    else None
                | _ => None
                end
            end
        end
      else if N.ltb (N_of_ascii a) 32 then None
      else '(t, rest) ← scan_string s1; Some (String a t, rest)
  end.

Lemma hex_roundtrip n : (n < 16)%N → hex_value (hex_digit n) = Some n.
Proof.
  intros Hn. assert (∃ k : nat, (k < 16)%nat ∧ n = N.of_nat k) as (k & Hk & ->).
  { exists (N.to_nat n). split; lia. }
  do 16 (destruct k as [|k]; [reflexivity|]). lia.
Qed.

Lemma scan_u00 h3 h4 r :
  scan_string (String backslash (String "u" (String "0" (String "0" (String h3 (String h4 r)))))) =
  (n3 ← hex_value h3; n4 ← hex_value h4; '(t, rest) ← scan_string r;
   u ← utf8_encode (n3 * 16 + n4) t; Some (u, rest)).
Proof. reflexivity. Qed.

(** The escape of a control character. *)
Lemma scan_control a r t rest :
  (N_of_ascii a < 32)%N → scan_string r = Some (t, rest) →
  scan_string (String backslash (String "u" (String "0" (String "0"
      (String (hex_digit (N_of_ascii a / 16)) (String (hex_digit (N_of_ascii a mod 16)) r)))))) =
  Some (String a t, rest).
Proof.
  intros Ha H.
  assert (N_of_ascii a / 16 < 16)%N as H1 by (apply N.Div0.div_lt_upper_bound; lia).
  assert (N_of_ascii a mod 16 < 16)%N as H2 by (apply N.mod_lt; lia).
  rewrite scan_u00, (hex_roundtrip _ H1), (hex_roundtrip _ H2), H. cbn [mbind option_bind].
  replace (N_of_ascii a / 16 * 16 + N_of_ascii a mod 16)%N with (N_of_ascii a)
    by (pose proof (N.div_mod' (N_of_ascii a) 16); lia).
  unfold utf8_encode. rewrite (proj2 (N.ltb_lt _ _)) by lia. cbn [mbind option_bind].
  by rewrite ascii_N_embedding.
Qed.

Lemma escape_char_scan a t r rest :
  scan_string r = Some (t, rest) → scan_string (escape_char a r) = Some (String a t, rest).
Proof.
  intros H. unfold escape_char.
  destruct (N.eqb_spec (N_of_ascii a) 34) as [E|E1].
  { cbn. unfold simple_escape. rewrite E. cbn. by rewrite H. }
  destruct (N.eqb_spec (N_of_ascii a) 92) as [E|E2].
  { cbn. unfold simple_escape. rewrite E. cbn. by rewrite H. }
  cbn [orb]. destruct (N.ltb_spec (N_of_ascii a) 32) as [Hlt|Hge]; [by apply scan_control|].
  cbn [scan_string]. rewrite (proj2 (N.eqb_neq _ _) E1), (proj2 (N.eqb_neq _ _) E2).
  rewrite (proj2 (N.ltb_ge _ _) Hge), H. done.
Qed.

Lemma scan_escape s rest : scan_string (escape s rest) = Some (s, rest).
Proof.
  induction s as [|a s IH]; [done|]. cbn [escape]. by apply escape_char_scan.
Qed.

(** ** Numbers *)

Definition digit_char (a : ascii) : bool := byte_in 48 57 a.

Definition num_char (a : ascii) : bool :=
  (digit_char a || bool_decide (a ∈ ["+"; "-"; "."; "e"; "E"]%char))%bool.

Fixpoint take_num (s : string) : string * string :=
  match s with
  | EmptyString => (EmptyString, EmptyString)
  | String a s' =>
      if num_char a then let '(t, rest) := take_num s' in (String a t, rest)
      else (EmptyString, s)
  end.

Fixpoint all_chars (p : ascii → bool) (s : string) : bool :=
  match s with EmptyString => true | String a s' => (p a && all_chars p s')%bool end.

(** [rest] does not continue a number. *)
Definition num_ends (rest : string) : bool :=
  match rest with EmptyString => true | String a _ => negb (num_char a) end.

Lemma take_num_app t rest :
  all_chars num_char t = true → num_ends rest = true → take_num (t +:+ rest) = (t, rest).
Proof.
  intros Ht Hr. induction t as [|a t IH]; simpl in *.
  - destruct rest as [|b rest]; [done|]. simpl in *. by destruct (num_char b).
  - apply andb_prop in Ht as [-> Ht]. by rewrite IH.
Qed.

Fixpoint drop_digits (s : string) : string :=
  match s with
  | String a s' => if digit_char a then drop_digits s' else s
  | EmptyString => EmptyString
  end.

(** At least one digit; what follows the run. *)
Definition digits1 (s : string) : option string :=
  match s with
  | String a s' => if digit_char a then Some (drop_digits s') else None
  | EmptyString => None
  end.

Definition int_part (s : string) : option string :=
  let s := match s with String "-" s' => s' | _ => s end in
  match s with
  | String "0" s' => Some s'
  | _ => digits1 s
  end.

(** The grammar of a JSON number that is not an integer. *)
Definition float_lit (s : string) : bool :=
  match int_part s with
  | None | Some EmptyString => false
  | Some s1 =>
      match (match s1 with String "." s2 => digits1 s2 | _ => Some s1 end) with
      | None => false
      | Some EmptyString => true
      | Some (String e s3) =>
          if bool_decide (e ∈ ["e"; "E"]%char) then
            match digits1 (match s3 with String c s4 =>
                             if bool_decide (c ∈ ["+"; "-"]%char) then s4 else s3
                           | EmptyString => s3 end) with
            | Some EmptyString => true
            | _ => false
            end
          else false
      end
  end.

Definition read_num (t : string) : option json :=
  match Z_of_string t with
  | Some z => if decide (Z_to_string z = t) then Some (JInt z) else None
  | None => if float_lit t then Some (JFloat t) else None
  end.

Lemma uint_digits d : all_chars num_char (NilEmpty.string_of_uint d) = true.
Proof. by induction d. Qed.

Lemma Z_to_string_num z :
  all_chars num_char (Z_to_string z) = true ∧
  ∃ a s, Z_to_string z = String a s ∧ num_char a = true.
Proof.
  assert (all_chars num_char (Z_to_string z) = true) as H.
  { assert (∀ d, all_chars num_char (NilZero.string_of_uint d) = true) as Hd.
    { intros d. pose proof (uint_digits d). by destruct d. }
    unfold Z_to_string. destruct (Z.to_int z) as [d|d]; [apply Hd|]. exact (Hd d). }
  split; [done|]. pose proof (Z_to_string_nonempty z).
  destruct (Z_to_string z) as [|a s]; [done|]. exists a, s. split; [done|].
  by apply andb_prop in H as [? _].
Qed.

(** ** Printing *)

(** The text of a value, in front of [rest]. *)
Fixpoint print (j : json) (rest : string) : string :=
  match j with
  | JNull => "null" +:+ rest
  | JBool true => "true" +:+ rest
  | JBool false => "false" +:+ rest
  | JInt z => Z_to_string z +:+ rest
  | JFloat lit => (if float_lit lit then lit else "0.0") +:+ rest
  | JStr s => String quote_char (escape s rest)
  | JArr [] => "[]" +:+ rest
  | JArr (x :: l) =>
      String "[" (print x (foldr (λ y r, ", " +:+ print y r) ("]" +:+ rest) l))
  | JObj [] => "{}" +:+ rest
  | JObj ((k, v) :: kvs) =>
      String "{" (String quote_char (escape k (": " +:+ print v
        (foldr (λ kv r, ", " +:+ String quote_char (escape kv.1 (": " +:+ print kv.2 r)))
           ("}" +:+ rest) kvs))))
  end.

(** ** Parsing *)

Fixpoint skip_ws (s : string) : string :=
  match s with
  | String a s' =>
      if bool_decide (N_of_ascii a ∈ [32; 9; 10; 13]%N) then skip_ws s' else s
  | EmptyString => EmptyString
  end.

(** [s] without the prefix [p]. *)
Fixpoint strip (p s : string) : option string :=
  match p, s with
  | EmptyString, _ => Some s
  | String a p', String b s' => if Ascii.eqb a b then strip p' s' else None
  | _, _ => None
  end.

Section Values.
Context (parse : string → option (json * string)).

(** The elements of an array up to its bracket; at most [n] of them. *)
Fixpoint parse_elems (n : nat) (s : string) : option (list json * string) :=
  match n with
  | O => None
  | S n' =>
      '(x, s1) ← parse s;
      match skip_ws s1 with
      | String "," s2 => '(l, rest) ← parse_elems n' s2; Some (x :: l, rest)
      | String "]" rest => Some ([x], rest)
      | _ => None
      end
  end.

Definition parse_member (s : string) : option (string * json * string) :=
  match skip_ws s with
  | String q s1 =>
      if Ascii.eqb q quote_char then
        '(k, s2) ← scan_string s1;
        match skip_ws s2 with
        | String ":" s3 => '(v, s4) ← parse s3; Some (k, v, s4)
        | _ => None
        end
      else None
  | EmptyString => None
  end.

Fixpoint parse_members (n : nat) (s : string) : option (list (string * json) * string) :=
  match n with
  | O => None
  | S n' =>
      '(kv, s1) ← parse_member s;
      match skip_ws s1 with
      | String "," s2 => '(kvs, rest) ← parse_members n' s2; Some (kv :: kvs, rest)
      | String "}" rest => Some ([kv], rest)
      | _ => None
      end
  end.
End Values.

(** A dict from its members: a repeated key keeps its place and its last value. *)
Definition dict_of (kvs : list (string * json)) : list (string * json) :=
  foldl (λ d kv, dict_set kv.1 kv.2 d) [] kvs.

(** A value at the head of the text; [fuel] bounds the nesting and the length of
    its lists. *)
Fixpoint parse (fuel : nat) (s : string) : option (json * string) :=
  match fuel with
  | O => None
  | S n =>
      match skip_ws s with
      | EmptyString => None
      | String a s1 =>
          if Ascii.eqb a quote_char then '(t, rest) ← scan_string s1; Some (JStr t, rest)
          else if num_char a then
            let '(t, rest) := take_num (String a s1) in j ← read_num t; Some (j, rest)
          else
            match a with
            | "n"%char => rest ← strip "ull" s1; Some (JNull, rest)
            | "t"%char => rest ← strip "rue" s1; Some (JBool true, rest)
            | "f"%char => rest ← strip "alse" s1; Some (JBool false, rest)
            | "["%char =>
                match strip "]" (skip_ws s1) with
                | Some rest => Some (JArr [], rest)
                | None => '(l, rest) ← parse_elems (parse n) n s1; Some (JArr l, rest)
                end
            | "{"%char =>
                match strip "}" (skip_ws s1) with
                | Some rest => Some (JObj [], rest)
                | None => '(kvs, rest) ← parse_members (parse n) n s1; Some (JObj (dict_of kvs), rest)
                end
            | _ => None
            end
      end
  end.

Definition dumps (j : json) : string := print j "".

Definition loads (s : string) : res json :=
  match parse (S (String.length s)) s with
  | Some (j, rest) =>
      match skip_ws rest with
      | EmptyString => Ok j
      | _ => Err (JSONDecodeError "Extra data")
      end
  | None => Err (JSONDecodeError "Expecting value")
  end.

(** ** Round trip *)

(** Values whose text reads back: real float literals, and dicts without
    repeated keys. *)
Fixpoint wf (j : json) : bool :=
  match j with
  | JFloat lit => float_lit lit && bool_decide (Z_of_string lit = None) && all_chars num_char lit
  | JArr l => forallb wf l
  | JObj kvs => bool_decide (NoDup (map fst kvs)) && forallb (λ kv, wf kv.2) kvs
  | _ => true
  end.

(** Fuel enough for a value. *)
Fixpoint size (j : json) : nat :=
  match j with
  | JArr l => S (foldr (λ x n, S (size x + n)) 0 l)
  | JObj kvs => S (foldr (λ kv n, S (size kv.2 + n)) 0 kvs)
  | _ => 1
  end.

(** The first character of a value. *)
Definition start_char (a : ascii) : bool :=
  (Ascii.eqb a quote_char || num_char a || bool_decide (a ∈ ["n"; "t"; "f"; "["; "{"]%char))%bool.

Lemma start_char_spec a s :
  start_char a = true → skip_ws (String a s) = String a s ∧ a ≠ "]"%char ∧ a ≠ "}"%char.
Proof. destruct a as [[] [] [] [] [] [] [] []]; intros H; try discriminate H; done. Qed.

Lemma print_start j rest :
  wf j = true → ∃ a s, print j rest = String a s ∧ start_char a = true.
Proof.
  destruct j as [|[]|z|lit|s|[|x l]|[|[k v] kvs]]; intros Hwf; try (eexists _, _; split; reflexivity).
  - destruct (Z_to_string_num z) as (_ & a & s & E & Ha). cbn [print]. rewrite E.
    exists a, (s +:+ rest). split; [done|]. unfold start_char. rewrite Ha. by destruct Ascii.eqb.
  - simpl in Hwf. apply andb_prop in Hwf as [[Hf _]%andb_prop Hn]. simpl. rewrite Hf.
    destruct lit as [|a lit]; [done|]. exists a, (lit +:+ rest). split; [done|].
    simpl in Hn. apply andb_prop in Hn as [Ha _]. unfold start_char. rewrite Ha. by destruct Ascii.eqb.
Qed.

Lemma parse_space n s : parse n (String " " s) = parse n s.
Proof. by destruct n. Qed.

Lemma skip_quote s : skip_ws (String quote_char s) = String quote_char s.
Proof. done. Qed.

(** A number, from its text. *)
Lemma parse_num n t j rest a s :
  t = String a s → num_char a = true → all_chars num_char t = true → num_ends rest = true →
  read_num t = Some j → parse (S n) (t +:+ rest) = Some (j, rest).
Proof.
  intros -> Ha Ht Hr Hj.
  assert (skip_ws (String a s +:+ rest) = String a (s +:+ rest)) as E.
  { apply (start_char_spec a). unfold start_char. rewrite Ha. by destruct Ascii.eqb. }
  assert (Ascii.eqb a quote_char = false) as Hq.
  { apply Ascii.eqb_neq. by intros ->. }
  cbn [parse]. rewrite E, Hq, Ha.
  change (String a (s +:+ rest)) with (String a s +:+ rest).
  by rewrite take_num_app, Hj by done.
Qed.

Definition reads (j : json) : Prop :=
  ∀ n rest, size j ≤ n → num_ends rest = true → parse n (print j rest) = Some (j, rest).

Definition print_tail (l : list json) (rest : string) : string :=
  foldr (λ y r, ", " +:+ print y r) ("]" +:+ rest) l.

Lemma print_tail_ends l rest : num_ends (print_tail l rest) = true.
Proof. by destruct l. Qed.

Lemma parse_elems_print l m rest : ∀ x n,
  Forall reads (x :: l) → foldr (λ y k, S (size y + k)) 0 (x :: l) ≤ n ≤ m →
  parse_elems (parse m) n (print x (print_tail l rest)) = Some (x :: l, rest).
Proof.
  induction l as [|y l IH]; intros x n [Hx Hl]%Forall_cons Hn; cbn in Hn;
    (destruct n as [|n]; [lia|]); cbn [parse_elems];
    rewrite (Hx m) by (lia || apply print_tail_ends); cbn [mbind option_bind]; [done|].
  change (skip_ws (print_tail (y :: l) rest)) with
    (String "," (String " " (print y (print_tail l rest)))). cbv iota.
  assert (∀ s, parse_elems (parse m) n (String " " s) = parse_elems (parse m) n s) as ->.
  { intros s. destruct n; [done|]. cbn [parse_elems]. by rewrite parse_space. }
  rewrite IH; [done|done|]. cbn. lia.
Qed.

Definition print_members (kvs : list (string * json)) (rest : string) : string :=
  foldr (λ kv r, ", " +:+ String quote_char (escape kv.1 (": " +:+ print kv.2 r)))
    ("}" +:+ rest) kvs.

Lemma print_members_ends kvs rest : num_ends (print_members kvs rest) = true.
Proof. by destruct kvs. Qed.

Lemma parse_member_print m k v r :
  reads v → size v ≤ m → num_ends r = true →
  parse_member (parse m) (String quote_char (escape k (": " +:+ print v r))) = Some (k, v, r).
Proof.
  intros Hv Hm Hr. unfold parse_member. rewrite skip_quote.
  change (Ascii.eqb quote_char quote_char) with true. cbv iota. rewrite scan_escape.
  cbn [mbind option_bind].
  change (skip_ws (": " +:+ print v r)) with (String ":" (String " " (print v r))). cbv iota.
  by rewrite parse_space, Hv.
Qed.

Lemma parse_members_print kvs m rest : ∀ k v n,
  Forall (λ kv, reads kv.2) ((k, v) :: kvs) →
  foldr (λ kv i, S (size kv.2 + i)) 0 ((k, v) :: kvs) ≤ n ≤ m →
  parse_members (parse m) n
    (String quote_char (escape k (": " +:+ print v (print_members kvs rest)))) =
  Some ((k, v) :: kvs, rest).
Proof.
  induction kvs as [|[k' v'] kvs IH]; intros k v n [Hv Hl]%Forall_cons Hn; cbn in Hn;
    (destruct n as [|n]; [lia|]); cbn [parse_members];
    rewrite parse_member_print by (done || lia || apply print_members_ends);
    cbn [mbind option_bind]; [done|].
  change (skip_ws (print_members ((k', v') :: kvs) rest)) with
    (String "," (String " "
      (String quote_char (escape k' (": " +:+ print v' (print_members kvs rest)))))). cbv iota.
  assert (∀ s, parse_members (parse m) n (String " " s) = parse_members (parse m) n s) as ->.
  { intros s. by destruct n. }
  rewrite IH; [done|done|]. cbn. lia.
Qed.

Lemma dict_set_fresh k v kvs : k ∉ map fst kvs → dict_set k v kvs = kvs ++ [(k, v)].
Proof.
  induction kvs as [|[k' v'] kvs IH]; [done|]. cbn. intros Hk. rewrite not_elem_of_cons in Hk.
  destruct Hk as [Hne Hk]. rewrite decide_False by congruence. by rewrite IH.
Qed.

Lemma dict_of_nodup kvs : NoDup (map fst kvs) → dict_of kvs = kvs.
Proof.
  unfold dict_of. intros H.
  enough (∀ d, NoDup (map fst (d ++ kvs)) → foldl (λ d kv, dict_set kv.1 kv.2 d) d kvs = d ++ kvs)
    as Hd by by apply (Hd []).
  clear H. induction kvs as [|[k v] kvs IH]; intros d Hd; cbn; [by rewrite app_nil_r|].
  rewrite dict_set_fresh.
  - rewrite IH; [by rewrite <- app_assoc|]. by rewrite <- app_assoc.
  - rewrite map_app in Hd. apply NoDup_app in Hd as (_ & Hd & _).
    intros Hk. apply (Hd _ Hk). by left.
Qed.

Lemma print_not_closing j rest : wf j = true → strip "]" (skip_ws (print j rest)) = None.
Proof.
  intros Hwf. destruct (print_start j rest Hwf) as (a & s & E & Ha).
  destruct (start_char_spec a s Ha) as (Hs & Hn & _). rewrite E, Hs. cbn [strip].
  by rewrite (proj2 (Ascii.eqb_neq _ _) (not_eq_sym Hn)).
Qed.

Theorem parse_print j : wf j = true → reads j.
Proof.
  induction j as [|b|z|lit|s|l IH|kvs IH] using json_ind'; intros Hwf n rest Hn Hr;
    (destruct n as [|n]; [cbn in Hn; lia|]).
  - done.
  - by destruct b.
  - destruct (Z_to_string_num z) as (Hz & a & s & E & Ha). cbn [print].
    apply (parse_num n _ _ _ a s); try done. unfold read_num. rewrite Z_of_to_string.
    by rewrite decide_True.
  - cbn [wf] in Hwf. apply andb_prop in Hwf as [[Hf Hz]%andb_prop Hall]. cbn [print]. rewrite Hf.
    destruct lit as [|a lit]; [done|]. apply bool_decide_eq_true in Hz.
    apply (parse_num n _ _ _ a lit); try done; [by apply andb_prop in Hall as [? _]|].
    unfold read_num. by rewrite Hz, Hf.
  - cbn [print parse]. rewrite skip_quote. cbn [Ascii.eqb quote_char]. by rewrite scan_escape.
  - destruct l as [|x l]; [done|]. cbn [wf] in Hwf. rewrite forallb_forall in Hwf.
    assert (Forall reads (x :: l)) as Hl.
    { apply Forall_forall. intros y Hy. rewrite Forall_forall in IH. apply IH; [done|].
      by apply Hwf, list_elem_of_In. }
    cbn [print]. fold (print_tail l rest).
    assert (Hcl : strip "]" (skip_ws (print x (print_tail l rest))) = None).
    { apply print_not_closing, Hwf. by left. }
    change (parse (S n) (String "[" ?s)) with
      (match strip "]" (skip_ws s) with
       | Some rest => Some (JArr [], rest)
       | None => '(l, rest) ← parse_elems (parse n) n s; Some (JArr l, rest)
       end).
    rewrite Hcl, (parse_elems_print l n rest x n Hl); [done|]. cbn in Hn |- *. lia.
  - destruct kvs as [|[k v] kvs]; [done|].
    cbn [wf] in Hwf. apply andb_prop in Hwf as [Hnd Hwf]. apply bool_decide_eq_true in Hnd.
    rewrite forallb_forall in Hwf.
    assert (Forall (λ kv, reads kv.2) ((k, v) :: kvs)) as Hl.
    { apply Forall_forall. intros y Hy. rewrite Forall_forall in IH. apply IH; [done|].
      by apply Hwf, list_elem_of_In. }
    cbn [print]. fold (print_members kvs rest).
    change (parse (S n) (String "{" ?s)) with
      (match strip "}" (skip_ws s) with
       | Some rest => Some (JObj [], rest)
       | None => '(kvs, rest) ← parse_members (parse n) n s; Some (JObj (dict_of kvs), rest)
       end).
    rewrite skip_quote. cbn [strip]. change (Ascii.eqb "}" quote_char) with false. cbv iota.
    rewrite (parse_members_print kvs n rest k v n Hl); [|cbn in Hn |- *; lia].
    cbn [mbind option_bind]. by rewrite dict_of_nodup.
Qed.

(** The text is as long as the fuel that reading it needs. *)
Lemma escape_length s rest : String.length rest < String.length (escape s rest).
Proof.
  induction s as [|a s IH]; [cbn; lia|]. cbn [escape]. unfold escape_char.
  repeat case_match; cbn [String.length]; lia.
Qed.

Lemma length_app_string s t : String.length (s +:+ t) = String.length s + String.length t.
Proof.
  induction s as [|a s IH]; [done|].
  change (String.length (String a s +:+ t)) with (S (String.length (s +:+ t))). by rewrite IH.
Qed.

Lemma print_length j rest : size j + String.length rest ≤ String.length (print j rest).
Proof.
  revert rest. induction j as [|[]|z|lit|s|l IH|kvs IH] using json_ind'; intros rest; cbn [print size];
    try (rewrite length_app_string; cbn; lia).
  - rewrite length_app_string. destruct (Z_to_string_num z) as (_ & a & s & -> & _). cbn. lia.
  - rewrite length_app_string. destruct (float_lit lit) eqn:E; [|cbn; lia].
    destruct lit; [done|]. cbn. lia.
  - pose proof (escape_length s rest). cbn. lia.
  - destruct l as [|x l]; [rewrite length_app_string; cbn; lia|]. apply Forall_cons in IH as [Hx Hl]. cbn [foldr String.length].
    etrans; [|apply le_n_S, Hx]. 
    enough (foldr (λ y k, S (size y + k)) 0 l + String.length rest <
            String.length (print_tail l rest)) by (fold (print_tail l rest); lia).
    clear Hx. induction Hl as [|y l Hy Hl IHl]; cbn [foldr print_tail];
      rewrite length_app_string; [cbn; lia|].
    specialize (Hy (print_tail l rest)). fold (print_tail l rest). cbn. lia.
  - destruct kvs as [|[k v] kvs]; [rewrite length_app_string; cbn; lia|].
    apply Forall_cons in IH as [Hv Hl].
    cbn [foldr String.length fst snd]. fold (print_members kvs rest).
    pose proof (escape_length k (": " +:+ print v (print_members kvs rest))) as He.
    rewrite length_app_string in He. specialize (Hv (print_members kvs rest)).
    enough (foldr (λ kv i, S (size kv.2 + i)) 0 kvs + String.length rest <
            String.length (print_members kvs rest)) by (cbn in *; lia).
    clear He Hv. induction Hl as [|[k' v'] kvs Hy Hl IHl]; cbn [foldr print_members];
      rewrite length_app_string; [cbn; lia|]. fold (print_members kvs rest).
    pose proof (escape_length k' (": " +:+ print v' (print_members kvs rest))) as He.
    rewrite length_app_string in He. specialize (Hy (print_members kvs rest)). cbn in *. lia.
Qed.

Theorem loads_dumps j : wf j = true → loads (dumps j) = Ok j.
Proof.
  intros Hwf. unfold loads, dumps. pose proof (print_length j "") as Hl.
  rewrite (parse_print j Hwf) by (done || lia). done.
Qed.

Lemma dumps_nonempty j : dumps j ≠ ""%string.
Proof.
  intros E. pose proof (print_length j "") as Hl. unfold dumps in E. rewrite E in Hl.
  destruct j; cbn in Hl; lia.
Qed.

(** [json.loads] of bytes: UTF-8 text (the wide encodings are left out). *)
Definition loads_bytes (b : string) : res json := s ← bytes_decode b; loads s.

End JsonText.

(** The codec, for [#[local] Existing Instance] where code is evaluated. *)
Definition json_text : JsonCodec := {|
  json_dumps := JsonText.dumps;
  json_loads := JsonText.loads;
  json_loads_bytes := JsonText.loads_bytes;
  json_wf := JsonText.wf;
  json_loads_dumps := JsonText.loads_dumps;
  json_dumps_nonempty := JsonText.dumps_nonempty;
|}.

(** A CPython for evaluation: a float prints as its literal, and is zero when
    its digits before the exponent are; [repr] of a text is its text in single
    quotes; the wide encodings are refused. *)
Fixpoint nonzero_digits (s : string) : bool :=
  match s with
  | EmptyString => false
  | String a s' =>
      if bool_decide (a ∈ ["e"; "E"]%char) then false
      else ((JsonText.digit_char a && negb (Ascii.eqb a "0")) || nonzero_digits s')%bool
  end.

Definition text_runtime : PyRuntime := {|
  float_repr := λ lit, lit;
  float_nonzero := nonzero_digits;
  str_repr := λ s, "'" +:+ s +:+ "'";
  decode_wide := λ _ _, Err UnicodeDecodeError;
|}.
