(* ===== verification/Iso8601.v ===== *)
(** * ISO 8601: an implementation of [DatetimeText]

    [datetime.isoformat()] of an aware UTC instant, and its reading back, through
    the proleptic Gregorian calendar.  The calendar is counted in eras of 400
    years of 146097 days, from 1 March of the year 0. *)

From S2P Require Import Prelude Utf8 PyJson Models.

Module Iso8601.

(** ** Calendar *)

(** The year of an era and the day of the year, from the day of the era: 100-year
    and 4-year cycles, the last of which are one day longer. *)
Definition year_of_doe (doe : Z) : Z * Z :=
  let c := Z.min 3 (doe / 36524) in
  let r := (doe - c * 36524)%Z in
  let q := (r / 1461)%Z in
  let r' := (r - q * 1461)%Z in
  let y := Z.min 3 (r' / 365) in
  ((100 * c + 4 * q + y)%Z, (r' - y * 365)%Z).

Definition doe_of_year (yoe doy : Z) : Z := (yoe * 365 + yoe / 4 - yoe / 100 + doy)%Z.

(** Month and day, from the day of a year that begins on 1 March. *)
Definition month_of_doy (doy : Z) : Z * Z :=
  let mp := ((5 * doy + 2) / 153)%Z in
  ((if mp <? 10 then mp + 3 else mp - 9)%Z, (doy - (153 * mp + 2) / 5 + 1)%Z).

Definition doy_of_month (m d : Z) : Z :=
  ((153 * (if 2 <? m then m - 3 else m + 9) + 2) / 5 + d - 1)%Z.

(** Days since 1970-01-01 as year, month and day, and back. *)
Definition civil_of_days (days : Z) : Z * Z * Z :=
  let z := (days + 719468)%Z in
  let '(yoe, doy) := year_of_doe (z mod 146097) in
  let '(m, d) := month_of_doy doy in
  ((yoe + 400 * (z / 146097) + (if m <=? 2 then 1 else 0))%Z, m, d).

Definition days_of_civil (y m d : Z) : Z :=
  let y' := (y - (if m <=? 2 then 1 else 0))%Z in
  (146097 * (y' / 400) + doe_of_year (y' mod 400) (doy_of_month m d) - 719468)%Z.

Lemma year_of_doe_spec doe :
  (0 ≤ doe < 146097)%Z →
  let '(yoe, doy) := year_of_doe doe in
  (0 ≤ yoe < 400)%Z ∧ (0 ≤ doy < 366)%Z ∧ doe_of_year yoe doy = doe.
Proof.
  intros Hd. unfold year_of_doe, doe_of_year. cbn zeta.
  set (c := Z.min 3 (doe / 36524)). set (r := (doe - c * 36524)%Z).
  assert (Hc : (0 ≤ c ≤ 3 ∧ 0 ≤ r ≤ 36524 ∧ (r = 36524 → c = 3))%Z).
  { unfold r, c. Z.div_mod_to_equations. lia. }
  set (q := (r / 1461)%Z). set (r' := (r - q * 1461)%Z).
  assert (Hq : (0 ≤ q ≤ 24 ∧ 0 ≤ r' ≤ 1460)%Z).
  { unfold r', q. Z.div_mod_to_equations. lia. }
  set (y := Z.min 3 (r' / 365)).
  assert (Hy : (0 ≤ y ≤ 3 ∧ 0 ≤ r' - y * 365 ≤ 365)%Z).
  { unfold y. Z.div_mod_to_equations. lia. }
  assert (((100 * c + 4 * q + y) / 4 = 25 * c + q)%Z) as -> by (Z.div_mod_to_equations; lia).
  assert (((100 * c + 4 * q + y) / 100 = c)%Z) as -> by (Z.div_mod_to_equations; lia).
  unfold r', r. lia.
Qed.

Definition month_ok (doy : Z) : bool :=
  let '(m, d) := month_of_doy doy in
  ((1 <=? m) && (m <=? 12) && (1 <=? d) && (d <=? 31) && (doy_of_month m d =? doy))%Z.

(** [p] of every number below [n]. *)
Fixpoint all_below (p : Z → bool) (n : nat) : bool :=
  match n with O => true | S n' => p (Z.of_nat n') && all_below p n' end.

Lemma all_below_spec p n k : all_below p n = true → (0 ≤ k < Z.of_nat n)%Z → p k = true.
Proof.
  induction n as [|n IH]; intros H Hk; [lia|]. cbn in H. apply andb_prop in H as [H1 H2].
  destruct (Z.eq_dec k (Z.of_nat n)) as [->|]; [done|]. apply IH; [done|lia].
Qed.

Lemma month_of_doy_spec doy : (0 ≤ doy < 366)%Z → month_ok doy = true.
Proof. apply (all_below_spec month_ok 366). vm_compute. reflexivity. Qed.

Lemma days_of_civil_of_days days :
  let '(y, m, d) := civil_of_days days in
  days_of_civil y m d = days ∧ (1 ≤ m ≤ 12)%Z ∧ (1 ≤ d ≤ 31)%Z.
Proof.
  unfold civil_of_days, days_of_civil. set (z := (days + 719468)%Z).
  pose proof (year_of_doe_spec (z mod 146097) (Z.mod_pos_bound z 146097 eq_refl)) as H.
  destruct (year_of_doe (z mod 146097)) as [yoe doy]. destruct H as (Hy & Hd & He).
  pose proof (month_of_doy_spec doy Hd) as Hm. unfold month_ok in Hm.
  destruct (month_of_doy doy) as [m d].
  rewrite !andb_true_iff, !Z.leb_le, Z.eqb_eq in Hm. destruct Hm as [Hmd Hdm].
  split; [|lia]. set (b := (if m <=? 2 then 1 else 0)%Z).
  replace (yoe + 400 * (z / 146097) + b - b)%Z with (yoe + (z / 146097) * 400)%Z by lia.
  rewrite Z.div_add, Z.mod_add, (Z.div_small yoe), (Z.mod_small yoe) by lia.
  rewrite Hdm, He. pose proof (Z.div_mod z 146097). unfold z in *. lia.
Qed.

(** The years of [datetime] are those of its range. *)
Lemma year_range days :
  (datetime_min / 86400000000 ≤ days ≤ datetime_max / 86400000000)%Z →
  (1 ≤ (civil_of_days days).1.1 ≤ 9999)%Z.
Proof.
  intros Hd. pose proof (days_of_civil_of_days days) as H.
  destruct (civil_of_days days) as [[y m] d]. simpl. destruct H as (H & Hm & Hdd).
  unfold days_of_civil, doe_of_year, doy_of_month in H.
  assert (datetime_min / 86400000000 = -719162)%Z as E1 by reflexivity.
  assert (datetime_max / 86400000000 = 2932896)%Z as E2 by reflexivity.
  rewrite E1, E2 in Hd. clear E1 E2.
  destruct (Z.leb_spec m 2), (Z.ltb_spec 2 m); try lia;
    revert H; Z.div_mod_to_equations; lia.
Qed.

(** ** Text *)

Definition digit (z : Z) : ascii := ascii_of_N (48 + Z.to_N (z mod 10)).

Definition digit_value (a : ascii) : option Z :=
  let n := Z.of_N (N_of_ascii a) in
  if ((48 <=? n) && (n <=? 57))%Z then Some (n - 48)%Z else None.

(** The last [n] decimal digits of [z], in front of [rest]. *)
Fixpoint pad (n : nat) (z : Z) (rest : string) : string :=
  match n with
  | O => rest
  | S n' => pad n' (z / 10) (String (digit z) rest)
  end.

(** [n] digits, read on top of [acc]. *)
Fixpoint read_digits (n : nat) (acc : Z) (s : string) : option (Z * string) :=
  match n, s with
  | O, _ => Some (acc, s)
  | S n', String a s' => v ← digit_value a; read_digits n' (acc * 10 + v) s'
  | S _, EmptyString => None
  end.

Definition expect (c : ascii) (s : string) : option string :=
  match s with String a s' => if Ascii.eqb a c then Some s' else None | EmptyString => None end.

Lemma digit_cases z :
  ∃ k : nat, (k < 10)%nat ∧ (z mod 10 = Z.of_nat k)%Z.
Proof.
  exists (Z.to_nat (z mod 10)). pose proof (Z.mod_pos_bound z 10 eq_refl). split; lia.
Qed.

Lemma digit_value_digit z : digit_value (digit z) = Some (z mod 10)%Z.
Proof.
  destruct (digit_cases z) as (k & Hk & E). unfold digit. rewrite E. clear E.
  do 10 (destruct k as [|k]; [reflexivity|]). lia.
Qed.

Lemma digit_utf8 z s : utf8_valid (String (digit z) s) = utf8_valid s.
Proof.
  destruct (digit_cases z) as (k & Hk & E). unfold digit. rewrite E. clear E.
  do 10 (destruct k as [|k]; [reflexivity|]). lia.
Qed.

Lemma pad_utf8 n z rest : utf8_valid (pad n z rest) = utf8_valid rest.
Proof.
  revert z rest. induction n as [|n IH]; intros z rest; [done|]. cbn [pad].
  by rewrite IH, digit_utf8.
Qed.

Lemma read_digits_app n m acc s :
  read_digits (n + m) acc s = ('(v, s') ← read_digits n acc s; read_digits m v s').
Proof.
  revert acc s. induction n as [|n IH]; intros acc s; [by destruct s|].
  destruct s as [|a s]; [done|]. cbn. destruct (digit_value a); [apply IH|done].
Qed.

Lemma read_pad n z acc rest :
  (0 ≤ z < 10 ^ Z.of_nat n)%Z →
  read_digits n acc (pad n z rest) = Some (acc * 10 ^ Z.of_nat n + z, rest)%Z.
Proof.
  revert z acc rest. induction n as [|n IH]; intros z acc rest Hz.
  { cbn in *. repeat f_equal. lia. }
  replace (Datatypes.S n) with (n + 1)%nat by lia. rewrite read_digits_app.
  replace (n + 1)%nat with (Datatypes.S n) by lia. cbn [pad].
  rewrite Nat2Z.inj_succ, Z.pow_succ_r in * by lia.
  rewrite IH by (Z.div_mod_to_equations; nia). cbn [mbind option_bind read_digits].
  rewrite digit_value_digit. cbn [mbind option_bind]. do 2 f_equal.
  assert (z = 10 * (z / 10) + z mod 10)%Z as Hz' by (by apply Z.div_mod).
  replace (acc * (10 * 10 ^ Z.of_nat n))%Z with (10 * (acc * 10 ^ Z.of_nat n))%Z by ring.
  lia.
Qed.

Definition fraction (us : Z) (rest : string) : string :=
  if (us =? 0)%Z then rest else String "." (pad 6 us rest).

(** [datetime.isoformat()], for UTC. *)
Definition isoformat (t : Z) : string :=
  let '(y, m, d) := civil_of_days (t / 86400000000) in
  let us := (t mod 86400000000)%Z in
  pad 4 y (String "-" (pad 2 m (String "-" (pad 2 d (String "T"
    (pad 2 (us / 3600000000) (String ":" (pad 2 (us / 60000000 mod 60) (String ":"
      (pad 2 (us / 1000000 mod 60) (fraction (us mod 1000000) "+00:00"))))))))))).

Definition read_fraction (s : string) : option (Z * string) :=
  match s with
  | String "." s' => read_digits 6 0 s'
  | _ => Some (0%Z, s)
  end.

(** Reading it back. *)
Definition parse (s : string) : option Z :=
  '(y, s) ← read_digits 4 0 s; s ← expect "-" s;
  '(m, s) ← read_digits 2 0 s; s ← expect "-" s;
  '(d, s) ← read_digits 2 0 s; s ← expect "T" s;
  '(hh, s) ← read_digits 2 0 s; s ← expect ":" s;
  '(mm, s) ← read_digits 2 0 s; s ← expect ":" s;
  '(ss, s) ← read_digits 2 0 s;
  '(us, s) ← read_fraction s;
  if String.eqb s "+00:00" then
    Some (days_of_civil y m d * 86400000000 + hh * 3600000000 + mm * 60000000
          + ss * 1000000 + us)%Z
  else None.

Lemma read_fraction_print us :
  (0 ≤ us < 1000000)%Z → read_fraction (fraction us "+00:00") = Some (us, "+00:00"%string).
Proof.
  intros Hus. unfold fraction. destruct (Z.eqb_spec us 0) as [->|]; [done|].
  cbn [read_fraction]. rewrite read_pad by (cbn; lia). done.
Qed.

Theorem parse_isoformat t : in_datetime t = true → parse (isoformat t) = Some t.
Proof.
  intros Ht. unfold in_datetime in Ht. rewrite andb_true_iff, !Z.leb_le in Ht.
  assert (Hd : (datetime_min / 86400000000 ≤ t / 86400000000 ≤ datetime_max / 86400000000)%Z)
    by (split; apply Z.div_le_mono; lia).
  pose proof (year_range _ Hd) as Hy. pose proof (days_of_civil_of_days (t / 86400000000)) as Hc.
  unfold isoformat. destruct (civil_of_days _) as [[y m] d]. cbn [fst] in Hy.
  destruct Hc as (Hc & Hm & Hdd).
  pose proof (Z.mod_pos_bound t 86400000000 eq_refl) as Hus.
  pose proof (Z.div_mod t 86400000000 ltac:(done)) as Ht'.
  set (us := (t mod 86400000000)%Z) in *.
  assert (0 ≤ us / 3600000000 < 24)%Z by (Z.div_mod_to_equations; lia).
  pose proof (Z.mod_pos_bound (us / 60000000) 60 eq_refl).
  pose proof (Z.mod_pos_bound (us / 1000000) 60 eq_refl).
  pose proof (Z.mod_pos_bound us 1000000 eq_refl).
  unfold parse.
  repeat (rewrite read_pad by (cbn; lia); cbn [mbind option_bind expect Ascii.eqb Bool.eqb]).
  rewrite read_fraction_print by lia. cbn [mbind option_bind].
  change (String.eqb "+00:00" "+00:00") with true. cbv iota. f_equal.
  rewrite !Z.mul_0_l, !Z.add_0_l, Hc.
  assert (us = us / 3600000000 * 3600000000 + us / 60000000 mod 60 * 60000000
    + us / 1000000 mod 60 * 1000000 + us mod 1000000)%Z by (Z.div_mod_to_equations; lia).
  lia.
Qed.

Lemma isoformat_utf8 t : utf8_valid (isoformat t) = true.
Proof.
  unfold isoformat, fraction. destruct (civil_of_days _) as [[y m] d].
  repeat (rewrite pad_utf8 || match goal with
    | |- context [utf8_valid (String ?c (pad ?n ?z ?r))] =>
        change (utf8_valid (String c (pad n z r))) with (utf8_valid (pad n z r))
    end).
  change (utf8_valid (String "T" ?s)) with (utf8_valid s).
  destruct (_ =? 0)%Z; [done|].
  change (utf8_valid (String "." ?s)) with (utf8_valid s). by rewrite pad_utf8.
Qed.

End Iso8601.

(** The calendar as the interface of Models.v, for evaluation. *)
Definition iso8601 : DatetimeText := {|
  Models.isoformat := Iso8601.isoformat;
  Models.parse_datetime := Iso8601.parse;
  Models.parse_isoformat := Iso8601.parse_isoformat;
  Models.isoformat_utf8 := Iso8601.isoformat_utf8;
|}.
