(* ===== verification/Store.v ===== *)
(** * The deduplication store: contract and laws (dedup/store.py)

    [DedupStore] is the abstract base class.  Module [Spec] is an abstract
    machine on records, the contract its docstrings and the README promise, and
    [DedupStoreLaws] states that a backend refines that machine.  The theorems
    about the machine hold of every backend with an instance (MemoryStore.v,
    RedisStore.v), and the clients are proved against the class. *)

From S2P Require Import Prelude PyJson Models.

(** ** class DeduplicationStore(ABC)

    The first argument is the caller's [datetime.now(UTC)]. *)
Class DedupStore (S : Type) := {
  claim : Z → string → action S bool;
  is_duplicate : string → action S bool;
  mark_completed : Z → string → pyval → action S unit;
  mark_failed : Z → string → string → Z → action S unit;
  get_status : Z → string → action S (option ProcessingStatus);
  delete : string → action S unit;
  close : action S unit;
}.

(** ** The abstract machine *)
Module Spec.

(** A failed record with attempts left. *)
Definition retryable (cfg : DeduplicationConfig) (p : ProcessingStatus) : bool :=
  (is_failed p && retry_failed cfg && (ps_attempts p <? max_retries cfg)%Z)%bool.

(** A claim whose lease ran out at the clock [clk]. *)
Definition orphaned (clk : Z) (p : ProcessingStatus) : bool :=
  (bool_decide (ps_status p = PROCESSING) &&
   match ps_lease_expires_at p with Some l => (l <=? clk)%Z | None => false end)%bool.

Definition claimable (cfg : DeduplicationConfig) (clk : Z) (v : option ProcessingStatus) : bool :=
  match v with
  | None => true
  | Some p => (retryable cfg p || orphaned clk p)%bool
  end.

Definition claimed (cfg : DeduplicationConfig) (now clk : Z) (mid : string)
    (v : option ProcessingStatus) : ProcessingStatus :=
  {| ps_message_id := mid;
     ps_status := PROCESSING;
     ps_attempts := match v with None => 1 | Some p => ps_attempts p + 1 end;
     ps_result := PyNone;
     ps_error := None;
     ps_lease_expires_at := Some (clk + processing_timeout_seconds cfg * 1000000)%Z;
     ps_created_at := match v with None => now | Some p => ps_created_at p end;
     ps_updated_at := now |}.

Definition do_claim cfg now clk mid (v : option ProcessingStatus)
    : option ProcessingStatus * bool :=
  if claimable cfg clk v then (Some (claimed cfg now clk mid v), true) else (v, false).

Definition completed (now : Z) (result : pyval) (p : ProcessingStatus) : ProcessingStatus :=
  {| ps_message_id := ps_message_id p;
     ps_status := COMPLETED;
     ps_attempts := ps_attempts p;
     ps_result := result;
     ps_error := ps_error p;
     ps_lease_expires_at := None;
     ps_created_at := ps_created_at p;
     ps_updated_at := now |}.

Definition do_complete now result (v : option ProcessingStatus) : option ProcessingStatus :=
  match v with
  | Some p => if decide (ps_status p = PROCESSING) then Some (completed now result p) else v
  | None => None
  end.

Definition failed (now : Z) (error : string) (attempts : Z) (p : ProcessingStatus)
    : ProcessingStatus :=
  {| ps_message_id := ps_message_id p;
     ps_status := FAILED;
     ps_attempts := attempts;
     ps_result := ps_result p;
     ps_error := Some error;
     ps_lease_expires_at := None;
     ps_created_at := ps_created_at p;
     ps_updated_at := now |}.

(** A [guarded] backend refuses to fail a record that is not PROCESSING. *)
Definition do_fail (guarded : bool) now error attempts (v : option ProcessingStatus)
    : option ProcessingStatus :=
  match v with
  | Some p =>
      if decide (guarded = true ∧ ps_status p ≠ PROCESSING) then v
      else Some (failed now error attempts p)
  | None => None
  end.

(** *** Well-formed records

    The lease is there exactly while the record is PROCESSING, when it has
    neither result nor error yet; and no operation ever writes SKIPPED. *)
Definition rec_wf (mid : string) (p : ProcessingStatus) : Prop :=
  ps_message_id p = mid ∧ ps_status p ≠ SKIPPED ∧
  (ps_status p = PROCESSING ↔ is_Some (ps_lease_expires_at p)) ∧
  (ps_status p = PROCESSING → ps_result p = PyNone ∧ ps_error p = None).

Lemma claimed_wf cfg now clk mid v : rec_wf mid (claimed cfg now clk mid v).
Proof. split_and!; simpl; [done|done| |done]. split; eauto. Qed.

Lemma completed_wf now r mid p : rec_wf mid p → rec_wf mid (completed now r p).
Proof. intros (?&_&_&_). split_and!; simpl; [done..| |done]. split; [done|by intros []]. Qed.

Lemma failed_wf now e a mid p : rec_wf mid p → rec_wf mid (failed now e a p).
Proof. intros (?&_&_&_). split_and!; simpl; [done..| |done]. split; [done|by intros []]. Qed.

Lemma do_claim_wf cfg now clk mid v p :
  (∀ q, v = Some q → rec_wf mid q) → (do_claim cfg now clk mid v).1 = Some p → rec_wf mid p.
Proof.
  intros Hv. unfold do_claim. destruct (claimable cfg clk v); simpl; [|apply Hv].
  intros [= <-]. apply claimed_wf.
Qed.

Lemma do_complete_wf now r mid v p :
  (∀ q, v = Some q → rec_wf mid q) → do_complete now r v = Some p → rec_wf mid p.
Proof.
  intros Hv. destruct v as [q|]; simpl; [|done]. case_decide; [|apply Hv].
  intros [= <-]. by apply completed_wf, Hv.
Qed.

Lemma do_fail_wf g now e a mid v p :
  (∀ q, v = Some q → rec_wf mid q) → do_fail g now e a v = Some p → rec_wf mid p.
Proof.
  intros Hv. destruct v as [q|]; simpl; [|done]. case_decide; [apply Hv|].
  intros [= <-]. by apply failed_wf, Hv.
Qed.

#[export] Hint Resolve claimed_wf completed_wf failed_wf do_claim_wf do_complete_wf do_fail_wf : dedup.

(** *** Labelled steps over all records *)

Definition amap : Type := string → option ProcessingStatus.

Definition upd (mid : string) (v : option ProcessingStatus) (m : amap) : amap :=
  λ k, if decide (k = mid) then v else m k.

Inductive label :=
| LClaim (now clk : Z) (mid : string) (won : bool)
| LComplete (now : Z) (mid : string) (result : pyval)
| LFail (now : Z) (mid : string) (error : string) (attempts : Z)
| LDelete (mid : string)
| LTick (alive : string → Prop).

Section steps.
Context (cfg : DeduplicationConfig) (guarded : bool).

Inductive spec_step : amap → label → amap → Prop :=
| step_claim m now clk mid v won :
    do_claim cfg now clk mid (m mid) = (v, won) →
    spec_step m (LClaim now clk mid won) (upd mid v m)
| step_complete m now mid result :
    spec_step m (LComplete now mid result) (upd mid (do_complete now result (m mid)) m)
| step_fail m now mid error attempts :
    spec_step m (LFail now mid error attempts)
      (upd mid (do_fail guarded now error attempts (m mid)) m)
| step_delete m mid : spec_step m (LDelete mid) (upd mid None m)
| step_tick m m' (alive : string → Prop) :
    (∀ mid, alive mid ∧ m' mid = m mid ∨ ¬ alive mid ∧ m' mid = None) →
    spec_step m (LTick alive) m'.

Inductive spec_run : amap → list label → amap → Prop :=
| run_nil m : spec_run m [] m
| run_cons m1 l m2 ls m3 : spec_step m1 l m2 → spec_run m2 ls m3 → spec_run m1 (l :: ls) m3.

(** *** Events of one message *)

(** The label leaves the claim on [mid] alone: no failure report, no deletion,
    no expiry of the record. *)
Definition undisturbed (mid : string) (l : label) : Prop :=
  match l with
  | LFail _ mid' _ _ | LDelete mid' => mid' ≠ mid
  | LTick alive => alive mid
  | _ => True
  end.

(** As [undisturbed], but failure reports are let through. *)
Definition retained (mid : string) (l : label) : Prop :=
  match l with
  | LDelete mid' => mid' ≠ mid
  | LTick alive => alive mid
  | _ => True
  end.

(** Claims of [mid] in the label happen at a clock that satisfies [P]. *)
Definition claims_at (mid : string) (P : Z → Prop) (l : label) : Prop :=
  match l with LClaim _ clk mid' _ => mid' = mid → P clk | _ => True end.

Definition is_win (mid : string) (l : label) : bool :=
  match l with LClaim _ _ mid' won => bool_decide (mid' = mid) && won | _ => false end.

Definition is_claim (mid : string) (l : label) : bool :=
  match l with LClaim _ _ mid' _ => bool_decide (mid' = mid) | _ => false end.

Definition wins (mid : string) (ls : list label) : nat := length (List.filter (is_win mid) ls).
Definition claims (mid : string) (ls : list label) : nat := length (List.filter (is_claim mid) ls).

(** *** Typed records

    The values that the fields of [ProcessingStatus] can hold in Python: instants
    in the range of [datetime]; and attempts count from 1. *)
Definition rec_typed (p : ProcessingStatus) : Prop :=
  in_datetime (ps_created_at p) = true ∧ in_datetime (ps_updated_at p) = true ∧
  (∀ l, ps_lease_expires_at p = Some l → in_datetime l = true) ∧ (1 ≤ ps_attempts p)%Z.

(** The callers pass instants of [datetime], and report attempts from 1 on. *)
Definition label_typed (l : label) : Prop :=
  match l with
  | LClaim now clk _ _ =>
      in_datetime now = true ∧
      in_datetime (clk + processing_timeout_seconds cfg * 1000000) = true
  | LComplete now _ _ => in_datetime now = true
  | LFail now _ _ attempts => in_datetime now = true ∧ (1 ≤ attempts)%Z
  | _ => True
  end.

Definition all_typed (m : amap) : Prop := ∀ mid p, m mid = Some p → rec_typed p.

Lemma upd_typed mid v m :
  all_typed m → (∀ p, v = Some p → rec_typed p) → all_typed (upd mid v m).
Proof. intros Hm Hv k p. unfold upd. case_decide; [apply Hv|apply Hm]. Qed.

Lemma typed_step m l m' : spec_step m l m' → label_typed l → all_typed m → all_typed m'.
Proof.
  intros Hst Hl Hm. inversion Hst as [? now clk mid v won Hd|? now mid r|? now mid e a|? mid|? ? alive Ha]; subst;
    cbn in Hl; try (apply upd_typed; [done|intros p Hp]).
  - unfold do_claim in Hd. destruct (claimable _ _ _); injection Hd as <- <-; [|by eapply Hm].
    injection Hp as <-. destruct Hl as [Hn Hc]. destruct (m mid) as [q|] eqn:Hq; cbn.
    + destruct (Hm mid q Hq) as (? & ? & ? & ?). split_and!; [done..|by intros l [= <-]|cbn; lia].
    + split_and!; [done..|by intros l [= <-]|done].
  - destruct (m mid) as [q|] eqn:Hq; [|done]. cbn in Hp. destruct (Hm mid q Hq) as (? & ? & ? & ?).
    case_decide; injection Hp as <-; by split_and!.
  - destruct (m mid) as [q|] eqn:Hq; [|done]. cbn in Hp. destruct (Hm mid q Hq) as (? & ? & ? & ?).
    case_decide; injection Hp as <-; [by split_and!|]. by destruct Hl; split_and!.
  - done.
  - intros mid p Hp. destruct (Ha mid) as [[_ E]|[_ E]]; rewrite E in Hp; [by eapply Hm|done].
Qed.

Lemma typed_run m ls m' : spec_run m ls m' → Forall label_typed ls → all_typed m → all_typed m'.
Proof.
  induction 1 as [|m1 l m2 ls m3 Hst Hr IH]; intros Hl Hm; [done|]. apply Forall_cons in Hl as [Hl Hls].
  apply IH; [done|]. by eapply typed_step.
Qed.

(** *** Facts about single steps *)

Lemma upd_eq mid v m : upd mid v m mid = v.
Proof. unfold upd. by rewrite decide_True. Qed.

Lemma upd_ne mid mid' v m : mid' ≠ mid → upd mid v m mid' = m mid'.
Proof. intros. unfold upd. by rewrite decide_False. Qed.

Lemma do_claim_live now clk mid p l :
  ps_status p = PROCESSING → ps_lease_expires_at p = Some l → (clk < l)%Z →
  do_claim cfg now clk mid (Some p) = (Some p, false).
Proof.
  intros Hs Hl Hlt. unfold do_claim, claimable, retryable, orphaned, is_failed.
  rewrite Hs, Hl, bool_decide_false, bool_decide_true by done. simpl.
  by rewrite (proj2 (Z.leb_gt l clk)).
Qed.

Lemma do_claim_completed now clk mid p :
  ps_status p = COMPLETED → do_claim cfg now clk mid (Some p) = (Some p, false).
Proof.
  intros Hs. unfold do_claim, claimable, retryable, orphaned, is_failed.
  by rewrite Hs, !bool_decide_false by done.
Qed.

(** A record in PROCESSING keeps its lease and wins no claim while nobody
    disturbs it before the lease ends; it may become COMPLETED. *)
Definition held (lease : Z) (v : option ProcessingStatus) : Prop :=
  ∃ p, v = Some p ∧
    (ps_status p = PROCESSING ∧ ps_lease_expires_at p = Some lease ∨ ps_status p = COMPLETED).

Lemma held_step lease mid m l m' :
  spec_step m l m' → held lease (m mid) → undisturbed mid l →
  claims_at mid (λ clk, clk < lease)%Z l →
  held lease (m' mid) ∧ is_win mid l = false.
Proof.
  intros Hst (p & Hm & Hp) Hu Hc. inversion Hst; subst; simpl in *.
  - destruct (decide (mid0 = mid)) as [->|Hne].
    + rewrite Hm in *. specialize (Hc eq_refl).
      assert (do_claim cfg now clk mid (Some p) = (Some p, false)) as Heq.
      { destruct Hp as [[??]|?]; eauto using do_claim_live, do_claim_completed. }
      rewrite Heq in *. simplify_eq. rewrite upd_eq, andb_false_r. split; [by exists p|done].
    + rewrite upd_ne, bool_decide_false by done. split; [by exists p|done].
  - split; [|done]. destruct (decide (mid0 = mid)) as [->|Hne].
    + rewrite upd_eq, Hm. simpl. case_decide; [|by exists p].
      eexists; split; [done|by right].
    + rewrite upd_ne by done. by exists p.
  - rewrite upd_ne by done. split; [by exists p|done].
  - rewrite upd_ne by done. split; [by exists p|done].
  - split; [|done]. destruct (H mid) as [[_ ->]|[? _]]; [by exists p|done].
Qed.

Lemma held_run lease mid m ls m' :
  spec_run m ls m' → held lease (m mid) → Forall (undisturbed mid) ls →
  Forall (claims_at mid (λ clk, clk < lease)%Z) ls →
  held lease (m' mid) ∧ wins mid ls = 0.
Proof.
  induction 1 as [|m1 l m2 ls m3 Hst Hr IH]; intros Hh Hu Hc; [done|].
  inversion Hu; inversion Hc; subst.
  edestruct held_step as [Hh' Hw]; [done..|].
  unfold wins in *. simpl. rewrite Hw. by apply IH.
Qed.

(** COMPLETED is final for a guarded backend, whatever is reported later. *)
Lemma completed_step mid p m l m' :
  guarded = true → spec_step m l m' → m mid = Some p → ps_status p = COMPLETED →
  retained mid l → m' mid = Some p ∧ is_win mid l = false.
Proof.
  intros Hg Hst Hm Hp Hu. inversion Hst; subst; simpl in *.
  - destruct (decide (mid0 = mid)) as [->|Hne].
    + rewrite Hm, do_claim_completed in * by done. simplify_eq.
      by rewrite upd_eq, andb_false_r.
    + by rewrite upd_ne, bool_decide_false by done.
  - split; [|done]. destruct (decide (mid0 = mid)) as [->|Hne].
    + rewrite upd_eq, Hm. simpl. by rewrite Hp.
    + by rewrite upd_ne.
  - split; [|done]. destruct (decide (mid0 = mid)) as [->|Hne].
    + rewrite upd_eq, Hm. simpl. by rewrite decide_True; [|rewrite Hp].
    + by rewrite upd_ne.
  - by rewrite upd_ne.
  - split; [|done]. by destruct (H mid) as [[_ ->]|[? _]].
Qed.

Lemma completed_run mid p m ls m' :
  guarded = true → spec_run m ls m' → m mid = Some p → ps_status p = COMPLETED →
  Forall (retained mid) ls → m' mid = Some p ∧ wins mid ls = 0.
Proof.
  intros Hg. induction 1 as [|m1 l m2 ls m3 Hst Hr IH]; intros Hm Hp Hu; [done|].
  inversion Hu; subst.
  edestruct completed_step as [Hh' Hw]; [done..|].
  unfold wins in *. simpl. rewrite Hw. by apply IH.
Qed.

(** The race: while no record exists nothing wins but the first claim. *)
Lemma absent_run t0 mid m ls m' :
  spec_run m ls m' → m mid = None → Forall (undisturbed mid) ls →
  Forall (claims_at mid (λ clk, t0 ≤ clk < t0 + processing_timeout_seconds cfg * 1000000)%Z) ls →
  wins mid ls = Nat.min 1 (claims mid ls).
Proof.
  induction 1 as [|m1 l m2 ls m3 Hst Hr IH]; intros Hm Hu Hc; [done|].
  inversion Hu as [|?? Hu1 Hu2]; inversion Hc as [|?? Hc1 Hc2]; subst.
  assert (m2 mid = None ∧ is_claim mid l = false ∧ is_win mid l = false ∨
    ∃ lease, (t0 + processing_timeout_seconds cfg * 1000000 ≤ lease)%Z ∧
      held lease (m2 mid) ∧ is_claim mid l = true ∧ is_win mid l = true) as [Hl|Hl].
  { inversion Hst; subst; simpl in *.
    - destruct (decide (mid0 = mid)) as [->|Hne].
      + rewrite Hm in *. simpl in *. unfold do_claim in *. simpl in *. simplify_eq.
        right. rewrite upd_eq, bool_decide_true by done.
        eexists; split; [|split; [eexists; split; [done|by left]|done]].
        specialize (Hc1 eq_refl). lia.
      + left. by rewrite upd_ne, bool_decide_false.
    - left. destruct (decide (mid0 = mid)) as [->|Hne];
        [by rewrite upd_eq, Hm|by rewrite upd_ne].
    - left. by rewrite upd_ne.
    - left. by rewrite upd_ne.
    - left. by destruct (H mid) as [[_ ->]|[? _]]. }
  - destruct Hl as (Hm2 & Hc' & Hw). unfold wins, claims in *. simpl.
    rewrite Hc', Hw. by apply IH.
  - destruct Hl as (lease & Hle & Hh & Hc' & Hw).
    destruct (held_run lease mid m2 ls m3) as [_ Hz]; [done..| |].
    { eapply Forall_impl; [exact Hc2|]. intros [] ; simpl; try done. intros Hx Hy.
      specialize (Hx Hy). lia. }
    unfold wins, claims in *. simpl. rewrite Hc', Hw. simpl. by rewrite Hz.
Qed.

End steps.
End Spec.

(** ** Laws of a backend *)

Import Spec.

(** How to look at the state of a backend. *)
Class StoreView (S : Type) := {
  st_config : S → DeduplicationConfig;
  (* does mark_failed refuse records that are not PROCESSING? *)
  st_guarded : bool;
  st_inv : S → Prop;
  (* the record of a message, as get_status shows it *)
  st_view : S → amap;
  (* the clock that leases are measured on, given the caller's *)
  st_clock : Z → S → Z;
  (* the arguments the backend can represent *)
  st_claim_ok : Z → string → S → Prop;
  st_complete_ok : Z → string → pyval → Prop;
  st_fail_ok : Z → string → string → Z → Prop;
  (* the passage of time, and the records that outlive it *)
  st_elapse : Z → S → S;
  st_survives : Z → S → string → Prop;
}.

(** Nothing but the record of [mid] changed. *)
Definition st_frame {S} `{StoreView S} (mid : string) (s s' : S) : Prop :=
  st_config s' = st_config s ∧ (∀ now, st_clock now s' = st_clock now s) ∧
  (∀ mid', mid' ≠ mid → st_view s' mid' = st_view s mid').

Class DedupStoreLaws (S : Type) `{DedupStore S} `{StoreView S} : Prop := {
  claim_spec : ∀ s now mid, st_inv s → st_claim_ok now mid s →
    ∃ s', claim now mid s =
        (s', Ok (do_claim (st_config s) now (st_clock now s) mid (st_view s mid)).2) ∧
      st_inv s' ∧ st_frame mid s s' ∧
      st_view s' mid ≡ (do_claim (st_config s) now (st_clock now s) mid (st_view s mid)).1;
  mark_completed_spec : ∀ s now mid r, st_inv s → st_complete_ok now mid r →
    ∃ s', mark_completed now mid r s = (s', Ok tt) ∧ st_inv s' ∧ st_frame mid s s' ∧
      st_view s' mid ≡ do_complete now r (st_view s mid);
  mark_failed_spec : ∀ s now mid e a, st_inv s → st_fail_ok now mid e a →
    ∃ s', mark_failed now mid e a s = (s', Ok tt) ∧ st_inv s' ∧ st_frame mid s s' ∧
      st_view s' mid ≡ do_fail st_guarded now e a (st_view s mid);
  get_status_spec : ∀ s now mid, st_inv s → get_status now mid s = (s, Ok (st_view s mid));
  is_duplicate_spec : ∀ s mid, st_inv s →
    is_duplicate mid s = (s, Ok (bool_decide (is_Some (st_view s mid))));
  delete_spec : ∀ s mid, st_inv s →
    ∃ s', delete mid s = (s', Ok tt) ∧ st_inv s' ∧ st_frame mid s s' ∧ st_view s' mid = None;

  view_wf : ∀ s mid p, st_inv s → st_view s mid = Some p → rec_wf mid p;

  elapse_inv : ∀ d s, (0 ≤ d)%Z → st_inv s → st_inv (st_elapse d s);
  elapse_config : ∀ d s, st_config (st_elapse d s) = st_config s;
  elapse_view : ∀ d s mid, (0 ≤ d)%Z → st_inv s →
    (st_survives d s mid ∧ st_view (st_elapse d s) mid = st_view s mid) ∨
    (¬ st_survives d s mid ∧ st_view (st_elapse d s) mid = None);
  elapse_clock : ∀ d s now, (0 ≤ d)%Z → (st_clock now s ≤ st_clock (now + d) (st_elapse d s))%Z;
}.

(** ** The machine respects Python's equality of stored results *)

Definition amap_equiv (m1 m2 : amap) : Prop := ∀ mid, m1 mid ≡ m2 mid.

#[export] Instance amap_equivalence : Equivalence amap_equiv.
Proof.
  split; [by intros m mid|by intros m1 m2 H mid|].
  intros m1 m2 m3 H1 H2 mid. by rewrite (H1 mid).
Qed.

#[export] Instance upd_proper mid : Proper ((≡) ==> amap_equiv ==> amap_equiv) (upd mid).
Proof. intros v w Hv m1 m2 Hm k. unfold upd. by case_decide. Qed.

#[export] Instance claimable_proper cfg clk : Proper ((≡) ==> (=)) (claimable cfg clk).
Proof.
  intros v w Hv. destruct Hv as [p q Hpq|]; [|done]. simpl.
  destruct Hpq as (_&Hs&Ha&_&_&Hl&_&_).
  unfold retryable, orphaned, is_failed. by rewrite Hs, Ha, Hl.
Qed.

#[export] Instance claimed_proper cfg now clk mid : Proper ((≡) ==> (≡)) (claimed cfg now clk mid).
Proof.
  intros v w Hv. destruct Hv as [p q Hpq|]; [|done].
  destruct Hpq as (_&_&Ha&_&_&_&Hc&_). repeat split; simpl; congruence.
Qed.

Lemma do_claim_equiv cfg now clk mid v w :
  v ≡ w →
  (do_claim cfg now clk mid v).1 ≡ (do_claim cfg now clk mid w).1 ∧
  (do_claim cfg now clk mid v).2 = (do_claim cfg now clk mid w).2.
Proof.
  intros Hv. unfold do_claim. rewrite (claimable_proper cfg clk _ _ Hv).
  destruct (claimable cfg clk w); simpl; [|done]. split; [|done]. by rewrite Hv.
Qed.

#[export] Instance completed_proper now r : Proper ((≡) ==> (≡)) (completed now r).
Proof. intros p q (?&?&?&?&?&?&?&?). by repeat split. Qed.

#[export] Instance failed_proper now e a : Proper ((≡) ==> (≡)) (failed now e a).
Proof. intros p q (?&?&?&?&?&?&?&?). by repeat split. Qed.

#[export] Instance do_complete_proper now r : Proper ((≡) ==> (≡)) (do_complete now r).
Proof.
  intros v w Hv. destruct Hv as [p q Hpq|]; [|done]. simpl.
  pose proof (ps_status_proper _ _ Hpq) as Hs.
  repeat case_decide; try congruence; constructor; by rewrite ?Hpq.
Qed.

#[export] Instance do_fail_proper g now e a : Proper ((≡) ==> (≡)) (do_fail g now e a).
Proof.
  intros v w Hv. destruct Hv as [p q Hpq|]; [|done]. simpl.
  pose proof (ps_status_proper _ _ Hpq) as Hs.
  repeat case_decide; rewrite ?Hs in *; try tauto; constructor; by rewrite ?Hpq.
Qed.

Lemma spec_step_equiv cfg g m1 l m1' m2 :
  spec_step cfg g m1 l m1' → amap_equiv m1 m2 →
  ∃ m2', spec_step cfg g m2 l m2' ∧ amap_equiv m1' m2'.
Proof.
  intros Hst Hm. inversion Hst; subst.
  - destruct (do_claim_equiv cfg now clk mid _ _ (Hm mid)) as [H1 H2].
    exists (upd mid (do_claim cfg now clk mid (m2 mid)).1 m2).
    rewrite H in H1, H2. simpl in *. split.
    + constructor. rewrite H2. apply surjective_pairing.
    + by apply upd_proper.
  - eexists. split; [constructor|]. apply upd_proper; [|done]. by rewrite (Hm mid).
  - eexists. split; [constructor|]. apply upd_proper; [|done]. by rewrite (Hm mid).
  - eexists. split; [constructor|]. by apply upd_proper.
  - exists (λ mid, match m1' mid with Some _ => m2 mid | None => None end). split.
    + constructor. intros mid. destruct (H mid) as [[Ha He]|[Ha He]]; rewrite He.
      * left. split; [done|]. specialize (Hm mid).
        destruct (m1 mid); inversion Hm; congruence.
      * by right.
    + intros mid. destruct (H mid) as [[_ He]|[_ He]]; rewrite He; [|done].
      specialize (Hm mid). by destruct (m1 mid).
Qed.

#[export] Instance rec_typed_proper : Proper ((≡) ==> iff) rec_typed.
Proof.
  intros p q (_ & _ & Ha & _ & _ & Hl & Hc & Hu). unfold rec_typed. by rewrite Ha, Hl, Hc, Hu.
Qed.

Lemma all_typed_equiv m1 m2 : amap_equiv m1 m2 → all_typed m1 → all_typed m2.
Proof.
  intros He Hm mid p Hp. specialize (He mid). rewrite Hp in He.
  inversion He as [q q' Hq Hq1|]; subst. rewrite <- Hq. by apply (Hm mid).
Qed.

(** ** Refinement: a backend runs the abstract machine *)
Section Refinement.
Context {S : Type} `{DedupStoreLaws S}.

Inductive store_op :=
| OClaim (now : Z) (mid : string)
| OComplete (now : Z) (mid : string) (result : pyval)
| OFail (now : Z) (mid : string) (error : string) (attempts : Z)
| OGet (now : Z) (mid : string)
| OIsDuplicate (mid : string)
| ODelete (mid : string)
| OElapse (d : Z).

(** One call (or a passage of time), with what it did in terms of labels. *)
Definition exec_op (op : store_op) (s : S) : S * list label :=
  match op with
  | OClaim now mid =>
      let '(s', r) := claim now mid s in
      (s', match r with Ok won => [LClaim now (st_clock now s) mid won] | Err _ => [] end)
  | OComplete now mid result => ((mark_completed now mid result s).1, [LComplete now mid result])
  | OFail now mid e a => ((mark_failed now mid e a s).1, [LFail now mid e a])
  | OGet now mid => ((get_status now mid s).1, [])
  | OIsDuplicate mid => ((is_duplicate mid s).1, [])
  | ODelete mid => ((delete mid s).1, [LDelete mid])
  | OElapse d => (st_elapse d s, [LTick (st_survives d s)])
  end.

Definition op_ok (op : store_op) (s : S) : Prop :=
  match op with
  | OClaim now mid => st_claim_ok now mid s
  | OComplete now mid result => st_complete_ok now mid result
  | OFail now mid e a => st_fail_ok now mid e a
  | OElapse d => (0 ≤ d)%Z
  | _ => True
  end.

Fixpoint exec_ops (ops : list store_op) (s : S) : S * list label :=
  match ops with
  | [] => (s, [])
  | op :: ops' =>
      let '(s1, ls1) := exec_op op s in
      let '(s2, ls2) := exec_ops ops' s1 in
      (s2, ls1 ++ ls2)
  end.

Fixpoint ops_ok (ops : list store_op) (s : S) : Prop :=
  match ops with
  | [] => True
  | op :: ops' => op_ok op s ∧ ops_ok ops' (exec_op op s).1
  end.

Lemma frame_equiv mid s s' v :
  st_frame mid s s' → st_view s' mid ≡ v → amap_equiv (upd mid v (st_view s)) (st_view s').
Proof.
  intros (_ & _ & Hf) Hv k. unfold upd. case_decide as Hk; [by subst|]. by rewrite Hf.
Qed.

Lemma exec_op_refines op s :
  st_inv s → op_ok op s →
  st_inv (exec_op op s).1 ∧ st_config (exec_op op s).1 = st_config s ∧
  ∃ m, spec_run (st_config s) st_guarded (st_view s) (exec_op op s).2 m ∧
       amap_equiv m (st_view (exec_op op s).1).
Proof.
  intros Hi Hok. destruct op; simpl in *.
  - destruct (claim_spec s now mid Hi Hok) as (s' & He & Hi' & Hf & Hv). rewrite He. simpl.
    split_and!; [done|by apply Hf|]. eexists. split.
    + econstructor; [constructor; apply surjective_pairing|constructor].
    + by apply (frame_equiv _ _ s').
  - destruct (mark_completed_spec s now mid result Hi Hok) as (s' & He & Hi' & Hf & Hv).
    rewrite He. simpl. split_and!; [done|by apply Hf|]. eexists. split.
    + econstructor; [constructor|constructor].
    + by apply (frame_equiv _ _ s').
  - destruct (mark_failed_spec s now mid error attempts Hi Hok) as (s' & He & Hi' & Hf & Hv).
    rewrite He. simpl. split_and!; [done|by apply Hf|]. eexists. split.
    + econstructor; [constructor|constructor].
    + by apply (frame_equiv _ _ s').
  - rewrite get_status_spec by done. simpl. split_and!; [done..|].
    eexists; split; [constructor|done].
  - rewrite is_duplicate_spec by done. simpl. split_and!; [done..|].
    eexists; split; [constructor|done].
  - destruct (delete_spec s mid Hi) as (s' & He & Hi' & Hf & Hv). rewrite He. simpl.
    split_and!; [done|by apply Hf|]. eexists. split.
    + econstructor; [constructor|constructor].
    + apply (frame_equiv _ _ s'); [done|by rewrite Hv].
  - split_and!; [by apply elapse_inv|apply elapse_config|]. eexists. split.
    + econstructor; [constructor|constructor]. intros mid. by apply elapse_view.
    + done.
Qed.

Lemma spec_run_equiv cfg g m1 ls m1' m2 :
  spec_run cfg g m1 ls m1' → amap_equiv m1 m2 →
  ∃ m2', spec_run cfg g m2 ls m2' ∧ amap_equiv m1' m2'.
Proof.
  intros Hr. revert m2. induction Hr as [m|m1 l m2 ls m3 Hst Hr IH]; intros n1 Hn.
  - eexists; split; [constructor|done].
  - destruct (spec_step_equiv _ _ _ _ _ _ Hst Hn) as (n2 & Hst' & Hn2).
    destruct (IH _ Hn2) as (n3 & Hr' & Hn3).
    exists n3. split; [by econstructor|done].
Qed.

Lemma spec_run_app cfg g m1 ls1 m2 ls2 m3 :
  spec_run cfg g m1 ls1 m2 → spec_run cfg g m2 ls2 m3 → spec_run cfg g m1 (ls1 ++ ls2) m3.
Proof. induction 1; simpl; [done|]. intros. econstructor; eauto. Qed.

Lemma exec_ops_app ops1 ops2 s :
  exec_ops (ops1 ++ ops2) s =
  ((exec_ops ops2 (exec_ops ops1 s).1).1, (exec_ops ops1 s).2 ++ (exec_ops ops2 (exec_ops ops1 s).1).2).
Proof.
  revert s. induction ops1 as [|op ops1 IH]; intros s; simpl.
  { by destruct (exec_ops ops2 s). }
  destruct (exec_op op s) as [s1 ls1]. rewrite IH.
  destruct (exec_ops ops1 s1) as [s2 ls2]. simpl. by rewrite app_assoc.
Qed.

Lemma exec_ops_refines ops s :
  st_inv s → ops_ok ops s →
  st_inv (exec_ops ops s).1 ∧ st_config (exec_ops ops s).1 = st_config s ∧
  ∃ m, spec_run (st_config s) st_guarded (st_view s) (exec_ops ops s).2 m ∧
       amap_equiv m (st_view (exec_ops ops s).1).
Proof.
  revert s. induction ops as [|op ops IH]; intros s Hi Hok; simpl.
  - split_and!; [done..|]. eexists; split; [constructor|done].
  - destruct Hok as [Ho Hok]. destruct (exec_op_refines op s Hi Ho) as (Hi1 & Hc1 & m1 & Hr1 & Hm1).
    destruct (exec_op op s) as [s1 ls1] eqn:E1. simpl in *.
    destruct (IH s1 Hi1 Hok) as (Hi2 & Hc2 & m2 & Hr2 & Hm2).
    destruct (exec_ops ops s1) as [s2 ls2] eqn:E2. simpl in *.
    split_and!; [done|congruence|]. rewrite Hc1 in Hr2.
    destruct (spec_run_equiv _ _ _ _ _ m1 Hr2) as (m3 & Hr3 & Hm3); [by symmetry|].
    exists m3. split; [by eapply spec_run_app|]. by etrans; [symmetry|].
Qed.

End Refinement.
