(* ===== verification/MemoryStore.v ===== *)
(** * The in-memory store (dedup/memory_store.py)

    Every method body runs without an [await] between taking and releasing the
    [asyncio.Lock], so on one event loop it is one atomic action on the dict
    [_store]. *)

From S2P Require Import Prelude PyJson Models Store.

Module Memory.

(** class InMemoryDeduplicationStore *)
Record state := mkState {
  ms_store : gmap string ProcessingStatus;
  ms_config : DeduplicationConfig;
}.

Definition init (config : option DeduplicationConfig) : state :=
  mkState ∅ (default default_config config).

Definition set_store (m : gmap string ProcessingStatus) (s : state) : state :=
  mkState m (ms_config s).

(** [self._store[mid] = p] *)
Definition put (mid : string) (p : ProcessingStatus) : action state unit := λ s,
  (set_store (<[mid := p]> (ms_store s)) s, Ok tt).

Definition claim (now : Z) (message_id : string) : action state bool := λ s,
  (lease_expires_at ← act_lift (datetime_add now (processing_timeout_seconds (ms_config s)));
   match ms_store s !! message_id with
   | Some existing =>
       let retryable :=
         (is_failed existing && retry_failed (ms_config s) &&
          (ps_attempts existing <? max_retries (ms_config s))%Z)%bool in
       let orphaned :=
         (bool_decide (ps_status existing = PROCESSING) &&
          match ps_lease_expires_at existing with Some l => (l <=? now)%Z | None => false end)%bool in
       if (retryable || orphaned)%bool then
         _ ← put message_id
           {| ps_message_id := message_id;
              ps_status := PROCESSING;
              ps_attempts := ps_attempts existing + 1;
              ps_result := PyNone;
              ps_error := None;
              ps_lease_expires_at := Some lease_expires_at;
              ps_created_at := ps_created_at existing;
              ps_updated_at := now |};
         mret true
       else mret false
   | None =>
       _ ← put message_id
         {| ps_message_id := message_id;
            ps_status := PROCESSING;
            ps_attempts := 1;
            ps_result := PyNone;
            ps_error := None;
            ps_lease_expires_at := Some lease_expires_at;
            ps_created_at := now;
            ps_updated_at := now |};
       mret true
   end) s.

Definition is_duplicate (message_id : string) : action state bool := λ s,
  (s, Ok (bool_decide (is_Some (ms_store s !! message_id)))).

Definition mark_completed (now : Z) (message_id : string) (result : pyval) : action state unit := λ s,
  match ms_store s !! message_id with
  | Some record =>
      if bool_decide (ps_status record ≠ PROCESSING) then (s, Ok tt)
      else put message_id
        {| ps_message_id := ps_message_id record;
           ps_status := COMPLETED;
           ps_attempts := ps_attempts record;
           ps_result := result;
           ps_error := ps_error record;
           ps_lease_expires_at := None;
           ps_created_at := ps_created_at record;
           ps_updated_at := now |} s
  | None => (s, Ok tt)
  end.

Definition mark_failed (now : Z) (message_id : string) (error : string) (attempts : Z)
    : action state unit := λ s,
  match ms_store s !! message_id with
  | Some record =>
      put message_id
        {| ps_message_id := ps_message_id record;
           ps_status := FAILED;
           ps_attempts := attempts;
           ps_result := ps_result record;
           ps_error := Some error;
           ps_lease_expires_at := None;
           ps_created_at := ps_created_at record;
           ps_updated_at := now |} s
  | None => (s, Ok tt)
  end.

Definition get_status (_now : Z) (message_id : string) : action state (option ProcessingStatus) := λ s,
  (s, Ok (ms_store s !! message_id)).

Definition delete (message_id : string) : action state unit := λ s,
  (set_store (base.delete message_id (ms_store s)) s, Ok tt).

Definition size (s : state) : nat := base.size (ms_store s).
Definition clear (s : state) : state := set_store ∅ s.
Definition close : action state unit := λ s, (s, Ok tt).

#[export] Instance memory_store : DedupStore state := {
  Store.claim := claim;
  Store.is_duplicate := is_duplicate;
  Store.mark_completed := mark_completed;
  Store.mark_failed := mark_failed;
  Store.get_status := get_status;
  Store.delete := delete;
  Store.close := close;
}.

(** ** Invariant and view *)

Definition inv (s : state) : Prop := map_Forall Spec.rec_wf (ms_store s).

Definition claim_ok (now : Z) (mid : string) (s : state) : Prop :=
  in_datetime now = true ∧
  in_datetime (now + processing_timeout_seconds (ms_config s) * 1000000) = true.

#[export] Instance memory_view : StoreView state := {
  st_config := ms_config;
  st_guarded := false;
  st_inv := inv;
  st_view := λ s mid, ms_store s !! mid;
  st_clock := λ now _, now;
  st_claim_ok := claim_ok;
  st_complete_ok := λ _ _ _, True;
  st_fail_ok := λ _ _ _ _, True;
  st_elapse := λ _ s, s;
  st_survives := λ _ _ _, True;
}.

Lemma init_inv cfg : inv (init cfg).
Proof. apply map_Forall_empty. Qed.

(** The code of each operation, as one update of the dict by the abstract
    machine. *)
Definition update_with (mid : string) (v : option ProcessingStatus) (s : state) : state :=
  match v with Some p => set_store (<[mid := p]> (ms_store s)) s | None => s end.

Lemma set_store_id mid p s :
  ms_store s !! mid = Some p → set_store (<[mid := p]> (ms_store s)) s = s.
Proof. intros H. destruct s as [m c]. unfold set_store. simpl in *. by rewrite insert_id. Qed.

Lemma claim_eq now mid s :
  claim_ok now mid s →
  claim now mid s =
    (update_with mid (Spec.do_claim (ms_config s) now now mid (ms_store s !! mid)).1 s,
     Ok (Spec.do_claim (ms_config s) now now mid (ms_store s !! mid)).2).
Proof.
  intros [Hn Hl]. unfold claim, act_lift. cbn. rewrite datetime_add_ok by done. cbn.
  unfold Spec.do_claim, Spec.claimable, Spec.claimed, Spec.retryable, Spec.orphaned.
  destruct (ms_store s !! mid) as [p|] eqn:Hp; [|done].
  destruct (_ || _)%bool; cbn; [done|]. by rewrite set_store_id.
Qed.

Lemma mark_completed_eq now mid r s :
  mark_completed now mid r s =
    (update_with mid (Spec.do_complete now r (ms_store s !! mid)) s, Ok tt).
Proof.
  unfold mark_completed, Spec.do_complete.
  destruct (ms_store s !! mid) as [p|] eqn:Hp; [|done].
  case_decide as Hs.
  - by rewrite bool_decide_false by naive_solver.
  - rewrite bool_decide_true by done. simpl. by rewrite set_store_id.
Qed.

Lemma mark_failed_eq now mid e a s :
  mark_failed now mid e a s =
    (update_with mid (Spec.do_fail false now e a (ms_store s !! mid)) s, Ok tt).
Proof.
  unfold mark_failed, Spec.do_fail.
  destruct (ms_store s !! mid) as [p|] eqn:Hp; [|done].
  by rewrite decide_False by naive_solver.
Qed.

Lemma update_inv mid v s :
  inv s → (∀ p, v = Some p → Spec.rec_wf mid p) → inv (update_with mid v s).
Proof.
  intros Hi Hv. destruct v as [p|]; [|done]. unfold inv. simpl.
  apply map_Forall_insert_2; auto.
Qed.

Lemma update_frame mid v s : st_frame mid s (update_with mid v s).
Proof.
  split_and!; [by destruct v|done|]. intros k Hk. destruct v as [p|]; simpl; [|done].
  by rewrite lookup_insert_ne.
Qed.

Lemma update_lookup mid v s :
  (v = None → ms_store s !! mid = None) → ms_store (update_with mid v s) !! mid = v.
Proof. intros Hv. destruct v as [p|]; simpl; [by rewrite lookup_insert_eq|by apply Hv]. Qed.

Lemma inv_wf mid s q : inv s → ms_store s !! mid = Some q → Spec.rec_wf mid q.
Proof. intros Hi Hq. by apply (Hi mid). Qed.
#[local] Hint Resolve inv_wf : dedup.

#[export] Instance memory_laws : DedupStoreLaws state.
Proof.
  split.
  - intros s now mid Hi Hok. simpl in *. rewrite claim_eq by done. eexists. split; [done|].
    split_and!; [apply update_inv; [done|]|apply update_frame|].
    + intros p. apply Spec.do_claim_wf. intros q. by apply inv_wf.
    + rewrite update_lookup; [done|]. unfold Spec.do_claim. by destruct Spec.claimable.
  - intros s now mid r Hi _. simpl in *. rewrite mark_completed_eq. eexists. split; [done|].
    split_and!; [apply update_inv; [done|]|apply update_frame|].
    + intros p. apply Spec.do_complete_wf. intros q. by apply inv_wf.
    + rewrite update_lookup; [done|]. destruct (ms_store s !! mid); simpl; [by case_decide|done].
  - intros s now mid e a Hi _. simpl in *. rewrite mark_failed_eq. eexists. split; [done|].
    split_and!; [apply update_inv; [done|]|apply update_frame|].
    + intros p. apply Spec.do_fail_wf. intros q. by apply inv_wf.
    + rewrite update_lookup; [done|]. destruct (ms_store s !! mid); simpl; repeat case_decide; done.
  - done.
  - done.
  - intros s mid Hi. simpl in *. eexists. split; [done|].
    split_and!; [by apply map_Forall_delete|split_and!; simpl; [done..|]|].
    + intros k Hk. by rewrite lookup_delete_ne.
    + apply lookup_delete_eq.
  - intros s mid p. apply inv_wf.
  - done.
  - done.
  - intros d s mid _ _. by left.
  - intros d s now Hd. simpl. lia.
Qed.

End Memory.
