(* ===== verification/StoreProps.v ===== *)
(** * Properties of every store

    What a backend with an instance of [DedupStoreLaws] guarantees about a
    message under any sequence of calls, by any number of callers, and of time
    passing.  The theorems speak of the concrete calls ([exec_ops]); their
    proofs go through the abstract machine of Store.v. *)

From S2P Require Import Prelude PyJson Models Store MemoryStore.
Import Spec.

Section Generic.
Context {S : Type} `{DedupStoreLaws S}.

(** C13: refinement. The calls of any interleaving that the store can represent ([ops_ok]; the in-memory
    store needs instants of datetime, Redis also ids in UTF-8, results of JSON without fractions, empty
    lists and integers of 10^14 or more, and error texts that are not empty) act on the records like a
    run of the abstract machine, with the same outcomes of the claims. *)
Theorem store_refines_machine ops s :
  st_inv s → ops_ok ops s →
  st_inv (exec_ops ops s).1 ∧
  ∃ m, spec_run (st_config s) st_guarded (st_view s) (exec_ops ops s).2 m ∧
       amap_equiv m (st_view (exec_ops ops s).1).
Proof.
  intros Hi Hok. destruct (exec_ops_refines ops s Hi Hok) as (Hi' & _ & Hm). by split.
Qed.

(** C17: the claim race.  A message without a record is won by exactly one of
    its claims, however many there are, as long as they fall within one lease and
    nobody fails, deletes or outlives the record. *)
Theorem one_winner ops s t0 mid :
  st_inv s → ops_ok ops s → st_view s mid = None →
  Forall (undisturbed mid) (exec_ops ops s).2 →
  Forall (claims_at mid (λ clk,
    t0 ≤ clk < t0 + processing_timeout_seconds (st_config s) * 1000000)%Z) (exec_ops ops s).2 →
  wins mid (exec_ops ops s).2 = Nat.min 1 (claims mid (exec_ops ops s).2).
Proof.
  intros Hi Hok Hv Hu Hc. destruct (exec_ops_refines ops s Hi Hok) as (_ & _ & m & Hr & _).
  by eapply absent_run.
Qed.

(** The lease excludes.  Once a claim is won nobody else wins the message
    before the lease ends, unless the record is failed, deleted or outlived. *)
Theorem lease_excludes s now mid s' ops :
  st_inv s → st_claim_ok now mid s → claim now mid s = (s', Ok true) →
  ops_ok ops s' →
  Forall (undisturbed mid) (exec_ops ops s').2 →
  Forall (claims_at mid (λ clk,
    clk < st_clock now s + processing_timeout_seconds (st_config s) * 1000000)%Z)
    (exec_ops ops s').2 →
  wins mid (exec_ops ops s').2 = 0.
Proof.
  intros Hi Hok Hcl Hops Hu Hc.
  destruct (claim_spec s now mid Hi Hok) as (s1 & E & Hi' & Hf & Hv).
  rewrite Hcl in E. injection E as <- Hw. revert Hv. unfold do_claim in *.
  destruct (claimable _ _ _); [simpl|done]. intros Hv.
  destruct (exec_ops_refines ops s' Hi' Hops) as (_ & _ & m & Hr & _).
  eapply (held_run _ _ _ mid); [exact Hr| |exact Hu|exact Hc].
  inversion Hv as [p q (Hm & Hs & _ & _ & _ & Hl & _) Hp|]; subst.
  exists p. split; [done|]. left. by rewrite Hs, Hl.
Qed.

(** C18: COMPLETED is final in a store that guards its updates: later calls
    neither change the record nor win its message, until it is deleted or
    outlives its TTL. *)
Theorem completed_final ops s mid p :
  st_guarded = true → st_inv s → ops_ok ops s →
  st_view s mid = Some p → ps_status p = COMPLETED →
  Forall (retained mid) (exec_ops ops s).2 →
  st_view (exec_ops ops s).1 mid ≡ Some p ∧ wins mid (exec_ops ops s).2 = 0.
Proof.
  intros Hg Hi Hok Hv Hs Hr. destruct (exec_ops_refines ops s Hi Hok) as (_ & _ & m & Hrun & Hm).
  destruct (completed_run _ _ mid p _ _ _ Hg Hrun Hv Hs Hr) as [Hmid Hw].
  split; [|done]. by rewrite <- (Hm mid), Hmid.
Qed.

(** C32: the records that any sequence of calls leaves are well-formed and typed: filed
    under their message, leased exactly while PROCESSING and then without result
    or error, and never SKIPPED; and while callers pass instants of [datetime], every
    instant stored is one, and attempts count from 1. *)
Theorem records_wellformed ops s mid p :
  st_inv s → ops_ok ops s → st_view (exec_ops ops s).1 mid = Some p →
  rec_wf mid p ∧
  (all_typed (st_view s) → Forall (label_typed (st_config s)) (exec_ops ops s).2 → rec_typed p).
Proof.
  intros Hi Hok Hv. destruct (exec_ops_refines ops s Hi Hok) as (Hi' & _ & m & Hr & Hm).
  split; [by eapply view_wf|]. intros Ht Hl.
  eapply (all_typed_equiv _ _ Hm); [|exact Hv]. by eapply typed_run.
Qed.

(** A crashed owner does not block its message: when the lease of a
    PROCESSING record has ended the next claim wins, and counts one attempt
    more. *)
Theorem orphan_reclaimed s now mid p l :
  st_inv s → st_claim_ok now mid s → st_view s mid = Some p →
  ps_status p = PROCESSING → ps_lease_expires_at p = Some l → (l ≤ st_clock now s)%Z →
  ∃ s' p', claim now mid s = (s', Ok true) ∧ st_view s' mid = Some p' ∧
    ps_status p' = PROCESSING ∧ ps_attempts p' = (ps_attempts p + 1)%Z ∧
    ps_created_at p' = ps_created_at p ∧
    ps_lease_expires_at p' =
      Some (st_clock now s + processing_timeout_seconds (st_config s) * 1000000)%Z.
Proof.
  intros Hi Hok Hv Hs Hl Hle.
  destruct (claim_spec s now mid Hi Hok) as (s' & E & _ & _ & Hv').
  assert (do_claim (st_config s) now (st_clock now s) mid (st_view s mid) =
          (Some (claimed (st_config s) now (st_clock now s) mid (st_view s mid)), true)) as Hd.
  { unfold do_claim, claimable. rewrite Hv. unfold orphaned.
    by rewrite Hs, Hl, bool_decide_true, (proj2 (Z.leb_le _ _) Hle), orb_true_r. }
  rewrite Hd, Hv in Hv', E. simpl in *.
  inversion Hv' as [p' q (_ & Hs' & Ha & _ & _ & Hl' & Hc & _) Hp|]; subst.
  eexists _, _. split_and!; [exact E|done|exact Hs'|exact Ha|exact Hc|exact Hl'].
Qed.

End Generic.

(** C40: the in-memory store lets [mark_failed] overwrite COMPLETED, after which
    the message can be claimed, and handled, again. *)
Theorem memory_completed_reopens s now1 now2 mid p e a :
  Memory.inv s → Memory.ms_store s !! mid = Some p → ps_status p = COMPLETED →
  retry_failed (Memory.ms_config s) = true → (a < max_retries (Memory.ms_config s))%Z →
  Memory.claim_ok now2 mid s →
  ∃ s' s'', Memory.mark_failed now1 mid e a s = (s', Ok tt) ∧
    Memory.claim now2 mid s' = (s'', Ok true).
Proof.
  intros Hi Hp Hs Hr Ha Hok. rewrite Memory.mark_failed_eq. eexists _, _. split; [done|].
  rewrite Memory.claim_eq.
  2:{ unfold Memory.claim_ok in *. by destruct (do_fail _ _ _ _ _). }
  rewrite Memory.update_lookup by (by destruct (Memory.ms_store s !! mid)).
  assert (do_fail false now1 e a (Memory.ms_store s !! mid) = Some (failed now1 e a p)) as ->.
  { rewrite Hp. unfold do_fail. by rewrite decide_False by naive_solver. }
  unfold do_claim, claimable, retryable. simpl.
  by rewrite Hr, (proj2 (Z.ltb_lt _ _) Ha).
Qed.

(** ** Evaluated on the in-memory store *)

#[local] Existing Instances Memory.memory_store Memory.memory_view Memory.memory_laws.

Definition fresh : Memory.state := Memory.init None.

(** Three callers race for a message; the winner completes it. *)
Definition race : list store_op :=
  [OClaim 0 "m1"; OClaim 10 "m1"; OGet 11 "m1"; OComplete 20 "m1" (PyJson (JInt 1)); OClaim 30 "m1"].

Lemma race_ok : st_inv fresh ∧ ops_ok race fresh.
Proof. split; [apply Memory.init_inv|]. vm_compute. repeat split. Qed.

Lemma store_refines_machine_witness :
  (exec_ops race fresh).2 =
    [LClaim 0 0 "m1" true; LClaim 10 10 "m1" false; LComplete 20 "m1" (PyJson (JInt 1));
     LClaim 30 30 "m1" false] ∧
  ∃ m, spec_run default_config false (st_view fresh) (exec_ops race fresh).2 m ∧
       amap_equiv m (st_view (exec_ops race fresh).1).
Proof.
  split; [vm_compute; reflexivity|].
  exact (proj2 (store_refines_machine race fresh (proj1 race_ok) (proj2 race_ok))).
Defined.

Lemma one_winner_witness : wins "m1" (exec_ops race fresh).2 = Nat.min 1 3.
Proof.
  apply (one_winner race fresh 0 "m1" (proj1 race_ok) (proj2 race_ok));
    [vm_compute; reflexivity|..];
    change (exec_ops race fresh).2 with
      [LClaim 0 0 "m1" true; LClaim 10 10 "m1" false; LComplete 20 "m1" (PyJson (JInt 1));
       LClaim 30 30 "m1" false];
    repeat constructor; simpl; intros; lia.
Defined.

Definition raced : Memory.state := (exec_ops [OClaim 0 "m1"] fresh).1.

Lemma lease_excludes_witness :
  wins "m1" (exec_ops [OClaim 5 "m1"; OClaim 299999999 "m1"] raced).2 = 0.
Proof.
  apply (lease_excludes fresh 0 "m1" raced); [exact (proj1 race_ok)|done|done|done|..];
    change (exec_ops _ raced).2 with
      [LClaim 5 5 "m1" false; LClaim 299999999 299999999 "m1" false];
    repeat constructor; simpl; intros; lia.
Defined.

Lemma records_wellformed_witness :
  ∃ p, st_view (exec_ops race fresh).1 "m1" = Some p ∧ rec_wf "m1" p ∧ rec_typed p.
Proof.
  eexists. split; [vm_compute; reflexivity|].
  destruct (records_wellformed race fresh "m1" _ (proj1 race_ok) (proj2 race_ok) eq_refl) as [Hw Ht].
  split; [exact Hw|]. apply Ht; [done|].
  change (exec_ops race fresh).2 with
    [LClaim 0 0 "m1" true; LClaim 10 10 "m1" false; LComplete 20 "m1" (PyJson (JInt 1));
     LClaim 30 30 "m1" false].
  by repeat constructor.
Defined.

Lemma orphan_reclaimed_witness :
  ∃ s' p', claim 300000000 "m1" raced = (s', Ok true) ∧ st_view s' "m1" = Some p' ∧
    ps_status p' = PROCESSING ∧ ps_attempts p' = 2%Z ∧ ps_created_at p' = 0%Z ∧
    ps_lease_expires_at p' = Some 600000000%Z.
Proof.
  assert (Hi : st_inv raced).
  { exact (proj1 (exec_ops_refines [OClaim 0 "m1"] fresh (proj1 race_ok) ltac:(by vm_compute))). }
  edestruct (orphan_reclaimed raced 300000000 "m1"
           (mkStatus "m1" PROCESSING 1 PyNone None (Some 300000000%Z) 0 0) 300000000
    Hi) as (s' & p' & ? & ? & ? & ? & ? & ?); try done.
  by exists s', p'.
Defined.

Lemma memory_completed_reopens_witness :
  ∃ s' s'', Memory.mark_failed 40 "m1" "late" 1 (exec_ops race fresh).1 = (s', Ok tt) ∧
    Memory.claim 50 "m1" s' = (s'', Ok true).
Proof.
  eapply memory_completed_reopens; try done; try (vm_compute; reflexivity).
  - apply (proj1 (exec_ops_refines race fresh (proj1 race_ok) (proj2 race_ok))).
Defined.
