(* ===== verification/Timestamp.v ===== *)
(** * Times in milliseconds as Python reads them

    [datetime.fromtimestamp(ms / 1000, UTC)]: the division rounds to a double, and
    [fromtimestamp] rounds its fraction to microseconds.  Both roundings are
    written out on integers; they give back the milliseconds up to the year 2242. *)

From S2P Require Import Prelude.

(** The integer nearest to [n / d], the even one of two. *)
Definition round_half_even (n d : Z) : Z :=
  let q := (n / d)%Z in
  let r := (n mod d)%Z in
  match (2 * r ?= d)%Z with
  | Lt => q
  | Gt => q + 1
  | Eq => if Z.even q then q else q + 1
  end%Z.

(** The double nearest to [n / d], for [0 ≤ n] and a quotient between 2^-60 and 2^53, as the pair of an
    integer of 53 bits at most and the power of two that divides it. *)
Definition nearest_double (n d : Z) : Z * Z :=
  let k := (112 - Z.log2 (n * 2 ^ 60 / d))%Z in
  (round_half_even (n * 2 ^ k) d, k).

(** Microseconds of [ms / 1000] seconds: the whole seconds of the double, and its fraction times 1e6,
    which is a double too, rounded. *)
Definition timestamp_us (ms : Z) : Z :=
  let '(m, k) := nearest_double (Z.abs ms) 1000 in
  let '(m', k') := nearest_double ((m mod 2 ^ k) * 1000000) (2 ^ k) in
  (Z.sgn ms * (m / 2 ^ k * 1000000 + round_half_even m' (2 ^ k')))%Z.

(** From here on a double has fewer than 20 bits for the fraction of a second. *)
Definition exact_ms : Z := (2 ^ 33 * 1000)%Z.

Section Rounding.
Local Open Scope Z_scope.

Lemma round_half_even_near n d : 0 < d → 2 * Z.abs (n - d * round_half_even n d) ≤ d.
Proof.
  intros Hd. unfold round_half_even. pose proof (Z.div_mod n d ltac:(lia)).
  pose proof (Z.mod_pos_bound n d Hd). destruct (Z.compare_spec (2 * (n mod d)) d) as [E|E|E];
    [destruct (Z.even (n / d))|..]; nia.
Qed.

Lemma round_half_even_unique n d z : 0 < d → 2 * Z.abs (n - d * z) < d → round_half_even n d = z.
Proof. intros Hd Hz. pose proof (round_half_even_near n d Hd). nia. Qed.

(** The scale of a quotient below [2^b]. *)
Lemma nearest_double_scale n d b :
  0 ≤ n → 0 < d → 0 ≤ b ≤ 52 → n < d * 2 ^ b → 53 - b ≤ (nearest_double n d).2.
Proof.
  intros Hn Hd Hb Hlt. cbn. assert (Hq : n * 2 ^ 60 / d < 2 ^ (b + 60)).
  { apply Z.div_lt_upper_bound; [done|]. rewrite Z.pow_add_r by lia. nia. }
  destruct (Z.eq_dec (n * 2 ^ 60 / d) 0) as [->|Hne]; [cbn; lia|].
  assert (0 ≤ n * 2 ^ 60 / d) by (apply Z.div_pos; lia).
  assert (Z.log2 (n * 2 ^ 60 / d) < b + 60) by (apply Z.log2_lt_pow2; lia). lia.
Qed.

Lemma pow_at_least k b : 0 ≤ b ≤ k → 2 ^ b ≤ 2 ^ k.
Proof. intros. apply Z.pow_le_mono_r; lia. Qed.

(** The double of [n] milliseconds in seconds: its whole part is exact, and its fraction almost. *)
Lemma seconds_double n m k :
  0 ≤ n < exact_ms → nearest_double n 1000 = (m, k) →
  2 ^ 20 ≤ 2 ^ k ∧ m / 2 ^ k = n / 1000 ∧ 0 ≤ m mod 2 ^ k < 2 ^ k ∧
  2 * Z.abs (1000 * (m mod 2 ^ k) - n mod 1000 * 2 ^ k) ≤ 1000.
Proof.
  intros [Hn Hlt] E. assert (Hk : 20 ≤ k).
  { pose proof (nearest_double_scale n 1000 33 Hn ltac:(lia) ltac:(lia)) as Hs. rewrite E in Hs.
    apply Hs. unfold exact_ms in Hlt. lia. }
  unfold nearest_double in E. set (k0 := 112 - _) in E. injection E as Em Ek. subst k0. rewrite Ek in Em.
  pose proof (pow_at_least k 20 ltac:(lia)) as HK. set (K := 2 ^ k) in *.
  pose proof (round_half_even_near (n * K) 1000 ltac:(lia)) as Hm. rewrite Em in Hm.
  pose proof (Z.div_mod n 1000 ltac:(lia)) as Hd. pose proof (Z.mod_pos_bound n 1000 ltac:(lia)) as Ht.
  set (s := n / 1000) in *. set (t := n mod 1000) in *. clearbody s t K. clear Em Ek.
  change (2 ^ 20) with 1048576 in *.
  assert (Hf : 2 * Z.abs (1000 * (m - s * K) - t * K) ≤ 1000) by (replace n with (1000 * s + t) in Hm by lia; lia).
  assert (Hr : 0 ≤ m - s * K < K).
  { assert (0 ≤ t * K ≤ 999 * K) by nia. destruct (Z.eq_dec t 0) as [->|]; [lia|]. assert (K ≤ t * K) by nia. lia. }
  assert (Hq : m / K = s) by (symmetry; apply (Z.div_unique m K s (m - s * K)); lia).
  assert (Hmod : m mod K = m - s * K) by (symmetry; apply (Z.mod_unique m K s (m - s * K)); lia).
  rewrite Hmod. by split_and!; try lia.
Qed.

(** The fraction, in microseconds. *)
Lemma micros_double t f K m k :
  1048576 ≤ K → 0 ≤ t < 1000 → 0 ≤ f < K → 2 * Z.abs (1000 * f - t * K) ≤ 1000 →
  nearest_double (f * 1000000) K = (m, k) → round_half_even m (2 ^ k) = 1000 * t.
Proof.
  intros HK Ht Hf Hnear E. assert (Hk : 33 ≤ k).
  { pose proof (nearest_double_scale (f * 1000000) K 20 ltac:(lia) ltac:(lia) ltac:(lia)) as Hs.
    rewrite E in Hs. apply Hs. change (2 ^ 20) with 1048576. nia. }
  unfold nearest_double in E. set (k0 := 112 - _) in E. injection E as Em Ek. subst k0. rewrite Ek in Em.
  pose proof (pow_at_least k 33 ltac:(lia)) as HL. set (L := 2 ^ k) in *. change (2 ^ 33) with 8589934592 in HL.
  pose proof (round_half_even_near (f * 1000000 * L) K ltac:(lia)) as Hm. rewrite Em in Hm. clearbody L. clear Em Ek.
  apply round_half_even_unique; [lia|].
  assert (Hd : 2 * Z.abs (f * 1000000 - 1000 * t * K) ≤ 1000000) by lia.
  assert (Hd' : 2 * Z.abs ((f * 1000000 - 1000 * t * K) * L) ≤ 1000000 * L) by (rewrite Z.abs_mul, (Z.abs_eq L) by lia; nia).
  assert (Hs : 2 * Z.abs (K * (m - L * (1000 * t))) ≤ K + 1000000 * L) by lia.
  rewrite Z.abs_mul, (Z.abs_eq K) in Hs by lia.
  assert (K + 1000000 * L < K * L) by nia. nia.
Qed.

(** Up to [exact_ms] nothing is lost. *)
Theorem timestamp_us_exact ms : 0 ≤ ms < exact_ms → timestamp_us ms = ms * 1000.
Proof.
  intros Hms. unfold timestamp_us. destruct (Z.eq_dec ms 0) as [->|Hne]; [done|].
  rewrite Z.abs_eq, Z.sgn_pos by lia. destruct (nearest_double ms 1000) as [m k] eqn:E1.
  destruct (seconds_double _ _ _ Hms E1) as (HK & -> & Hf & Hnear).
  destruct (nearest_double _ (2 ^ k)) as [m' k'] eqn:E2.
  rewrite (micros_double (ms mod 1000) _ _ _ _ HK (Z.mod_pos_bound ms 1000 ltac:(lia)) Hf Hnear E2).
  pose proof (Z.div_mod ms 1000 ltac:(lia)). lia.
Qed.

(** Evaluated: this year, and the first millisecond that is lost. *)
Example timestamp_us_now : timestamp_us 1700000000123 = 1700000000123000.
Proof. vm_compute. reflexivity. Qed.

Example timestamp_us_lost : timestamp_us (exact_ms + 1) = (exact_ms + 1) * 1000 - 1.
Proof. vm_compute. reflexivity. Qed.

End Rounding.
