(* ===== verification/RedisServer.v ===== *)
(** * What redis_store.py relies on: Redis and its cjson library

    Redis is not part of the program.  [RedisServer] lists the commands the
    program issues, [RedisServerLaws] the documented behaviour it relies on (of
    a server that neither evicts nor loses keys); [Cjson] and [CjsonLaws] do the
    same for the JSON library of its Lua scripts.  [Ref] is a concrete server,
    and RefCjson.v a concrete cjson over the codec of JsonText.v: the theorems
    about the Redis store are evaluated on them. *)

From S2P Require Import Prelude Utf8 PyJson.

Definition ResponseError (msg : string) : exn := Exn "ResponseError" msg true.

(** ** The server *)

Class RedisServer (R : Type) := {
  (* seen by the specification only: the clock in microseconds, and the
     instant (in milliseconds) at which a key expires *)
  redis_clock : R → Z;
  redis_deadline : string → R → option Z;
  (* commands *)
  redis_TIME : R → string * string;
  redis_GET : string → R → option string;
  redis_EXISTS : string → R → Z;
  redis_SET_PX : string → string → Z → action R unit;
  redis_SET_KEEPTTL : string → string → action R unit;
  redis_DEL : string → action R Z;
  (* the passage of a number of microseconds *)
  redis_elapse : Z → R → R;
}.

(** Lifetimes that PX accepts and a Lua number prints without an exponent. *)
Definition px_ok (ttl : Z) : bool := ((0 <? ttl) && (ttl <? 10 ^ 15))%Z.

(** Is a key with this deadline still there at this clock? *)
Definition alive_at (clock : Z) (deadline : option Z) : bool :=
  match deadline with Some dl => (clock / 1000 <=? dl)%Z | None => true end.

Definition redis_frame {R} `{RedisServer R} (k : string) (r r' : R) : Prop :=
  redis_clock r' = redis_clock r ∧
  ∀ k', k' ≠ k → redis_GET k' r' = redis_GET k' r ∧ redis_deadline k' r' = redis_deadline k' r.

Class RedisServerLaws (R : Type) `{RedisServer R} : Prop := {
  redis_TIME_spec : ∀ r,
    redis_TIME r = (Z_to_string (redis_clock r / 1000000), Z_to_string (redis_clock r mod 1000000));
  redis_EXISTS_spec : ∀ k r,
    redis_EXISTS k r = match redis_GET k r with Some _ => 1 | None => 0 end%Z;
  redis_SET_PX_ok : ∀ k v ttl r, px_ok ttl = true →
    ∃ r', redis_SET_PX k v ttl r = (r', Ok tt) ∧ redis_GET k r' = Some v ∧
      redis_deadline k r' = Some (redis_clock r / 1000 + ttl)%Z ∧ redis_frame k r r';
  redis_SET_PX_invalid : ∀ k v ttl r, (ttl ≤ 0)%Z →
    redis_SET_PX k v ttl r = (r, Err (ResponseError "invalid expire time in 'set' command"));
  redis_SET_KEEPTTL_ok : ∀ k v v0 r, redis_GET k r = Some v0 →
    ∃ r', redis_SET_KEEPTTL k v r = (r', Ok tt) ∧ redis_GET k r' = Some v ∧
      redis_deadline k r' = redis_deadline k r ∧ redis_frame k r r';
  redis_DEL_spec : ∀ k r,
    ∃ r' n, redis_DEL k r = (r', Ok n) ∧ redis_GET k r' = None ∧ redis_frame k r r';
  redis_elapse_clock : ∀ d r, redis_clock (redis_elapse d r) = (redis_clock r + d)%Z;
  redis_elapse_GET : ∀ d k r, (0 ≤ d)%Z →
    redis_GET k (redis_elapse d r) =
      if alive_at (redis_clock r + d) (redis_deadline k r) then redis_GET k r else None;
  redis_elapse_deadline : ∀ d k r v, (0 ≤ d)%Z → redis_GET k (redis_elapse d r) = Some v →
    redis_deadline k (redis_elapse d r) = redis_deadline k r;
}.

(** ** cjson *)

Class Cjson := {
  cjson_encode : jtree → res string;
  cjson_decode : string → res jtree;
}.

(** Lua has one empty table: an empty array reads back as an empty object. *)
Fixpoint lua_norm (t : jtree) : jtree :=
  match t with
  | TArr [] => TObj ∅
  | TArr l => TArr (map lua_norm l)
  | TObj m => TObj (lua_norm <$> m)
  | _ => t
  end.

(** Values that survive cjson: integers of at most 14 digits (its default
    precision), no fractions, no empty array, nested at most [depth] deep. *)
Fixpoint lua_safe (depth : nat) (t : jtree) : bool :=
  match depth with
  | O => false
  | S d =>
      match t with
      | TNull | TBool _ => true
      | TInt z => (Z.abs z <? 10 ^ 14)%Z
      | TFloat _ => false
      | TStr s => utf8_valid s
      | TArr l => (match l with [] => false | _ => true end && forallb (lua_safe d) l)%bool
      | TObj m => forallb (λ kv, utf8_valid kv.1 && lua_safe d kv.2)%bool (map_to_list m)
      end
  end.

#[global] Arguments lua_safe !_ !_ / : simpl nomatch.

(** The nesting cjson accepts. *)
Definition cjson_depth : nat := 1000.

Class CjsonLaws `{JsonCodec} `{Cjson} : Prop := {
  (* decode undoes encode, and Python reads what Lua wrote *)
  cjson_encode_spec : ∀ t, lua_safe cjson_depth t = true →
    ∃ s, cjson_encode t = Ok s ∧ cjson_decode s = Ok t ∧
      ∃ j, json_loads s = Ok j ∧ json_canon j = t;
  (* Lua reads what Python wrote *)
  cjson_decode_dumps : ∀ j, json_wf j = true →
    lua_safe cjson_depth (lua_norm (json_canon j)) = true →
    cjson_decode (json_dumps j) = Ok (lua_norm (json_canon j));
}.

Lemma lua_safe_TObj d m :
  lua_safe (S d) (TObj m) = true ↔
  map_Forall (λ k v, utf8_valid k = true ∧ lua_safe d v = true) m.
Proof.
  simpl. rewrite forallb_forall, map_Forall_to_list, Forall_forall.
  setoid_rewrite list_elem_of_In.
  split; intros H [k v] Hin; specialize (H _ Hin); simpl in *; by apply andb_true_iff.
Qed.

Lemma lua_norm_safe d t : lua_safe d t = true → lua_norm t = t.
Proof.
  revert t. induction d as [|d IH]; intros t; [done|].
  destruct t as [| | | | |l|m]; try done.
  - intros Hs. assert (Forall (λ x, lua_safe d x = true) l ∧ l ≠ []) as [Hl Hne].
    { simpl in Hs. apply andb_true_iff in Hs as [Hne Hs]. split; [|by destruct l].
      apply Forall_forall. intros x Hx. rewrite forallb_forall in Hs.
      by apply Hs, list_elem_of_In. }
    transitivity (TArr (map lua_norm l)); [by destruct l|]. f_equal. clear Hs Hne.
    induction Hl; simpl; f_equal; auto.
  - intros Hs. apply lua_safe_TObj in Hs. cbn. f_equal. apply map_eq. intros k.
    rewrite lookup_fmap. destruct (m !! k) as [v|] eqn:Hk; [|done]. simpl.
    f_equal. apply IH. by apply (Hs k).
Qed.

Lemma lua_safe_S d t : lua_safe d t = true → lua_safe (S d) t = true.
Proof.
  revert t. induction d as [|d IH]; intros t; [done|].
  destruct t as [| | | | |l|m]; try done.
  - cbn [lua_safe]. rewrite !andb_true_iff, !forallb_forall. intros [? H]. split; [done|].
    intros x Hx. by apply IH, H.
  - rewrite !lua_safe_TObj. intros H k v Hk. destruct (H k v Hk). split; [done|]. by apply IH.
Qed.

(** ** A reference server *)
Module Ref.

Record server := mkServer {
  sv_clock : Z;
  sv_db : gmap string (string * option Z);
}.

Definition visible (r : server) (e : string * option Z) : bool := alive_at (sv_clock r) e.2.

Definition live (k : string) (r : server) : option (string * option Z) :=
  match sv_db r !! k with
  | Some e => if visible r e then Some e else None
  | None => None
  end.

Definition store (k v : string) (dl : option Z) (r : server) : server :=
  mkServer (sv_clock r) (<[k := (v, dl)]> (sv_db r)).

#[export] Instance ref_server : RedisServer server := {
  redis_clock := sv_clock;
  redis_deadline := λ k r, e ← live k r; e.2;
  redis_TIME := λ r, (Z_to_string (sv_clock r / 1000000), Z_to_string (sv_clock r mod 1000000));
  redis_GET := λ k r, fst <$> live k r;
  redis_EXISTS := λ k r, match live k r with Some _ => 1 | None => 0 end%Z;
  redis_SET_PX := λ k v ttl r,
    if (ttl <=? 0)%Z then (r, Err (ResponseError "invalid expire time in 'set' command"))
    else (store k v (Some (sv_clock r / 1000 + ttl)%Z) r, Ok tt);
  redis_SET_KEEPTTL := λ k v r, (store k v (e ← live k r; e.2) r, Ok tt);
  redis_DEL := λ k r,
    (mkServer (sv_clock r) (delete k (sv_db r)),
     Ok (match live k r with Some _ => 1 | None => 0 end%Z));
  redis_elapse := λ d r, mkServer (sv_clock r + d) (sv_db r);
}.

Lemma live_store k v dl r :
  alive_at (sv_clock r) dl = true → live k (store k v dl r) = Some (v, dl).
Proof. intros H. unfold live, store, visible. simpl. rewrite lookup_insert_eq. simpl. by rewrite H. Qed.

Lemma live_store_ne k k' v dl r : k' ≠ k → live k' (store k v dl r) = live k' r.
Proof. intros H. unfold live, store, visible. simpl. by rewrite lookup_insert_ne. Qed.

Lemma store_frame k v dl r : redis_frame k r (store k v dl r).
Proof. split; [done|]. intros k' Hk. simpl. by rewrite !live_store_ne. Qed.

Lemma live_alive k r e : live k r = Some e → alive_at (sv_clock r) e.2 = true.
Proof.
  unfold live. destruct (sv_db r !! k) as [e'|]; [|done].
  destruct (visible r e') eqn:Hv; [|done]. by intros [= <-].
Qed.

(** A key that is gone stays gone. *)
Lemma alive_at_mono c d dl : (0 ≤ d)%Z → alive_at (c + d) dl = true → alive_at c dl = true.
Proof.
  intros Hd. destruct dl as [dl|]; [|done]. simpl. rewrite !Z.leb_le. intros H.
  assert (c / 1000 ≤ (c + d) / 1000)%Z by (apply Z.div_le_mono; lia). lia.
Qed.

Lemma live_elapse d k r :
  (0 ≤ d)%Z →
  live k (mkServer (sv_clock r + d) (sv_db r)) =
    match live k r with
    | Some e => if alive_at (sv_clock r + d) e.2 then Some e else None
    | None => None
    end.
Proof.
  intros Hd. unfold live, visible. simpl.
  destruct (sv_db r !! k) as [e|]; [|done].
  destruct (alive_at (sv_clock r + d) e.2) eqn:H2.
  - by rewrite (alive_at_mono _ _ _ Hd H2), H2.
  - destruct (alive_at (sv_clock r) e.2); by rewrite ?H2.
Qed.

#[export] Instance ref_laws : RedisServerLaws server.
Proof.
  split.
  - done.
  - intros k r. simpl. by destruct (live k r).
  - intros k v ttl r Hok. unfold px_ok in Hok.
    apply andb_true_iff in Hok as [Hp _]. apply Z.ltb_lt in Hp. simpl.
    rewrite (proj2 (Z.leb_gt ttl 0) Hp). eexists; split; [done|].
    assert (alive_at (sv_clock r) (Some (sv_clock r / 1000 + ttl)%Z) = true) as Ha.
    { simpl. apply Z.leb_le. lia. }
    split_and!; [by rewrite live_store|by rewrite live_store|apply store_frame].
  - intros k v ttl r H. simpl. by rewrite (proj2 (Z.leb_le ttl 0) H).
  - intros k v v0 r H. simpl in *. destruct (live k r) as [e|] eqn:He; [|done].
    eexists; split; [done|]. pose proof (live_alive _ _ _ He) as Ha. simpl.
    split_and!; [by rewrite live_store|by rewrite live_store|apply store_frame].
  - intros k r. simpl. eexists _, _. split; [done|]. split.
    + unfold live. simpl. by rewrite lookup_delete_eq.
    + split; [done|]. intros k' Hk. simpl. unfold live, visible. simpl.
      by rewrite lookup_delete_ne.
  - done.
  - intros d k r Hd. simpl. rewrite (live_elapse d k r Hd).
    destruct (live k r) as [e|] eqn:He; simpl.
    + by destruct (alive_at (sv_clock r + d) e.2).
    + done.
  - intros d k r v Hd. simpl. rewrite (live_elapse d k r Hd).
    destruct (live k r) as [e|] eqn:He; [|done]. simpl.
    by destruct (alive_at (sv_clock r + d) e.2).
Qed.

End Ref.
