(* ===== verification/RedisStore.v ===== *)
(** * The Redis store (dedup/redis_store.py)

    The two Lua scripts, statement by statement, over the server of
    RedisServer.v, and the methods that call them.  A script runs atomically on
    the server, so each is one action.  Its ARGV are strings, as redis-py sends
    them; Lua numbers are integers here (exact below 2^53). *)

From S2P Require Import Prelude Utf8 PyJson Models Timestamp Store RedisServer.

Module Redis.

(** ** Lua *)

Definition LuaError (msg : string) : exn := Exn "ResponseError" msg true.

(** [tonumber(ARGV[i])], for the decimal strings the client sends. *)
Definition lua_tonumber (s : string) : res Z :=
  match Z_of_string s with
  | Some z => Ok z
  | None => Err (LuaError "attempt to perform arithmetic on a nil value")
  end.

(** [rec[f]]: strings and arrays answer [nil] to the fields of a record. *)
Definition lua_index (t : jtree) (f : string) : res (option jtree) :=
  match t with
  | TObj m => Ok (m !! f)
  | TArr _ | TStr _ => Ok None
  | _ => Err (LuaError "attempt to index a non-table value")
  end.

(** [m[f] = v]; [nil] removes the field. *)
Definition map_set (f : string) (v : option jtree) (m : gmap string jtree) : gmap string jtree :=
  match v with Some x => <[f := x]> m | None => base.delete f m end.

Definition lua_assign (t : jtree) (f : string) (v : option jtree) : res jtree :=
  match t with
  | TObj m => Ok (TObj (map_set f v m))
  | _ => Err (LuaError "attempt to index a non-table value")
  end.

(** [tonumber(v)] of a field *)
Definition lua_number (v : option jtree) : option Z :=
  match v with
  | Some (TInt z) => Some z
  | Some (TStr s) => Z_of_string s
  | _ => None
  end.

(** [v == 'text'] *)
Definition lua_eq_str (v : option jtree) (s : string) : bool :=
  match v with Some (TStr s') => String.eqb s' s | _ => false end.

Section Store.
Context `{!JsonCodec} `{!Cjson} `{!DatetimeText} {R : Type} `{!RedisServer R}.

(** ** _LUA_CLAIM *)
Definition LUA_CLAIM
    (key message_id ttl lease retries retry_flag now_iso : string) : action R Z :=
  ttl_ms ← act_lift (lua_tonumber ttl);
  lease_ms ← act_lift (lua_tonumber lease);
  max_retries ← act_lift (lua_tonumber retries);
  let retry_failed := String.eqb retry_flag "1" in
  r ← act_get;
  let t := redis_TIME r in
  sec ← act_lift (lua_tonumber t.1);
  usec ← act_lift (lua_tonumber t.2);
  let now_ms := (sec * 1000 + usec / 1000)%Z in
  match redis_GET key r with
  | None =>
      let rec := TObj (list_to_map
        [("message_id", TStr message_id); ("status", TStr "PROCESSING");
         ("attempts", TInt 1); ("created_at", TStr now_iso); ("updated_at", TStr now_iso);
         ("lease_until_ms", TInt (now_ms + lease_ms))]%string) in
      raw ← act_lift (cjson_encode rec);
      _ ← redis_SET_PX key raw ttl_ms;
      mret 1%Z
  | Some raw =>
      rec ← act_lift (cjson_decode raw);
      attempts_f ← act_lift (lua_index rec "attempts");
      let attempts := default 1%Z (lua_number attempts_f) in
      lease_f ← act_lift (lua_index rec "lease_until_ms");
      status_f ← act_lift (lua_index rec "status");
      let retryable :=
        (lua_eq_str status_f "FAILED" && retry_failed && (attempts <? max_retries)%Z)%bool in
      let orphaned :=
        (lua_eq_str status_f "PROCESSING" &&
         match lua_number lease_f with Some l => (l <=? now_ms)%Z | None => false end)%bool in
      if negb (retryable || orphaned) then mret 0%Z
      else
        rec ← act_lift (lua_assign rec "status" (Some (TStr "PROCESSING")));
        rec ← act_lift (lua_assign rec "attempts" (Some (TInt (attempts + 1))));
        rec ← act_lift (lua_assign rec "error" None);
        rec ← act_lift (lua_assign rec "updated_at" (Some (TStr now_iso)));
        rec ← act_lift (lua_assign rec "lease_until_ms" (Some (TInt (now_ms + lease_ms))));
        raw' ← act_lift (cjson_encode rec);
        _ ← redis_SET_KEEPTTL key raw';
        mret 1%Z
  end.

(** ** _LUA_UPDATE_STATUS *)
Definition LUA_UPDATE_STATUS
    (key status now_iso result_json error attempts : string) : action R Z :=
  r ← act_get;
  match redis_GET key r with
  | None => mret (-1)%Z
  | Some raw =>
      rec ← act_lift (cjson_decode raw);
      status_f ← act_lift (lua_index rec "status");
      if negb (lua_eq_str status_f "PROCESSING") then mret 0%Z
      else
        rec ← act_lift (lua_assign rec "status" (Some (TStr status)));
        rec ← act_lift (lua_assign rec "updated_at" (Some (TStr now_iso)));
        rec ← act_lift (
          if String.eqb result_json "" then Ok rec
          else v ← cjson_decode result_json; lua_assign rec "result" (Some v));
        rec ← act_lift (
          if String.eqb error "" then Ok rec
          else lua_assign rec "error" (Some (TStr error)));
        rec ← act_lift (
          if String.eqb attempts "" then Ok rec
          else lua_assign rec "attempts" (TInt <$> Z_of_string attempts));
        rec ← act_lift (lua_assign rec "lease_until_ms" None);
        raw' ← act_lift (cjson_encode rec);
        _ ← redis_SET_KEEPTTL key raw';
        mret 1%Z
  end.

(** ** class RedisDeduplicationStore *)
Record state := mkState {
  rs_client : R;
  rs_config : DeduplicationConfig;
}.

Definition init (client : R) (config : option DeduplicationConfig) : state :=
  mkState client (default default_config config).

(** A command or a script sent through [self._client]. *)
Definition on_client {A} (a : action R A) : action state A := λ s,
  let '(r', o) := a (rs_client s) in (mkState r' (rs_config s), o).

Definition redis_key (message_id : string) : string := "dedup:" +:+ message_id.

Definition claim (now : Z) (message_id : string) : action state bool := λ s,
  (claimed ← on_client (LUA_CLAIM (redis_key message_id) message_id
     (Z_to_string (ttl_seconds (rs_config s) * 1000))
     (Z_to_string (processing_timeout_seconds (rs_config s) * 1000))
     (Z_to_string (max_retries (rs_config s)))
     (if retry_failed (rs_config s) then "1" else "0")
     (isoformat now));
   mret (negb (claimed =? 0)%Z)) s.

Definition is_duplicate (message_id : string) : action state bool := λ s,
  (s, Ok (negb (redis_EXISTS (redis_key message_id) (rs_client s) =? 0)%Z)).

Definition run_update_script (now : Z) (message_id : string) (status : StatusValue)
    (result_json error attempts : string) : action state Z :=
  on_client (LUA_UPDATE_STATUS (redis_key message_id) (status_str status) (isoformat now)
    result_json error attempts).

(** [_check_script_return]: the warnings that it logs. *)
Definition check_script_return (message_id : string) (ret : Z) (operation : string) : list string :=
  if (ret =? -1)%Z then [operation +:+ ": key not found (expired?) message_id=" +:+ message_id]
  else if (ret =? 0)%Z then
    [operation +:+ ": status already terminal, skipped message_id=" +:+ message_id]
  else [].

(** The two marks, with what they log. *)
Definition mark_completed_logged (now : Z) (message_id : string) (result : pyval)
    : action state (list string) :=
  result_json ← act_lift (if is_none result then Ok ""%string else py_dumps result);
  ret ← run_update_script now message_id COMPLETED result_json "" "";
  mret (check_script_return message_id ret "mark_completed").

Definition mark_completed (now : Z) (message_id : string) (result : pyval) : action state unit :=
  _ ← mark_completed_logged now message_id result; mret tt.

Definition mark_failed_logged (now : Z) (message_id : string) (error : string) (attempts : Z)
    : action state (list string) :=
  ret ← run_update_script now message_id FAILED "" error (Z_to_string attempts);
  mret (check_script_return message_id ret "mark_failed").

Definition mark_failed (now : Z) (message_id : string) (error : string) (attempts : Z)
    : action state unit :=
  _ ← mark_failed_logged now message_id error attempts; mret tt.

(** *** get_status *)

Definition ValidationError (field : string) : exn :=
  Exn "ValidationError" ("1 validation error for ProcessingStatus: " +:+ field) true.

(** [datetime.fromtimestamp(ms / 1000, UTC)] *)
Definition fromtimestamp_ms (ms : Z) : res Z :=
  if in_datetime (timestamp_us ms) then Ok (timestamp_us ms) else Err (ValueError "year is out of range").

Definition field {A} (name : string) (kvs : list (string * json)) (f : json → option A)
    (missing : res A) : res A :=
  match dict_lookup name kvs with
  | None => missing
  | Some v => match f v with Some a => Ok a | None => Err (ValidationError name) end
  end.

Definition as_str (j : json) : option string := match j with JStr s => Some s | _ => None end.
Definition as_int (j : json) : option Z := match j with JInt z => Some z | _ => None end.
Definition as_opt {A} (f : json → option A) (j : json) : option (option A) :=
  match j with JNull => Some None | _ => Some <$> f j end.
Definition as_datetime (j : json) : option Z := s ← as_str j; parse_datetime s.

(** [ProcessingStatus] built from the keyword arguments [data], with the
    defaults of its fields; [lease] is the value under "lease_expires_at" when
    the caller has put a datetime there. *)
Definition ProcessingStatus_of (now : Z) (data : list (string * json)) (lease : option Z)
    : res ProcessingStatus :=
  message_id ← field "message_id" data as_str (Err (ValidationError "message_id"));
  status ← field "status" data (λ j, s ← as_str j; status_of_str s) (Err (ValidationError "status"));
  attempts ← field "attempts" data as_int (Ok 1%Z);
  result ← field "result" data (λ j, Some (PyJson j)) (Ok PyNone);
  error ← field "error" data (as_opt as_str) (Ok None);
  lease_expires_at ←
    match lease with
    | Some l => Ok (Some l)
    | None => field "lease_expires_at" data (as_opt as_datetime) (Ok None)
    end;
  created_at ← field "created_at" data as_datetime (Ok now);
  updated_at ← field "updated_at" data as_datetime (Ok now);
  Ok {| ps_message_id := message_id; ps_status := status; ps_attempts := attempts;
        ps_result := result; ps_error := error; ps_lease_expires_at := lease_expires_at;
        ps_created_at := created_at; ps_updated_at := updated_at |}.

(** [json.loads(raw)] turned into a ProcessingStatus.  The scripts write
    [lease_until_ms] as an integer or not at all. *)
Definition status_of_raw (now : Z) (raw : string) : res ProcessingStatus :=
  data ← json_loads raw;
  match data with
  | JObj kvs =>
      let rest := dict_pop "lease_until_ms" kvs in
      match dict_get "lease_until_ms" kvs with
      | JNull => ProcessingStatus_of now rest None
      | JInt ms => l ← fromtimestamp_ms ms; ProcessingStatus_of now rest (Some l)
      | _ => Err (TypeError "unsupported operand type(s) for /")
      end
  | _ => Err (Exn "AttributeError" "object has no attribute 'pop'" true)
  end.

Definition get_status (now : Z) (message_id : string) : action state (option ProcessingStatus) := λ s,
  match redis_GET (redis_key message_id) (rs_client s) with
  | None => (s, Ok None)
  | Some raw => (s, Some <$> status_of_raw now raw)
  end.

Definition delete (message_id : string) : action state unit :=
  _ ← on_client (redis_DEL (redis_key message_id)); mret tt.

Definition close : action state unit := λ s, (s, Ok tt).

#[export] Instance redis_store : DedupStore state := {
  Store.claim := claim;
  Store.is_duplicate := is_duplicate;
  Store.mark_completed := mark_completed;
  Store.mark_failed := mark_failed;
  Store.get_status := get_status;
  Store.delete := delete;
  Store.close := close;
}.

End Store.
Arguments state : clear implicits.
End Redis.
