(* ===== verification/RedisTable.v ===== *)
(** * Records as Lua tables

    [rec_tree] is the Lua table that stands for a record.  The table survives
    cjson, Python reads the record back from its text, and the assignments of
    the scripts turn the table of a record into the table of the record that the
    abstract machine computes. *)

From S2P Require Import Prelude Utf8 PyJson Models Timestamp Store RedisServer RedisStore.

Module RedisTable.
Import Redis.

(** ** Lua tables of records *)

Definition rec_map (p : ProcessingStatus) : gmap string jtree :=
  map_set "message_id" (Some (TStr (ps_message_id p))) $
  map_set "status" (Some (TStr (status_str (ps_status p)))) $
  map_set "attempts" (Some (TInt (ps_attempts p))) $
  map_set "lease_until_ms" ((λ l, TInt (l / 1000)) <$> ps_lease_expires_at p) $
  map_set "error" (TStr <$> ps_error p) $
  map_set "result"
    (match ps_result p with PyJson JNull | PyOpaque _ => None | PyJson j => Some (json_canon j) end) $
  ∅.

Section Table.
Context `{!DatetimeText}.

(** The table with its two time stamps. *)
Definition rec_full (p : ProcessingStatus) : gmap string jtree :=
  map_set "created_at" (Some (TStr (isoformat (ps_created_at p))))
    (map_set "updated_at" (Some (TStr (isoformat (ps_updated_at p)))) (rec_map p)).

Definition rec_tree (p : ProcessingStatus) : jtree := TObj (rec_full p).

Lemma lookup_map_set f v m k :
  map_set f v m !! k = if decide (f = k) then v else m !! k.
Proof.
  destruct v as [x|]; simpl; [apply lookup_insert|apply lookup_delete].
Qed.

(** Two tables built by [map_set] are equal when they agree on every field. *)
Ltac table_eq :=
  apply map_eq; intros ?; rewrite ?lookup_map_set, ?lookup_empty;
  repeat case_decide; simplify_eq; try done.

(** The fields of the table. *)
Section fields.
Context (p : ProcessingStatus).
Ltac table_field := unfold rec_full, rec_map; rewrite !lookup_map_set; reflexivity.

Lemma rec_message_id : rec_full p !! "message_id"%string = Some (TStr (ps_message_id p)).
Proof. table_field. Qed.
Lemma rec_status : rec_full p !! "status"%string = Some (TStr (status_str (ps_status p))).
Proof. table_field. Qed.
Lemma rec_attempts : rec_full p !! "attempts"%string = Some (TInt (ps_attempts p)).
Proof. table_field. Qed.
Lemma rec_created_at :
  rec_full p !! "created_at"%string = Some (TStr (isoformat (ps_created_at p))).
Proof. table_field. Qed.
Lemma rec_updated_at :
  rec_full p !! "updated_at"%string = Some (TStr (isoformat (ps_updated_at p))).
Proof. table_field. Qed.
Lemma rec_lease :
  rec_full p !! "lease_until_ms"%string = (λ l, TInt (l / 1000)) <$> ps_lease_expires_at p.
Proof. table_field. Qed.
Lemma rec_error : rec_full p !! "error"%string = TStr <$> ps_error p.
Proof. table_field. Qed.
Lemma rec_result :
  rec_full p !! "result"%string =
  match ps_result p with PyJson JNull | PyOpaque _ => None | PyJson j => Some (json_canon j) end.
Proof. table_field. Qed.
Lemma rec_no_expires : rec_full p !! "lease_expires_at"%string = None.
Proof. table_field. Qed.
End fields.

(** What a record must satisfy to be written as a table and read back. *)
Definition rec_ok (mid : string) (p : ProcessingStatus) : Prop :=
  Spec.rec_wf mid p ∧ utf8_valid mid = true ∧
  (Z.abs (ps_attempts p) < 10 ^ 14)%Z ∧
  (∃ j, ps_result p = PyJson j ∧ lua_safe 999 (json_canon j) = true) ∧
  (∀ e, ps_error p = Some e → utf8_valid e = true) ∧
  (∀ l, ps_lease_expires_at p = Some l → ∃ ms, l = (ms * 1000)%Z ∧ (0 ≤ ms < exact_ms)%Z) ∧
  (ps_status p = FAILED → ps_result p = PyNone) ∧
  in_datetime (ps_created_at p) = true ∧ in_datetime (ps_updated_at p) = true.

Lemma map_set_safe d f v m :
  (∀ t, v = Some t → utf8_valid f = true ∧ lua_safe d t = true) →
  lua_safe (S d) (TObj m) = true → lua_safe (S d) (TObj (map_set f v m)) = true.
Proof.
  rewrite !lua_safe_TObj. intros Hv Hm k t. rewrite lookup_map_set.
  case_decide as Hk; [subst; by apply Hv|by apply Hm].
Qed.

Lemma status_str_utf8 st : utf8_valid (status_str st) = true.
Proof. by destruct st. Qed.

Lemma lua_safe_int d z : (Z.abs z < 10 ^ 14)%Z → lua_safe (S d) (TInt z) = true.
Proof. intros Hz. by apply Z.ltb_lt. Qed.

Lemma rec_tree_safe mid p : rec_ok mid p → lua_safe cjson_depth (rec_tree p) = true.
Proof.
  intros (Hwf & Hmid & Ha & (j & Hj & Hjs) & He & Hl & _).
  unfold rec_tree, rec_full, rec_map, cjson_depth. rewrite Hj.
  repeat apply map_set_safe; try done.
  - intros t [= <-]. split; [done|]. apply isoformat_utf8.
  - intros t [= <-]. split; [done|]. apply isoformat_utf8.
  - intros t [= <-]. split; [done|]. cbn [lua_safe]. destruct Hwf as (-> & _). done.
  - intros t [= <-]. split; [done|]. apply status_str_utf8.
  - intros t [= <-]. split; [done|]. by apply lua_safe_int.
  - intros t Ht. apply fmap_Some in Ht as (l & Hp & ->). split; [done|].
    destruct (Hl l Hp) as (ms & -> & Hms). apply lua_safe_int.
    rewrite Z.div_mul by done. unfold exact_ms in Hms. lia.
  - intros t Ht. apply fmap_Some in Ht as (e & Hp & ->). split; [done|]. by apply He.
  - intros t Ht. split; [done|]. destruct j; simplify_eq; done.
Qed.

Lemma ps_equiv_result p q :
  p ≡ q → (∃ j, ps_result q = PyJson j) →
  ∃ j j', ps_result p = PyJson j ∧ ps_result q = PyJson j' ∧ json_canon j = json_canon j'.
Proof.
  intros (_&_&_&Hr&_) [j' Hj']. rewrite Hj' in Hr.
  destruct (ps_result p) as [j|]; [|done]. by exists j, j'.
Qed.

Lemma pyval_none_equiv v : v ≡ PyNone → v = PyNone.
Proof. destruct v as [j|]; [|done]. intros Hj. by rewrite (canon_TNull_inv j Hj). Qed.

Lemma rec_ok_equiv mid p q : p ≡ q → rec_ok mid q → rec_ok mid p.
Proof.
  intros Hpq (Hwf & Hmid & Ha & (j0 & Hj0 & Hs0) & He & Hl & Hf & Hc & Hu).
  destruct (ps_equiv_result _ _ Hpq) as (j & j' & Hp & Hq & Hcan); [by exists j0|].
  rewrite Hj0 in Hq. injection Hq as <-.
  destruct Hpq as (E1&E2&E3&E4&E5&E6&E7&E8).
  destruct Hwf as (W1&W2&W3&W4). unfold rec_ok, Spec.rec_wf.
  rewrite E1, E2, E3, E5, E6, E7, E8. split_and!; try assumption.
  - intros Hs. destruct (W4 Hs) as [Hn Hn']. split; [|assumption].
    apply pyval_none_equiv. by rewrite <- Hn.
  - exists j. split; [assumption|]. by rewrite Hcan.
  - intros Hs. apply pyval_none_equiv. by rewrite <- (Hf Hs).
Qed.

Lemma rec_tree_equiv p q :
  p ≡ q → (∃ j, ps_result q = PyJson j) → rec_tree p = rec_tree q.
Proof.
  intros Hpq Hj. destruct (ps_equiv_result _ _ Hpq Hj) as (j & j' & Hp & Hq & Hcan).
  destruct Hpq as (E1&E2&E3&_&E5&E6&E7&E8).
  unfold rec_tree, rec_full, rec_map. rewrite E1, E2, E3, E5, E6, E7, E8, Hp, Hq.
  destruct j, j'; try done; by rewrite Hcan.
Qed.

(** ** Python reads a table back *)

(** Read one field of a dict that agrees with the table of a record. *)
Ltac read_field Hk H :=
  let v := fresh "v" in let Hv := fresh "Hv" in let Hc := fresh "Hc" in
  destruct (canon_lookup_Some _ _ _ _ Hk H) as (v & Hv & Hc);
  rewrite ?dict_lookup_pop_ne, ?Hv by done; clear Hv;
  first [apply canon_TStr_inv in Hc | apply canon_TInt_inv in Hc]; subst v; cbn.

Lemma ProcessingStatus_of_table kvs p mid :
  (∀ k, json_canon <$> dict_lookup k kvs = rec_full p !! k) → rec_ok mid p →
  ∃ p', (∀ now, ProcessingStatus_of now (dict_pop "lease_until_ms" kvs) (ps_lease_expires_at p)
           = Ok p') ∧ p' ≡ p.
Proof.
  intros Hk (Hwf & Hmid & Ha & (j & Hj & Hjs) & He & Hl & Hf & Hc & Hu).
  set (result := match dict_lookup "result" kvs with Some v => PyJson v | None => PyNone end).
  exists (mkStatus (ps_message_id p) (ps_status p) (ps_attempts p) result (ps_error p)
    (ps_lease_expires_at p) (ps_created_at p) (ps_updated_at p)). split.
  - intros now. unfold ProcessingStatus_of, field, mbind, res_bind.
    read_field Hk (rec_message_id p). read_field Hk (rec_status p). rewrite status_of_to_str. cbn.
    read_field Hk (rec_attempts p).
    assert (match dict_lookup "result" kvs with Some v => Ok (PyJson v) | None => Ok PyNone end
      = Ok result) as -> by (unfold result; by destruct (dict_lookup "result" kvs)).
    assert (match dict_lookup "error" kvs with
      | Some v => match as_opt as_str v with Some a => Ok a | None => Err (ValidationError "error") end
      | None => Ok None end = Ok (ps_error p)) as ->.
    { pose proof (Hk "error"%string) as Hr. rewrite rec_error in Hr.
      destruct (dict_lookup "error" kvs) as [v|], (ps_error p) as [e|]; try done.
      injection Hr as Hr. by rewrite (canon_TStr_inv _ _ Hr). }
    rewrite (canon_lookup_None _ _ _ Hk (rec_no_expires p)).
    assert (match ps_lease_expires_at p with Some l => Ok (Some l) | None => Ok None end
      = Ok (ps_lease_expires_at p)) as -> by by destruct (ps_lease_expires_at p).
    read_field Hk (rec_created_at p). read_field Hk (rec_updated_at p).
    unfold as_datetime. cbn. by rewrite !parse_isoformat.
  - repeat split. simpl. rewrite Hj.
    pose proof (Hk "result"%string) as Hr. rewrite rec_result, Hj in Hr. unfold result.
    destruct (dict_lookup "result" kvs) as [v|]; destruct j; try done; by injection Hr.
Qed.

Context `{!JsonCodec}.

(** The text of a table gives the record back, at any time. *)
Lemma status_of_raw_table raw j p mid :
  json_loads raw = Ok j → json_canon j = rec_tree p → rec_ok mid p →
  ∃ p', (∀ now, status_of_raw now raw = Ok p') ∧ p' ≡ p.
Proof.
  intros Hraw Hcan Hok. destruct (canon_TObj_inv _ _ Hcan) as (kvs & -> & Hk).
  assert (∃ ol, ol = ps_lease_expires_at p ∧ ∀ now, status_of_raw now raw =
    ProcessingStatus_of now (dict_pop "lease_until_ms" kvs) ol) as (ol & -> & Heq).
  { eexists. split; [done|]. intros now.
    unfold status_of_raw. rewrite Hraw. cbn. unfold dict_get.
    pose proof (Hk "lease_until_ms"%string) as Hr. rewrite rec_lease in Hr.
    destruct Hok as (_ & _ & _ & _ & _ & Hl & _).
    destruct (ps_lease_expires_at p) as [l|] eqn:Hlease; simpl in Hr.
    - destruct (dict_lookup "lease_until_ms" kvs) as [v|]; [|done]. injection Hr as Hr.
      rewrite (canon_TInt_inv _ _ Hr). destruct (Hl l eq_refl) as (ms & -> & Hms). cbn.
      rewrite Z.div_mul by done. unfold fromtimestamp_ms. rewrite timestamp_us_exact by done.
      assert (in_datetime (ms * 1000) = true) as ->; [|done].
      unfold exact_ms in Hms. unfold in_datetime, datetime_min, datetime_max. apply andb_true_iff.
      rewrite !Z.leb_le. lia.
    - by destruct (dict_lookup "lease_until_ms" kvs). }
  destruct (ProcessingStatus_of_table kvs p mid Hk Hok) as (p' & Hp' & Hpp).
  exists p'. split; [|done]. intros now. by rewrite Heq, Hp'.
Qed.

(** ** The tables that the scripts build *)

Lemma table_first cfg now clk mid :
  rec_tree (Spec.claimed cfg now clk mid None) =
  TObj (list_to_map
    [("message_id", TStr mid); ("status", TStr "PROCESSING"); ("attempts", TInt 1);
     ("created_at", TStr (isoformat now)); ("updated_at", TStr (isoformat now));
     ("lease_until_ms", TInt ((clk + processing_timeout_seconds cfg * 1000000) / 1000))]%string).
Proof.
  unfold rec_tree, rec_full, rec_map. by f_equal.
Qed.

Lemma table_reclaim cfg now clk mid p :
  ps_message_id p = mid → ps_result p = PyNone →
  map_set "lease_until_ms"
    (Some (TInt ((clk + processing_timeout_seconds cfg * 1000000) / 1000)))
    (map_set "updated_at" (Some (TStr (isoformat now)))
      (map_set "error" None
        (map_set "attempts" (Some (TInt (ps_attempts p + 1)))
          (map_set "status" (Some (TStr "PROCESSING")) (rec_full p))))) =
  rec_full (Spec.claimed cfg now clk mid (Some p)).
Proof.
  intros <- Hr. unfold rec_full, rec_map. rewrite Hr. cbn -[map_set]. table_eq.
Qed.

Lemma table_completed now j p :
  ps_result p = PyNone → ps_status p = PROCESSING →
  map_set "lease_until_ms" None
    (match j with
     | JNull => id
     | _ => map_set "result" (Some (json_canon j))
     end (map_set "updated_at" (Some (TStr (isoformat now)))
       (map_set "status" (Some (TStr "COMPLETED")) (rec_full p)))) =
  rec_full (Spec.completed now (PyJson j) p).
Proof.
  intros Hr Hs. unfold rec_full, rec_map. rewrite Hr. destruct j; cbn -[map_set json_canon]; table_eq.
Qed.

Lemma table_failed now e a p :
  map_set "lease_until_ms" None
    (map_set "attempts" (Some (TInt a))
      (map_set "error" (Some (TStr e))
        (map_set "updated_at" (Some (TStr (isoformat now)))
          (map_set "status" (Some (TStr "FAILED")) (rec_full p))))) =
  rec_full (Spec.failed now e a p).
Proof. unfold rec_full, rec_map. cbn -[map_set]. table_eq. Qed.

(** The script passes over an empty error text. *)
Definition failed_silently (now a : Z) (p : ProcessingStatus) : ProcessingStatus :=
  {| ps_message_id := ps_message_id p;
     ps_status := FAILED;
     ps_attempts := a;
     ps_result := ps_result p;
     ps_error := ps_error p;
     ps_lease_expires_at := None;
     ps_created_at := ps_created_at p;
     ps_updated_at := now |}.

Lemma table_failed_silently now a p :
  map_set "lease_until_ms" None
    (map_set "attempts" (Some (TInt a))
      (map_set "updated_at" (Some (TStr (isoformat now)))
        (map_set "status" (Some (TStr "FAILED")) (rec_full p)))) =
  rec_full (failed_silently now a p).
Proof. unfold rec_full, rec_map. cbn -[map_set]. table_eq. Qed.

End Table.
End RedisTable.
