(* ===== verification/RedisProofs.v ===== *)
(** * The Redis store refines the contract

    The invariant says that every key of the store holds the text of the table
    of a record (RedisTable.v).  Each script is reduced to an operation of the
    abstract machine, which gives the instance of [DedupStoreLaws]. *)

From S2P Require Import Prelude Utf8 PyJson Models Store Timestamp RedisServer RedisStore RedisTable.

Module RedisLaws.
Import Redis RedisTable.

(** ** The invariant of the store *)
Section Laws.
Context `{!JsonCodec} `{!Cjson} `{!CjsonLaws} `{!DatetimeText}.
Context {R : Type} `{!RedisServer R} `{!RedisServerLaws R}.

(** [raw] is the text of the record [p] of the message [mid]. *)
Definition holds (mid raw : string) (p : ProcessingStatus) : Prop :=
  cjson_decode raw = Ok (rec_tree p) ∧ (∀ now, status_of_raw now raw = Ok p) ∧ rec_ok mid p.

Definition inv (s : state R) : Prop :=
  ∀ mid raw, redis_GET (redis_key mid) (rs_client s) = Some raw → ∃ p, holds mid raw p.

Definition view (s : state R) (mid : string) : option ProcessingStatus :=
  match redis_GET (redis_key mid) (rs_client s) with
  | None => None
  | Some raw => match status_of_raw 0 raw with Ok p => Some p | Err _ => None end
  end.

(** The server's clock in milliseconds, as the scripts compute it. *)
Definition now_ms (r : R) : Z := (redis_clock r / 1000)%Z.

Definition claim_ok (now : Z) (mid : string) (s : state R) : Prop :=
  in_datetime now = true ∧ utf8_valid mid = true ∧
  px_ok (ttl_seconds (rs_config s) * 1000) = true ∧
  (0 ≤ now_ms (rs_client s) + processing_timeout_seconds (rs_config s) * 1000 < exact_ms)%Z ∧
  (∀ p, view s mid = Some p → ps_attempts p + 1 < 10 ^ 14)%Z.

Definition complete_ok (now : Z) (_ : string) (result : pyval) : Prop :=
  in_datetime now = true ∧
  ∃ j, result = PyJson j ∧ json_wf j = true ∧ lua_safe 999 (json_canon j) = true.

Definition fail_ok (now : Z) (_ error : string) (attempts : Z) : Prop :=
  in_datetime now = true ∧ error ≠ ""%string ∧ utf8_valid error = true ∧
  (Z.abs attempts < 10 ^ 14)%Z.

#[export] Instance redis_view : StoreView (state R) := {
  st_config := rs_config;
  st_guarded := true;
  st_inv := inv;
  st_view := view;
  st_clock := λ _ s, (now_ms (rs_client s) * 1000)%Z;
  st_claim_ok := claim_ok;
  st_complete_ok := complete_ok;
  st_fail_ok := fail_ok;
  st_elapse := λ d s, mkState (redis_elapse d (rs_client s)) (rs_config s);
  st_survives := λ d s mid,
    alive_at (redis_clock (rs_client s) + d)
      (redis_deadline (redis_key mid) (rs_client s)) = true;
}.

#[export] Instance redis_key_inj : Inj (=) (=) redis_key.
Proof. intros a b Hab. unfold redis_key in Hab. by simplify_eq. Qed.

Lemma inv_init r cfg : (∀ k, redis_GET k r = None) → inv (init r cfg).
Proof. intros Hr mid raw. simpl. by rewrite Hr. Qed.

Lemma encode_holds mid p :
  rec_ok mid p →
  ∃ raw p', cjson_encode (rec_tree p) = Ok raw ∧ holds mid raw p' ∧ p' ≡ p.
Proof.
  intros Hok. destruct (cjson_encode_spec _ (rec_tree_safe _ _ Hok)) as (raw & He & Hd & j & Hl & Hc).
  destruct (status_of_raw_table raw j p mid Hl Hc Hok) as (p' & Hp' & Heq).
  assert (∃ j, ps_result p = PyJson j) as Hj.
  { destruct Hok as (_ & _ & _ & (j' & Hj & _) & _). by exists j'. }
  exists raw, p'. split_and!; [done| |done]. split_and!; [|done|by eapply rec_ok_equiv].
  by rewrite (rec_tree_equiv _ _ Heq Hj).
Qed.

Lemma view_holds s mid raw p :
  redis_GET (redis_key mid) (rs_client s) = Some raw → holds mid raw p → view s mid = Some p.
Proof. intros Hg (_ & Hp & _). unfold view. by rewrite Hg, Hp. Qed.

(** Writing the text of a record under its key. *)
Lemma write_record s s' mid raw p :
  inv s → redis_frame (redis_key mid) (rs_client s) (rs_client s') →
  rs_config s' = rs_config s →
  redis_GET (redis_key mid) (rs_client s') = Some raw → holds mid raw p →
  inv s' ∧ st_frame mid s s' ∧ view s' mid = Some p.
Proof.
  intros Hi (Hclk & Hf) Hc Hg Hh. split_and!.
  - intros mid' raw' Hg'. destruct (decide (mid' = mid)) as [->|Hne].
    + exists p. congruence.
    + apply (Hi mid'). rewrite <- Hg'. symmetry. apply Hf.
      intros Hk. by apply (inj redis_key) in Hk.
  - split_and!; [done| |].
    + intros now. simpl. unfold now_ms. by rewrite Hclk.
    + intros mid' Hne. simpl. unfold view.
      rewrite (proj1 (Hf (redis_key mid') ltac:(intros Hk; by apply (inj redis_key) in Hk))).
      done.
  - by eapply view_holds.
Qed.

(** ** The scripts *)

Lemma lua_tonumber_str z : lua_tonumber (Z_to_string z) = Ok z.
Proof. unfold lua_tonumber. by rewrite Z_of_to_string. Qed.

(** The two numbers of TIME give the clock in milliseconds. *)
Lemma time_ms r :
  (redis_clock r / 1000000 * 1000 + redis_clock r mod 1000000 / 1000)%Z = now_ms r.
Proof. unfold now_ms. Z.div_mod_to_equations. lia. Qed.

Lemma lease_ms_div n t : ((n * 1000 + t * 1000000) / 1000)%Z = (n + t * 1000)%Z.
Proof. replace (n * 1000 + t * 1000000)%Z with ((n + t * 1000) * 1000)%Z by lia. by apply Z.div_mul. Qed.

Lemma lua_eq_status st s :
  lua_eq_str (Some (TStr (status_str st))) (status_str s) = bool_decide (st = s).
Proof. by destruct st, s. Qed.

#[local] Arguments rec_full : simpl never.
#[local] Arguments map_set : simpl never.

(** The prologue of the claim script. *)
Ltac run_script :=
  unfold act_lift, act_get, mret, action_ret, mbind, action_bind; cbn;
  rewrite ?redis_TIME_spec; cbn; rewrite ?lua_tonumber_str; cbn; rewrite ?time_ms.

Lemma claimed_ok now mid s v :
  claim_ok now mid s → v = view s mid → (∀ p, v = Some p → rec_ok mid p) →
  rec_ok mid (Spec.claimed (rs_config s) now (now_ms (rs_client s) * 1000) mid v).
Proof.
  intros (Hn & Hu & _ & Hl & Ha) Hv Hok.
  split_and!; cbn [ps_attempts ps_result ps_error ps_lease_expires_at ps_status
    ps_created_at ps_updated_at Spec.claimed]; try assumption; try discriminate.
  - apply Spec.claimed_wf.
  - destruct v as [p|]; [|done]. specialize (Ha p (eq_sym Hv)).
    destruct (Hok p eq_refl) as (_ & _ & Hp & _). lia.
  - exists JNull. split; reflexivity.
  - intros l [= <-].
    exists (now_ms (rs_client s) + processing_timeout_seconds (rs_config s) * 1000)%Z. lia.
  - destruct v as [p|]; [|done]. by destruct (Hok p eq_refl) as (_&_&_&_&_&_&_&Hc&_).
Qed.

(** No record: the script writes the first claim, with the TTL. *)
Lemma script_claim_absent now mid s :
  claim_ok now mid s → redis_GET (redis_key mid) (rs_client s) = None →
  ∃ r' raw p,
    claim now mid s = (mkState r' (rs_config s), Ok true) ∧
    redis_GET (redis_key mid) r' = Some raw ∧ redis_frame (redis_key mid) (rs_client s) r' ∧
    redis_deadline (redis_key mid) r' =
      Some (now_ms (rs_client s) + ttl_seconds (rs_config s) * 1000)%Z ∧
    holds mid raw p ∧
    p ≡ Spec.claimed (rs_config s) now (now_ms (rs_client s) * 1000) mid None.
Proof.
  intros Hok Hg.
  pose proof (claimed_ok now mid s None Hok) as Hrec.
  unfold view in Hrec. rewrite Hg in Hrec. specialize (Hrec eq_refl ltac:(done)).
  destruct (encode_holds _ _ Hrec) as (raw & p & He & Hh & Hp).
  destruct Hok as (_ & _ & Hpx & _).
  destruct (redis_SET_PX_ok (redis_key mid) raw (ttl_seconds (rs_config s) * 1000)
    (rs_client s) Hpx) as (r' & Hset & Hget & Hdl & Hf).
  rewrite table_first, lease_ms_div in He.
  exists r', raw, p. split_and!; try done.
  unfold claim, LUA_CLAIM, on_client. run_script. rewrite Hg. cbn.
  cbn in He. rewrite He. cbn. by rewrite Hset.
Qed.

(** A record: the script claims it or leaves it alone, as the machine does. *)
Lemma script_claim_present now mid s raw p :
  claim_ok now mid s → redis_GET (redis_key mid) (rs_client s) = Some raw → holds mid raw p →
  let clk := (now_ms (rs_client s) * 1000)%Z in
  if Spec.claimable (rs_config s) clk (Some p) then
    ∃ r' raw' p',
      claim now mid s = (mkState r' (rs_config s), Ok true) ∧
      redis_GET (redis_key mid) r' = Some raw' ∧ redis_frame (redis_key mid) (rs_client s) r' ∧
      redis_deadline (redis_key mid) r' = redis_deadline (redis_key mid) (rs_client s) ∧
      holds mid raw' p' ∧
      p' ≡ Spec.claimed (rs_config s) now clk mid (Some p)
  else claim now mid s = (s, Ok false).
Proof.
  intros Hok Hg Hh clk. pose proof (view_holds _ _ _ _ Hg Hh) as Hv.
  destruct Hh as (Hd & Hr & Hp).
  assert (Hcl : Spec.claimable (rs_config s) clk (Some p) =
    (lua_eq_str (rec_full p !! "status"%string) "FAILED" && retry_failed (rs_config s) &&
       (default 1 (lua_number (rec_full p !! "attempts"%string)) <? max_retries (rs_config s))%Z ||
     lua_eq_str (rec_full p !! "status"%string) "PROCESSING" &&
       match lua_number (rec_full p !! "lease_until_ms"%string) with
       | Some l => (l <=? now_ms (rs_client s))%Z | None => false end)%bool).
  { rewrite rec_status, rec_attempts, rec_lease. unfold Spec.claimable, Spec.retryable, Spec.orphaned.
    rewrite (lua_eq_status _ FAILED), (lua_eq_status _ PROCESSING). f_equal. f_equal.
    destruct Hp as (_&_&_&_&_&Hl&_). destruct (ps_lease_expires_at p) as [l|]; [|done]. simpl.
    destruct (Hl l eq_refl) as (ms & -> & _). rewrite Z.div_mul by done.
    unfold clk. apply eq_bool_prop_intro. rewrite !Is_true_true, !Z.leb_le. lia. }
  assert (Hflag : String.eqb (if retry_failed (rs_config s) then "1" else "0") "1"
    = retry_failed (rs_config s)) by by destruct (retry_failed (rs_config s)).
  destruct (Spec.claimable (rs_config s) clk (Some p)) eqn:Hc.
  - assert (rec_ok mid (Spec.claimed (rs_config s) now clk mid (Some p))) as Hrec.
    { apply claimed_ok; [done|done|]. by intros q [= <-]. }
    destruct (encode_holds _ _ Hrec) as (raw' & p' & He & Hh' & Hp').
    destruct (redis_SET_KEEPTTL_ok (redis_key mid) raw' raw (rs_client s) Hg)
      as (r' & Hset & Hget & Hdl & Hf).
    exists r', raw', p'. split_and!; try done.
    assert (ps_result p = PyNone) as Hnone.
    { destruct Hp as ((_&_&_&Hw)&_&_&_&_&_&Hfl&_).
      unfold Spec.claimable, Spec.retryable, Spec.orphaned, is_failed in Hc.
      destruct (ps_status p) eqn:Hs; [by apply Hw| |by apply Hfl|];
        by rewrite !bool_decide_false in Hc by done. }
    unfold rec_tree in He.
    rewrite <- table_reclaim in He by (done || by destruct Hp as ((?&_)&_)).
    unfold clk in He. rewrite lease_ms_div in He.
    unfold claim, LUA_CLAIM, on_client. run_script. rewrite Hg, Hd. cbn.
    rewrite Hflag, <- Hcl. cbn. rewrite rec_attempts. cbn.
    cbn in He. rewrite He. cbn. by rewrite Hset.
  - unfold claim, LUA_CLAIM, on_client. run_script. rewrite Hg, Hd. cbn.
    rewrite Hflag, <- Hcl. cbn. by destruct s.
Qed.

Lemma not_none_dumps v :
  is_none v = false → ∀ s, py_dumps v = Ok s → String.eqb s "" = false.
Proof.
  destruct v as [j|]; [|done]. intros _ s [= <-]. apply String.eqb_neq, json_dumps_nonempty.
Qed.

(** The update script on a record that is not PROCESSING, or is not there. *)
Lemma script_update_skip now mid s st rj e a :
  (∀ raw, redis_GET (redis_key mid) (rs_client s) = Some raw →
    ∃ p, holds mid raw p ∧ ps_status p ≠ PROCESSING) →
  run_update_script now mid st rj e a s =
    (s, Ok (if redis_GET (redis_key mid) (rs_client s) is Some _ then 0 else -1)%Z).
Proof.
  intros Hg. unfold run_update_script, LUA_UPDATE_STATUS, on_client. run_script.
  destruct (redis_GET _ _) as [raw|] eqn:Hraw; [|by destruct s].
  destruct (Hg raw eq_refl) as (p & (Hd & _) & Hs). rewrite Hd. cbn.
  rewrite rec_status, (lua_eq_status _ PROCESSING), bool_decide_false by done. cbn.
  by destruct s.
Qed.

(** [mark_completed] on a PROCESSING record stores the result as Lua sees it. *)
Lemma script_complete_logged now mid s raw p j j' :
  in_datetime now = true → json_wf j = true →
  lua_safe 999 (lua_norm (json_canon j)) = true → json_canon j' = lua_norm (json_canon j) →
  redis_GET (redis_key mid) (rs_client s) = Some raw → holds mid raw p →
  ps_status p = PROCESSING →
  ∃ r' raw' p',
    mark_completed_logged now mid (PyJson j) s = (mkState r' (rs_config s), Ok []) ∧
    redis_GET (redis_key mid) r' = Some raw' ∧ redis_frame (redis_key mid) (rs_client s) r' ∧
    redis_deadline (redis_key mid) r' = redis_deadline (redis_key mid) (rs_client s) ∧
    holds mid raw' p' ∧ p' ≡ Spec.completed now (PyJson j') p.
Proof.
  intros Hn Hwf Hsafe Hj' Hg (Hd & _ & Hp) Hs.
  assert (ps_result p = PyNone) as Hnone by (destruct Hp as ((_&_&_&Hw)&_); by apply Hw).
  assert (rec_ok mid (Spec.completed now (PyJson j') p)) as Hrec.
  { destruct Hp as (Hw&?&?&_&?&?&?&?&?).
    split_and!; cbn [ps_attempts ps_result ps_error ps_lease_expires_at ps_status
      ps_created_at ps_updated_at Spec.completed]; try assumption; try discriminate.
    - by apply Spec.completed_wf.
    - exists j'. split; [done|]. by rewrite Hj'. }
  destruct (encode_holds _ _ Hrec) as (raw' & p' & He & Hh' & Hp').
  destruct (redis_SET_KEEPTTL_ok (redis_key mid) raw' raw (rs_client s) Hg)
    as (r' & Hset & Hget & Hdl & Hf).
  exists r', raw', p'. split_and!; try assumption.
  unfold rec_tree in He. rewrite <- table_completed in He by done.
  unfold mark_completed_logged, run_update_script, LUA_UPDATE_STATUS, on_client.
  destruct (is_none (PyJson j)) eqn:Hnn.
  - assert (j = JNull) as -> by by destruct j.
    assert (j' = JNull) as -> by by apply canon_TNull_inv.
    run_script. rewrite Hg, Hd. cbn.
    rewrite rec_status, (lua_eq_status _ PROCESSING), bool_decide_true by done. cbn.
    cbn in He. rewrite He. cbn. by rewrite Hset.
  - assert (He' : cjson_encode (TObj (map_set "lease_until_ms" None
      (map_set "result" (Some (lua_norm (json_canon j)))
        (map_set "updated_at" (Some (TStr (isoformat now)))
          (map_set "status" (Some (TStr "COMPLETED")) (rec_full p)))))) = Ok raw').
    { rewrite <- He, <- Hj'. destruct j'; try done.
      destruct j as [| | | | |[]|]; done. }
    run_script. rewrite Hg, Hd. cbn.
    rewrite rec_status, (lua_eq_status _ PROCESSING), bool_decide_true by done. cbn.
    rewrite (not_none_dumps _ Hnn _ eq_refl).
    rewrite (cjson_decode_dumps j Hwf (lua_safe_S 999 _ Hsafe)). cbn.
    rewrite He'. cbn. by rewrite Hset.
Qed.

Lemma script_fail_logged now mid s raw p e a :
  fail_ok now mid e a →
  redis_GET (redis_key mid) (rs_client s) = Some raw → holds mid raw p →
  ps_status p = PROCESSING →
  ∃ r' raw' p',
    mark_failed_logged now mid e a s = (mkState r' (rs_config s), Ok []) ∧
    redis_GET (redis_key mid) r' = Some raw' ∧ redis_frame (redis_key mid) (rs_client s) r' ∧
    redis_deadline (redis_key mid) r' = redis_deadline (redis_key mid) (rs_client s) ∧
    holds mid raw' p' ∧ p' ≡ Spec.failed now e a p.
Proof.
  intros (Hn & Hne & Hu & Ha) Hg (Hd & _ & Hp) Hs.
  assert (ps_result p = PyNone) as Hnone by (destruct Hp as ((_&_&_&Hw)&_); by apply Hw).
  assert (rec_ok mid (Spec.failed now e a p)) as Hrec.
  { destruct Hp as (Hw&?&?&?&?&?&?&?&?).
    split_and!; cbn [ps_attempts ps_result ps_error ps_lease_expires_at ps_status
      ps_created_at ps_updated_at Spec.failed]; try assumption; try discriminate.
    - by apply Spec.failed_wf.
    - by intros e' [= <-].
    - done. }
  destruct (encode_holds _ _ Hrec) as (raw' & p' & He & Hh' & Hp').
  destruct (redis_SET_KEEPTTL_ok (redis_key mid) raw' raw (rs_client s) Hg)
    as (r' & Hset & Hget & Hdl & Hf).
  exists r', raw', p'. split_and!; try assumption.
  unfold rec_tree in He. rewrite <- table_failed in He.
  unfold mark_failed_logged, run_update_script, LUA_UPDATE_STATUS, on_client.
  run_script. rewrite Hg, Hd. cbn.
  rewrite rec_status, (lua_eq_status _ PROCESSING), bool_decide_true by done. cbn.
  rewrite (proj2 (String.eqb_neq e "") Hne). cbn.
  rewrite (proj2 (String.eqb_neq _ "") (Z_to_string_nonempty a)). cbn.
  rewrite Z_of_to_string. cbn. cbn in He. rewrite He. cbn. by rewrite Hset.
Qed.

(** [mark_failed] with an empty text leaves the field "error" as it was. *)
Lemma script_fail_silent now mid s raw p a :
  in_datetime now = true → (Z.abs a < 10 ^ 14)%Z →
  redis_GET (redis_key mid) (rs_client s) = Some raw → holds mid raw p →
  ps_status p = PROCESSING →
  ∃ r' raw' p',
    mark_failed_logged now mid "" a s = (mkState r' (rs_config s), Ok []) ∧
    redis_GET (redis_key mid) r' = Some raw' ∧ redis_frame (redis_key mid) (rs_client s) r' ∧
    holds mid raw' p' ∧ p' ≡ failed_silently now a p.
Proof.
  intros Hn Ha Hg (Hd & _ & Hp) Hs.
  assert (ps_result p = PyNone) as Hnone by (destruct Hp as ((_&_&_&Hw)&_); by apply Hw).
  assert (rec_ok mid (failed_silently now a p)) as Hrec.
  { destruct Hp as ((?&_&_&_)&?&?&?&?&?&?&?&?).
    split_and!; cbn [ps_attempts ps_result ps_error ps_lease_expires_at ps_status
      ps_created_at ps_updated_at failed_silently]; try assumption; try discriminate; [|done].
    split_and!; [done|done| |done]. split; [done|by intros []]. }
  destruct (encode_holds _ _ Hrec) as (raw' & p' & He & Hh' & Hp').
  destruct (redis_SET_KEEPTTL_ok (redis_key mid) raw' raw (rs_client s) Hg)
    as (r' & Hset & Hget & Hdl & Hf).
  exists r', raw', p'. split_and!; try assumption.
  unfold rec_tree in He. rewrite <- table_failed_silently in He.
  unfold mark_failed_logged, run_update_script, LUA_UPDATE_STATUS, on_client.
  run_script. rewrite Hg, Hd. cbn.
  rewrite rec_status, (lua_eq_status _ PROCESSING), bool_decide_true by done. cbn.
  rewrite (proj2 (String.eqb_neq _ "") (Z_to_string_nonempty a)). cbn.
  rewrite Z_of_to_string. cbn. cbn in He. rewrite He. cbn. by rewrite Hset.
Qed.

(** The marks, without their logs. *)
Lemma completes now mid r s s' l :
  mark_completed_logged now mid r s = (s', Ok l) → mark_completed now mid r s = (s', Ok tt).
Proof. intros E. unfold mark_completed, mbind, action_bind. by rewrite E. Qed.

Lemma fails now mid e a s s' l :
  mark_failed_logged now mid e a s = (s', Ok l) → mark_failed now mid e a s = (s', Ok tt).
Proof. intros E. unfold mark_failed, mbind, action_bind. by rewrite E. Qed.

Lemma script_complete now mid s raw p j j' :
  in_datetime now = true → json_wf j = true →
  lua_safe 999 (lua_norm (json_canon j)) = true → json_canon j' = lua_norm (json_canon j) →
  redis_GET (redis_key mid) (rs_client s) = Some raw → holds mid raw p →
  ps_status p = PROCESSING →
  ∃ r' raw' p',
    mark_completed now mid (PyJson j) s = (mkState r' (rs_config s), Ok tt) ∧
    redis_GET (redis_key mid) r' = Some raw' ∧ redis_frame (redis_key mid) (rs_client s) r' ∧
    redis_deadline (redis_key mid) r' = redis_deadline (redis_key mid) (rs_client s) ∧
    holds mid raw' p' ∧ p' ≡ Spec.completed now (PyJson j') p.
Proof.
  intros. destruct (script_complete_logged now mid s raw p j j') as (r' & raw' & p' & E & Hrest); [done..|].
  exists r', raw', p'. split; [by eapply completes|done].
Qed.

Lemma script_fail now mid s raw p e a :
  fail_ok now mid e a →
  redis_GET (redis_key mid) (rs_client s) = Some raw → holds mid raw p →
  ps_status p = PROCESSING →
  ∃ r' raw' p',
    mark_failed now mid e a s = (mkState r' (rs_config s), Ok tt) ∧
    redis_GET (redis_key mid) r' = Some raw' ∧ redis_frame (redis_key mid) (rs_client s) r' ∧
    redis_deadline (redis_key mid) r' = redis_deadline (redis_key mid) (rs_client s) ∧
    holds mid raw' p' ∧ p' ≡ Spec.failed now e a p.
Proof.
  intros. destruct (script_fail_logged now mid s raw p e a) as (r' & raw' & p' & E & Hrest); [done..|].
  exists r', raw', p'. split; [by eapply fails|done].
Qed.

(** ** The laws *)

Lemma st_frame_refl mid s : st_frame mid s s.
Proof. by split_and!. Qed.

Lemma view_None s mid : inv s → view s mid = None → redis_GET (redis_key mid) (rs_client s) = None.
Proof.
  unfold view. intros Hi. destruct (redis_GET _ _) as [raw|] eqn:Hg; [|done].
  destruct (Hi mid raw Hg) as (p & _ & Hp & _). by rewrite Hp.
Qed.

Lemma view_Some s mid p :
  inv s → view s mid = Some p →
  ∃ raw, redis_GET (redis_key mid) (rs_client s) = Some raw ∧ holds mid raw p.
Proof.
  unfold view. intros Hi. destruct (redis_GET _ _) as [raw|] eqn:Hg; [|done].
  destruct (Hi mid raw Hg) as (q & Hd & Hp & Hok). rewrite Hp. intros [= ->].
  by exists raw.
Qed.

Lemma claim_refines s now mid :
  inv s → claim_ok now mid s →
  ∃ s', claim now mid s =
      (s', Ok (Spec.do_claim (rs_config s) now (now_ms (rs_client s) * 1000) mid (view s mid)).2) ∧
    inv s' ∧ st_frame mid s s' ∧
    view s' mid ≡ (Spec.do_claim (rs_config s) now (now_ms (rs_client s) * 1000) mid (view s mid)).1.
Proof.
  intros Hi Hok. unfold Spec.do_claim. destruct (view s mid) as [p|] eqn:Hv.
  - destruct (view_Some _ _ _ Hi Hv) as (raw & Hg & Hh).
    pose proof (script_claim_present now mid s raw p Hok Hg Hh) as Hc. cbn zeta in Hc.
    destruct (Spec.claimable _ _ _) in Hc |- *; simpl.
    + destruct Hc as (r' & raw' & p' & Hcl & Hg' & Hf & _ & Hh' & Hp').
      destruct (write_record s (mkState r' (rs_config s)) mid raw' p') as (Hi' & Hfr & Hv'); try done.
      eexists. split_and!; [done..|]. rewrite Hv'. by constructor.
    + exists s. split_and!; [done|done|apply st_frame_refl|]. by rewrite Hv.
  - destruct (script_claim_absent now mid s Hok (view_None _ _ Hi Hv))
      as (r' & raw' & p' & Hcl & Hg' & Hf & _ & Hh' & Hp').
    destruct (write_record s (mkState r' (rs_config s)) mid raw' p') as (Hi' & Hfr & Hv'); try done.
    eexists. split_and!; [done..|]. simpl. rewrite Hv'. by constructor.
Qed.

Lemma processing_cases (v : option ProcessingStatus) :
  (∃ p, v = Some p ∧ ps_status p = PROCESSING) ∨
  (∀ p, v = Some p → ps_status p ≠ PROCESSING).
Proof.
  destruct v as [p|]; [|by right].
  destruct (decide (ps_status p = PROCESSING)); [left; eauto|right]. by intros q [= <-].
Qed.

(** An update that the guard skips leaves everything as it is. *)
Lemma update_skip_refines (f : action (state R) unit) s mid :
  inv s → f s = (s, Ok tt) →
  ∃ s', f s = (s', Ok tt) ∧ inv s' ∧ st_frame mid s s' ∧ view s' mid ≡ view s mid.
Proof. intros Hi Hf. exists s. by split_and!. Qed.

Lemma skip_cases s mid :
  inv s → (∀ p, view s mid = Some p → ps_status p ≠ PROCESSING) →
  ∀ raw, redis_GET (redis_key mid) (rs_client s) = Some raw →
    ∃ p, holds mid raw p ∧ ps_status p ≠ PROCESSING.
Proof.
  intros Hi Hs raw Hg. destruct (Hi mid raw Hg) as (p & Hh). exists p. split; [done|].
  apply Hs. by eapply view_holds.
Qed.

(** What a mark says that finds no PROCESSING record. *)
Definition skip_warning (op mid : string) (v : option ProcessingStatus) : list string :=
  match v with
  | None => [op +:+ ": key not found (expired?) message_id=" +:+ mid]
  | Some _ => [op +:+ ": status already terminal, skipped message_id=" +:+ mid]
  end.

Lemma script_warning s mid op :
  inv s → check_script_return mid
    (if redis_GET (redis_key mid) (rs_client s) is Some _ then 0 else -1)%Z op =
  skip_warning op mid (view s mid).
Proof.
  intros Hi. destruct (view s mid) as [p|] eqn:Hv.
  - by destruct (view_Some _ _ _ Hi Hv) as (raw & -> & _).
  - by rewrite (view_None _ _ Hi Hv).
Qed.

Lemma complete_skips s now mid j :
  inv s → (∀ p, view s mid = Some p → ps_status p ≠ PROCESSING) →
  mark_completed_logged now mid (PyJson j) s = (s, Ok (skip_warning "mark_completed" mid (view s mid))).
Proof.
  intros Hi Hno. rewrite <- script_warning by done.
  unfold mark_completed_logged, act_lift, mbind, action_bind.
  destruct (is_none (PyJson j)); cbn [py_dumps];
    by rewrite (script_update_skip now mid s COMPLETED _ "" "" (skip_cases _ _ Hi Hno)).
Qed.

Lemma fail_skips s now mid e a :
  inv s → (∀ p, view s mid = Some p → ps_status p ≠ PROCESSING) →
  mark_failed_logged now mid e a s = (s, Ok (skip_warning "mark_failed" mid (view s mid))).
Proof.
  intros Hi Hno. rewrite <- script_warning by done. unfold mark_failed_logged, mbind, action_bind.
  by rewrite (script_update_skip now mid s FAILED "" e (Z_to_string a) (skip_cases _ _ Hi Hno)).
Qed.

Lemma complete_refines s now mid r :
  inv s → complete_ok now mid r →
  ∃ s', mark_completed now mid r s = (s', Ok tt) ∧ inv s' ∧ st_frame mid s s' ∧
    view s' mid ≡ Spec.do_complete now r (view s mid).
Proof.
  intros Hi (Hn & j & -> & Hwf & Hsafe).
  destruct (processing_cases (view s mid)) as [(p & Hv & Hs)|Hno].
  - destruct (view_Some _ _ _ Hi Hv) as (raw & Hg & Hh).
    destruct (script_complete now mid s raw p j j Hn Hwf)
      as (r' & raw' & p' & Hcl & Hg' & Hf & _ & Hh' & Hp'); try done;
      rewrite ?(lua_norm_safe _ _ Hsafe); try done.
    destruct (write_record s (mkState r' (rs_config s)) mid raw' p') as (Hi' & Hfr & Hv'); try done.
    eexists. split_and!; [done..|]. rewrite Hv', Hv. simpl. rewrite decide_True by done.
    by constructor.
  - assert (Spec.do_complete now (PyJson j) (view s mid) = view s mid) as ->.
    { destruct (view s mid) as [p|]; simpl; [|done]. by rewrite decide_False by by apply Hno. }
    apply update_skip_refines; [done|].
    by eapply completes, complete_skips.
Qed.

Lemma fail_refines s now mid e a :
  inv s → fail_ok now mid e a →
  ∃ s', mark_failed now mid e a s = (s', Ok tt) ∧ inv s' ∧ st_frame mid s s' ∧
    view s' mid ≡ Spec.do_fail true now e a (view s mid).
Proof.
  intros Hi Hok.
  destruct (processing_cases (view s mid)) as [(p & Hv & Hs)|Hno].
  - destruct (view_Some _ _ _ Hi Hv) as (raw & Hg & Hh).
    destruct (script_fail now mid s raw p e a)
      as (r' & raw' & p' & Hcl & Hg' & Hf & _ & Hh' & Hp'); try done.
    destruct (write_record s (mkState r' (rs_config s)) mid raw' p') as (Hi' & Hfr & Hv'); try done.
    eexists. split_and!; [done..|]. rewrite Hv', Hv. simpl. rewrite decide_False by naive_solver.
    by constructor.
  - assert (Spec.do_fail true now e a (view s mid) = view s mid) as ->.
    { destruct (view s mid) as [p|]; simpl; [|done].
      by rewrite decide_True by (split; [done|by apply Hno]). }
    apply update_skip_refines; [done|].
    by eapply fails, fail_skips.
Qed.

Lemma delete_refines s mid :
  inv s → ∃ s', delete mid s = (s', Ok tt) ∧ inv s' ∧ st_frame mid s s' ∧ view s' mid = None.
Proof.
  intros Hi. destruct (redis_DEL_spec (redis_key mid) (rs_client s)) as (r' & n & Hdel & Hg & Hclk & Hf).
  exists (mkState r' (rs_config s)).
  assert (∀ mid', mid' ≠ mid →
    redis_GET (redis_key mid') r' = redis_GET (redis_key mid') (rs_client s)) as Hne.
  { intros mid' Hne. apply Hf. intros Hk. by apply (inj redis_key) in Hk. }
  split_and!.
  - unfold delete, on_client. run_script. by rewrite Hdel.
  - intros mid' raw. simpl. destruct (decide (mid' = mid)) as [->|Hm]; [by rewrite Hg|].
    rewrite Hne by done. apply Hi.
  - split_and!; [done|intros now; simpl; unfold now_ms; by rewrite Hclk|].
    intros mid' Hm. simpl. unfold view. simpl. by rewrite Hne.
  - unfold view. simpl. by rewrite Hg.
Qed.

Lemma elapse_cases d s mid :
  (0 ≤ d)%Z →
  let s' := st_elapse d s in
  (st_survives d s mid ∧ view s' mid = view s mid) ∨ (¬ st_survives d s mid ∧ view s' mid = None).
Proof.
  intros Hd. unfold view. simpl. rewrite redis_elapse_GET by done.
  destruct (alive_at _ _); [by left|by right].
Qed.

#[export] Instance redis_laws : DedupStoreLaws (state R).
Proof.
  split.
  - apply claim_refines.
  - apply complete_refines.
  - apply fail_refines.
  - intros s now mid Hi. simpl. unfold get_status, view.
    destruct (redis_GET _ _) as [raw|] eqn:Hg; [|done].
    destruct (Hi mid raw Hg) as (p & _ & Hp & _). by rewrite !Hp.
  - intros s mid Hi. simpl. unfold is_duplicate. rewrite redis_EXISTS_spec. do 2 f_equal.
    destruct (view s mid) as [p|] eqn:Hv.
    + destruct (view_Some _ _ _ Hi Hv) as (raw & -> & _). by rewrite bool_decide_true.
    + rewrite (view_None _ _ Hi Hv). by rewrite bool_decide_false by (by intros [? ?]).
  - apply delete_refines.
  - intros s mid p Hi Hv. destruct (view_Some _ _ _ Hi Hv) as (raw & _ & _ & _ & Hok).
    by destruct Hok as [Hw _].
  - intros d s Hd Hi mid raw. simpl. rewrite redis_elapse_GET by done.
    destruct (alive_at _ _); [apply Hi|done].
  - done.
  - intros d s mid Hd _. by apply elapse_cases.
  - intros d s now Hd. simpl. unfold now_ms. rewrite redis_elapse_clock.
    apply Z.mul_le_mono_nonneg_r; [done|]. apply Z.div_le_mono; lia.
Qed.

End Laws.
End RedisLaws.
