(* ===== verification/RefCjson.v ===== *)
(** * A concrete cjson

    [Cjson] over the codec of JsonText.v: it writes the values that Lua and
    cjson keep ([lua_safe]), refuses the others, and reads with Lua's one empty
    table.  It shows that [CjsonLaws] can hold. *)

From S2P Require Import Prelude Utf8 PyJson JsonText RedisServer.

Module RefCjson.

#[local] Existing Instance json_text.

(** The Python value of a table; [d] bounds its depth. *)
Fixpoint tree_json (d : nat) (t : jtree) : json :=
  match d with
  | O => JNull
  | S d =>
      match t with
      | TNull => JNull
      | TBool b => JBool b
      | TInt z => JInt z
      | TFloat lit => JFloat lit
      | TStr s => JStr s
      | TArr l => JArr (map (tree_json d) l)
      | TObj m => JObj (map (λ kv, (kv.1, tree_json d kv.2)) (map_to_list m))
      end
  end.

#[export] Instance ref_cjson : Cjson := {
  cjson_encode := λ t,
    if lua_safe cjson_depth t then Ok (json_dumps (tree_json cjson_depth t))
    else Err (ResponseError "cannot serialise the value");
  cjson_decode := λ s,
    match json_loads s with
    | Ok j => Ok (lua_norm (json_canon j))
    | Err _ => Err (ResponseError "invalid JSON")
    end;
}.

Lemma tree_json_spec d t :
  lua_safe d t = true → json_canon (tree_json d t) = t ∧ json_wf (tree_json d t) = true.
Proof.
  revert t. induction d as [|d IH]; intros t Hs; [done|].
  destruct t as [| | | | |l|m]; try done.
  - assert (Hl : ∀ x, x ∈ l → lua_safe d x = true).
    { cbn in Hs. apply andb_prop in Hs as [_ Hs]. rewrite forallb_forall in Hs.
      intros x Hx. by apply Hs, list_elem_of_In. }
    cbn [tree_json json_canon json_wf json_text JsonText.wf]. clear Hs. split.
    + f_equal. rewrite map_map. induction l as [|x l IHl]; [done|]. cbn. f_equal.
      * apply IH, Hl. by left.
      * apply IHl. intros y Hy. apply Hl. by right.
    + apply forallb_forall. intros y (x & <- & Hx)%in_map_iff.
      by apply IH, Hl, list_elem_of_In.
  - rewrite lua_safe_TObj in Hs.
    assert (Hm : ∀ kv, kv ∈ map_to_list m → lua_safe d kv.2 = true).
    { intros [k v] Hkv%elem_of_map_to_list. by apply (Hs k v). }
    cbn [tree_json json_canon json_wf json_text JsonText.wf]. split.
    + f_equal. rewrite map_map. cbn.
      rewrite <- (list_to_map_to_list m) at 2. f_equal.
      rewrite <- (map_id (map_to_list m)) at 2. apply map_ext_in.
      intros [k v] Hkv%list_elem_of_In. cbn. f_equal. by apply IH, (Hm (k, v)).
    + rewrite map_map. cbn. apply andb_true_intro. split.
      * apply bool_decide_eq_true. apply NoDup_fst_map_to_list.
      * apply forallb_forall. intros y ([k v] & <- & Hkv)%in_map_iff. cbn.
        by apply IH, (Hm (k, v)), list_elem_of_In.
Qed.

#[export] Instance ref_cjson_laws : CjsonLaws.
Proof.
  split.
  - intros t Hs. destruct (tree_json_spec _ _ Hs) as [Hc Hwf].
    exists (json_dumps (tree_json cjson_depth t)). cbn [cjson_encode ref_cjson cjson_decode].
    rewrite Hs, json_loads_dumps by done. rewrite Hc, (lua_norm_safe _ _ Hs).
    split_and!; [done..|]. by exists (tree_json cjson_depth t).
  - intros j Hwf _. cbn [cjson_decode ref_cjson]. by rewrite json_loads_dumps.
Qed.

End RefCjson.
