(* ===== verification/RedisProps.v ===== *)
(** * Properties of the Redis store

    What the scripts and methods of redis_store.py guarantee beyond the common
    contract: the clock they use, the TTL, the guard of the updates, the results
    that come back, and the errors.  Evaluated on the reference server of
    RedisServer.v with the codecs of JsonText.v, RefCjson.v and Iso8601.v. *)

From S2P Require Import Prelude Utf8 PyJson JsonText Models Iso8601 Store StoreProps.
From S2P Require Import RedisServer RedisStore RedisTable RedisProofs RefCjson.
Import Redis RedisTable RedisLaws.

Section Redis.
Context `{!JsonCodec} `{!Cjson} `{!CjsonLaws} `{!DatetimeText}.
Context {R : Type} `{!RedisServer R} `{!RedisServerLaws R}.
Implicit Types s : Redis.state R.

Definition deadline (mid : string) (s : Redis.state R) : option Z :=
  redis_deadline (redis_key mid) (rs_client s).

(** Who wins a claim, and until when, is decided by the server's clock
    alone: callers whose clocks disagree get the same answer and lease. *)
Theorem redis_claim_ignores_caller_clock s mid now1 now2 :
  inv s → claim_ok now1 mid s → claim_ok now2 mid s →
  ∃ s1 s2 won, claim now1 mid s = (s1, Ok won) ∧ claim now2 mid s = (s2, Ok won) ∧
    (ps_lease_expires_at <$> view s1 mid) = (ps_lease_expires_at <$> view s2 mid).
Proof.
  intros Hi Hc1 Hc2.
  destruct (claim_refines s now1 mid Hi Hc1) as (s1 & E1 & _ & _ & V1).
  destruct (claim_refines s now2 mid Hi Hc2) as (s2 & E2 & _ & _ & V2).
  unfold Spec.do_claim in *. destruct (Spec.claimable _ _ _); simpl in *.
  - exists s1, s2, true. split_and!; [done..|].
    inversion V1 as [p1 q1 Hp1 Hq1|]; inversion V2 as [p2 q2 Hp2 Hq2|]; subst. simpl.
    by rewrite (ps_lease_proper _ _ Hp1), (ps_lease_proper _ _ Hp2).
  - exists s1, s2, false. split_and!; [done..|].
    rewrite <- V2 in V1. inversion V1 as [p1 p2 Hp|]; simpl; [|done].
    by rewrite (ps_lease_proper _ _ Hp).
Qed.

(** The TTL runs from the first claim: that claim sets the expiry of the
    key, and neither a later claim nor a completion nor a failure moves it. *)
Theorem redis_ttl_from_first_claim s mid now r e a :
  inv s → claim_ok now mid s → complete_ok now mid r → fail_ok now mid e a →
  (view s mid = None →
    ∃ s', claim now mid s = (s', Ok true) ∧
      deadline mid s' = Some (now_ms (rs_client s) + ttl_seconds (rs_config s) * 1000)%Z) ∧
  (∀ p, view s mid = Some p →
    (∃ s' won, claim now mid s = (s', Ok won) ∧ deadline mid s' = deadline mid s) ∧
    (∃ s', mark_completed now mid r s = (s', Ok tt) ∧ deadline mid s' = deadline mid s) ∧
    (∃ s', mark_failed now mid e a s = (s', Ok tt) ∧ deadline mid s' = deadline mid s)).
Proof.
  intros Hi Hc (Hn & j & -> & Hwf & Hsafe) Hf. split.
  { intros Hv. destruct (script_claim_absent now mid s Hc (view_None _ _ Hi Hv))
      as (r' & raw & p & Hcl & _ & _ & Hd & _). eexists. by split. }
  intros p Hv. destruct (view_Some _ _ _ Hi Hv) as (raw & Hg & Hh). split.
  { pose proof (script_claim_present now mid s raw p Hc Hg Hh) as Hcl. cbn zeta in Hcl.
    destruct (Spec.claimable _ _ _); [|by exists s, false].
    destruct Hcl as (r' & ? & ? & Hcl & _ & _ & Hd & _). by exists (mkState r' (rs_config s)), true. }
  destruct (decide (ps_status p = PROCESSING)) as [Hs|Hs].
  - split.
    + destruct (script_complete now mid s raw p j j Hn Hwf)
        as (r' & ? & ? & Hcl & _ & _ & Hd & _); rewrite ?(lua_norm_safe _ _ Hsafe); try done.
      by exists (mkState r' (rs_config s)).
    + destruct (script_fail now mid s raw p e a) as (r' & ? & ? & Hcl & _ & _ & Hd & _); try done.
      by exists (mkState r' (rs_config s)).
  - assert (Hno : ∀ q, view s mid = Some q → ps_status q ≠ PROCESSING) by (intros q Hq; congruence).
    split; exists s; (split; [|done]); [by eapply completes, complete_skips|by eapply fails, fail_skips].
Qed.

(** The guard.  On a record that is not PROCESSING (COMPLETED, FAILED, or
    gone) the update script changes nothing at all on the server. *)
Theorem redis_update_guarded s mid now st result_json e a :
  inv s → (∀ p, view s mid = Some p → ps_status p ≠ PROCESSING) →
  ∃ z, run_update_script now mid st result_json e a s = (s, Ok z).
Proof. intros Hi Hv. eexists. by apply script_update_skip, skip_cases. Qed.

(** What a mark of the message logs. *)
Definition in_progress (v : option ProcessingStatus) : bool :=
  match v with Some p => bool_decide (ps_status p = PROCESSING) | None => false end.

Definition mark_warning (op mid : string) (v : option ProcessingStatus) : list string :=
  if in_progress v then [] else skip_warning op mid v.

(** C36: no mark is lost silently.  mark_completed and mark_failed take effect without a word on a record
    that is PROCESSING; on any other they change nothing on the server and log one warning, which says
    whether the record is gone or already terminal. *)
Theorem marks_logged s mid now j e a :
  inv s → complete_ok now mid (PyJson j) → fail_ok now mid e a →
  ∃ s1 s2,
    mark_completed_logged now mid (PyJson j) s = (s1, Ok (mark_warning "mark_completed" mid (view s mid))) ∧
    mark_failed_logged now mid e a s = (s2, Ok (mark_warning "mark_failed" mid (view s mid))) ∧
    if in_progress (view s mid)
    then (ps_status <$> view s1 mid) = Some COMPLETED ∧ (ps_status <$> view s2 mid) = Some FAILED
    else s1 = s ∧ s2 = s.
Proof.
  intros Hi Hc Hf. unfold mark_warning. destruct (processing_cases (view s mid)) as [(p & Hv & Hs)|Hno].
  - assert (in_progress (view s mid) = true) as -> by (rewrite Hv; by apply bool_decide_eq_true).
    destruct (view_Some _ _ _ Hi Hv) as (raw & Hg & Hh).
    destruct (complete_refines s now mid _ Hi Hc) as (s1 & E1 & _ & _ & V1).
    destruct (fail_refines s now mid e a Hi Hf) as (s2 & E2 & _ & _ & V2).
    destruct Hc as (Hn & j' & [= <-] & Hwf & Hsafe).
    destruct (script_complete_logged now mid s raw p j j Hn Hwf) as (r1 & _ & _ & L1 & _);
      rewrite ?(lua_norm_safe _ _ Hsafe); try done.
    destruct (script_fail_logged now mid s raw p e a Hf Hg Hh Hs) as (r2 & _ & _ & L2 & _).
    rewrite (completes _ _ _ _ _ _ L1) in E1. rewrite (fails _ _ _ _ _ _ _ L2) in E2.
    injection E1 as <-. injection E2 as <-. eexists _, _. split; [exact L1|]. split; [exact L2|].
    rewrite Hv in V1, V2. cbn in V1, V2. rewrite decide_True in V1 by done. rewrite decide_False in V2 by naive_solver.
    inversion V1 as [? ? (_ & Hs1 & _) Hv1|]; inversion V2 as [? ? (_ & Hs2 & _) Hv2|]; subst. cbn.
    by rewrite Hs1, Hs2.
  - assert (in_progress (view s mid) = false) as ->.
    { destruct (view s mid) as [p|]; [|done]. by apply bool_decide_eq_false, Hno. }
    exists s, s. by rewrite complete_skips, fail_skips by done.
Qed.

(** C33: what becomes of a result.  A result within the numbers and the nesting of cjson (no fractions,
    integers below 10^14, 999 levels) that is stored by mark_completed on a PROCESSING record is read by
    get_status as the same value, but that each empty list has become an empty object; so it reads back
    equal when there is none. *)
Theorem redis_result_roundtrip s mid now now' p j :
  inv s → in_datetime now = true → json_wf j = true →
  lua_safe 999 (lua_norm (json_canon j)) = true →
  view s mid = Some p → ps_status p = PROCESSING →
  ∃ s' p' j', mark_completed now mid (PyJson j) s = (s', Ok tt) ∧
    get_status now' mid s' = (s', Ok (Some p')) ∧
    ps_status p' = COMPLETED ∧ ps_result p' = PyJson j' ∧
    json_canon j' = lua_norm (json_canon j) ∧
    (lua_safe 999 (json_canon j) = true → ps_result p' ≡ PyJson j).
Proof.
  intros Hi Hn Hwf Hsafe Hv Hs. destruct (view_Some _ _ _ Hi Hv) as (raw & Hg & Hh).
  destruct (cjson_encode_spec _ (lua_safe_S 999 _ Hsafe)) as (_ & _ & _ & j0 & _ & Hj0).
  destruct (script_complete now mid s raw p j j0 Hn Hwf Hsafe Hj0 Hg Hh Hs)
    as (r' & raw' & p' & E & Hg' & _ & _ & (_ & Hp' & _) & (_ & Hs' & _ & Hr & _)).
  cbn in Hs', Hr. destruct (ps_result p') as [j'|] eqn:Ej; [|done].
  assert (Hj' : json_canon j' = lua_norm (json_canon j)) by (rewrite <- Hj0; exact Hr).
  exists (mkState r' (rs_config s)), p', j'. split_and!; try done.
  - unfold get_status. cbn. by rewrite Hg', Hp'.
  - intros Hall. rewrite (lua_norm_safe _ _ Hall) in Hj'. rewrite Ej. exact Hj'.
Qed.

(** An empty list does not survive: Lua has one empty table, so a handler's
    result [[]] is stored, and read back, as [{}]. *)
Theorem redis_empty_list_lost s mid now now' p :
  inv s → in_datetime now = true → json_wf (JArr []) = true →
  view s mid = Some p → ps_status p = PROCESSING →
  ∃ s' p', mark_completed now mid (PyJson (JArr [])) s = (s', Ok tt) ∧
    get_status now' mid s' = (s', Ok (Some p')) ∧ ps_result p' = PyJson (JObj []).
Proof.
  intros Hi Hn Hwf Hv Hs. destruct (view_Some _ _ _ Hi Hv) as (raw & Hg & Hh).
  destruct (script_complete now mid s raw p (JArr []) (JObj []) Hn Hwf)
    as (r' & raw' & p' & E & Hg' & _ & _ & (_ & Hp' & _) & (_ & _ & _ & Hr & _)); try done.
  exists (mkState r' (rs_config s)), p'. split_and!; [done| |].
  - unfold get_status. simpl. by rewrite Hg', Hp'.
  - destruct (ps_result p') as [j|]; [|done]. unfold equiv, pyval_equiv in Hr. simpl in Hr.
    apply (f_equal PyJson). unfold equiv, json_equiv in Hr. simpl in Hr.
    destruct (canon_TObj_inv _ _ Hr) as (kvs & -> & Hk).
    destruct kvs as [|[k v] kvs]; [done|]. specialize (Hk k). simpl in Hk.
    by rewrite decide_True in Hk.
Qed.

(** An empty error text is not stored: a failure whose exception has no text leaves a FAILED record
    without an error, where the in-memory store keeps the empty text. *)
Theorem redis_empty_error_lost s mid now a p :
  inv s → in_datetime now = true → (Z.abs a < 10 ^ 14)%Z →
  view s mid = Some p → ps_status p = PROCESSING →
  ∃ s' p', mark_failed now mid "" a s = (s', Ok tt) ∧ view s' mid = Some p' ∧
    ps_status p' = FAILED ∧ ps_attempts p' = a ∧ ps_error p' = None.
Proof.
  intros Hi Hn Ha Hv Hs. destruct (view_Some _ _ _ Hi Hv) as (raw & Hg & Hh).
  destruct (script_fail_silent now mid s raw p a Hn Ha Hg Hh Hs)
    as (r' & raw' & p' & E & Hg' & _ & Hh' & (_ & Hs' & Ha' & _ & He & _)).
  exists (mkState r' (rs_config s)), p'. split_and!; [by eapply fails|by eapply view_holds|done|done|].
  rewrite He. cbn. destruct Hh as (_ & _ & (_ & _ & _ & Hw) & _). by apply Hw.
Qed.

(** C23: the lease of a record may outlive the record. A claim of a message that has a record sets a
    lease, but keeps the expiry that the first claim has set. When the record expires while that lease is
    live, nothing of the lease is left: the next claim of the message is won. *)
Theorem record_expires_under_lease s mid now now' d D s1 :
  inv s → claim_ok now mid s → is_Some (view s mid) → claim now mid s = (s1, Ok true) →
  deadline mid s = Some D → (0 ≤ d)%Z → alive_at (redis_clock (rs_client s) + d) (Some D) = false →
  (now_ms (rs_client s) * 1000 + processing_timeout_seconds (rs_config s) * 1000000 >
    redis_clock (rs_client s) + d)%Z →
  claim_ok now' mid (st_elapse d s1) →
  ∃ p l s2, view s1 mid = Some p ∧ ps_status p = PROCESSING ∧ ps_lease_expires_at p = Some l ∧
    (redis_clock (rs_client (st_elapse d s1)) < l)%Z ∧
    view (st_elapse d s1) mid = None ∧ claim now' mid (st_elapse d s1) = (s2, Ok true).
Proof.
  intros Hi Hok [p0 Hv0] E HD Hd Hdead Hlive Hok'.
  destruct (view_Some _ _ _ Hi Hv0) as (raw & Hg & Hh).
  pose proof (script_claim_present now mid s raw p0 Hok Hg Hh) as Hcl. cbn zeta in Hcl.
  destruct (Spec.claimable _ _ _); [|by rewrite E in Hcl].
  destruct Hcl as (r' & raw' & p & E' & Hg' & [Hclk _] & Hdl & Hh' & (_ & Hs & _ & _ & _ & Hl & _)).
  rewrite E in E'. injection E' as ->. cbn in Hl.
  assert (Hi1 : inv (mkState r' (rs_config s))).
  { destruct (claim_refines s now mid Hi Hok) as (s' & E' & Hi' & _). rewrite E in E'. by injection E' as <-. }
  assert (Hi2 : inv (st_elapse d (mkState r' (rs_config s)))) by (change (st_inv (st_elapse d (mkState r' (rs_config s)))); by apply elapse_inv).
  assert (Hgone : view (st_elapse d (mkState r' (rs_config s))) mid = None).
  { destruct (elapse_cases d (mkState r' (rs_config s)) mid Hd) as [[Ha _]|[_ Hn]]; [|exact Hn].
    cbn in Ha. unfold deadline in HD. rewrite Hclk, Hdl, HD in Ha. congruence. }
  destruct (claim_refines _ now' mid Hi2 Hok') as (s2 & E2 & _).
  eexists p, _, s2. split_and!; [by eapply view_holds|done|exact Hl| |exact Hgone|].
  - cbn. rewrite redis_elapse_clock, Hclk. lia.
  - rewrite E2. do 2 f_equal. exact (f_equal (λ v, (Spec.do_claim _ _ _ _ v).2) Hgone).
Qed.

(** A result that json.dumps refuses raises before anything is sent: the
    record stays as it was. *)
Theorem redis_unserializable_result s mid now cls :
  mark_completed now mid (PyOpaque cls) s = (s, Err (not_serializable cls)).
Proof. done. Qed.

End Redis.

(** ** Evaluated on the reference server *)

#[local] Existing Instances json_text text_runtime iso8601.
#[local] Existing Instances RefCjson.ref_cjson RefCjson.ref_cjson_laws Ref.ref_server Ref.ref_laws.

Definition new_redis : Redis.state Ref.server := Redis.init (Ref.mkServer 1700000000123456 ∅) None.

Lemma new_redis_inv : inv new_redis.
Proof. by apply inv_init. Qed.

Definition client_now : Z := 1700000000000000.

Lemma new_redis_claim now : in_datetime now = true → claim_ok now "m1" new_redis.
Proof. intros Hn. split_and!; [done|done|done|done|by vm_compute|done]. Qed.

Lemma redis_claim_ignores_caller_clock_witness :
  ∃ s1 s2 won, claim client_now "m1" new_redis = (s1, Ok won) ∧
    claim 0 "m1" new_redis = (s2, Ok won) ∧
    (ps_lease_expires_at <$> view s1 "m1") = (ps_lease_expires_at <$> view s2 "m1").
Proof.
  apply (redis_claim_ignores_caller_clock new_redis "m1" client_now 0 new_redis_inv);
    by apply new_redis_claim.
Defined.

(** One claim, then its completion. *)
Definition claimed_redis : Redis.state Ref.server := (claim client_now "m1" new_redis).1.
Definition completed_redis : Redis.state Ref.server :=
  (mark_completed client_now "m1" (PyJson (JInt 5)) claimed_redis).1.

Example redis_shown :
  (ps_status <$> view completed_redis "m1") = Some COMPLETED ∧
  (ps_result <$> view completed_redis "m1") = Some (PyJson (JInt 5)) ∧
  deadline "m1" completed_redis = Some 1700086400123%Z.
Proof. vm_compute. done. Qed.

Lemma claimed_redis_inv : inv claimed_redis.
Proof.
  destruct (claim_refines new_redis client_now "m1" new_redis_inv (new_redis_claim client_now eq_refl))
    as (s' & E & Hi & _). unfold claimed_redis. by rewrite E.
Qed.

Lemma result_ok now : in_datetime now = true → complete_ok now "m1" (PyJson (JInt 5)).
Proof. intros Hn. split; [done|]. exists (JInt 5). by vm_compute. Qed.

Lemma completed_redis_inv : inv completed_redis.
Proof.
  destruct (complete_refines claimed_redis client_now "m1" _ claimed_redis_inv (result_ok client_now eq_refl))
    as (s' & E & Hi & _). unfold completed_redis. by rewrite E.
Qed.

(** The records of the two states. *)
Definition claimed_record : ProcessingStatus :=
  mkStatus "m1" PROCESSING 1 PyNone None (Some 1700000300123000%Z) client_now client_now.
Definition completed_record : ProcessingStatus :=
  mkStatus "m1" COMPLETED 1 (PyJson (JInt 5)) None None client_now client_now.

Lemma claimed_redis_view : view claimed_redis "m1" = Some claimed_record.
Proof. vm_compute. reflexivity. Qed.
Lemma completed_redis_view : view completed_redis "m1" = Some completed_record.
Proof. vm_compute. reflexivity. Qed.

Lemma claimed_redis_claim : claim_ok client_now "m1" claimed_redis.
Proof.
  split_and!; [done|done|done|by vm_compute|by vm_compute|].
  intros p. rewrite claimed_redis_view. by intros [= <-].
Qed.

(** On a record in progress, and on none. *)
Lemma marks_logged_witness :
  (∃ s1, mark_completed_logged client_now "m1" (PyJson (JInt 5)) claimed_redis = (s1, Ok []) ∧
     (ps_status <$> view s1 "m1") = Some COMPLETED) ∧
  mark_failed_logged client_now "m1" "boom" 1 new_redis =
    (new_redis, Ok ["mark_failed: key not found (expired?) message_id=m1"%string]).
Proof.
  split.
  - destruct (marks_logged claimed_redis "m1" client_now (JInt 5) "boom" 1 claimed_redis_inv
      (result_ok client_now eq_refl)) as (s1 & s2 & E1 & _ & Hs); [by split_and!|].
    exists s1. rewrite claimed_redis_view in E1, Hs. split; [exact E1|].
    apply Hs.
  - destruct (marks_logged new_redis "m1" client_now (JInt 5) "boom" 1 new_redis_inv
      (result_ok client_now eq_refl)) as (s1 & s2 & _ & E2 & Hs); [by split_and!|].
    assert (Hv : view new_redis "m1" = None) by by vm_compute. rewrite Hv in E2, Hs.
    destruct Hs as [_ ->]. exact E2.
Defined.

Lemma redis_ttl_from_first_claim_witness :
  (∃ s', claim client_now "m1" new_redis = (s', Ok true) ∧
     deadline "m1" s' = Some 1700086400123%Z) ∧
  (∃ s', mark_failed client_now "m1" "boom" 1 claimed_redis = (s', Ok tt) ∧
     deadline "m1" s' = deadline "m1" claimed_redis).
Proof.
  split.
  - exact (proj1 (redis_ttl_from_first_claim new_redis "m1" client_now _ "boom" 1 new_redis_inv
      (new_redis_claim client_now eq_refl) (result_ok client_now eq_refl) ltac:(by split_and!)) eq_refl).
  - exact (proj2 (proj2 (proj2 (redis_ttl_from_first_claim claimed_redis "m1" client_now _ "boom" 1
      claimed_redis_inv claimed_redis_claim (result_ok client_now eq_refl) ltac:(by split_and!))
      claimed_record claimed_redis_view))).
Defined.

Lemma redis_update_guarded_witness :
  ∃ z, run_update_script client_now "m1" FAILED "" "late" "2" completed_redis = (completed_redis, Ok z).
Proof.
  apply (redis_update_guarded completed_redis "m1"); [exact completed_redis_inv|].
  intros p. rewrite completed_redis_view. by intros [= <-].
Defined.

(** The empty list is lost, the rest is kept. *)
Definition order_result : json := JObj [("items", JArr []); ("total", JInt 5)]%string.

Lemma redis_result_roundtrip_witness :
  ∃ s' p' j', mark_completed client_now "m1" (PyJson order_result) claimed_redis = (s', Ok tt) ∧
    get_status 0 "m1" s' = (s', Ok (Some p')) ∧
    ps_status p' = COMPLETED ∧ ps_result p' = PyJson j' ∧
    json_canon j' = json_canon (JObj [("items", JObj []); ("total", JInt 5)])%string.
Proof.
  destruct (redis_result_roundtrip claimed_redis "m1" client_now 0 _ order_result claimed_redis_inv
    eq_refl ltac:(by vm_compute) ltac:(by vm_compute) claimed_redis_view eq_refl)
    as (s' & p' & j' & E & Hg & Hs & Hr & Hj & _).
  exists s', p', j'. split_and!; try done.
Defined.

Lemma redis_empty_list_lost_witness :
  ∃ s' p', mark_completed client_now "m1" (PyJson (JArr [])) claimed_redis = (s', Ok tt) ∧
    get_status 0 "m1" s' = (s', Ok (Some p')) ∧ ps_result p' = PyJson (JObj []).
Proof.
  exact (redis_empty_list_lost claimed_redis "m1" client_now 0 _ claimed_redis_inv
    eq_refl eq_refl claimed_redis_view eq_refl).
Defined.

(** A failure a day after the first claim, but for 100 seconds, and the claim of its retry, whose lease
    of 300 seconds is cut off by the end of the day. *)
Definition retried_redis : Redis.state Ref.server :=
  (mark_failed client_now "m1" "boom" 1 (st_elapse 86300000000 claimed_redis)).1.
Definition leased_redis : Redis.state Ref.server := (claim client_now "m1" retried_redis).1.

Lemma retried_redis_inv : inv retried_redis.
Proof.
  destruct (fail_refines (st_elapse 86300000000 claimed_redis) client_now "m1" "boom" 1) as (s' & E & Hi & _);
    [|by split_and!|].
  { change (st_inv (st_elapse 86300000000 claimed_redis)). by apply elapse_inv, claimed_redis_inv. }
  unfold retried_redis. by rewrite E.
Qed.

Lemma record_expires_under_lease_witness :
  ∃ p l s2, view leased_redis "m1" = Some p ∧ ps_status p = PROCESSING ∧
    ps_lease_expires_at p = Some l ∧
    (redis_clock (rs_client (st_elapse 101000000 leased_redis)) < l)%Z ∧
    view (st_elapse 101000000 leased_redis) "m1" = None ∧
    claim client_now "m1" (st_elapse 101000000 leased_redis) = (s2, Ok true).
Proof.
  apply (record_expires_under_lease retried_redis "m1" client_now client_now 101000000 1700086400123);
    [exact retried_redis_inv| |by eexists; vm_compute| |by vm_compute|done|by vm_compute|by vm_compute|].
  - split_and!; [done|done|by vm_compute|by vm_compute|by vm_compute|]. intros p Hp. vm_compute in Hp. by injection Hp as <-.
  - by vm_compute.
  - split_and!; [done|done|by vm_compute|by vm_compute|by vm_compute|]. intros p Hp. by vm_compute in Hp.
Defined.

(** Late reports and claims on a completed message. *)
Definition late : list store_op :=
  [OFail client_now "m1" "late" 1; OClaim client_now "m1"; OComplete client_now "m1" (PyJson (JInt 5));
   OElapse 1000000].

Lemma late_ok : ops_ok late completed_redis.
Proof.
  split; [by split_and!|].
  assert ((exec_op (OFail client_now "m1" "late" 1) completed_redis).1 = completed_redis) as ->
    by (vm_compute; reflexivity).
  split.
  - split_and!; [done|done|done|by vm_compute|by vm_compute|].
    intros p. rewrite completed_redis_view. by intros [= <-].
  - split; [apply result_ok; reflexivity|]. by split.
Qed.

Lemma late_labels : Forall (Spec.retained "m1") (exec_ops late completed_redis).2.
Proof.
  assert ((exec_ops late completed_redis).2 =
    [Spec.LFail client_now "m1" "late" 1; Spec.LClaim client_now 1700000000123000 "m1" false;
     Spec.LComplete client_now "m1" (PyJson (JInt 5));
     Spec.LTick (st_survives 1000000 completed_redis)]) as -> by (vm_compute; reflexivity).
  repeat (apply Forall_cons; split); try exact I; [|apply Forall_nil_2]. vm_compute. reflexivity.
Qed.

Lemma completed_final_witness :
  st_view (exec_ops late completed_redis).1 "m1" ≡ Some completed_record.
Proof.
  exact (proj1 (completed_final late completed_redis "m1" completed_record eq_refl
    completed_redis_inv late_ok completed_redis_view eq_refl late_labels)).
Defined.
