(* ===== verification/Backends.v ===== *)
(** * Two backends behind one interface

    The same calls on two stores that satisfy the laws of Store.v: when their
    answers agree.  Evaluated for the in-memory store and the Redis store. *)

From S2P Require Import Prelude Utf8 PyJson JsonText Models Iso8601 Store MemoryStore.
From S2P Require Import Timestamp RedisServer RedisStore RedisTable RedisProofs RefCjson RedisProps.
Import Spec.

(** What a call returns to its caller. *)
Inductive answer :=
| ABool (r : res bool)
| AUnit (r : res unit)
| AStatus (r : res (option ProcessingStatus))
| ATime.

#[export] Instance answer_equiv : Equiv answer := λ a b,
  match a, b with
  | AStatus (Ok v), AStatus (Ok w) => v ≡ w
  | _, _ => a = b
  end.

Definition call_op {S} `{DedupStore S, !StoreView S} (op : store_op) (s : S) : S * answer :=
  match op with
  | OClaim now mid => let '(s', r) := claim now mid s in (s', ABool r)
  | OComplete now mid result => let '(s', r) := mark_completed now mid result s in (s', AUnit r)
  | OFail now mid e a => let '(s', r) := mark_failed now mid e a s in (s', AUnit r)
  | OGet now mid => let '(s', r) := get_status now mid s in (s', AStatus r)
  | OIsDuplicate mid => let '(s', r) := is_duplicate mid s in (s', ABool r)
  | ODelete mid => let '(s', r) := delete mid s in (s', AUnit r)
  | OElapse d => (st_elapse d s, ATime)
  end.

Fixpoint call_ops {S} `{DedupStore S, !StoreView S} (ops : list store_op) (s : S) : S * list answer :=
  match ops with
  | [] => (s, [])
  | op :: ops' =>
      let '(s1, a) := call_op op s in
      let '(s2, l) := call_ops ops' s1 in
      (s2, a :: l)
  end.

Section Agree.
Context {S1 : Type} `{DedupStoreLaws S1} {S2 : Type} `{DedupStoreLaws S2}.

(** The states show the same records and have the same configuration. *)
Definition same_records (s1 : S1) (s2 : S2) : Prop :=
  st_inv s1 ∧ st_inv s2 ∧ st_config s1 = st_config s2 ∧ amap_equiv (st_view s1) (st_view s2).

(** Where the contract leaves backends free: the clock of a claim's lease, a failure reported for a
    message that is not PROCESSING, the expiry of records. *)
Definition alike_op (op : store_op) (s1 : S1) (s2 : S2) : Prop :=
  op_ok op s1 ∧ op_ok op s2 ∧
  match op with
  | OClaim now mid => st_clock now s1 = st_clock now s2
  | OFail _ mid _ _ =>
      st_guarded (S := S1) = st_guarded (S := S2) ∨
      ∀ p, st_view s1 mid = Some p → ps_status p = PROCESSING
  | OElapse d => ∀ mid, is_Some (st_view s1 mid) → st_survives d s1 mid ↔ st_survives d s2 mid
  | _ => True
  end.

Fixpoint alike (ops : list store_op) (s1 : S1) (s2 : S2) : Prop :=
  match ops with
  | [] => True
  | op :: ops' => alike_op op s1 s2 ∧ alike ops' (call_op op s1).1 (call_op op s2).1
  end.

(** A call on one message keeps the states alike when it leaves equal records of it. *)
Lemma same_records_frame mid (s1 s1' : S1) (s2 s2' : S2) :
  same_records s1 s2 → st_inv s1' → st_inv s2' → st_frame mid s1 s1' → st_frame mid s2 s2' →
  st_view s1' mid ≡ st_view s2' mid → same_records s1' s2'.
Proof.
  intros (_ & _ & Hc & Hv) Hi1 Hi2 (Hc1 & _ & Hf1) (Hc2 & _ & Hf2) Hm.
  split_and!; [done|done|congruence|]. intros k.
  destruct (decide (k = mid)) as [->|Hk]; [done|]. rewrite Hf1, Hf2 by done. apply Hv.
Qed.

Lemma do_fail_alike g1 g2 now e a v w :
  v ≡ w → (g1 = g2 ∨ ∀ p, v = Some p → ps_status p = PROCESSING) →
  do_fail g1 now e a v ≡ do_fail g2 now e a w.
Proof.
  intros Hv [->|Hp]; [by rewrite Hv|]. rewrite <- Hv. destruct v as [p|]; [|done]. unfold do_fail.
  rewrite !decide_False; [done|by rewrite (Hp p eq_refl); naive_solver..].
Qed.

Lemma call_op_agrees op (s1 : S1) (s2 : S2) :
  same_records s1 s2 → alike_op op s1 s2 →
  (call_op op s1).2 ≡ (call_op op s2).2 ∧ same_records (call_op op s1).1 (call_op op s2).1.
Proof.
  intros Hs (Hok1 & Hok2 & Ha). pose proof Hs as (Hi1 & Hi2 & Hc & Hv).
  destruct op as [now mid|now mid r|now mid e a|now mid|mid|mid|d]; cbn in Hok1, Hok2, Ha |- *.
  - destruct (claim_spec s1 now mid Hi1 Hok1) as (s1' & -> & Hi1' & Hf1 & V1).
    destruct (claim_spec s2 now mid Hi2 Hok2) as (s2' & -> & Hi2' & Hf2 & V2).
    rewrite Hc, Ha in V1 |- *.
    destruct (do_claim_equiv (st_config s2) now (st_clock now s2) mid _ _ (Hv mid)) as [E1 E2].
    split; [cbn; by rewrite E2|]. apply (same_records_frame mid s1 s1' s2 s2'); [done..|]. by rewrite V1, V2.
  - destruct (mark_completed_spec s1 now mid r Hi1 Hok1) as (s1' & -> & Hi1' & Hf1 & V1).
    destruct (mark_completed_spec s2 now mid r Hi2 Hok2) as (s2' & -> & Hi2' & Hf2 & V2).
    split; [done|]. apply (same_records_frame mid s1 s1' s2 s2'); [done..|]. by rewrite V1, V2, (Hv mid).
  - destruct (mark_failed_spec s1 now mid e a Hi1 Hok1) as (s1' & -> & Hi1' & Hf1 & V1).
    destruct (mark_failed_spec s2 now mid e a Hi2 Hok2) as (s2' & -> & Hi2' & Hf2 & V2).
    split; [done|]. apply (same_records_frame mid s1 s1' s2 s2'); [done..|]. rewrite V1, V2. by apply do_fail_alike.
  - rewrite !get_status_spec by done. split; [apply Hv|done].
  - rewrite !is_duplicate_spec by done. split; [|done]. cbn. do 2 f_equal.
    apply bool_decide_ext. pose proof (Hv mid) as Hm. by destruct Hm.
  - destruct (delete_spec s1 mid Hi1) as (s1' & -> & Hi1' & Hf1 & V1).
    destruct (delete_spec s2 mid Hi2) as (s2' & -> & Hi2' & Hf2 & V2).
    split; [done|]. apply (same_records_frame mid s1 s1' s2 s2'); [done..|]. by rewrite V1, V2.
  - split; [done|]. split_and!; [by apply elapse_inv..|by rewrite !elapse_config|]. intros mid.
    destruct (elapse_view d s1 mid Hok1 Hi1) as [[A1 ->]|[A1 ->]],
      (elapse_view d s2 mid Hok2 Hi2) as [[A2 ->]|[A2 ->]]; [apply Hv| | |done];
      specialize (Ha mid); specialize (Hv mid);
      (destruct (st_view s1 mid); [|by inversion Hv]); destruct Ha; naive_solver.
Qed.

(** C22: the backends are interchangeable. From the same records, the same calls, each of which both
    stores can represent ([op_ok]: on Redis no empty error text, and no empty list, fraction, or integer
    of 10^14 or more in a result), give the same answers on two stores, claims and statuses included, and
    leave the same records; as long as the claims' leases are measured on equal clocks, no failure is
    reported for a message that is not PROCESSING (or both backends treat it alike), and the same records
    expire. *)
Theorem backends_agree ops (s1 : S1) (s2 : S2) :
  same_records s1 s2 → alike ops s1 s2 →
  Forall2 (≡) (call_ops ops s1).2 (call_ops ops s2).2 ∧
  same_records (call_ops ops s1).1 (call_ops ops s2).1.
Proof.
  revert s1 s2. induction ops as [|op ops IH]; intros s1 s2 Hs Ha; [by split|]. destruct Ha as [Ho Ha].
  destruct (call_op_agrees op s1 s2 Hs Ho) as [E Hs']. cbn [call_ops].
  destruct (call_op op s1) as [s1' a1], (call_op op s2) as [s2' a2]. cbn [fst snd] in *.
  destruct (IH s1' s2' Hs' Ha) as [El Hf].
  destruct (call_ops ops s1'), (call_ops ops s2'). split; [by constructor|done].
Qed.

End Agree.

(** ** Evaluated: memory and Redis *)

Import Redis RedisTable RedisLaws.

#[local] Existing Instances Memory.memory_store Memory.memory_view Memory.memory_laws.
#[local] Existing Instances json_text iso8601.
#[local] Existing Instances RefCjson.ref_cjson RefCjson.ref_cjson_laws Ref.ref_server Ref.ref_laws.

(** The callers' clock is the server's, to the millisecond. *)
Abbreviation agreed := 1700000000123000%Z.

(** A failure, a retry, a crash, a re-claim after the lease, success, a duplicate. *)
Definition shared_calls : list store_op :=
  [OClaim agreed "m1"; OGet agreed "m1"; OFail agreed "m1" "boom" 1; OClaim agreed "m1";
   OElapse 400000000; OClaim (agreed + 400000000) "m1";
   OComplete (agreed + 400000000) "m1" (PyJson (JInt 5)); OClaim (agreed + 400000000) "m1";
   OGet (agreed + 400000000) "m1"; OIsDuplicate "m1"; ODelete "m1"; OIsDuplicate "m1"]%Z.

Abbreviation memory0 := (Memory.init None).

Lemma initial_same : same_records memory0 new_redis.
Proof. split_and!; [apply Memory.init_inv|apply new_redis_inv|done|]. intros mid. cbn.
  unfold view. cbn. by rewrite lookup_empty. Qed.


Lemma alike_claim now mid (m : Memory.state) (s : Redis.state Ref.server) :
  in_datetime now = true →
  in_datetime (now + processing_timeout_seconds (Memory.ms_config m) * 1000000) = true →
  utf8_valid mid = true → px_ok (ttl_seconds (rs_config s) * 1000) = true →
  (0 ≤ now_ms (rs_client s) + processing_timeout_seconds (rs_config s) * 1000 < exact_ms)%Z →
  match view s mid with Some p => ps_attempts p + 1 <? 10 ^ 14 | None => true end%Z = true →
  now = (now_ms (rs_client s) * 1000)%Z →
  alike_op (OClaim now mid) m s.
Proof.
  intros H1 H2 H3 H4 H5 H6 H7. split; [by split|]. split; [|exact H7].
  split_and!; [done|done|done|apply H5|apply H5|]. intros p Hp. rewrite Hp in H6. by apply Z.ltb_lt.
Qed.

(** The record of "m1" is the only one, in memory and so on both. *)
Lemma alike_elapse d (m : Memory.state) (s : Redis.state Ref.server) p :
  (0 ≤ d)%Z → Memory.ms_store m = {["m1"%string := p]} →
  alive_at (redis_clock (rs_client s) + d) (redis_deadline (redis_key "m1") (rs_client s)) = true →
  alike_op (OElapse d) m s.
Proof.
  intros Hd Hm Ha. split_and!; [done|done|]. intros mid [q Hq]. cbn in Hq. rewrite Hm in Hq.
  apply lookup_singleton_Some in Hq as [<- _]. by split.
Qed.

Lemma shared_alike : alike shared_calls memory0 new_redis.
Proof.
  cbn [alike shared_calls]. repeat (match goal with |- _ ∧ _ => split end).
  all: try (apply alike_claim; vm_compute; done).
  all: try exact I.
  all: try (split; [exact I|split; exact I]).
  - split; [exact I|]. split; [by vm_compute|]. right. intros p Hp. vm_compute in Hp. by injection Hp as <-.
  - eapply alike_elapse; [done|vm_compute; reflexivity|by vm_compute].
  - split; [exact I|]. split; [|exact I]. split; [done|]. exists (JInt 5). by vm_compute.
Qed.

Lemma backends_agree_witness :
  let '(m, la) := call_ops shared_calls memory0 in
  let '(r, lb) := call_ops shared_calls new_redis in
  Forall2 (≡) la lb ∧ same_records m r ∧
  la !! 0 = Some (ABool (Ok true)) ∧ la !! 3 = Some (ABool (Ok true)) ∧ la !! 5 = Some (ABool (Ok true)) ∧
  la !! 7 = Some (ABool (Ok false)) ∧ la !! 9 = Some (ABool (Ok true)) ∧ la !! 11 = Some (ABool (Ok false)).
Proof.
  destruct (backends_agree shared_calls memory0 new_redis initial_same shared_alike) as [Ha Hs].
  assert (Hl : (λ i, (call_ops shared_calls memory0).2 !! i) <$> [0; 3; 5; 7; 9; 11] =
    (λ b, Some (ABool (Ok b))) <$> [true; true; true; false; true; false]) by (vm_compute; reflexivity).
  destruct (call_ops shared_calls memory0) as [m la], (call_ops shared_calls new_redis) as [r lb].
  by injection Hl as ??????.
Defined.
