(* ===== verification/StoreEvents.v ===== *)
(** * Calls of a store as events

    The calls that the clients (the consumer, the guard, the decorator) make on
    a [DeduplicationStore], and their execution by a store with an instance of
    [DedupStore] at a clock. *)

From S2P Require Import Prelude Prog PyJson Models Store.

(** A call of a store method. *)
Inductive store_ev : Type → Type :=
| EClaim (message_id : string) : store_ev bool
| EGetStatus (message_id : string) : store_ev (option ProcessingStatus)
| EMarkCompleted (message_id : string) (result : pyval) : store_ev unit
| EMarkFailed (message_id : string) (error : string) (attempts : Z) : store_ev unit
| EConnect : store_ev unit                             (* connect(), if the store has one *)
| EClose : store_ev unit.

(** The call at the clock [now]; connect() does nothing in the stores modelled. *)
Definition call_store {S} `{DedupStore S} {X} (now : Z) (e : store_ev X) : action S X :=
  match e in store_ev X return action S X with
  | EClaim mid => claim now mid
  | EGetStatus mid => get_status now mid
  | EMarkCompleted mid v => mark_completed now mid v
  | EMarkFailed mid e a => mark_failed now mid e a
  | EConnect => λ s, (s, Ok tt)
  | EClose => close
  end.
