(* ===== verification/Guard.v ===== *)
(** * Idempotency utilities (idempotency/guard.py)

    [IdempotencyGuard] and the [@idempotent] decorator as effect trees over the
    calls of the store, the body they wrap, and sleep. *)

From S2P Require Import Prelude Prog PyJson Models Store StoreEvents.

(** The state of an [IdempotencyGuard] that its user sees. *)
Record guard := mkGuard {
  already_processed : bool;
  previous_result : pyval;
  result : pyval;
}.

(** What a decorated function is called with: *args and **kwargs. *)
Record call_args := mkArgs {
  positional : list json;
  keyword : list (string * json);
}.

Inductive gev : Type → Type :=
| GStore {X : Type} (e : store_ev X) : gev X
| GSleep (ms : Z) : gev unit                     (* asyncio.sleep(ms / 1000) *)
| GBlock (g : guard) : gev pyval                 (* the block under the guard; answers with the
                                                    value it leaves in guard.result *)
| GFunc (args : call_args) : gev pyval.          (* func( *args, **kwargs ) *)

(** ** class IdempotencyGuard *)
Section Guard.
Context (key : string).

Definition new_guard : guard := mkGuard false PyNone PyNone.

Definition aenter : prog gev guard :=
  existing ← trigger (GStore (EGetStatus key));
  match existing with
  | Some p =>
      if decide (ps_status p = COMPLETED)
      then Ret (mkGuard true (ps_result p) PyNone)
      else
        claimed ← trigger (GStore (EClaim key));
        Ret (mkGuard (negb claimed) PyNone PyNone)
  | None =>
      claimed ← trigger (GStore (EClaim key));
      Ret (mkGuard (negb claimed) PyNone PyNone)
  end.

(** [f"{exc_type.__name__}: {exc_val}"] *)
Definition error_msg (x : exn) : string := exn_type x +:+ ": " +:+ exn_str x.

(** The answer says whether the exception is suppressed. *)
Definition aexit (self : guard) (exc : option exn) : prog gev bool :=
  if already_processed self then Ret false
  else
    match exc with
    | Some x => _ ← trigger (GStore (EMarkFailed key (error_msg x) 1)); Ret false
    | None => _ ← trigger (GStore (EMarkCompleted key (result self))); Ret false
    end.

(** [async with IdempotencyGuard(store, key) as guard: block] *)
Definition with_guard : prog gev unit :=
  g ← aenter;
  r ← attempt (trigger (GBlock g));
  match r with
  | Ok v =>
      _ ← aexit (mkGuard (already_processed g) (previous_result g) v) None; Ret tt
  | Err x =>
      suppressed ← aexit g (Some x);
      if suppressed : bool then Ret tt else Raise x
  end.

End Guard.

(** ** The decorator *)
Section Idempotent.
Context `{!PyRuntime} (key_fn : option (call_args → res string)) (config : DeduplicationConfig).

Definition no_key : exn :=
  ValueError ("@idempotent: cannot derive idempotency key — "
    +:+ "supply key_fn or pass the key as the first positional argument").

Definition idempotency_key (args : call_args) : res string :=
  match key_fn with
  | Some f => f args
  | None =>
      match positional args with
      | a :: _ => Ok (py_str a)
      | [] => Err no_key
      end
  end.

(** [raise last_exc], also when there is none. *)
Definition raise_last (last_exc : option exn) : prog gev pyval :=
  match last_exc with
  | Some x => Raise x
  | None => Raise (TypeError "exceptions must derive from BaseException")
  end.

(** [while attempts <= max_retries] *)
Fixpoint attempts_loop (fuel : nat) (key : string) (args : call_args) (attempts : Z)
    (last_exc : option exn) : prog gev pyval :=
  match fuel with
  | O => raise_last last_exc
  | S fuel' =>
      r ← attempt (trigger (GFunc args));
      match r with
      | Ok result =>
          _ ← try_except (trigger (GStore (EMarkCompleted key result))) (λ _, Ret tt);
          Ret result
      | Err exc =>
          if exn_is_exception exc then
            _ ← trigger (GStore (EMarkFailed key (exn_str exc) attempts));
            if (attempts <? max_retries config)%Z then
              _ ← trigger (GSleep (retry_backoff_ms config * attempts));
              reclaimed ← trigger (GStore (EClaim key));
              if reclaimed : bool
              then attempts_loop fuel' key args (attempts + 1) (Some exc)
              else raise_last (Some exc)
            else attempts_loop fuel' key args (attempts + 1) (Some exc)
          else Raise exc
      end
  end.

Definition idempotent (args : call_args) : prog gev pyval :=
  key ← of_res (idempotency_key args);
  existing ← trigger (GStore (EGetStatus key));
  let proceed :=
    claimed ← trigger (GStore (EClaim key));
    if claimed : bool
    then attempts_loop (Z.to_nat (max_retries config)) key args 1 None
    else Ret PyNone in
  match existing with
  | Some p => if decide (ps_status p = COMPLETED) then Ret (ps_result p) else proceed
  | None => proceed
  end.

End Idempotent.

(** ** What the decorator may do: a monitor of its executions *)

Record monitor := mkMonitor {
  m_licensed : bool;      (* a claim was won and not used yet *)
  m_calls : nat;          (* calls of func *)
  m_returned : bool;      (* func has returned *)
  m_completed : nat;      (* mark_completed calls *)
  m_ok : bool;            (* every call was licensed, and none followed a return *)
}.

Definition start_monitor : monitor := mkMonitor false 0 false 0 true.

Definition observe {X} (m : monitor) (e : gev X) : res X → monitor :=
  match e in gev X return res X → monitor with
  | GStore e =>
      match e in store_ev X return res X → monitor with
      | EClaim _ => λ r,
          mkMonitor (match r with Ok b => b | Err _ => false end) (m_calls m) (m_returned m)
            (m_completed m) (m_ok m)
      | EMarkCompleted _ _ => λ _,
          mkMonitor (m_licensed m) (m_calls m) (m_returned m) (S (m_completed m)) (m_ok m)
      | _ => λ _, m
      end
  | GFunc _ => λ r,
      mkMonitor false (S (m_calls m)) (is_ok r) (m_completed m)
        (m_ok m && m_licensed m && negb (m_returned m))
  | _ => λ _, m
  end.

Definition observe_step (m : monitor) (st : step gev) : monitor :=
  observe m (step_ev st) (step_res st).
Definition monitor_of (tr : list (step gev)) : monitor := foldl observe_step start_monitor tr.

Definition gallowed (X : Type) (_ : gev X) (_ : res X) : Prop := True.

Section Safety.
Context `{!PyRuntime} (key_fn : option (call_args → res string)) (config : DeduplicationConfig).

(** What the monitor has seen when the loop ends. *)
Definition loop_post (calls fuel : nat) (m : monitor) (o : res pyval) : Prop :=
  m_ok m = true ∧ (m_calls m ≤ calls + fuel)%nat ∧
  (is_ok o = true → m_returned m = true ∧ m_completed m = 1).

Lemma attempts_loop_wp key args (fuel : nat) : ∀ a last m,
  (fuel = O ∨ (Z.of_nat fuel + a = max_retries config + 1)%Z) →
  (fuel = O ∨ m_licensed m = true) → m_returned m = false → m_completed m = 0 → m_ok m = true →
  wp gallowed observe_step m (attempts_loop config fuel key args a last)
    (loop_post (m_calls m) fuel).
Proof.
  induction fuel as [|fuel IH]; intros a last m Hf Hl Hr Hc Hok; cbn [attempts_loop].
  { destruct last; cbn; (split_and!; [done|lia|done]). }
  destruct Hl as [|Hl]; [done|].
  apply wp_bind, wp_attempt, wp_trigger. intros [v|x] _.
  - apply wp_bind, wp_try_except, wp_trigger. intros [[]|y] _; [|destruct (exn_is_exception y)];
      cbn; unfold loop_post; cbn; rewrite ?Hl, ?Hr, ?Hok, ?Hc; (split_and!; [done|lia|done]).
  - set (m1 := observe_step m (Step (GFunc args) (Err x))).
    assert (H1 : m_ok m1 = true ∧ m_calls m1 = S (m_calls m) ∧ m_returned m1 = false ∧ m_completed m1 = 0).
    { unfold m1. cbn. by rewrite Hok, Hl, Hr. }
    assert (Hend : ∀ m2 (o : exn), m_ok m2 = true → m_calls m2 = S (m_calls m) →
      loop_post (m_calls m) (S fuel) m2 (Err o)).
    { intros m2 o ??. split_and!; [done|lia|done]. }
    assert (Hpost : ∀ m2, m_calls m2 = S (m_calls m) →
      ∀ m' o, loop_post (m_calls m2) fuel m' o → loop_post (m_calls m) (S fuel) m' o).
    { intros m2 Hm2 m' o (?&?&?). split_and!; [done|lia|done]. }
    destruct H1 as (Hok1 & Hcalls1 & Hr1 & Hc1).
    destruct (exn_is_exception x); [|by apply Hend].
    apply wp_bind, wp_trigger. intros [[]|y] _; [|by apply Hend].
    destruct (Z.ltb_spec a (max_retries config)) as [Hlt|Hge].
    + apply wp_bind, wp_trigger. intros [[]|y] _; [|by apply Hend].
      apply wp_bind, wp_trigger. intros [[]|y] _; [|by apply Hend|by apply Hend].
      eapply wp_mono; [eapply Hpost, Hcalls1|].
      apply (IH (a + 1)%Z (Some x) (mkMonitor true (m_calls m1) (m_returned m1) (m_completed m1) (m_ok m1)));
        try done; [lia|by right].
    + eapply wp_mono; [eapply Hpost, Hcalls1|].
      apply (IH (a + 1)%Z (Some x) m1); try done; [lia|left; lia].
Qed.

End Safety.
