(* ===== verification/GuardProps.v ===== *)
(** * Properties of the guard and the decorator

    Safety of every execution, and the runs against a store that satisfies the
    laws of Store.v, with the outcomes of the wrapped code given in advance. *)

From S2P Require Import Prelude Prog PyJson JsonText Models Store MemoryStore StoreEvents Guard.

Section World.
Context {S : Type} `{DedupStore S} (elapse : Z → S → S).

Record gworld := mkGWorld {
  gw_store : S;
  gw_clock : Z;
  gw_outcomes : list (res pyval);      (* of the coming runs of the wrapped code *)
  gw_calls : nat;                      (* how often it ran *)
}.

Definition run_body : action gworld pyval := λ w,
  (mkGWorld (gw_store w) (gw_clock w) (tail (gw_outcomes w)) (Datatypes.S (gw_calls w)),
   match gw_outcomes w with r :: _ => r | [] => Ok PyNone end).

Definition g_handler (X : Type) (e : gev X) : action gworld X := λ w,
  match e in gev X return action gworld X with
  | GStore e => λ w,
      let '(s, r) := call_store (gw_clock w) e (gw_store w) in
      (mkGWorld s (gw_clock w) (gw_outcomes w) (gw_calls w), r)
  | GSleep ms => λ w,
      let d := Z.max 0 (ms * 1000) in
      (mkGWorld (elapse d (gw_store w)) (gw_clock w + d) (gw_outcomes w) (gw_calls w), Ok tt)
  | GBlock _ => run_body
  | GFunc _ => run_body
  end w.

End World.
Arguments gworld S : clear implicits.
Arguments mkGWorld {S} _ _ _ _.

Section Runs.
Context `{!PyRuntime} {S : Type} `{DedupStoreLaws S}.
Implicit Types w : gworld S.

Abbreviation grun p w := (run (g_handler st_elapse) p w).

Lemma run_get w mid :
  st_inv (gw_store w) →
  grun (trigger (GStore (EGetStatus mid))) w = (w, Ok (st_view (gw_store w) mid)).
Proof. intros Hi. rewrite run_trigger. cbn. rewrite get_status_spec by done. by destruct w. Qed.

(** The world after the store changed. *)
Definition gw_with (s : S) (w : gworld S) : gworld S :=
  mkGWorld s (gw_clock w) (gw_outcomes w) (gw_calls w).

Lemma run_claim w mid :
  st_inv (gw_store w) → st_claim_ok (gw_clock w) mid (gw_store w) →
  ∃ s', grun (trigger (GStore (EClaim mid))) w =
      (gw_with s' w, Ok (Spec.claimable (st_config (gw_store w))
                           (st_clock (gw_clock w) (gw_store w)) (st_view (gw_store w) mid))) ∧
    st_inv s' ∧ st_config s' = st_config (gw_store w) ∧
    st_view s' mid ≡ (Spec.do_claim (st_config (gw_store w)) (gw_clock w)
      (st_clock (gw_clock w) (gw_store w)) mid (st_view (gw_store w) mid)).1.
Proof.
  intros Hi Hok. destruct (claim_spec _ _ _ Hi Hok) as (s' & E & Hi' & (Hc & _ & _) & Hv).
  exists s'. split_and!; try done. rewrite run_trigger. cbn. rewrite E. unfold Spec.do_claim.
  by destruct (Spec.claimable _ _ _).
Qed.

Lemma run_complete w mid r :
  st_inv (gw_store w) → st_complete_ok (gw_clock w) mid r →
  ∃ s', grun (trigger (GStore (EMarkCompleted mid r))) w = (gw_with s' w, Ok tt) ∧
    st_inv s' ∧ st_view s' mid ≡ Spec.do_complete (gw_clock w) r (st_view (gw_store w) mid).
Proof.
  intros Hi Hok. destruct (mark_completed_spec _ _ _ _ Hi Hok) as (s' & E & Hi' & _ & Hv).
  exists s'. split_and!; try done. rewrite run_trigger. cbn. by rewrite E.
Qed.

Lemma run_fail w mid e a :
  st_inv (gw_store w) → st_fail_ok (gw_clock w) mid e a →
  ∃ s', grun (trigger (GStore (EMarkFailed mid e a))) w = (gw_with s' w, Ok tt) ∧
    st_inv s' ∧ st_config s' = st_config (gw_store w) ∧
    st_view s' mid ≡ Spec.do_fail st_guarded (gw_clock w) e a (st_view (gw_store w) mid).
Proof.
  intros Hi Hok. destruct (mark_failed_spec _ _ _ _ _ Hi Hok) as (s' & E & Hi' & (Hc & _) & Hv).
  exists s'. split_and!; try done. rewrite run_trigger. cbn. by rewrite E.
Qed.

(** A key that can be claimed and is not COMPLETED. *)
Definition open_key (mid : string) (w : gworld S) : Prop :=
  Spec.claimable (st_config (gw_store w)) (st_clock (gw_clock w) (gw_store w))
    (st_view (gw_store w) mid) = true.

Lemma claimable_not_completed cfg clk p :
  Spec.claimable cfg clk (Some p) = true → ps_status p ≠ COMPLETED.
Proof.
  intros Hc Hs. unfold Spec.claimable, Spec.retryable, Spec.orphaned, is_failed in Hc.
  by rewrite Hs, !bool_decide_false in Hc.
Qed.

(** Entering the guard on such a key claims it. *)
Lemma run_aenter_open w mid :
  st_inv (gw_store w) → st_claim_ok (gw_clock w) mid (gw_store w) → open_key mid w →
  ∃ s' p', grun (aenter mid) w = (gw_with s' w, Ok new_guard) ∧ st_inv s' ∧
    st_config s' = st_config (gw_store w) ∧ st_view s' mid = Some p' ∧ ps_status p' = PROCESSING ∧
    ps_message_id p' = mid.
Proof.
  intros Hi Hok Hopen. destruct (run_claim w mid Hi Hok) as (s' & E & Hi' & Hc & Hv).
  unfold open_key in Hopen. unfold Spec.do_claim in Hv. rewrite Hopen in E, Hv. simpl in Hv.
  inversion Hv as [p' q Hp Hq|]; subst. exists s', p'.
  destruct Hp as (Hm & Hs & _). split_and!; try done.
  unfold aenter. cbn [mbind prog_mbind]. unfold mbind, prog_mbind. rewrite run_bind, run_get by done.
  destruct (st_view (gw_store w) mid) as [p|] eqn:Ep.
  - rewrite decide_False by by eapply claimable_not_completed.
    rewrite run_bind, E. done.
  - rewrite run_bind, E. done.
Qed.

(** The whole [async with] on such a key. *)
Lemma run_with_guard_open w mid r rest :
  st_inv (gw_store w) → st_claim_ok (gw_clock w) mid (gw_store w) → open_key mid w →
  gw_outcomes w = r :: rest →
  match r with
  | Ok v => st_complete_ok (gw_clock w) mid v
  | Err x => st_fail_ok (gw_clock w) mid (error_msg x) 1
  end →
  ∃ s' p, grun (with_guard mid) w =
      (mkGWorld s' (gw_clock w) rest (Datatypes.S (gw_calls w)),
       match r with Ok _ => Ok tt | Err x => Err x end) ∧
    st_inv s' ∧ st_view s' mid = Some p ∧
    match r with
    | Ok v => ps_status p = COMPLETED ∧ ps_result p ≡ v
    | Err x => st_config s' = st_config (gw_store w) ∧ ps_status p = FAILED ∧
               ps_attempts p = 1%Z ∧ ps_error p = Some (error_msg x)
    end.
Proof.
  intros Hi Hok Hopen Ho Hr.
  destruct (run_aenter_open w mid Hi Hok Hopen) as (s1 & p1 & E1 & Hi1 & Hc1 & Hv1 & Hs1 & _).
  unfold with_guard, mbind, prog_mbind. rewrite run_bind, E1, run_bind, run_attempt, run_trigger.
  set (w2 := mkGWorld s1 (gw_clock w) rest (Datatypes.S (gw_calls w))).
  assert (E2 : g_handler st_elapse pyval (GBlock new_guard) (gw_with s1 w) = (w2, r)).
  { cbn. unfold run_body. cbn. by rewrite Ho. }
  rewrite E2. destruct r as [v|x]; cbn [aexit already_processed new_guard];
    unfold mbind, prog_mbind.
  - destruct (run_complete w2 mid v Hi1 Hr) as (s3 & E3 & Hi3 & Hv3).
    cbn [gw_store w2] in Hv3. rewrite Hv1 in Hv3. simpl in Hv3. rewrite decide_True in Hv3 by done.
    inversion Hv3 as [p3 q (_ & Hs3 & _ & Hr3 & _) Hq|]; subst. exists s3, p3.
    split_and!; try done. rewrite run_bind, run_bind. cbn [result]. by rewrite E3.
  - destruct (run_fail w2 mid (error_msg x) 1 Hi1 Hr) as (s3 & E3 & Hi3 & Hc3 & Hv3).
    cbn [gw_store w2] in Hv3. rewrite Hv1 in Hv3. unfold Spec.do_fail in Hv3.
    rewrite decide_False in Hv3 by naive_solver.
    inversion Hv3 as [p3 q (_ & Hs3 & Ha3 & _ & He3 & _) Hq|]; subst. exists s3, p3.
    split_and!; try done; [|cbn in Hc3; congruence].
    rewrite run_bind, run_bind, E3. done.
Qed.

(** The decorator on such a key: the loop runs on the claimed record. *)
Lemma run_idempotent_open key_fn cfg w args mid :
  st_inv (gw_store w) → st_claim_ok (gw_clock w) mid (gw_store w) → open_key mid w →
  idempotency_key key_fn args = Ok mid →
  ∃ s' p', grun (idempotent key_fn cfg args) w =
      grun (attempts_loop cfg (Z.to_nat (max_retries cfg)) mid args 1 None) (gw_with s' w) ∧
    st_inv s' ∧ st_view s' mid = Some p' ∧ ps_status p' = PROCESSING.
Proof.
  intros Hi Hok Hopen Hk. destruct (run_claim w mid Hi Hok) as (s' & E & Hi' & _ & Hv).
  unfold open_key in Hopen. unfold Spec.do_claim in Hv. rewrite Hopen in E, Hv. simpl in Hv.
  inversion Hv as [p' q (_ & Hs & _) Hq|]; subst. exists s', p'. split_and!; try done.
  unfold idempotent, mbind, prog_mbind.
  rewrite run_bind, run_of_res, Hk, run_bind, run_get by done.
  destruct (st_view (gw_store w) mid) as [p|] eqn:Ep.
  - rewrite decide_False by by eapply claimable_not_completed. by rewrite run_bind, E.
  - by rewrite run_bind, E.
Qed.

(** C30: a guarded block that runs settles its key. On a key that can be claimed the block runs once;
    when it ends normally, with a result that the store can hold, this is stored as COMPLETED; when it
    raises anything (cancellation included), with a text that the store can hold, the key is FAILED with
    the name and text of the exception, which propagates. *)
Theorem guard_settles w mid r rest :
  st_inv (gw_store w) → st_claim_ok (gw_clock w) mid (gw_store w) → open_key mid w →
  gw_outcomes w = r :: rest →
  match r with
  | Ok v => st_complete_ok (gw_clock w) mid v
  | Err x => st_fail_ok (gw_clock w) mid (error_msg x) 1
  end →
  ∃ s' p, grun (with_guard mid) w =
      (mkGWorld s' (gw_clock w) rest (Datatypes.S (gw_calls w)),
       match r with Ok _ => Ok tt | Err x => Err x end) ∧
    st_view s' mid = Some p ∧
    match r with
    | Ok v => ps_status p = COMPLETED ∧ ps_result p ≡ v
    | Err x => ps_status p = FAILED ∧ ps_attempts p = 1%Z ∧ ps_error p = Some (error_msg x)
    end.
Proof.
  intros Hi Hok Hopen Ho Hr.
  destruct (run_with_guard_open w mid r rest Hi Hok Hopen Ho Hr) as (s' & p & E & _ & Hv & Hp).
  exists s', p. split_and!; [done..|]. destruct r; naive_solver.
Qed.

(** On a key that cannot be claimed the decorator runs nothing and leaves the record: it
    returns the stored result of a COMPLETED key, and [None] when another caller holds the key or
    its attempts are exhausted, which a caller cannot tell from a stored [None]. *)
Theorem idempotent_taken key_fn cfg w args mid p :
  st_inv (gw_store w) → st_claim_ok (gw_clock w) mid (gw_store w) →
  idempotency_key key_fn args = Ok mid → st_view (gw_store w) mid = Some p →
  Spec.claimable (st_config (gw_store w)) (st_clock (gw_clock w) (gw_store w)) (Some p) = false →
  ∃ s', grun (idempotent key_fn cfg args) w =
      (gw_with s' w, Ok (if decide (ps_status p = COMPLETED) then ps_result p else PyNone)) ∧
    st_view s' mid ≡ Some p.
Proof.
  intros Hi Hok Hk Hv Hc. destruct (run_claim w mid Hi Hok) as (s' & E & _ & _ & Hv').
  rewrite Hv in Hv', E. unfold Spec.do_claim in Hv'. rewrite Hc in E, Hv'.
  unfold idempotent, mbind, prog_mbind. rewrite run_bind, run_of_res, Hk, run_bind, run_get, Hv by done.
  case_decide; [|exists s'; split; [by rewrite run_bind, E|done]].
  exists (gw_store w). split; [by destruct w|by rewrite Hv].
Qed.

(** On a fresh key the decorator runs the function, returns its result and stores it as COMPLETED. *)
Lemma run_first_call key_fn cfg w args mid v rest :
  st_inv (gw_store w) → st_claim_ok (gw_clock w) mid (gw_store w) →
  st_complete_ok (gw_clock w) mid v → (1 ≤ max_retries cfg)%Z →
  idempotency_key key_fn args = Ok mid → open_key mid w → gw_outcomes w = Ok v :: rest →
  ∃ s' p, grun (idempotent key_fn cfg args) w =
      (mkGWorld s' (gw_clock w) rest (Datatypes.S (gw_calls w)), Ok v) ∧
    st_inv s' ∧ st_view s' mid = Some p ∧ ps_status p = COMPLETED ∧ ps_result p ≡ v.
Proof.
  intros Hi Hok Hcok Hmax Hk Hopen Ho.
  destruct (run_idempotent_open key_fn cfg w args mid Hi Hok Hopen Hk)
    as (s1 & p1 & E & Hi1 & Hv1 & Hs1).
  set (w2 := mkGWorld s1 (gw_clock w) rest (Datatypes.S (gw_calls w))).
  destruct (run_complete w2 mid v Hi1 Hcok) as (s3 & E3 & Hi3 & Hv3).
  cbn [gw_store w2] in Hv3. rewrite Hv1 in Hv3. simpl in Hv3. rewrite decide_True in Hv3 by done.
  inversion Hv3 as [p3 q (_ & Hs3 & _ & Hr3 & _) Hq|]; subst. exists s3, p3.
  split_and!; try done. rewrite E.
  destruct (Z.to_nat (max_retries cfg)) as [|n] eqn:En; [lia|]. cbn [attempts_loop].
  unfold mbind, prog_mbind. rewrite run_bind, run_attempt, run_trigger.
  assert (E2 : g_handler st_elapse pyval (GFunc args) (gw_with s1 w) = (w2, Ok v)).
  { cbn. unfold run_body. cbn. by rewrite Ho. }
  by rewrite E2, run_bind, run_try_except, E3.
Qed.

(** C24: the decorated function is idempotent. A call on a fresh key, with max_retries at least 1, whose
    function returns a result that the store can hold, runs the function and returns its result; any
    later call with the same key, with whatever arguments and at whatever time while the record lives,
    returns an equal result without running the function or changing anything. *)
Theorem idempotent_twice key_fn cfg w args mid v rest :
  st_inv (gw_store w) → st_claim_ok (gw_clock w) mid (gw_store w) →
  st_complete_ok (gw_clock w) mid v → (1 ≤ max_retries cfg)%Z →
  idempotency_key key_fn args = Ok mid → open_key mid w → gw_outcomes w = Ok v :: rest →
  ∃ s', grun (idempotent key_fn cfg args) w =
      (mkGWorld s' (gw_clock w) rest (Datatypes.S (gw_calls w)), Ok v) ∧
    ∀ d w2 args2, (0 ≤ d)%Z → st_survives d s' mid → gw_store w2 = st_elapse d s' →
      idempotency_key key_fn args2 = Ok mid →
      ∃ v', grun (idempotent key_fn cfg args2) w2 = (w2, Ok v') ∧ v' ≡ v.
Proof.
  intros Hi Hok Hcok Hmax Hk Hopen Ho.
  destruct (run_first_call key_fn cfg w args mid v rest) as (s' & p & E & Hi' & Hv & Hs & Hr); [done..|].
  exists s'. split; [done|]. intros d w2 args2 Hd Hlive Hw2 Hk2.
  destruct (elapse_view d s' mid Hd Hi') as [[_ Hv2]|[? _]]; [|done].
  exists (ps_result p). split; [|done]. unfold idempotent, mbind, prog_mbind.
  rewrite run_bind, run_of_res, Hk2, run_bind, run_get by (rewrite Hw2; by apply elapse_inv).
  rewrite Hw2, Hv2, Hv, decide_True by done. done.
Qed.

(** With no attempts configured ([max_retries] at most 0) the decorator
    claims the key, runs nothing, and raises a TypeError: the key stays
    PROCESSING until its lease ends. *)
Theorem idempotent_no_attempts key_fn cfg w args mid :
  st_inv (gw_store w) → st_claim_ok (gw_clock w) mid (gw_store w) →
  (max_retries cfg ≤ 0)%Z → idempotency_key key_fn args = Ok mid → open_key mid w →
  ∃ s' p, grun (idempotent key_fn cfg args) w =
      (gw_with s' w, Err (TypeError "exceptions must derive from BaseException")) ∧
    st_view s' mid = Some p ∧ ps_status p = PROCESSING.
Proof.
  intros Hi Hok Hmax Hk Hopen.
  destruct (run_idempotent_open key_fn cfg w args mid Hi Hok Hopen Hk)
    as (s1 & p1 & E & _ & Hv1 & Hs1).
  exists s1, p1. split_and!; try done. rewrite E. by rewrite Z2Nat.nonpos.
Qed.

(** A key that is passed by keyword is not found: the call raises before anything is called. *)
Theorem idempotent_keyword_only cfg keyword tr o :
  path gallowed (idempotent None cfg (mkArgs [] keyword)) tr o → tr = [] ∧ o = Err no_key.
Proof. by destruct tr. Qed.

(** C25: the decorator is safe whatever the store and the function answer: the
    function runs at most [max_retries] times, each time on a claim won since its
    last run, never again once it has returned, and a normal return of the
    decorator after a run means that [mark_completed] was called once. *)
Theorem idempotent_safe key_fn cfg args tr o :
  path gallowed (idempotent key_fn cfg args) tr o →
  m_ok (monitor_of tr) = true ∧
  m_calls (monitor_of tr) ≤ Z.to_nat (max_retries cfg) ∧
  (is_ok o = true → 0 < m_calls (monitor_of tr) →
    m_returned (monitor_of tr) = true ∧ m_completed (monitor_of tr) = 1).
Proof.
  set (Q := λ (m : monitor) (o : res pyval),
    m_ok m = true ∧ m_calls m ≤ Z.to_nat (max_retries cfg) ∧
    (is_ok o = true → 0 < m_calls m → m_returned m = true ∧ m_completed m = 1)).
  revert tr o.
  apply (proj1 (wp_paths gallowed observe_step (idempotent key_fn cfg args) start_monitor Q)).
  assert (Hnone : ∀ m o, m_calls m = 0 → m_ok m = true → Q m o).
  { intros m o Hm Hok. unfold Q. rewrite Hm, Hok. split_and!; [done|lia|lia]. }
  unfold idempotent. apply wp_bind, wp_of_res.
  destruct (idempotency_key key_fn args) as [key|x]; [|by apply Hnone].
  apply wp_bind, wp_trigger. intros [existing|x] _; [|by apply Hnone].
  assert (Hgo : wp gallowed observe_step start_monitor
    (claimed ← trigger (GStore (EClaim key));
     if claimed : bool
     then attempts_loop cfg (Z.to_nat (max_retries cfg)) key args 1 None else Ret PyNone) Q).
  { apply wp_bind, wp_trigger. intros [[]|x] _; [|by apply Hnone|by apply Hnone].
    eapply wp_mono; [|apply attempts_loop_wp; try done; [lia|by right]].
    intros m' r (?&?&?). split_and!; [done|done|auto]. }
  destruct existing as [p|]; [case_decide|]; [by apply Hnone|exact Hgo..].
Qed.

(** [n] uses of the guard one after the other, exceptions swallowed. *)
Fixpoint guard_times (n : nat) (mid : string) : prog gev unit :=
  match n with
  | O => Ret tt
  | Datatypes.S n' => _ ← attempt (with_guard mid); guard_times n' mid
  end.

(** Failures under the guard never exhaust a key.  The guard marks every
    failure as the first attempt, so with at least two attempts configured a block
    that always fails runs at every one of [n] uses, for any [n]. *)
Theorem guard_never_exhausts n : ∀ w mid x,
  retry_failed (st_config (gw_store w)) = true → (1 < max_retries (st_config (gw_store w)))%Z →
  (∀ s, st_inv s → st_config s = st_config (gw_store w) → st_claim_ok (gw_clock w) mid s) →
  st_fail_ok (gw_clock w) mid (error_msg x) 1 →
  st_inv (gw_store w) → open_key mid w → gw_outcomes w = replicate n (Err x) →
  gw_calls (grun (guard_times n mid) w).1 = gw_calls w + n.
Proof.
  induction n as [|n IH]; intros w mid x Hr Hm Hcl Hf Hi Hopen Ho; [cbn; lia|].
  destruct (run_with_guard_open w mid (Err x) (replicate n (Err x)) Hi (Hcl _ Hi eq_refl) Hopen Ho Hf)
    as (s' & p & E & Hi' & Hv & Hc & Hs & Ha & _).
  cbn [guard_times]. unfold mbind, prog_mbind. rewrite run_bind, run_attempt, E.
  rewrite (IH _ mid x); cbn [gw_store gw_clock gw_outcomes gw_calls]; rewrite ?Hc; try done; [lia|].
  unfold open_key. cbn [gw_store gw_clock]. rewrite Hv, Hc.
  unfold Spec.claimable, Spec.retryable, is_failed. rewrite Hs, Hr, Ha, bool_decide_true by done.
  by rewrite (proj2 (Z.ltb_lt _ _) Hm).
Qed.

End Runs.

(** ** Evaluated on the in-memory store *)

#[local] Existing Instances Memory.memory_store Memory.memory_view Memory.memory_laws.
#[local] Existing Instance text_runtime.

Definition memory_world (outcomes : list (res pyval)) : gworld Memory.state :=
  mkGWorld (Memory.init None) 1000000 outcomes 0.

Definition broken : exn := Exn "ValueError" "boom" true.

Lemma memory_claims s : st_config s = default_config → st_claim_ok 1000000 "k" s.
Proof. intros Hc. cbn in *. unfold Memory.claim_ok. rewrite Hc. by vm_compute. Qed.

Lemma guard_settles_witness :
  ∃ s' p, run (g_handler st_elapse) (with_guard "k") (memory_world [Err broken]) =
      (mkGWorld s' 1000000 [] 1, Err broken) ∧
    st_view s' "k" = Some p ∧ ps_status p = FAILED ∧ ps_attempts p = 1%Z ∧
    ps_error p = Some "ValueError: boom"%string.
Proof.
  exact (guard_settles (memory_world [Err broken]) "k" (Err broken) [] (Memory.init_inv None)
    (memory_claims (Memory.init None) eq_refl) eq_refl eq_refl I).
Defined.

(** The key as the first argument; the same key with other arguments. *)
Definition call_k : call_args := mkArgs [JStr "k"] [].
Definition call_k_again : call_args := mkArgs [JStr "k"; JInt 2] [("note", JNull)]%string.

(** A key completed through the decorator. *)
Definition done_world : gworld Memory.state :=
  (run (g_handler st_elapse) (idempotent None default_config call_k)
     (memory_world [Ok (PyJson (JInt 7))])).1.

Definition done_record : ProcessingStatus :=
  mkStatus "k" COMPLETED 1 (PyJson (JInt 7)) None None 1000000 1000000.

Lemma done_world_inv : Memory.inv (gw_store done_world).
Proof.
  assert (gw_store done_world = Memory.mkState {["k"%string := done_record]} default_config) as ->
    by (vm_compute; reflexivity).
  apply map_Forall_singleton. split_and!; simpl; first [done | by intros [] | by eauto].
Qed.

Lemma idempotent_twice_witness :
  ∃ s', run (g_handler st_elapse) (idempotent None default_config call_k)
        (memory_world [Ok (PyJson (JInt 7))]) = (mkGWorld s' 1000000 [] 1, Ok (PyJson (JInt 7))) ∧
    ∃ v', run (g_handler st_elapse) (idempotent None default_config call_k_again)
        (mkGWorld s' 9000000 [Err broken] 1) = (mkGWorld s' 9000000 [Err broken] 1, Ok v') ∧
      v' ≡ PyJson (JInt 7).
Proof.
  destruct (idempotent_twice None default_config (memory_world [Ok (PyJson (JInt 7))])
    call_k "k" (PyJson (JInt 7)) []) as (s' & E & H2);
    [apply Memory.init_inv|by apply memory_claims|done|by vm_compute|done|done|done|].
  exists s'. split; [exact E|].
  exact (H2 8000000%Z (mkGWorld s' 9000000 [Err broken] 1) call_k_again ltac:(done) I eq_refl eq_refl).
Defined.

(** Another caller holds the key. *)
Definition held_world : gworld Memory.state :=
  mkGWorld (Memory.claim 999999 "k" (Memory.init None)).1 1000000 [] 0.

Definition held_record : ProcessingStatus :=
  mkStatus "k" PROCESSING 1 PyNone None (Some 300999999%Z) 999999 999999.

Lemma held_world_inv : Memory.inv (gw_store held_world).
Proof.
  assert (gw_store held_world = Memory.mkState {["k"%string := held_record]} default_config) as ->
    by (vm_compute; reflexivity).
  apply map_Forall_singleton. split_and!; simpl; first [done | by intros [] | by eauto].
Qed.

Lemma idempotent_taken_witness :
  (∃ s', run (g_handler st_elapse) (idempotent None default_config call_k) done_world =
      (gw_with s' done_world, Ok (PyJson (JInt 7))) ∧ st_view s' "k" ≡ Some done_record) ∧
  (∃ s', run (g_handler st_elapse) (idempotent None default_config call_k) held_world =
      (gw_with s' held_world, Ok PyNone) ∧ st_view s' "k" ≡ Some held_record).
Proof.
  split.
  - exact (idempotent_taken None default_config done_world call_k "k" done_record
      done_world_inv (memory_claims (gw_store done_world) eq_refl) eq_refl eq_refl eq_refl).
  - exact (idempotent_taken None default_config held_world call_k "k" held_record
      held_world_inv (memory_claims (gw_store held_world) eq_refl) eq_refl eq_refl eq_refl).
Defined.

Lemma idempotent_safe_witness :
  m_calls (monitor_of (run_trace (g_handler st_elapse) (idempotent None default_config call_k)
    (memory_world [Err broken; Err broken; Err broken]))) ≤ 3.
Proof.
  apply (idempotent_safe None default_config call_k _
    (run (g_handler st_elapse) (idempotent None default_config call_k)
       (memory_world [Err broken; Err broken; Err broken])).2).
  by apply run_path.
Defined.

Lemma guard_never_exhausts_witness :
  gw_calls (run (g_handler st_elapse) (guard_times 10 "k") (memory_world (replicate 10 (Err broken)))).1
  = 0 + 10.
Proof.
  apply (guard_never_exhausts 10 (memory_world (replicate 10 (Err broken))) "k" broken);
    first [done | apply Memory.init_inv | intros s _ Hc; by apply memory_claims].
Defined.
