(* ===== verification/Metrics.v ===== *)
(** * Metrics (metrics/dedup_metrics.py)

    The wrapper methods as the calls they make on the Prometheus objects, and
    the registry those calls update.  prometheus_client itself is third-party:
    of it the model has that [inc], [dec] and [observe] act on the child with
    the given label values. *)

From S2P Require Import Prelude.

(** The module-level Prometheus objects. *)
Inductive metric :=
| messages_total
| processing_duration_seconds
| store_operation_duration_seconds
| retry_attempts_total
| dlq_messages_total
| active_processing
| consumer_errors_total.

#[export] Instance metric_eq_dec : EqDecision metric.
Proof. solve_decision. Defined.

#[export] Instance metric_countable : Countable metric.
Proof.
  refine (inj_countable'
    (λ m, match m with
          | messages_total => 0 | processing_duration_seconds => 1
          | store_operation_duration_seconds => 2 | retry_attempts_total => 3
          | dlq_messages_total => 4 | active_processing => 5 | consumer_errors_total => 6
          end)
    (λ n, match n with
          | 0 => messages_total | 1 => processing_duration_seconds
          | 2 => store_operation_duration_seconds | 3 => retry_attempts_total
          | 4 => dlq_messages_total | 5 => active_processing | _ => consumer_errors_total
          end) _).
  by intros [].
Defined.

(** A call on the child of a metric with some label values. *)
Inductive metric_call :=
| MInc (m : metric) (labels : list string)
| MDec (m : metric) (labels : list string)
| MObserve (m : metric) (labels : list string) (value : Z).

#[export] Instance metric_call_eq_dec : EqDecision metric_call.
Proof. solve_decision. Defined.

(** ** class DeduplicationMetrics *)

Definition record_processed (topic : string) : list metric_call :=
  [MInc messages_total [topic; "processed"]%string].
Definition record_duplicate (topic : string) : list metric_call :=
  [MInc messages_total [topic; "duplicate"]%string].
Definition record_claim_lost (topic : string) : list metric_call :=
  [MInc messages_total [topic; "claim_lost"]%string].
Definition record_no_message_id (topic : string) : list metric_call :=
  [MInc messages_total [topic; "no_id"]%string].
Definition record_dlq (topic : string) : list metric_call :=
  [MInc messages_total [topic; "dlq"]%string; MInc dlq_messages_total [topic]].
Definition record_retry (topic : string) : list metric_call :=
  [MInc retry_attempts_total [topic]].
Definition record_error (topic error_type : string) : list metric_call :=
  [MInc consumer_errors_total [topic; error_type]].

(** [measure_processing(topic)]: what runs before and after the block. *)
Definition processing_enter (topic : string) : metric_call := MInc active_processing [topic].
Definition processing_exit (topic : string) : metric_call := MDec active_processing [topic].
Definition processing_observe (topic : string) (elapsed : Z) : metric_call :=
  MObserve processing_duration_seconds [topic] elapsed.

(** [measure_store_op(operation)] *)
Definition store_op_observe (operation : string) (elapsed : Z) : metric_call :=
  MObserve store_operation_duration_seconds [operation] elapsed.

(** ** The registry *)

Abbreviation registry := (gmap (metric * list string) Z).

Definition value (r : registry) (m : metric) (labels : list string) : Z :=
  default 0%Z (r !! (m, labels)).

(** A counter or gauge holds its value, a histogram its number of observations. *)
Definition apply_call (r : registry) (c : metric_call) : registry :=
  match c with
  | MInc m ls => <[(m, ls) := (value r m ls + 1)%Z]> r
  | MDec m ls => <[(m, ls) := (value r m ls - 1)%Z]> r
  | MObserve m ls _ => <[(m, ls) := (value r m ls + 1)%Z]> r
  end.

Definition call_delta (m : metric) (ls : list string) (c : metric_call) : Z :=
  match c with
  | MInc m' ls' => if decide ((m', ls') = (m, ls)) then 1 else 0
  | MDec m' ls' => if decide ((m', ls') = (m, ls)) then -1 else 0
  | MObserve m' ls' _ => if decide ((m', ls') = (m, ls)) then 1 else 0
  end.

Definition total_delta (m : metric) (ls : list string) (cs : list metric_call) : Z :=
  foldr (λ c z, (call_delta m ls c + z)%Z) 0%Z cs.

Lemma value_apply r c m ls : value (apply_call r c) m ls = (value r m ls + call_delta m ls c)%Z.
Proof.
  destruct c as [m' ls'|m' ls'|m' ls' v]; unfold value; simpl; rewrite lookup_insert;
    case_decide as E; simplify_eq; simpl; unfold value; try lia.
Qed.

(** The registry after a list of calls is the sum of their effects. *)
Lemma value_foldl cs r m ls :
  value (foldl apply_call r cs) m ls = (value r m ls + total_delta m ls cs)%Z.
Proof.
  revert r. induction cs as [|c cs IH]; intros r; simpl; [lia|].
  rewrite IH, value_apply. lia.
Qed.
