(* ===== verification/Consumer.v ===== *)
(** * The Kafka consumer (consumer/dedup_consumer.py, consumer/base.py)

    The code of DedupConsumer as effect trees.  Logging is left out; every
    other call is an event. *)

From S2P Require Import Prelude Prog Utf8 PyJson Models StoreEvents Metrics.

(** ** aiokafka's ConsumerRecord *)
Record consumer_record := mkRecord {
  r_topic : string;
  r_partition : Z;
  r_offset : Z;
  r_headers : list (string * option string);
  r_value : option string;
  r_key : option string;
}.

(** What handle() receives: the JSON payload, or {"raw": value}. *)
Inductive payload :=
| PJson (j : json)
| PRaw (value : string).

(** ** Events *)

Inductive ev : Type → Type :=
| EStore {X : Type} (e : store_ev X) : ev X
| EMetric (c : metric_call) : ev unit
| EPerfCounter : ev Z                                  (* time.perf_counter() *)
| ESleep (ms : Z) : ev unit                            (* asyncio.sleep(ms / 1000) *)
| EHandle (message : payload) : ev pyval               (* self.handle(message) *)
| ECommit : ev unit                                    (* self._consumer.commit() *)
| ESend (topic value : string) (key : option string) : ev unit
                                                       (* self._dlq_producer.send_and_wait *)
| EConsumerStart : ev unit
| EConsumerStop : ev unit
| EProducerStart : ev unit
| EProducerStop : ev unit
| EPoll : ev (option consumer_record)                  (* async for: the next record, if any *)
| EIsRunning : ev bool.                                (* self._running, which stop() clears *)

(** ** Metrics in code *)

Fixpoint emit (cs : list metric_call) : prog ev unit :=
  match cs with
  | [] => Ret tt
  | c :: cs' => _ ← trigger (EMetric c); emit cs'
  end.

(** [with metrics.measure_store_op(operation): p] *)
Definition measure_store_op {A} (operation : string) (p : prog ev A) : prog ev A :=
  start ← trigger EPerfCounter;
  finally p (stop ← trigger EPerfCounter; emit [store_op_observe operation (stop - start)]).

(** [with metrics.measure_processing(topic): p] *)
Definition measure_processing {A} (topic : string) (p : prog ev A) : prog ev A :=
  _ ← emit [processing_enter topic];
  start ← trigger EPerfCounter;
  finally p
    (_ ← emit [processing_exit topic];
     stop ← trigger EPerfCounter;
     emit [processing_observe topic (stop - start)]).

(** A [str | None] as a condition. *)
Definition truthy_str (s : option string) : option string :=
  match s with Some s' => if decide (s' = "")%string then None else s | None => None end.

Section Code.
Context `{!PyRuntime} `{!JsonCodec}.

(** ** _extract_message_id *)

Fixpoint header_message_id (headers : list (string * option string)) : option string :=
  match headers with
  | [] => None
  | (key, value) :: rest =>
      if decide (key = "X-Message-Id"%string) then
        match truthy_str value with Some v => Some v | None => header_message_id rest end
      else header_message_id rest
  end.

Definition caught_by_extract (x : exn) : bool :=
  bool_decide (exn_type x ∈ ["JSONDecodeError"; "UnicodeDecodeError"; "TypeError"]%string).

Definition extract_message_id (record : consumer_record) : res (option string) :=
  match header_message_id (r_headers record) with
  | Some v => Some <$> bytes_decode v
  | None =>
      match truthy_str (r_value record) with
      | None => Ok None
      | Some value =>
          match json_loads_bytes value with
          | Ok (JObj kvs) =>
              let mid := py_or (dict_get "message_id" kvs) (dict_get "id" kvs) in
              Ok (if py_truthy mid then Some (py_str mid) else None)
          | Ok _ => Ok None
          | Err x => if caught_by_extract x then Ok None else Err x
          end
      end
  end.

(** ** class DedupConsumer: the fields that its methods read *)
Record consumer := mkConsumer {
  c_config : DeduplicationConfig;
  c_dlq_topic : option string;
  c_connected : bool;         (* self._consumer is set *)
  c_dlq_producer : bool;      (* self._dlq_producer is set *)
  c_running : bool;
}.

(** [DedupConsumer(...)] *)
Definition new_consumer (dlq_topic : option string) (config : option DeduplicationConfig) : consumer :=
  mkConsumer (default default_config config) dlq_topic false false false.

Section Methods.
Context (self : consumer).

Definition commit (record : consumer_record) : prog ev unit :=
  if c_connected self then trigger ECommit else Ret tt.

Definition dlq_payload (record : consumer_record) (error : string) : json :=
  JObj [("original_topic", JStr (r_topic record));
        ("original_offset", JInt (r_offset record));
        ("original_partition", JInt (r_partition record));
        ("original_value",
          match truthy_str (r_value record) with
          | Some v => JStr (utf8_replace v)
          | None => JNull
          end);
        ("error", JStr error)]%string.

Definition send_to_dlq (record : consumer_record) (error : string) : prog ev unit :=
  match c_dlq_producer self, truthy_str (c_dlq_topic self) with
  | true, Some topic =>
      trigger (ESend topic (json_dumps (dlq_payload record error)) (r_key record))
  | _, _ => Ret tt
  end.

Definition complete (record : consumer_record) (message_id : option string) (result : pyval)
    : prog ev unit :=
  _ ← match truthy_str message_id with
      | Some mid =>
          try_except
            (measure_store_op "mark_completed" (trigger (EStore (EMarkCompleted mid result))))
            (λ exc, emit (record_error (r_topic record) (exn_type exc)))
      | None => Ret tt
      end;
  _ ← commit record;
  emit (record_processed (r_topic record)).

(** How the retry loop ends: handle() succeeded and _complete ran, or control
    falls out of the loop with the last exception. *)
Inductive loop_end :=
| LoopReturned
| LoopLeft (last_exc : option exn).

(** The body of [except Exception as exc] in the loop: [true] to go on with the
    next attempt, [false] for [break]. *)
Definition on_failure (record : consumer_record) (message_id : option string) (attempts : Z)
    (exc : exn) : prog ev bool :=
  _ ← emit (record_error (r_topic record) (exn_type exc));
  _ ← match truthy_str message_id with
      | Some mid =>
          measure_store_op "mark_failed"
            (trigger (EStore (EMarkFailed mid (exn_str exc) attempts)))
      | None => Ret tt
      end;
  if (attempts <? max_retries (c_config self))%Z then
    _ ← trigger (ESleep (retry_backoff_ms (c_config self) * attempts));
    _ ← emit (record_retry (r_topic record));
    match truthy_str message_id with
    | Some mid => measure_store_op "claim" (trigger (EStore (EClaim mid)))
    | None => Ret true
    end
  else Ret true.

(** [while attempts <= max_retries]: [fuel] counts the iterations left. *)
Fixpoint retry_loop (fuel : nat) (record : consumer_record) (message_id : option string)
    (message : payload) (attempts : Z) (last_exc : option exn) : prog ev loop_end :=
  match fuel with
  | O => Ret (LoopLeft last_exc)
  | S fuel' =>
      r ← attempt (trigger (EHandle message));
      match r with
      | Ok result => _ ← complete record message_id result; Ret LoopReturned
      | Err exc =>
          if exn_is_exception exc then
            go_on ← on_failure record message_id attempts exc;
            if go_on : bool
            then retry_loop fuel' record message_id message (attempts + 1) (Some exc)
            else Ret (LoopLeft (Some exc))
          else Raise exc
      end
  end.

(** The iterations of the loop from [attempts] = 1. *)
Definition loop_fuel : nat := Z.to_nat (max_retries (c_config self)).

(** [str(last_exc)] *)
Definition str_exc (last_exc : option exn) : string :=
  match last_exc with Some x => exn_str x | None => "None" end.

Definition caught_by_execute (x : exn) : bool :=
  bool_decide (exn_type x ∈ ["JSONDecodeError"; "UnicodeDecodeError"]%string).

Definition parse_payload (record : consumer_record) : res payload :=
  match truthy_str (r_value record) with
  | None => Ok (PJson (JObj []))
  | Some value =>
      match json_loads_bytes value with
      | Ok j => Ok (PJson j)
      | Err x => if caught_by_execute x then Ok (PRaw value) else Err x
      end
  end.

Definition execute_and_commit (record : consumer_record) (message_id : option string)
    : prog ev unit :=
  message ← of_res (parse_payload record);
  e ← retry_loop loop_fuel record message_id message 1 None;
  match e with
  | LoopReturned => Ret tt
  | LoopLeft last_exc =>
      _ ← emit (record_dlq (r_topic record));
      _ ← send_to_dlq record (str_exc last_exc);
      commit record
  end.

Definition process_record (record : consumer_record) : prog ev unit :=
  message_id ← of_res (extract_message_id record);
  match message_id with
  | None =>
      _ ← emit (record_no_message_id (r_topic record));
      execute_and_commit record None
  | Some mid =>
      claimed ← measure_store_op "claim" (trigger (EStore (EClaim mid)));
      if claimed : bool then
        measure_processing (r_topic record) (execute_and_commit record (Some mid))
      else
        existing ← measure_store_op "get_status" (trigger (EStore (EGetStatus mid)));
        _ ← match existing with
            | Some p =>
                if decide (ps_status p = PROCESSING)
                then emit (record_claim_lost (r_topic record))
                else emit (record_duplicate (r_topic record))
            | None => emit (record_duplicate (r_topic record))
            end;
        commit record
  end.

(** ** Lifecycle *)

(** [run()] over at most [n] records; [false] when the bound was reached. *)
Fixpoint run_records (n : nat) : prog ev bool :=
  match n with
  | O => Ret false
  | S n' =>
      next ← trigger EPoll;
      match next with
      | None => Ret true
      | Some record =>
          running ← trigger EIsRunning;
          if running : bool then _ ← process_record record; run_records n'
          else Ret true
      end
  end.

Definition run_consumer (n : nat) : prog ev bool :=
  if c_connected self then run_records n
  else Raise (RuntimeError "Call start() before run()").

(** [handle()] of the base class *)
Definition default_handle (message : payload) : prog ev pyval := Ret PyNone.

End Methods.

(** [start()] and [stop()] with the fields they leave behind, also when a call
    in them raises. *)
Definition start (self : consumer) : prog ev (consumer * res unit) :=
  let self1 := mkConsumer (c_config self) (c_dlq_topic self) true (c_dlq_producer self) (c_running self) in
  r1 ← attempt (trigger EConsumerStart);
  match r1 with
  | Err x => Ret (self1, Err x)
  | Ok _ =>
      let dlq := truthy_str (c_dlq_topic self) in
      let self2 :=
        match dlq with
        | Some _ => mkConsumer (c_config self) (c_dlq_topic self) true true (c_running self)
        | None => self1
        end in
      r2 ← attempt (match dlq with Some _ => trigger EProducerStart | None => Ret tt end);
      match r2 with
      | Err x => Ret (self2, Err x)
      | Ok _ =>
          r3 ← attempt (trigger (EStore EConnect));
          match r3 with
          | Err x => Ret (self2, Err x)
          | Ok _ =>
              Ret (mkConsumer (c_config self2) (c_dlq_topic self2) (c_connected self2)
                     (c_dlq_producer self2) true, Ok tt)
          end
      end
  end.

Definition stop (self : consumer) : prog ev (consumer * res unit) :=
  let self' := mkConsumer (c_config self) (c_dlq_topic self) (c_connected self)
                 (c_dlq_producer self) false in
  r ← attempt
    (_ ← (if c_connected self then trigger EConsumerStop else Ret tt);
     _ ← (if c_dlq_producer self then trigger EProducerStop else Ret tt);
     trigger (EStore EClose));
  Ret (self', r).

End Code.
