(* ===== verification/ConsumerEvents.v ===== *)
(** * The calls of a delivery

    Which calls the parts of a delivery make, whatever is answered: those of the
    metrics, the clock, handle(), the commit, the dead letter, and those of the
    store for the delivery's own message. *)

From S2P Require Import Prelude Prog PyJson Models StoreEvents Metrics Consumer.

Section Calls.
Context `{!PyRuntime} `{!JsonCodec} (self : consumer) (record : consumer_record) (mid : string).

(** A predicate that holds of these calls. *)
Context (P : ∀ X, ev X → Prop).

Record of_store : Prop := {
  on_claim : P bool (EStore (EClaim mid));
  on_status : P _ (EStore (EGetStatus mid));
  on_complete : ∀ v, P unit (EStore (EMarkCompleted mid v));
  on_fail : ∀ x a, P unit (EStore (EMarkFailed mid x a));
}.

Context (P_metric : ∀ c, P unit (EMetric c)) (P_clock : P Z EPerfCounter).

Lemma emit_events cs : all_events P (emit cs).
Proof using P_metric. induction cs as [|c cs IH]; [done|]. apply all_events_bind; [by apply all_events_trigger|done]. Qed.

Lemma measured_events {X} op (e : store_ev X) :
  P X (EStore e) → all_events P (measure_store_op op (trigger (EStore e))).
Proof using P_metric P_clock.
  intros He. apply all_events_bind; [by apply all_events_trigger|]. intros start.
  apply all_events_finally; [by apply all_events_trigger|].
  apply all_events_bind; [by apply all_events_trigger|]. intros stop. apply emit_events.
Qed.

Lemma processing_events {A} topic (p : prog ev A) :
  all_events P p → all_events P (measure_processing topic p).
Proof using P_metric P_clock.
  intros Hp. apply all_events_bind; [apply emit_events|]. intros _.
  apply all_events_bind; [by apply all_events_trigger|]. intros start.
  apply all_events_finally; [done|]. apply all_events_bind; [apply emit_events|]. intros _.
  apply all_events_bind; [by apply all_events_trigger|]. intros stop. apply emit_events.
Qed.

Context (P_store : of_store) (P_commit : P unit ECommit).

Lemma commit_events : all_events P (commit self record).
Proof using P_commit. unfold commit. destruct (c_connected self); [by apply all_events_trigger|done]. Qed.

Lemma complete_events v : all_events P (complete self record (Some mid) v).
Proof using P_metric P_clock P_store P_commit.
  apply all_events_bind; [|intros _; apply all_events_bind; [apply commit_events|intros _; apply emit_events]].
  unfold truthy_str. case_decide; [done|].
  apply all_events_try_except; [by apply measured_events, P_store|intros; apply emit_events].
Qed.

Context (P_sleep : ∀ ms, P unit (ESleep ms)).

Lemma on_failure_events a x : all_events P (on_failure self record (Some mid) a x).
Proof using P_metric P_clock P_store P_sleep.
  apply all_events_bind; [apply emit_events|]. intros _. unfold truthy_str. apply all_events_bind.
  { case_decide; [done|by apply measured_events, P_store]. }
  intros _. destruct (_ <? _)%Z; [|done]. apply all_events_bind; [by apply all_events_trigger|]. intros _.
  apply all_events_bind; [apply emit_events|]. intros _.
  case_decide; [done|by apply measured_events, P_store].
Qed.

Context (P_handle : ∀ m, P pyval (EHandle m)).

Lemma retry_loop_events msg n : ∀ a last, all_events P (retry_loop self n record (Some mid) msg a last).
Proof using P_metric P_clock P_store P_commit P_sleep P_handle.
  induction n as [|n IH]; intros a last; [done|]. cbn [retry_loop].
  apply all_events_bind; [by apply all_events_attempt, all_events_trigger|]. intros [v|x].
  - apply all_events_bind; [apply complete_events|done].
  - destruct (exn_is_exception x); [|done].
    apply all_events_bind; [apply on_failure_events|]. intros [|]; [apply IH|done].
Qed.

Context (P_send : ∀ t v k, P unit (ESend t v k)).

Lemma execute_events : all_events P (execute_and_commit self record (Some mid)).
Proof using P_metric P_clock P_store P_commit P_sleep P_handle P_send.
  apply all_events_bind; [apply all_events_of_res|]. intros msg.
  apply all_events_bind; [apply retry_loop_events|]. intros [|last]; [done|].
  apply all_events_bind; [apply emit_events|]. intros _. apply all_events_bind; [|intros _; apply commit_events].
  unfold send_to_dlq. destruct (c_dlq_producer self), (truthy_str (c_dlq_topic self)); try done.
  by apply all_events_trigger.
Qed.

Lemma process_events :
  extract_message_id record = Ok (Some mid) → all_events P (process_record self record).
Proof using P_metric P_clock P_store P_commit P_sleep P_handle P_send.
  intros He. unfold process_record, mbind, prog_mbind. rewrite He. cbn [of_res prog_bind].
  apply all_events_bind; [by apply measured_events, P_store|]. intros [|].
  - apply processing_events, execute_events.
  - apply all_events_bind; [by apply measured_events, P_store|]. intros existing.
    apply all_events_bind; [|intros _; apply commit_events].
    destruct existing; [case_decide|]; apply emit_events.
Qed.

End Calls.
