(* ===== verification/Handlers.v ===== *)
(** * The handlers (consumer/handlers)

    The three subclasses of DedupConsumer: their topics, their dead-letter queues
    and their [handle()]. *)

From S2P Require Import Prelude Prog Utf8 PyJson Models StoreEvents Metrics Consumer.

Definition py_type_name (j : json) : string :=
  match j with
  | JNull => "NoneType" | JBool _ => "bool" | JInt _ => "int" | JFloat _ => "float"
  | JStr _ => "str" | JArr _ => "list" | JObj _ => "dict"
  end.

Definition AttributeError (cls attr : string) : exn :=
  Exn "AttributeError" ("'" +:+ cls +:+ "' object has no attribute '" +:+ attr +:+ "'") true.

(** [message.get(key, d)]: the message is a dict, or JSON without a [get]; the dict of a payload
    that is not JSON has the key [raw] only. *)
Definition message_get (message : payload) (key : string) (d : json) : res json :=
  match message with
  | PJson (JObj kvs) => Ok (default d (dict_lookup key kvs))
  | PJson j => Err (AttributeError (py_type_name j) "get")
  | PRaw _ => Ok d
  end.

(** A consumer with its topics and its [handle()]. *)
Record handler := mkHandler {
  h_topics : list string;
  h_consumer : consumer;
  h_handle : payload → res pyval;
}.

Definition order_handle (message : payload) : res pyval :=
  order_id ← message_get message "order_id" (JStr "unknown");
  mret (PyJson (JObj [("order_id", order_id); ("status", JStr "created")]%string)).

Definition OrderHandler (config : option DeduplicationConfig) : handler :=
  mkHandler ["orders"]%string (new_consumer (Some "orders.dlq"%string) config) order_handle.

Definition payment_handle (message : payload) : res pyval :=
  payment_id ← message_get message "payment_id" (JStr "unknown");
  amount ← message_get message "amount" (JInt 0);
  mret (PyJson (JObj [("payment_id", payment_id); ("charged", amount);
                      ("status", JStr "success")]%string)).

Definition PaymentHandler (config : option DeduplicationConfig) : handler :=
  mkHandler ["payments"]%string (new_consumer (Some "payments.dlq"%string) config) payment_handle.

Definition shipment_handle (message : payload) : res pyval :=
  shipment_id ← message_get message "shipment_id" (JStr "unknown");
  address ← message_get message "address" (JObj []);
  mret (PyJson (JObj [("shipment_id", shipment_id); ("tracking_number", JStr "TRACK-STUB");
                      ("address", address)]%string)).

Definition ShipmentHandler (config : option DeduplicationConfig) : handler :=
  mkHandler ["shipments"]%string (new_consumer (Some "shipments.dlq"%string) config) shipment_handle.

(** What a handler returns for a JSON object; any other JSON value raises. *)
Lemma order_handle_dict kvs :
  order_handle (PJson (JObj kvs)) =
  Ok (PyJson (JObj [("order_id", default (JStr "unknown") (dict_lookup "order_id" kvs));
                    ("status", JStr "created")]%string)).
Proof. done. Qed.

Lemma handlers_need_dict j h :
  (∀ kvs, j ≠ JObj kvs) → h ∈ [order_handle; payment_handle; shipment_handle] →
  h (PJson j) = Err (AttributeError (py_type_name j) "get").
Proof.
  intros Hj Hh. rewrite !elem_of_cons in Hh. destruct j as [| | | | | |kvs]; [..|by destruct (Hj kvs)];
    destruct Hh as [->|[->|[->|[]%not_elem_of_nil]]]; done.
Qed.
