(* ===== verification/Entrypoint.v ===== *)
(** * The entry point (consumer/__main__.py)

    [main()]: the three handlers are started, run as tasks until the first of
    them ends or a signal arrives, cancelled and stopped. *)

From S2P Require Import Prelude Prog Utf8 PyJson JsonText Models StoreEvents Metrics Consumer Handlers.

(** The state of a task: running, or ended with an outcome. *)
Abbreviation task := (option (res unit)).

Inductive mev : Type → Type :=
| MStart (c : handler) : mev unit                  (* await consumer.start() *)
| MWait (cs : list handler) : mev (list task)      (* asyncio.wait of the run tasks and the stop task:
                                                      the states of the run tasks when it returns *)
| MCancel (c : handler) : mev unit                 (* task.cancel() *)
| MGather : mev unit                               (* asyncio.gather( *tasks, return_exceptions=True ) *)
| MStop (c : handler) : mev unit.                  (* await consumer.stop() *)

Fixpoint for_each {E : Type → Type} {A} (f : A → prog E unit) (l : list A) : prog E unit :=
  match l with
  | [] => Ret tt
  | x :: l' => _ ← f x; for_each f l'
  end.

(** [task.exception()] of a task that is done: it raises when the task was cancelled. *)
Definition task_exception (r : res unit) : res (option exn) :=
  match r with
  | Ok _ => Ok None
  | Err x => if decide (exn_type x = "CancelledError"%string) then Err x else Ok (Some x)
  end.

(** The loop over the run tasks that computes the exit code. *)
Fixpoint exit_code (tasks : list task) (code : Z) : res Z :=
  match tasks with
  | [] => Ok code
  | None :: tasks' => exit_code tasks' code
  | Some r :: tasks' =>
      e ← task_exception r;
      exit_code tasks' (match e with Some _ => 1 | None => code end)
  end.

Definition handlers (s : Settings) : list handler :=
  (λ cls, cls (Some (dedup_config s))) <$> [OrderHandler; PaymentHandler; ShipmentHandler].

Definition main (s : Settings) : prog mev Z :=
  let consumers := handlers s in
  _ ← for_each (λ c, trigger (MStart c)) consumers;
  tasks ← trigger (MWait consumers);
  code ← of_res (exit_code tasks 0);
  _ ← for_each (λ c, trigger (MCancel c)) consumers;
  _ ← trigger MGather;
  _ ← for_each (λ c, trigger (MStop c)) consumers;
  Ret code.

(** ** What a run of the process does *)

(** What a call did to a consumer; [inl] is the wait, with the states it returned. *)
Inductive action_on := Started (c : handler) | Cancelled (c : handler) | Gathered | Stopped (c : handler)
| Waited (tasks : list task).

Definition action_of (st : step mev) : list action_on :=
  match st with
  | Step e r =>
      match e in mev X return res X → list action_on with
      | MStart c => λ r, if is_ok r then [Started c] else []
      | MWait _ => λ r, match r with Ok ts => [Waited ts] | Err _ => [] end
      | MCancel c => λ r, if is_ok r then [Cancelled c] else []
      | MGather => λ r, if is_ok r then [Gathered] else []
      | MStop c => λ r, if is_ok r then [Stopped c] else []
      end r
  end.

Definition actions (tr : list (step mev)) : list action_on := tr ≫= action_of.

Lemma actions_cons st tr : actions (st :: tr) = action_of st ++ actions tr.
Proof. done. Qed.

Lemma actions_app tr1 tr2 : actions (tr1 ++ tr2) = actions tr1 ++ actions tr2.
Proof. apply bind_app. Qed.

Definition crashed (t : task) : bool := match t with Some (Err _) => true | _ => false end.

Definition mallowed (X : Type) (_ : mev X) (_ : res X) : Prop := True.

Abbreviation mpath := (path mallowed).

(** A trigger and what follows it. *)
Lemma path_trigger {A X} (e : mev X) (k : X → prog mev A) tr o :
  mpath (x ← trigger e; k x) tr o →
  (∃ x tr', tr = Step e (Ok x) :: tr' ∧ mpath (k x) tr' o) ∨
  (∃ y, tr = [Step e (Err y)] ∧ o = Err y).
Proof.
  destruct tr as [|st tr]; [done|]. intros (r & -> & _ & Hp). destruct r as [x|y].
  - left. by exists x, tr.
  - right. destruct tr; [|done]. by exists y.
Qed.

(** A loop of calls: all of them, or those before one that raises. *)
Lemma path_for_each {A} (f : handler → mev unit) (act : handler → action_on)
    (Hact : ∀ c r, action_of (Step (f c) r) = if is_ok r then [act c] else []) l
    (p : prog mev A) : ∀ tr o,
  mpath (_ ← for_each (λ c, trigger (f c)) l; p) tr o →
  (∃ tr1 tr2, tr = tr1 ++ tr2 ∧ actions tr1 = act <$> l ∧ mpath p tr2 o) ∨
  (∃ l1 l2, l = l1 ++ l2 ∧ l2 ≠ [] ∧ actions tr = act <$> l1 ∧ is_ok o = false).
Proof.
  induction l as [|c l IH]; intros tr o H; [left; by exists [], tr|].
  cbn [for_each] in H. apply (prog_bind_assoc mallowed) in H.
  apply path_trigger in H as [(x & tr' & -> & H)|(y & -> & ->)].
  - apply IH in H as [(tr1 & tr2 & -> & Ha & H)|(l1 & l2 & -> & Hl2 & Ha & Ho)].
    + left. exists (Step (f c) (Ok x) :: tr1), tr2. split_and!; [done| |done].
      by rewrite actions_cons, Hact, Ha.
    + right. exists (c :: l1), l2. split_and!; [done|done| |done].
      by rewrite actions_cons, Hact, Ha.
  - right. exists [], (c :: l). split_and!; [done|done| |done].
    by rewrite actions_cons, Hact.
Qed.

Lemma exit_code_spec tasks : ∀ code c,
  exit_code tasks code = Ok c → c = if existsb crashed tasks then 1%Z else code.
Proof.
  induction tasks as [|[[[]|x]|] tasks IH]; intros code c H; cbn in *; [congruence|by apply IH| |by apply IH].
  case_decide; [done|]. apply IH in H. by destruct (existsb crashed tasks).
Qed.

(** main() returns only if no task that had ended was cancelled. *)
Lemma exit_code_no_cancel tasks : ∀ code c x,
  exit_code tasks code = Ok c → Some (Err x) ∈ tasks → exn_type x ≠ "CancelledError"%string.
Proof.
  induction tasks as [|[[[]|y]|] tasks IH]; intros code c x H; cbn in *; [by intros ?%elem_of_nil|..].
  - intros [?|Hin]%elem_of_cons; [done|by eapply IH].
  - case_decide as Hy; [done|]. intros [[= ->]|Hin]%elem_of_cons; [done|by eapply IH].
  - intros [?|Hin]%elem_of_cons; [done|by eapply IH].
Qed.

(** The life of the process.  If [main()] returns, every handler was started, the wait
    returned, every run task was cancelled and awaited, and every handler stopped, in this order;
    and the exit code is 1 exactly when one of the consumers had crashed.  If a start raises,
    nothing is cancelled or stopped. *)
Theorem main_life_cycle s tr o :
  mpath (main s) tr o →
  match o with
  | Ok code => ∃ tasks,
      actions tr = (Started <$> handlers s) ++ [Waited tasks] ++ (Cancelled <$> handlers s) ++
        [Gathered] ++ (Stopped <$> handlers s) ∧
      code = if existsb crashed tasks then 1%Z else 0%Z
  | Err _ =>
      (∃ l1 l2, handlers s = l1 ++ l2 ∧ l2 ≠ [] ∧ actions tr = Started <$> l1) ∨
      (∃ rest, actions tr = (Started <$> handlers s) ++ rest)
  end.
Proof.
  intros H. unfold main in H. cbn zeta in H.
  apply (path_for_each MStart Started) in H as
    [(tr1 & tr2 & -> & Ha1 & H)|(l1 & l2 & Hl & Hl2 & Ha & Ho)]; [| |by intros c []].
  2: { destruct o; [done|]. left. by exists l1, l2. }
  rewrite actions_app, Ha1.
  destruct o as [code|x]; [|right; by eexists].
  apply path_trigger in H as [(tasks & tr3 & -> & H)|(y & -> & ?)]; [|done].
  destruct (exit_code tasks 0) as [c|y] eqn:Ec; [|by destruct tr3].
  change (mpath (_ ← for_each (λ c, trigger (MCancel c)) (handlers s); _ ← trigger MGather;
    _ ← for_each (λ c, trigger (MStop c)) (handlers s); Ret c) tr3 (Ok code)) in H.
  apply exit_code_spec in Ec. exists tasks.
  apply (path_for_each MCancel Cancelled) in H as
    [(tr4 & tr5 & -> & Ha2 & H)|(? & ? & _ & _ & _ & ?)]; [|done|by intros ? []].
  apply path_trigger in H as [(u & tr6 & -> & H)|(y & -> & ?)]; [|done].
  apply (path_for_each MStop Stopped) in H as
    [(tr7 & tr8 & -> & Ha3 & H)|(? & ? & _ & _ & _ & ?)]; [|done|by intros ? []].
  destruct tr8; [|done]. cbn in H. injection H as ->.
  split; [|done]. by rewrite actions_cons, actions_app, actions_cons, actions_app, Ha2, Ha3, app_nil_r.
Qed.

(** ** Evaluated: the payment consumer crashes *)

Definition m_handler (tasks : list task) (X : Type) (e : mev X) : action nat X := λ n,
  match e in mev X return action nat X with
  | MWait _ => λ n, (n, Ok tasks)
  | MStart _ => λ n, (n, Ok tt)
  | MCancel _ => λ n, (n, Ok tt)
  | MGather => λ n, (n, Ok tt)
  | MStop _ => λ n, (S n, Ok tt)
  end n.

Definition crash : task := Some (Err (Exn "KafkaConnectionError" "" true)).

Lemma main_life_cycle_witness :
  let '(n, r) := run (m_handler [None; crash; None]) (main default_settings) 0 in
  n = 3 ∧ r = Ok 1%Z ∧
  ∃ tasks, existsb crashed tasks = true ∧
    actions (run_trace (m_handler [None; crash; None]) (main default_settings) 0) =
      (Started <$> handlers default_settings) ++ [Waited tasks] ++
      (Cancelled <$> handlers default_settings) ++ [Gathered] ++ (Stopped <$> handlers default_settings).
Proof.
  pose proof (main_life_cycle default_settings
    (run_trace (m_handler [None; crash; None]) (main default_settings) 0)
    (run (m_handler [None; crash; None]) (main default_settings) 0).2) as H.
  specialize (H ltac:(by apply run_path)). destruct H as (tasks & Ha & Hc).
  split_and!; [by vm_compute..|]. exists tasks. split; [by destruct (existsb crashed tasks)|exact Ha].
Defined.
