(* ===== verification/ConsumerSpec.v ===== *)
(** * What one delivery may do

    The observable behaviour of [process_record], for every answer of the
    store, of Kafka and of handle(): [delivery] is the lifecycle of the
    module's docstring as a grammar of traces, and every execution is a word of
    it ([process_record_delivery]).  ConsumerProps.v reads the properties of the
    consumer off the grammar. *)

From S2P Require Import Prelude Prog Utf8 PyJson Models StoreEvents Metrics Consumer.

(** ** Observations: events with their answers, without timing *)

Inductive obs :=
| OClaim (mid : string) (r : res bool)
| OGetStatus (mid : string) (r : res (option ProcessingStatus))
| OComplete (mid : string) (result : pyval) (r : res unit)
| OFail (mid : string) (error : string) (attempts : Z) (r : res unit)
| OHandle (message : payload) (r : res pyval)
| OCommit (r : res unit)
| OSend (topic value : string) (key : option string) (r : res unit)
| OSleep (ms : Z) (r : res unit)
| OMetric (c : metric_call)
| OOther.

Definition obs_store {X} (e : store_ev X) : res X → obs :=
  match e in store_ev X return res X → obs with
  | EClaim mid => OClaim mid
  | EGetStatus mid => OGetStatus mid
  | EMarkCompleted mid v => OComplete mid v
  | EMarkFailed mid e a => OFail mid e a
  | EConnect | EClose => λ _, OOther
  end.

(** Timing (the clock readings and the histograms) is not observed. *)
Definition obs_ev {X} (e : ev X) : res X → option obs :=
  match e in ev X return res X → option obs with
  | EStore e => λ r, Some (obs_store e r)
  | EMetric (MObserve _ _ _) => λ _, None
  | EMetric c => λ _, Some (OMetric c)
  | EPerfCounter => λ _, None
  | ESleep ms => λ r, Some (OSleep ms r)
  | EHandle m => λ r, Some (OHandle m r)
  | ECommit => λ r, Some (OCommit r)
  | ESend t v k => λ r, Some (OSend t v k r)
  | _ => λ _, Some OOther
  end.

Definition obs_step (st : step ev) : option obs := obs_ev (step_ev st) (step_res st).

Definition trace_of (tr : list (step ev)) : list obs := omap obs_step tr.

Lemma trace_of_cons st tr : trace_of (st :: tr) = option_list (obs_step st) ++ trace_of tr.
Proof. unfold trace_of. cbn. by destruct (obs_step st). Qed.

Lemma trace_of_app tr1 tr2 : trace_of (tr1 ++ tr2) = trace_of tr1 ++ trace_of tr2.
Proof. apply omap_app. Qed.

(** The metric calls and the clock do not raise; everything else may. *)
Definition allowed {X} (e : ev X) : res X → Prop :=
  match e in ev X return res X → Prop with
  | EMetric _ => λ r, r = Ok tt
  | EPerfCounter => λ r, is_ok r = true
  | _ => λ _, True
  end.

(** [does p Φ]: all executions of [p] have a trace and an outcome in [Φ]. *)
Definition does {A} (p : prog ev A) (Φ : list obs → res A → Prop) : Prop :=
  ∀ tr o, path (@allowed) p tr o → Φ (trace_of tr) o.

Lemma does_mono {A} (p : prog ev A) (Φ Ψ : list obs → res A → Prop) :
  does p Φ → (∀ h o, Φ h o → Ψ h o) → does p Ψ.
Proof. intros H HΦ tr o Hp. by apply HΦ, H. Qed.

Lemma does_ret {A} (a : A) : does (Ret a) (λ h o, h = [] ∧ o = Ok a).
Proof. intros [|??] o; [by intros ->|done]. Qed.

Lemma does_of_res {A} (r : res A) : does (of_res r) (λ h o, h = [] ∧ o = r).
Proof. destruct r; intros [|??] o; by try intros ->. Qed.

Lemma does_bind {A B} (p : prog ev A) (f : A → prog ev B) Φ Ψ :
  does p Φ →
  (∀ h a, Φ h (Ok a) → does (f a) (λ h' o, Ψ (h ++ h') o)) →
  (∀ h x, Φ h (Err x) → Ψ h (Err x)) →
  does (mbind f p) Ψ.
Proof.
  intros Hp Hf Hx tr o (tr1 & tr2 & r & -> & H1 & H2)%path_bind.
  unfold trace_of. rewrite omap_app. specialize (Hp _ _ H1).
  destruct r as [a|x]; [by apply (Hf _ _ Hp)|].
  destruct H2 as [-> ->]. simpl. rewrite app_nil_r. by apply Hx.
Qed.

Lemma does_attempt {A} (p : prog ev A) Φ :
  does p Φ → does (attempt p) (λ h o, ∃ r, o = Ok r ∧ Φ h r).
Proof.
  intros Hp tr o Ht. assert (∃ r, o = Ok r ∧ path (@allowed) p tr r) as (r & -> & Hr).
  { clear Hp. revert tr Ht. induction p as [a|x|X e k IH]; intros [|st tr]; simpl; try done.
    - intros ->. by exists (Ok a).
    - intros ->. by exists (Err x).
    - intros (r & -> & Ha & H). destruct (IH _ _ H) as (r' & -> & H').
      exists r'. split; [done|]. by exists r. }
  exists r. split; [done|]. by apply Hp.
Qed.

Lemma does_trigger {X} (e : ev X) :
  does (trigger e) (λ h r, allowed e r ∧ h = option_list (obs_ev e r)).
Proof.
  intros [|st tr] o; [done|]. intros (r & -> & Ha & Hr).
  apply (does_of_res r) in Hr as [Hn ->]. split; [done|].
  by rewrite trace_of_cons, Hn, app_nil_r.
Qed.

Lemma does_emit cs :
  does (emit cs) (λ h o, o = Ok tt ∧
    h = omap (λ c, match c with MObserve _ _ _ => None | _ => Some (OMetric c) end) cs).
Proof.
  induction cs as [|c cs IH]; cbn [emit].
  - eapply does_mono; [apply does_ret|]. intros h o [-> ->]. done.
  - eapply does_bind; [apply does_trigger| |].
    + intros h [] [_ ->]. eapply does_mono; [apply IH|]. intros h' o [-> ->]. split; [done|].
      by destruct c.
    + intros h x [[=] _].
Qed.

Lemma does_perf : does (trigger EPerfCounter) (λ h o, h = [] ∧ is_ok o = true).
Proof. eapply does_mono; [apply does_trigger|]. by intros h o [? ->]. Qed.

(** Measuring a store call shows only the call. *)
Lemma does_measure_store_op {A} op (p : prog ev A) Φ :
  does p Φ → does (measure_store_op op p) Φ.
Proof.
  intros Hp. eapply does_bind; [apply does_perf| |by intros h x [_ ?]].
  intros h start [-> _]. eapply does_bind; [apply does_attempt, Hp| |by intros h x (?&[=]&_)].
  intros h r (? & [= <-] & Hr).
  eapply (does_bind _ _ (λ h' o, h' = [] ∧ o = Ok tt)).
  - eapply does_bind; [apply does_perf| |by intros h' x [_ ?]].
    intros h' stop [-> _]. eapply does_mono; [apply does_emit|]. by intros h' o [-> ->].
  - intros h' [] [-> _]. eapply does_mono; [apply does_of_res|].
    intros h' o [-> ->]. simpl. by rewrite app_nil_r.
  - by intros h' x [_ ?].
Qed.

Lemma does_measure_processing {A} topic (p : prog ev A) Φ :
  does p Φ →
  does (measure_processing topic p) (λ h o, ∃ h',
    h = OMetric (processing_enter topic) :: h' ++ [OMetric (processing_exit topic)] ∧ Φ h' o).
Proof.
  intros Hp. eapply does_bind; [apply does_emit| |by intros h x [? _]].
  intros h [] [_ ->]. eapply does_bind; [apply does_perf| |by intros h' x [_ ?]].
  intros h' start [-> _]. eapply does_bind; [apply does_attempt, Hp| |by intros h x (?&[=]&_)].
  intros h r (? & [= <-] & Hr).
  eapply (does_bind _ _ (λ h' o, h' = [OMetric (processing_exit topic)] ∧ o = Ok tt)).
  - eapply does_bind; [apply does_emit| |by intros h' x [? _]].
    intros h' [] [_ ->]. eapply does_bind; [apply does_perf| |by intros h' x [_ ?]].
    intros h' t [-> _]. eapply does_mono; [apply does_emit|]. by intros h' o [-> ->].
  - intros h' [] [-> _]. eapply does_mono; [apply does_of_res|].
    intros h' o [-> ->]. by exists h.
  - by intros h' x [_ ?].
Qed.

Lemma does_measured_store {X} op (e : store_ev X) :
  does (measure_store_op op (trigger (EStore e))) (λ h r, h = [obs_store e r]).
Proof.
  apply does_measure_store_op. eapply does_mono; [apply does_trigger|]. by intros h r [_ ->].
Qed.

(** ** The grammar of a delivery *)
Section Grammar.
Context `{!PyRuntime} `{!JsonCodec} (self : consumer) (record : consumer_record).

#[local] Abbreviation topic := (r_topic record).
#[local] Abbreviation cfg := (c_config self).

Definition metric_obs (cs : list metric_call) : list obs := OMetric <$> cs.

(** [_commit]: one commit, or nothing without a Kafka consumer. *)
Definition commits (h : list obs) (o : res unit) : Prop :=
  if c_connected self then h = [OCommit o] else h = [] ∧ o = Ok tt.

(** [_complete] after handle() returned [v]. *)
Inductive completes (mid : option string) (v : pyval) : list obs → res unit → Prop :=
| completes_plain h o :
    truthy_str mid = None → commits h (Ok tt) → o = Ok tt →
    completes mid v (h ++ metric_obs (record_processed topic)) o
| completes_plain_err h x :
    truthy_str mid = None → commits h (Err x) → completes mid v h (Err x)
| completes_marked m h o :
    truthy_str mid = Some m → commits h (Ok tt) → o = Ok tt →
    completes mid v (OComplete m v (Ok tt) :: h ++ metric_obs (record_processed topic)) o
| completes_marked_err m h x :
    truthy_str mid = Some m → commits h (Err x) →
    completes mid v (OComplete m v (Ok tt) :: h) (Err x)
| completes_unmarked m y h o :
    truthy_str mid = Some m → exn_is_exception y = true → commits h (Ok tt) → o = Ok tt →
    completes mid v (OComplete m v (Err y) :: metric_obs (record_error topic (exn_type y))
      ++ h ++ metric_obs (record_processed topic)) o
| completes_unmarked_err m y h x :
    truthy_str mid = Some m → exn_is_exception y = true → commits h (Err x) →
    completes mid v (OComplete m v (Err y) :: metric_obs (record_error topic (exn_type y)) ++ h)
      (Err x)
| completes_cancelled m y :
    truthy_str mid = Some m → exn_is_exception y = false →
    completes mid v [OComplete m v (Err y)] (Err y).

(** What follows a failed attempt: [Ok true] to try again, [Ok false] when the
    message could not be claimed again, [Err] when a call raised. *)
Inductive after_failure (mid : option string) (attempts : Z) (exc : exn)
    : list obs → res bool → Prop :=
| af_mark_raised m y :
    truthy_str mid = Some m →
    after_failure mid attempts exc
      (metric_obs (record_error topic (exn_type exc)) ++
       [OFail m (exn_str exc) attempts (Err y)]) (Err y)
| af_last marks :
    (max_retries cfg ≤ attempts)%Z →
    marks = match truthy_str mid with
            | Some m => [OFail m (exn_str exc) attempts (Ok tt)] | None => [] end →
    after_failure mid attempts exc
      (metric_obs (record_error topic (exn_type exc)) ++ marks) (Ok true)
| af_sleep_raised marks y :
    (attempts < max_retries cfg)%Z →
    marks = match truthy_str mid with
            | Some m => [OFail m (exn_str exc) attempts (Ok tt)] | None => [] end →
    after_failure mid attempts exc
      (metric_obs (record_error topic (exn_type exc)) ++ marks ++
       [OSleep (retry_backoff_ms cfg * attempts) (Err y)]) (Err y)
| af_retry :
    (attempts < max_retries cfg)%Z → truthy_str mid = None →
    after_failure mid attempts exc
      (metric_obs (record_error topic (exn_type exc)) ++
       [OSleep (retry_backoff_ms cfg * attempts) (Ok tt)] ++ metric_obs (record_retry topic))
      (Ok true)
| af_reclaim m r :
    (attempts < max_retries cfg)%Z → truthy_str mid = Some m →
    after_failure mid attempts exc
      (metric_obs (record_error topic (exn_type exc)) ++
       [OFail m (exn_str exc) attempts (Ok tt);
        OSleep (retry_backoff_ms cfg * attempts) (Ok tt)] ++ metric_obs (record_retry topic) ++
       [OClaim m r]) r.

(** The retry loop, from the attempt number [attempts], with [n] iterations left. *)
Inductive loops (mid : option string) (msg : payload)
    : nat → Z → option exn → list obs → res loop_end → Prop :=
| loops_exhausted a last : loops mid msg 0 a last [] (Ok (LoopLeft last))
| loops_success n a last v h :
    completes mid v h (Ok tt) →
    loops mid msg (S n) a last (OHandle msg (Ok v) :: h) (Ok LoopReturned)
| loops_success_err n a last v h x :
    completes mid v h (Err x) → loops mid msg (S n) a last (OHandle msg (Ok v) :: h) (Err x)
| loops_cancelled n a last x :
    exn_is_exception x = false → loops mid msg (S n) a last [OHandle msg (Err x)] (Err x)
| loops_raised n a last x h y :
    exn_is_exception x = true → after_failure mid a x h (Err y) →
    loops mid msg (S n) a last (OHandle msg (Err x) :: h) (Err y)
| loops_break n a last x h :
    exn_is_exception x = true → after_failure mid a x h (Ok false) →
    loops mid msg (S n) a last (OHandle msg (Err x) :: h) (Ok (LoopLeft (Some x)))
| loops_next n a last x h h' o :
    exn_is_exception x = true → after_failure mid a x h (Ok true) →
    loops mid msg n (a + 1) (Some x) h' o →
    loops mid msg (S n) a last (OHandle msg (Err x) :: h ++ h') o.

(** The dead-letter queue, then the commit. *)
Inductive dead_letters (last : option exn) : list obs → res unit → Prop :=
| dl_no_producer h o :
    (c_dlq_producer self = false ∨ truthy_str (c_dlq_topic self) = None) → commits h o →
    dead_letters last (metric_obs (record_dlq topic) ++ h) o
| dl_send_raised t y :
    c_dlq_producer self = true → truthy_str (c_dlq_topic self) = Some t →
    dead_letters last (metric_obs (record_dlq topic) ++
      [OSend t (json_dumps (dlq_payload record (str_exc last))) (r_key record) (Err y)]) (Err y)
| dl_sent t h o :
    c_dlq_producer self = true → truthy_str (c_dlq_topic self) = Some t → commits h o →
    dead_letters last (metric_obs (record_dlq topic) ++
      OSend t (json_dumps (dlq_payload record (str_exc last))) (r_key record) (Ok tt) :: h) o.

Inductive executes (mid : option string) : list obs → res unit → Prop :=
| ex_bad_payload x : parse_payload record = Err x → executes mid [] (Err x)
| ex_returned msg h :
    parse_payload record = Ok msg → loops mid msg (loop_fuel self) 1 None h (Ok LoopReturned) →
    executes mid h (Ok tt)
| ex_raised msg h x :
    parse_payload record = Ok msg → loops mid msg (loop_fuel self) 1 None h (Err x) →
    executes mid h (Err x)
| ex_dead msg h last h' o :
    parse_payload record = Ok msg →
    loops mid msg (loop_fuel self) 1 None h (Ok (LoopLeft last)) →
    dead_letters last h' o → executes mid (h ++ h') o.

(** The metric of a message that could not be claimed. *)
Definition lost_metric (v : option ProcessingStatus) : list metric_call :=
  match v with
  | Some p => if decide (ps_status p = PROCESSING) then record_claim_lost topic
              else record_duplicate topic
  | None => record_duplicate topic
  end.

Inductive delivery : list obs → res unit → Prop :=
| dv_bad_id x : extract_message_id record = Err x → delivery [] (Err x)
| dv_no_id h o :
    extract_message_id record = Ok None → executes None h o →
    delivery (metric_obs (record_no_message_id topic) ++ h) o
| dv_claim_raised mid x :
    extract_message_id record = Ok (Some mid) → delivery [OClaim mid (Err x)] (Err x)
| dv_status_raised mid x :
    extract_message_id record = Ok (Some mid) →
    delivery [OClaim mid (Ok false); OGetStatus mid (Err x)] (Err x)
| dv_lost mid v h o :
    extract_message_id record = Ok (Some mid) → commits h o →
    delivery (OClaim mid (Ok false) :: OGetStatus mid (Ok v) :: metric_obs (lost_metric v) ++ h) o
| dv_won mid h o :
    extract_message_id record = Ok (Some mid) → executes (Some mid) h o →
    delivery (OClaim mid (Ok true) :: OMetric (processing_enter topic) ::
      h ++ [OMetric (processing_exit topic)]) o.

(** ** Every execution is a word of the grammar *)

Lemma does_commit : does (commit self record) commits.
Proof.
  unfold commit, commits. destruct (c_connected self); [|apply does_ret].
  eapply does_mono; [apply does_trigger|]. by intros h o [_ ->].
Qed.

Definition counted (c : metric_call) : bool :=
  match c with MObserve _ _ _ => false | _ => true end.

Lemma does_record cs :
  forallb counted cs = true → does (emit cs) (λ h o, h = metric_obs cs ∧ o = Ok tt).
Proof.
  intros Hcs. eapply does_mono; [apply does_emit|]. intros h o [-> ->]. split; [|done].
  induction cs as [|c cs IH]; [done|].
  apply andb_prop in Hcs as [Hc Hcs]. cbn. rewrite IH by done. by destruct c.
Qed.

Lemma does_commit_processed Φ :
  (∀ h, commits h (Ok tt) → Φ (h ++ metric_obs (record_processed topic)) (Ok tt)) →
  (∀ h x, commits h (Err x) → Φ h (Err x)) →
  does (_ ← commit self record; emit (record_processed topic)) Φ.
Proof.
  intros H1 H2. eapply does_bind; [apply does_commit| |exact H2].
  intros h [] Hc. eapply does_mono; [apply does_record; reflexivity|].
  intros h' o [-> ->]. by apply H1.
Qed.

Lemma does_complete mid v : does (complete self record mid v) (completes mid v).
Proof.
  unfold complete. destruct (truthy_str mid) as [m|] eqn:Em.
  2:{ eapply does_bind; [apply does_ret| |by intros h x [_ ?]]. intros h [] [-> _].
      apply does_commit_processed; intros; by econstructor. }
  unfold try_except. eapply (does_bind _ _ (λ h o,
    h = [OComplete m v (Ok tt)] ∧ o = Ok tt ∨
    (∃ y, exn_is_exception y = true ∧ o = Ok tt ∧
          h = OComplete m v (Err y) :: metric_obs (record_error topic (exn_type y))) ∨
    (∃ y, exn_is_exception y = false ∧ o = Err y ∧ h = [OComplete m v (Err y)]))).
  - eapply does_bind; [apply does_attempt, does_measured_store| |by intros h x (?&[=]&_)].
    intros h r (? & [= <-] & ->). destruct r as [[]|y].
    + eapply does_mono; [apply does_ret|]. intros h o [-> ->]. by left.
    + destruct (exn_is_exception y) eqn:Ey.
      * eapply does_mono; [apply does_record; reflexivity|]. intros h o [-> ->]. right; left; eauto.
      * eapply does_mono; [apply (does_of_res (Err y))|]. intros h o [-> ->]. right; right; eauto.
  - intros h [] [[-> _]|[(y & Hy & _ & ->)|(y & _ & [=] & _)]];
      apply does_commit_processed; intros; by econstructor.
  - intros h x [[_ [=]]|[(y & _ & [=] & _)|(y & Hy & [= ->] & ->)]]. by apply completes_cancelled.
Qed.

Definition marks (mid : option string) (exc : exn) (attempts : Z) : list obs :=
  match truthy_str mid with
  | Some m => [OFail m (exn_str exc) attempts (Ok tt)]
  | None => []
  end.

Lemma does_mark_failed mid exc attempts :
  does (match truthy_str mid with
        | Some m => measure_store_op "mark_failed"
                      (trigger (EStore (EMarkFailed m (exn_str exc) attempts)))
        | None => Ret tt
        end)
    (λ h o, o = Ok tt ∧ h = marks mid exc attempts ∨
            ∃ m y, truthy_str mid = Some m ∧ o = Err y ∧
                   h = [OFail m (exn_str exc) attempts (Err y)]).
Proof.
  unfold marks. destruct (truthy_str mid) as [m|].
  - eapply does_mono; [apply does_measured_store|]. intros h [[]|y] ->; [by left|]. right. eauto.
  - eapply does_mono; [apply does_ret|]. intros h o [-> ->]. by left.
Qed.

Lemma does_sleep ms : does (trigger (ESleep ms)) (λ h o, h = [OSleep ms o]).
Proof. eapply does_mono; [apply does_trigger|]. by intros h o [_ ->]. Qed.

Lemma does_on_failure mid attempts exc :
  does (on_failure self record mid attempts exc) (after_failure mid attempts exc).
Proof.
  unfold on_failure. eapply does_bind; [apply does_record; reflexivity| |by intros h x [_ ?]].
  intros h [] [-> _]. eapply does_bind; [apply does_mark_failed| |].
  2:{ intros h x [[[=] _]|(m & y & Hm & [= ->] & ->)]. by apply af_mark_raised. }
  intros h [] [[_ ->]|(m & y & _ & [=] & _)].
  destruct (Z.ltb_spec attempts (max_retries cfg)) as [Hlt|Hge].
  2:{ eapply does_mono; [apply does_ret|]. intros h o [-> ->]. rewrite app_nil_r.
      by eapply af_last. }
  eapply does_bind; [apply does_sleep| |].
  2:{ intros h y ->. by eapply af_sleep_raised. }
  intros h [] ->. eapply does_bind; [apply does_record; reflexivity| |by intros h x [_ ?]].
  intros h [] [-> _]. unfold marks. destruct (truthy_str mid) as [m|] eqn:Em.
  - eapply does_mono; [apply does_measured_store|]. intros h o ->. by eapply af_reclaim.
  - eapply does_mono; [apply does_ret|]. intros h o [-> ->]. by eapply af_retry.
Qed.

Lemma does_handle msg : does (trigger (EHandle msg)) (λ h o, h = [OHandle msg o]).
Proof. eapply does_mono; [apply does_trigger|]. by intros h o [_ ->]. Qed.

Lemma does_retry_loop mid msg n : ∀ a last,
  does (retry_loop self n record mid msg a last) (loops mid msg n a last).
Proof.
  induction n as [|n IH]; intros a last; cbn [retry_loop].
  { eapply does_mono; [apply does_ret|]. intros h o [-> ->]. constructor. }
  eapply does_bind; [apply does_attempt, does_handle| |by intros h x (?&[=]&_)].
  intros h r (? & [= <-] & ->). destruct r as [v|x].
  - eapply does_bind; [apply does_complete| |].
    + intros h [] Hc. eapply does_mono; [apply does_ret|]. intros h' o [-> ->].
      rewrite app_nil_r. by constructor.
    + intros h y Hc. by constructor.
  - destruct (exn_is_exception x) eqn:Ex.
    2:{ eapply does_mono; [apply (does_of_res (Err x))|]. intros h o [-> ->]. by constructor. }
    eapply does_bind; [apply does_on_failure| |].
    + intros h [] Ha.
      * eapply does_mono; [apply IH|]. intros h' o Hl.
        by apply (loops_next _ _ _ _ last x h).
      * eapply does_mono; [apply does_ret|]. intros h' o [-> ->]. rewrite app_nil_r.
        by eapply loops_break.
    + intros h y Ha. by eapply loops_raised.
Qed.

Lemma does_dead_letters last :
  does (_ ← emit (record_dlq topic);
        _ ← send_to_dlq self record (str_exc last);
        commit self record) (dead_letters last).
Proof.
  eapply does_bind; [apply does_record; reflexivity| |by intros h x [_ ?]].
  intros h [] [-> _]. unfold send_to_dlq.
  assert (Hnone : c_dlq_producer self = false ∨ truthy_str (c_dlq_topic self) = None →
    does (_ ← Ret tt; commit self record)
      (λ h' o, dead_letters last (metric_obs (record_dlq topic) ++ h') o)).
  { intros Hn. eapply does_mono; [apply does_commit|]. intros h o Hc. by constructor. }
  destruct (c_dlq_producer self) eqn:Ep; [|by apply Hnone; left].
  destruct (truthy_str (c_dlq_topic self)) as [t|] eqn:Et; [|by apply Hnone; right].
  eapply (does_bind _ _ (λ h r, h = [OSend t (json_dumps (dlq_payload record (str_exc last)))
                                       (r_key record) r])).
  - eapply does_mono; [apply does_trigger|]. by intros h o [_ ->].
  - intros h [] ->. eapply does_mono; [apply does_commit|]. intros h o Hc. by apply dl_sent.
  - intros h y ->. by apply dl_send_raised.
Qed.

Lemma does_execute_and_commit mid :
  does (execute_and_commit self record mid) (executes mid).
Proof.
  unfold execute_and_commit. eapply does_bind; [apply does_of_res| |].
  2:{ intros h x [-> Hp]. by apply ex_bad_payload. }
  intros h msg [-> Hp]. eapply does_bind; [apply does_retry_loop| |].
  - intros h [|last] Hl.
    + eapply does_mono; [apply does_ret|]. intros h' o [-> ->]. rewrite app_nil_r.
      by apply (ex_returned mid msg).
    + eapply does_mono; [apply does_dead_letters|]. intros h' o Hd. by apply (ex_dead mid msg h last).
  - intros h x Hl. by apply (ex_raised mid msg).
Qed.

Lemma does_lost_metric v :
  does (match v with
        | Some p => if decide (ps_status p = PROCESSING) then emit (record_claim_lost topic)
                    else emit (record_duplicate topic)
        | None => emit (record_duplicate topic)
        end) (λ h o, h = metric_obs (lost_metric v) ∧ o = Ok tt).
Proof.
  unfold lost_metric. destruct v as [p|]; [case_decide|]; apply does_record; reflexivity.
Qed.

Theorem process_record_delivery : does (process_record self record) delivery.
Proof.
  unfold process_record. eapply does_bind; [apply does_of_res| |].
  2:{ intros h x [-> He]. by apply dv_bad_id. }
  intros h [mid|] [-> He].
  2:{ eapply does_bind; [apply does_record; reflexivity| |by intros h x [_ ?]].
      intros h [] [-> _]. eapply does_mono; [apply does_execute_and_commit|].
      intros h o Hx. by apply dv_no_id. }
  eapply does_bind; [apply does_measured_store| |].
  2:{ intros h x ->. by apply dv_claim_raised. }
  intros h [] ->.
  - eapply does_mono; [apply does_measure_processing, does_execute_and_commit|].
    intros h o (h' & -> & Hx). by apply dv_won.
  - eapply does_bind; [apply does_measured_store| |].
    2:{ intros h x ->. by apply dv_status_raised. }
    intros h v ->. eapply does_bind; [apply does_lost_metric| |by intros h x [_ ?]].
    intros h [] [-> _]. eapply does_mono; [apply does_commit|]. intros h o Hc. by apply dv_lost.
Qed.

End Grammar.
