(* ===== verification/Cancellation.v ===== *)
(** * Cancellation

    An exception that is not an [Exception] (asyncio.CancelledError) may come out of
    any await.  Nothing in the consumer swallows it: whatever call it comes out of,
    only the [finally] blocks of the measurements still run. *)

From S2P Require Import Prelude Prog Utf8 PyJson JsonText Models StoreEvents Metrics Consumer ConsumerSpec.

(** ** Trees that an exception runs through *)
Section Unwind.
Context {E : Type → Type} (allowed : ∀ X, E X → res X → Prop) (quick : ∀ X, E X → Prop).
Context (quick_returns : ∀ X (e : E X) x, quick X e → ¬ allowed X e (Err x)).

(** At most [n] calls are left, all of them quick, and then [x] is raised. *)
Fixpoint unwinds (x : exn) (n : nat) {A} (p : prog E A) {struct p} : Prop :=
  match p with
  | Ret _ => False
  | Raise y => y = x
  | Vis e k =>
      match n with
      | O => False
      | S n' => quick _ e ∧ ∀ r, allowed _ e r → unwinds x n' (k r)
      end
  end.

(** The same of code that returns: a [finally] block. *)
Fixpoint cleans (n : nat) (q : prog E unit) {struct q} : Prop :=
  match q with
  | Ret _ => True
  | Raise _ => False
  | Vis e k =>
      match n with
      | O => False
      | S n' => quick _ e ∧ ∀ r, allowed _ e r → cleans n' (k r)
      end
  end.

(** From whatever call a fatal exception comes, it unwinds the rest in [n] calls. *)
Fixpoint interruptible (n : nat) {A} (p : prog E A) : Prop :=
  match p with
  | Ret _ | Raise _ => True
  | Vis e k =>
      (∀ x, exn_is_exception x = false → allowed _ e (Err x) → unwinds x n (k (Err x))) ∧
      (∀ r, allowed _ e r → interruptible n (k r))
  end.

Lemma unwinds_mono x n m {A} (p : prog E A) : n ≤ m → unwinds x n p → unwinds x m p.
Proof.
  revert n m. induction p as [a|y|X e k IH]; intros [|n] [|m] Hle; cbn; try done; [lia|].
  intros [He Hk]. split; [done|]. intros r Hr. apply (IH r n); [lia|by apply Hk].
Qed.

Lemma unwinds_bind x n {A B} (p : prog E A) (f : A → prog E B) :
  unwinds x n p → unwinds x n (prog_bind p f).
Proof.
  revert n. induction p as [a|y|X e k IH]; intros [|n]; cbn; try done.
  intros [He Hk]. split; [done|]. intros r Hr. by apply IH, Hk.
Qed.

Lemma cleans_bind n m (p q : prog E unit) : cleans n p → cleans m q → cleans (n + m) (_ ← p; q).
Proof.
  intros Hp Hq. revert n Hp. induction p as [a|y|X e k IH]; cbn; intros n Hp; [|done|].
  - clear Hp. revert m Hq. induction q as [b|y|X e k IH]; cbn; intros m Hq; [done..|].
    destruct m as [|m]; [done|]. rewrite Nat.add_succ_r. destruct Hq as [He Hk]. cbn. split; [done|].
    intros r Hr. by apply IH, Hk.
  - destruct n as [|n]; [done|]. destruct Hp as [He Hk]. cbn. split; [done|]. intros r Hr. by apply IH, Hk.
Qed.

(** After a [finally] block the exception goes on. *)
Lemma cleans_unwinds x n {A} (q : prog E unit) (p : prog E A) :
  cleans n q → unwinds x 0 p → unwinds x n (_ ← q; p).
Proof.
  intros Hq Hp. revert n Hq. induction q as [b|y|X e k IH]; cbn; intros n Hq; [|done|].
  - by apply (unwinds_mono _ 0); [lia|].
  - destruct n as [|n]; [done|]. destruct Hq as [He Hk]. split; [done|]. intros r Hr. by apply IH, Hk.
Qed.

Lemma unwinds_finally x n m {A} (p : prog E A) (q : prog E unit) :
  unwinds x n p → cleans m q → unwinds x (n + m) (finally p q).
Proof.
  intros Hp Hq. unfold finally. revert n Hp.
  induction p as [a|y|X e k IH]; cbn; intros n Hp; [done|subst y|].
  - apply (unwinds_mono _ m); [lia|]. by apply cleans_unwinds.
  - destruct n as [|n]; [done|]. destruct Hp as [He Hk]. split; [done|]. intros r Hr. by apply IH, Hk.
Qed.

Lemma unwinds_try_except x n {A} (p : prog E A) h :
  exn_is_exception x = false → unwinds x n p → unwinds x n (try_except p h).
Proof.
  intros Hx. unfold try_except. revert n.
  induction p as [a|y|X e k IH]; cbn; intros n Hp; [done|subst y; by rewrite Hx|].
  destruct n as [|n]; [done|]. destruct Hp as [He Hk]. split; [done|]. intros r Hr. by apply IH, Hk.
Qed.

Lemma interruptible_bind n {A B} (p : prog E A) (f : A → prog E B) :
  interruptible n p → (∀ a, interruptible n (f a)) → interruptible n (prog_bind p f).
Proof.
  intros Hp Hf. induction p as [a|y|X e k IH]; cbn; [apply Hf|done|]. destruct Hp as [He Hk]. split.
  - intros x Hx Ha. by apply unwinds_bind, He.
  - intros r Hr. by apply IH, Hk.
Qed.

Lemma interruptible_of_res n {A} (r : res A) : interruptible n (of_res r).
Proof. by destruct r. Qed.

Lemma interruptible_trigger n {X} (e : E X) : interruptible n (trigger e).
Proof. split; [done|]. intros r _. apply interruptible_of_res. Qed.

Lemma cleans_interruptible n m {A} (q : prog E unit) (p : prog E A) :
  cleans m q → interruptible n p → interruptible n (_ ← q; p).
Proof.
  intros Hq Hp. revert m Hq. induction q as [b|y|X e k IH]; cbn; intros m Hq; [done..|].
  destruct m as [|m]; [done|]. destruct Hq as [He Hk]. split; [|intros r Hr; by eapply IH, Hk].
  intros x _ Ha. by apply quick_returns in Ha.
Qed.

Lemma interruptible_finally n m {A} (p : prog E A) (q : prog E unit) :
  interruptible n p → cleans m q → interruptible (n + m) (finally p q).
Proof.
  intros Hp Hq. induction p as [a|y|X e k IH]; cbn.
  - by eapply cleans_interruptible.
  - by eapply cleans_interruptible.
  - destruct Hp as [He Hk]. split; [|intros r Hr; by apply IH, Hk].
    intros x Hx Ha. by apply (unwinds_finally _ _ _ (k (Err x))), Hq; apply He.
Qed.

Lemma interruptible_try_except n {A} (p : prog E A) h :
  interruptible n p → (∀ x, interruptible n (h x)) → interruptible n (try_except p h).
Proof.
  intros Hp Hh. induction p as [a|y|X e k IH]; cbn; [done|by destruct exn_is_exception|].
  destruct Hp as [He Hk]. split; [|intros r Hr; by apply IH, Hk].
  intros x Hx Ha. by apply (unwinds_try_except _ _ (k (Err x))), He.
Qed.

(** [try: e except Exception: ... else: ...], whose handlers are in [f]. *)
Lemma interruptible_attempt n {X B} (e : E X) (f : res X → prog E B) :
  (∀ x, exn_is_exception x = false → unwinds x n (f (Err x))) → (∀ r, interruptible n (f r)) →
  interruptible n (prog_bind (attempt (trigger e)) f).
Proof.
  intros Hx Hf. split; [intros x Hn _; by apply Hx|]. intros [a|x] _; apply Hf.
Qed.

Lemma interruptible_mono n m {A} (p : prog E A) : n ≤ m → interruptible n p → interruptible m p.
Proof.
  intros Hle. induction p as [a|y|X e k IH]; cbn; [done..|]. intros [He Hk].
  split; [|intros r Hr; by apply IH, Hk]. intros x Hx Ha. by apply (unwinds_mono _ n), He.
Qed.

(** ** In executions *)

Definition quick_step (st : step E) : Prop := quick _ (step_ev st).

Lemma unwinds_path x {A} (p : prog E A) : ∀ n tr o,
  unwinds x n p → path allowed p tr o → o = Err x ∧ length tr ≤ n ∧ Forall quick_step tr.
Proof.
  induction p as [a|y|X e k IH]; intros n [|st tr] o; cbn; try done; [intros -> ->; by split_and!; [|lia|constructor]|].
  destruct n as [|n]; [done|]. intros [He Hk] (r & -> & Ha & Hp).
  destruct (IH r n tr o (Hk r Ha) Hp) as (-> & Hl & Hq). split_and!; [done|lia|by constructor].
Qed.

(** The exception of a call that raised one that is not an [Exception]. *)
Definition fatal (st : step E) : option exn :=
  match step_res st with
  | Err x => if exn_is_exception x then None else Some x
  | Ok _ => None
  end.

Lemma interrupted_path n {A} (p : prog E A) : ∀ tr1 st x tr2 o,
  interruptible n p → path allowed p (tr1 ++ st :: tr2) o → fatal st = Some x →
  o = Err x ∧ length tr2 ≤ n ∧ Forall quick_step tr2.
Proof.
  induction p as [a|y|Y e' k IH]; intros tr1 st x tr2 o; [by destruct tr1..|].
  intros [He Hk] Hp Hx. destruct tr1 as [|st1 tr1]; destruct Hp as (r & -> & Ha & Hp).
  - unfold fatal in Hx. cbn in Hx. destruct r as [v|y]; [done|]. destruct (exn_is_exception y) eqn:Hy; [done|].
    injection Hx as ->. eapply unwinds_path; [|done]. by apply He.
  - eapply IH; [by apply Hk|done..].
Qed.

End Unwind.

(** ** The consumer *)
Section Consumer.
Context `{!PyRuntime} `{!JsonCodec} (self : consumer).

(** The calls of a measurement: they return, and at once. *)
Definition quick (X : Type) (e : ev X) : Prop :=
  match e with EMetric _ | EPerfCounter => True | _ => False end.

Lemma quick_returns X (e : ev X) x : quick X e → ¬ allowed e (Err x).
Proof. by destruct e. Qed.

Abbreviation interruptible := (interruptible (@allowed) quick).
Abbreviation cleans := (cleans (@allowed) quick).
Abbreviation unwinds := (unwinds (@allowed) quick).

Lemma cleans_emit cs : cleans (length cs) (emit cs).
Proof.
  induction cs as [|c cs IH]; [done|]. split; [done|]. intros r Hr. cbn in Hr. by subst r.
Qed.

Lemma cleans_perf n (f : Z → prog ev unit) :
  (∀ z, cleans n (f z)) → cleans (S n) (z ← trigger EPerfCounter; f z).
Proof. intros Hf. split; [done|]. by intros [z|x] Hr; [apply Hf|]. Qed.

Lemma interruptible_emit n cs : interruptible n (emit cs).
Proof.
  induction cs as [|c cs IH]; [done|]. apply interruptible_bind; [apply interruptible_trigger|done].
Qed.

Lemma interruptible_measured {A} n op (p : prog ev A) :
  interruptible n p → interruptible (n + 2) (measure_store_op op p).
Proof.
  intros Hp. apply interruptible_bind; [apply interruptible_trigger|]. intros start.
  apply interruptible_finally; [apply quick_returns|done|].
  apply cleans_perf. intros stop. apply (cleans_emit [_]).
Qed.

Lemma interruptible_store_call {X} op (e : store_ev X) :
  interruptible 2 (measure_store_op op (trigger (EStore e))).
Proof. apply (interruptible_measured 0), interruptible_trigger. Qed.

Lemma interruptible_processing {A} n topic (p : prog ev A) :
  interruptible n p → interruptible (n + 3) (measure_processing topic p).
Proof.
  intros Hp. apply interruptible_bind; [apply interruptible_emit|]. intros _.
  apply interruptible_bind; [apply interruptible_trigger|]. intros start.
  apply interruptible_finally; [apply quick_returns|done|].
  apply (cleans_bind _ _ 1 2); [apply (cleans_emit [_])|].
  apply cleans_perf. intros stop. apply (cleans_emit [_]).
Qed.

Lemma interruptible_commit n record : interruptible n (commit self record).
Proof. unfold commit. destruct (c_connected self); [apply interruptible_trigger|done]. Qed.

Lemma interruptible_complete record mid v : interruptible 2 (complete self record mid v).
Proof.
  apply interruptible_bind.
  - destruct (truthy_str mid); [|done].
    apply interruptible_try_except; [apply interruptible_store_call|]. intros x. apply interruptible_emit.
  - intros _. apply interruptible_bind; [apply interruptible_commit|]. intros _. apply interruptible_emit.
Qed.

Lemma interruptible_on_failure record mid a x : interruptible 2 (on_failure self record mid a x).
Proof.
  apply interruptible_bind; [apply interruptible_emit|]. intros _.
  apply interruptible_bind; [destruct (truthy_str mid); [apply interruptible_store_call|done]|]. intros _.
  destruct (_ <? _)%Z; [|done].
  apply interruptible_bind; [apply interruptible_trigger|]. intros _.
  apply interruptible_bind; [apply interruptible_emit|]. intros _.
  destruct (truthy_str mid); [apply interruptible_store_call|done].
Qed.

Lemma interruptible_retry_loop record mid msg n : ∀ a last,
  interruptible 2 (retry_loop self n record mid msg a last).
Proof.
  induction n as [|n IH]; intros a last; [done|]. apply interruptible_attempt.
  - intros x Hx. by rewrite Hx.
  - intros [v|x].
    + apply interruptible_bind; [apply interruptible_complete|done].
    + destruct (exn_is_exception x); [|done].
      apply interruptible_bind; [apply interruptible_on_failure|]. intros [|]; [apply IH|done].
Qed.

Lemma interruptible_execute record mid : interruptible 2 (execute_and_commit self record mid).
Proof.
  apply interruptible_bind; [apply interruptible_of_res|]. intros msg.
  apply interruptible_bind; [apply interruptible_retry_loop|]. intros [|last]; [done|].
  apply interruptible_bind; [apply interruptible_emit|]. intros _.
  apply interruptible_bind; [|intros; apply interruptible_commit].
  unfold send_to_dlq. destruct (c_dlq_producer self), (truthy_str (c_dlq_topic self));
    first [apply interruptible_trigger|done].
Qed.

Lemma interruptible_process record : interruptible 5 (process_record self record).
Proof.
  apply interruptible_bind; [apply interruptible_of_res|]. intros [mid|].
  - apply interruptible_bind; [eapply interruptible_mono, interruptible_store_call; lia|]. intros [|].
    + apply (interruptible_processing 2), interruptible_execute.
    + apply interruptible_bind; [eapply interruptible_mono, interruptible_store_call; lia|].
      intros existing. apply interruptible_bind; [|intros; apply interruptible_commit].
      destruct existing; [case_decide|]; apply interruptible_emit.
  - apply interruptible_bind; [apply interruptible_emit|]. intros _.
    eapply interruptible_mono, interruptible_execute; lia.
Qed.

Lemma interruptible_records n : interruptible 5 (run_records self n).
Proof.
  induction n as [|n IH]; [done|].
  apply interruptible_bind; [apply interruptible_trigger|]. intros [record|]; [|done].
  apply interruptible_bind; [apply interruptible_trigger|]. intros [|]; [|done].
  apply interruptible_bind; [apply interruptible_process|]. intros _. apply IH.
Qed.

Lemma interruptible_run n : interruptible 5 (run_consumer self n).
Proof. unfold run_consumer. destruct (c_connected self); [apply interruptible_records|done]. Qed.

(** Cancelled anywhere.  Whatever call of run() an exception comes out of that is not an
    [Exception] (the poll, any call of the store, handle(), the back-off, the dead letter, the commit),
    it ends run(): nothing catches it, and what is still called, at most five times, are the metrics and
    the clock.  So a message that is cancelled is neither marked, dead-lettered nor committed any more. *)
Theorem cancelled_anywhere n tr1 st x tr2 o :
  path (@allowed) (run_consumer self n) (tr1 ++ st :: tr2) o → fatal st = Some x →
  o = Err x ∧ length tr2 ≤ 5 ∧ Forall (quick_step quick) tr2.
Proof. apply (interrupted_path _ _ 5), interruptible_run. Qed.

End Consumer.

(** ** Evaluated: cancelled while it backs off *)

#[local] Existing Instances json_text text_runtime.

(** One message after another; handle() raises; the task is cancelled in asyncio.sleep. *)
Definition impatient (X : Type) (e : ev X) : action nat X := λ n, (S n,
  match e in ev X return res X with
  | EStore e =>
      match e in store_ev X return res X with
      | EClaim _ => Ok true
      | EGetStatus _ => Ok None
      | EMarkCompleted _ _ => Ok tt
      | EMarkFailed _ _ _ => Ok tt
      | EConnect => Ok tt
      | EClose => Ok tt
      end
  | EMetric _ => Ok tt
  | EPerfCounter => Ok 0%Z
  | ESleep _ => Err CancelledError
  | EHandle _ => Err (ValueError "no such order")
  | ECommit => Ok tt
  | ESend _ _ _ => Ok tt
  | EConsumerStart => Ok tt
  | EConsumerStop => Ok tt
  | EProducerStart => Ok tt
  | EProducerStop => Ok tt
  | EPoll => Ok (Some (mkRecord "orders" 0 (Z.of_nat n) [("X-Message-Id", Some "m1")%string] None None))
  | EIsRunning => Ok true
  end).

Lemma impatient_allowed X (e : ev X) n : allowed e (impatient X e n).2.
Proof. by destruct e. Qed.

Abbreviation sleeper := (run_consumer (mkConsumer default_config None true false true) 2).
Abbreviation sleeper_trace := (run_trace impatient sleeper 0).

Lemma cancelled_anywhere_witness :
  sleeper_trace = take 14 sleeper_trace ++ Step (ESleep 500) (Err CancelledError) :: drop 15 sleeper_trace ∧
  (run impatient sleeper 0).2 = Err CancelledError ∧ length (drop 15 sleeper_trace) ≤ 5 ∧
  Forall (quick_step quick) (drop 15 sleeper_trace).
Proof.
  split; [by vm_compute|].
  apply (cancelled_anywhere (mkConsumer default_config None true false true) 2 (take 14 sleeper_trace)
    (Step (ESleep 500) (Err CancelledError)) CancelledError); [|done].
  assert (take 14 sleeper_trace ++ Step (ESleep 500) (Err CancelledError) :: drop 15 sleeper_trace =
    sleeper_trace) as -> by by vm_compute.
  apply run_path. intros X e n. apply impatient_allowed.
Defined.
