(* ===== verification/ConsumerShapes.v ===== *)
(** * The shape of a delivery's trace

    What the words of the grammar of ConsumerSpec.v look like: the kinds of
    observations of each part, where handle() can stand in the retry loop, and
    what precedes and follows it.  ConsumerProps.v puts the parts together. *)

From S2P Require Import Prelude Prog Utf8 PyJson Models StoreEvents Metrics Consumer ConsumerSpec.

(** ** Kinds of observations *)

Inductive kind :=
| KClaim | KStatus | KComplete | KFail | KHandle | KCommit | KSend | KSleep | KMetric | KOther.

#[export] Instance kind_eq_dec : EqDecision kind.
Proof. solve_decision. Defined.

Definition obs_kind (e : obs) : kind :=
  match e with
  | OClaim _ _ => KClaim | OGetStatus _ _ => KStatus | OComplete _ _ _ => KComplete
  | OFail _ _ _ _ => KFail | OHandle _ _ => KHandle | OCommit _ => KCommit
  | OSend _ _ _ _ => KSend | OSleep _ _ => KSleep | OMetric _ => KMetric | OOther => KOther
  end.

(** [only ks h]: the trace [h] has observations of the kinds [ks] only. *)
Definition only (ks : list kind) (h : list obs) : Prop := Forall (λ e, obs_kind e ∈ ks) h.

Lemma only_nil ks : only ks [].
Proof. constructor. Qed.
Lemma only_cons ks e h : only ks (e :: h) ↔ obs_kind e ∈ ks ∧ only ks h.
Proof. unfold only. by rewrite Forall_cons. Qed.
Lemma only_app ks h1 h2 : only ks (h1 ++ h2) ↔ only ks h1 ∧ only ks h2.
Proof. unfold only. by rewrite Forall_app. Qed.
Lemma only_sub ks ks' h : only ks h → ks ⊆ ks' → only ks' h.
Proof. unfold only. rewrite !Forall_forall. set_solver. Qed.
Lemma only_not_in ks h e : only ks h → obs_kind e ∉ ks → e ∉ h.
Proof. unfold only. rewrite Forall_forall. auto. Qed.
Lemma only_inner ks h1 e h2 : only ks (h1 ++ e :: h2) → obs_kind e ∉ ks → False.
Proof. rewrite only_app, only_cons. by intros (_ & ? & _). Qed.
Lemma only_metric cs ks : KMetric ∈ ks → only ks (metric_obs cs).
Proof. intros. apply Forall_fmap, Forall_true. intros c. done. Qed.

(** Membership in a literal list of kinds is decided by computation. *)
Ltac kinds := apply (bool_decide_unpack _); vm_compute; exact I.

(** Split a trace into its parts; [L] gives the kinds of the named ones. *)
Ltac solve_only L :=
  repeat (rewrite only_cons || rewrite only_app || apply conj || apply only_nil
          || (apply only_metric; kinds) || (simpl; kinds));
  try (eapply only_sub; [by eapply L | kinds]).

(** A projection of the trace that sees one kind of observations. *)
Lemma omap_only {B} (f : obs → option B) k ks h :
  (∀ e, is_Some (f e) → obs_kind e = k) → only ks h → k ∉ ks → omap f h = [].
Proof.
  intros Hf Ho Hk. induction Ho as [|e h He Ho IH]; [done|]. cbn. rewrite IH.
  destruct (f e) eqn:Ef; [|done]. rewrite (Hf e) in He by eauto. done.
Qed.

Definition handles : list obs → list (payload * res pyval) :=
  omap (λ e, match e with OHandle m r => Some (m, r) | _ => None end).
Definition fails : list obs → list (string * string * Z) :=
  omap (λ e, match e with OFail m x a _ => Some (m, x, a) | _ => None end).
Definition commit_results : list obs → list (res unit) :=
  omap (λ e, match e with OCommit r => Some r | _ => None end).
Definition sleeps : list obs → list Z :=
  omap (λ e, match e with OSleep ms _ => Some ms | _ => None end).
Definition calls : list obs → list metric_call :=
  omap (λ e, match e with OMetric c => Some c | _ => None end).

Lemma handles_app h1 h2 : handles (h1 ++ h2) = handles h1 ++ handles h2.
Proof. apply omap_app. Qed.
Lemma handles_cons m r h : handles (OHandle m r :: h) = (m, r) :: handles h.
Proof. done. Qed.
Lemma fails_app h1 h2 : fails (h1 ++ h2) = fails h1 ++ fails h2.
Proof. apply omap_app. Qed.
Lemma commit_results_app h1 h2 :
  commit_results (h1 ++ h2) = commit_results h1 ++ commit_results h2.
Proof. apply omap_app. Qed.
Lemma sleeps_app h1 h2 : sleeps (h1 ++ h2) = sleeps h1 ++ sleeps h2.
Proof. apply omap_app. Qed.
Lemma calls_app h1 h2 : calls (h1 ++ h2) = calls h1 ++ calls h2.
Proof. apply omap_app. Qed.

Lemma handles_only ks h : only ks h → KHandle ∉ ks → handles h = [].
Proof. apply omap_only. by intros [] [? [=]]. Qed.
Lemma fails_only ks h : only ks h → KFail ∉ ks → fails h = [].
Proof. apply omap_only. by intros [] [? [=]]. Qed.
Lemma commit_results_only ks h : only ks h → KCommit ∉ ks → commit_results h = [].
Proof. apply omap_only. by intros [] [? [=]]. Qed.
Lemma sleeps_only ks h : only ks h → KSleep ∉ ks → sleeps h = [].
Proof. apply omap_only. by intros [] [? [=]]. Qed.

Lemma calls_metric cs : calls (metric_obs cs) = cs.
Proof. induction cs as [|c cs IH]; [done|]. cbn. by rewrite <- IH at 2. Qed.

(** ** The kinds of the parts of a delivery *)
Section Kinds.
Context `{!PyRuntime} `{!JsonCodec} {self : consumer} {record : consumer_record}.

Lemma commits_only h o : commits self h o → only [KCommit] h.
Proof. unfold commits. destruct c_connected; [intros ->|intros [-> _]]; solve_only I. Qed.

Lemma completes_only mid v h o :
  completes self record mid v h o → only [KComplete; KCommit; KMetric] h.
Proof. destruct 1; solve_only commits_only. Qed.

Lemma after_failure_only mid a x h o :
  after_failure self record mid a x h o → only [KFail; KSleep; KClaim; KMetric] h.
Proof. destruct 1; subst; try destruct (truthy_str mid); solve_only I. Qed.

Lemma dead_letters_only last h o :
  dead_letters self record last h o → only [KSend; KCommit; KMetric] h.
Proof. destruct 1; solve_only commits_only. Qed.

Lemma loops_only mid msg n a last h o :
  loops self record mid msg n a last h o →
  only [KHandle; KFail; KSleep; KClaim; KComplete; KCommit; KMetric] h.
Proof.
  induction 1; solve_only completes_only; solve_only after_failure_only; done.
Qed.

End Kinds.

Lemma total_delta_app m ls cs cs' :
  total_delta m ls (cs ++ cs') = (total_delta m ls cs + total_delta m ls cs')%Z.
Proof. unfold total_delta. induction cs as [|c cs IH]; cbn; [done|]. rewrite IH. lia. Qed.

(** The change of a child of a metric over a trace. *)
Definition delta (m : metric) (ls : list string) (h : list obs) : Z := total_delta m ls (calls h).

Lemma delta_app m ls h h' : delta m ls (h ++ h') = (delta m ls h + delta m ls h')%Z.
Proof. unfold delta. by rewrite calls_app, total_delta_app. Qed.

(** One call at a time, compared by its literal labels. *)
Ltac count_labels :=
  unfold delta, calls; cbn; repeat (case_decide; simplify_eq; try congruence); try lia.

(** ** Shapes *)
Section Shapes.
Context `{!PyRuntime} `{!JsonCodec} {self : consumer} {record : consumer_record}.

#[local] Abbreviation topic := (r_topic record).
#[local] Abbreviation cfg := (c_config self).
#[local] Abbreviation loop := (loops self record).

(** A delivery either stops at the claim, or runs [execute_and_commit] between
    the claim and the end of the processing gauge. *)
Lemma delivery_shape h o :
  delivery self record h o →
  only [KClaim; KStatus; KCommit; KMetric] h ∨
  ∃ mid pre body post, extract_message_id record = Ok mid ∧ h = pre ++ body ++ post ∧
    executes self record mid body o ∧ only [KMetric] post ∧ only [KClaim; KMetric] pre ∧
    (∀ m, mid = Some m → pre = [OClaim m (Ok true); OMetric (processing_enter topic)]).
Proof.
  intros D; destruct D as [x He|hb r He Hx|mid x He|mid x He|mid v hb r He Hc|mid hb r He Hx];
    try (left; solve_only @commits_only; fail).
  - right. exists None, (metric_obs (record_no_message_id topic)), hb, [].
    rewrite app_nil_r. split_and!; [done..|by constructor| |done]. solve_only I.
  - right. exists (Some mid), [OClaim mid (Ok true); OMetric (processing_enter topic)], hb,
      [OMetric (processing_exit topic)].
    split_and!; [done..|solve_only I|solve_only I|naive_solver].
Qed.

(** [execute_and_commit]: the loop, then what is done when it was left. *)
Lemma executes_shape mid h o :
  executes self record mid h o →
  (h = [] ∧ is_ok o = false) ∨
  ∃ msg hl lr tail, parse_payload record = Ok msg ∧ h = hl ++ tail ∧
    loop mid msg (loop_fuel self) 1 None hl lr ∧
    only [KSend; KCommit; KMetric] tail ∧
    match lr with
    | Ok LoopReturned => tail = [] ∧ o = Ok tt
    | Ok (LoopLeft last) => dead_letters self record last tail o
    | Err x => tail = [] ∧ o = Err x
    end.
Proof.
  intros D; destruct D as [x Hp|msg h Hp Hl|msg h x Hp Hl|msg h last h' o Hp Hl Hd]; [by left|..]; right.
  - exists msg, h, (Ok LoopReturned), []. rewrite app_nil_r. split_and!; [done..|by constructor|done|done].
  - exists msg, h, (Err x), []. rewrite app_nil_r. split_and!; [done..|by constructor|done|done].
  - exists msg, h, (Ok (LoopLeft last)), h'. split_and!; [done..|by eapply dead_letters_only|done].
Qed.

(** Both at once, for what concerns handle(). *)
Lemma delivery_loop h o :
  delivery self record h o →
  only [KClaim; KStatus; KCommit; KMetric] h ∨
  ∃ mid msg pre hl lr tail post, extract_message_id record = Ok mid ∧
    parse_payload record = Ok msg ∧ h = pre ++ hl ++ tail ++ post ∧
    loop mid msg (loop_fuel self) 1 None hl lr ∧
    only [KMetric] post ∧ only [KClaim; KMetric] pre ∧
    (∀ m, mid = Some m → pre = [OClaim m (Ok true); OMetric (processing_enter topic)]) ∧
    only [KSend; KCommit; KMetric] tail ∧
    match lr with
    | Ok LoopReturned => tail = [] ∧ o = Ok tt
    | Ok (LoopLeft last) => dead_letters self record last tail o
    | Err x => tail = [] ∧ o = Err x
    end.
Proof.
  intros [Ho|(mid & pre & body & post & He & -> & Hx & Hpost & Hpre & Hm)]%delivery_shape; [by left|].
  destruct (executes_shape _ _ _ Hx) as [[-> _]|(msg & hl & lr & tail & Hp & -> & Hl & Ht & Hlr)].
  - left. solve_only I; (eapply only_sub; [eassumption|kinds]).
  - right. exists mid, msg, pre, hl, lr, tail, post. rewrite <- !app_assoc. by split_and!.
Qed.

(** ** The loop *)

Lemma loop_handles mid msg n a last h o :
  loop mid msg n a last h o →
  length (handles h) ≤ n ∧ ∀ m r, (m, r) ∈ handles h → m = msg.
Proof.
  assert (Hcons : ∀ r (l : list (payload * res pyval)), (∀ m r, (m, r) ∈ l → m = msg) → ∀ m r', (m, r') ∈ (msg, r) :: l → m = msg).
  { intros r l Hl m r' [[= -> ->]|Hin]%elem_of_cons; eauto. }
  assert (Hone : ∀ ks h r n, only ks h → KHandle ∉ ks →
    length (handles (OHandle msg r :: h)) ≤ S n ∧
    ∀ m r', (m, r') ∈ handles (OHandle msg r :: h) → m = msg).
  { intros ks h' r n' Ho Hk. rewrite handles_cons, (handles_only ks) by done.
    split; [cbn; lia|]. by intros m r' [[= -> ->]|?%elem_of_nil]%elem_of_cons. }
  induction 1 as [a last|n a last v h Hc|n a last v h x Hc|n a last x Hx|n a last x h y Hx Ha
                 |n a last x h Hx Ha|n a last x h h' o Hx Ha Hl [IHn IHm]];
    try (eapply Hone;
           [first [by eapply completes_only | by eapply after_failure_only | apply (only_nil [])]
           |kinds]).
  - split; [cbn; lia|by intros m r ?%elem_of_nil].
  - rewrite handles_cons, handles_app. erewrite (handles_only _ h) by (first [by eapply after_failure_only | kinds]).
    split; [cbn; lia|by apply Hcons].
Qed.

(** An observation that no failed attempt makes lies in the rest of the loop. *)
Ltac in_tail h1' Heq :=
  match goal with
  | X : ?h ++ _ = _ ++ _ :: _, Ha : after_failure _ _ _ _ _ ?h _ |- _ =>
      apply app_split_r in X as (h1' & -> & Heq);
        [|eapply only_not_in; [exact (after_failure_only _ _ _ _ _ Ha)|kinds]]
  end.

(** A successful handle() is the last one; what follows is [_complete]. *)
Lemma loop_success mid msg n a last h o h1 m v h2 :
  loop mid msg n a last h o → h = h1 ++ OHandle m (Ok v) :: h2 →
  ∃ r, completes self record mid v h2 r ∧
    o = match r with Ok _ => Ok LoopReturned | Err x => Err x end.
Proof.
  intros Hl. revert h1.
  induction Hl as [a last|n a last v' h Hc|n a last v' h x Hc|n a last x Hx|n a last x h y Hx Ha
                  |n a last x h Hx Ha|n a last x h h' o Hx Ha Hl IH]; intros [|e h1] E; simplify_eq/=.
  - by exists (Ok tt).
  - by apply completes_only, only_inner in Hc; [|kinds].
  - by exists (Err x).
  - by apply completes_only, only_inner in Hc; [|kinds].
  - by destruct h1.
  - by apply after_failure_only, only_inner in Ha; [|kinds].
  - by apply after_failure_only, only_inner in Ha; [|kinds].
  - in_tail h1' E. by eapply IH.
Qed.

(** A handle() that is cancelled ends the loop on the spot. *)
Lemma loop_cancelled mid msg n a last h o h1 m x h2 :
  loop mid msg n a last h o → h = h1 ++ OHandle m (Err x) :: h2 → exn_is_exception x = false →
  h2 = [] ∧ o = Err x.
Proof.
  intros Hl. revert h1.
  induction Hl as [a last|n a last v' h Hc|n a last v' h y Hc|n a last y Hx|n a last y h z Hx Ha
                  |n a last y h Hx Ha|n a last y h h' o Hx Ha Hl IH];
    intros [|e h1] E Hn; simplify_eq/=; try congruence; try done.
  - by apply completes_only, only_inner in Hc; [|kinds].
  - by apply completes_only, only_inner in Hc; [|kinds].
  - by destruct h1.
  - by apply after_failure_only, only_inner in Ha; [|kinds].
  - by apply after_failure_only, only_inner in Ha; [|kinds].
  - in_tail h1' E. by eapply IH.
Qed.

(** The loop counts up to [max_retries]: [n] iterations are left at attempt [a]. *)
Definition counted_up (n : nat) (a : Z) : Prop :=
  n = O ∨ (Z.of_nat n + a = max_retries cfg + 1)%Z.

Lemma counted_up_start : counted_up (loop_fuel self) 1.
Proof. unfold counted_up, loop_fuel. lia. Qed.

Lemma counted_up_next n a : counted_up (S n) a → counted_up n (a + 1).
Proof. unfold counted_up. lia. Qed.

Lemma loop_exhausted mid msg a last h o :
  loop mid msg 0 a last h o → h = [] ∧ o = Ok (LoopLeft last).
Proof. by inversion 1. Qed.

(** Before each later attempt the message is claimed again. *)
Lemma loop_licensed mid k msg n a last h o h1 m r h2 :
  truthy_str mid = Some k → counted_up n a →
  loop mid msg n a last h o → h = h1 ++ OHandle m r :: h2 →
  h1 = [] ∨ ∃ h0 h', h1 = h0 ++ OClaim k (Ok true) :: h' ∧ only [KMetric] h'.
Proof.
  intros Hk Hn Hl. revert h1 Hn.
  induction Hl as [a last|n a last v' h Hc|n a last v' h y Hc|n a last y Hx|n a last y h z Hx Ha
                  |n a last y h Hx Ha|n a last y h h' o Hx Ha Hl IH];
    intros [|e h1] Hn E; simplify_eq/=; try (by left); right.
  - by apply completes_only, only_inner in Hc; [|kinds].
  - by apply completes_only, only_inner in Hc; [|kinds].
  - by destruct h1.
  - by apply after_failure_only, only_inner in Ha; [|kinds].
  - by apply after_failure_only, only_inner in Ha; [|kinds].
  - in_tail h1' E.
    destruct (IH h1' (counted_up_next _ _ Hn) E) as [->|(h0 & h'' & -> & Ho)].
    2:{ exists (OHandle msg (Err y) :: h ++ h0), h''. simpl. by rewrite <- app_assoc. }
    inversion Ha as [|marks Hge|  |Hlt Hnone|k' r' Hlt Hk']; subst.
    + assert (n = 0) as -> by (unfold counted_up in Hn; lia).
      by apply loop_exhausted in Hl as [? _]; simplify_eq.
    + congruence.
    + assert (k' = k) as -> by congruence.
      exists (OHandle msg (Err y) :: metric_obs (record_error topic (exn_type y)) ++
        [OFail k (exn_str y) a (Ok tt); OSleep (retry_backoff_ms cfg * a) (Ok tt)] ++
        metric_obs (record_retry topic)), [].
      split; [|constructor]. by rewrite app_nil_r.
Qed.

Lemma after_failure_sleeps mid a x h o :
  after_failure self record mid a x h o →
  sleeps h = [] ∧ (∀ b, o = Ok b → (max_retries cfg ≤ a)%Z) ∨
  (a < max_retries cfg)%Z ∧ sleeps h = [retry_backoff_ms cfg * a]%Z.
Proof. destruct 1; subst; try destruct (truthy_str mid); naive_solver. Qed.

(** The waits grow linearly, and there is none after the last attempt. *)
Lemma loop_sleeps mid msg n a last h o :
  counted_up n a → loop mid msg n a last h o →
  ∃ k : nat, (k ≤ pred n)%nat ∧ sleeps h = Z.mul (retry_backoff_ms cfg) <$> seqZ a (Z.of_nat k).
Proof.
  assert (Hone : ∀ n a h o y r, counted_up (S n) a → after_failure self record mid a y h o →
    ∃ k : nat, (k ≤ n)%nat ∧
      sleeps (OHandle msg r :: h) = Z.mul (retry_backoff_ms cfg) <$> seqZ a (Z.of_nat k)).
  { intros n' a' h' o' y r Hn [[Hs _]|[Hlt Hs]]%after_failure_sleeps.
    - exists 0. split; [lia|exact Hs].
    - exists 1. unfold counted_up in Hn. split; [lia|]. cbn. fold (sleeps h').
      rewrite Hs. done. }
  assert (Hc0 : ∀ v h r, completes self record mid v h r → sleeps h = []).
  { intros v h' r Hc. eapply sleeps_only; [by eapply completes_only|kinds]. }
  intros Hn Hl.
  induction Hl as [a last|n a last v' h Hc|n a last v' h y Hc|n a last y Hx|n a last y h z Hx Ha
                  |n a last y h Hx Ha|n a last y h h' o Hx Ha Hl IH]; [..|].
  1, 4: by exists 0; split; [lia|].
  1, 2: exists 0; split; [lia|]; exact (Hc0 _ _ _ Hc).
  1, 2: by eapply Hone.
  destruct (IH (counted_up_next _ _ Hn)) as (k & Hk & Hs).
  change (sleeps (?e :: ?t)) with (sleeps t). rewrite sleeps_app, Hs.
  destruct (after_failure_sleeps _ _ _ _ _ Ha) as [[Hh Hb]|[Hlt Hh]]; rewrite Hh.
  - assert (n = 0) as -> by (specialize (Hb _ eq_refl); unfold counted_up in Hn; lia).
    exists k. split; [lia|]. by assert (k = 0) as -> by lia.
  - unfold counted_up in Hn. exists (S k). split; [lia|].
    rewrite (seqZ_cons _ (Z.of_nat (S k))) by lia.
    by replace (Z.pred (Z.of_nat (S k))) with (Z.of_nat k) by lia.
Qed.

(** Every failure of handle() is marked, with its number and its text. *)
Definition handler_errors : list obs → list exn :=
  omap (λ e, match e with
             | OHandle _ (Err x) => if exn_is_exception x then Some x else None
             | _ => None
             end).

Lemma loop_fails mid k msg n a last h o :
  truthy_str mid = Some k → loop mid msg n a last h o →
  fails h = imap (λ i x, (k, exn_str x, (a + Z.of_nat i)%Z)) (handler_errors h).
Proof.
  assert (He : ∀ ks h, only ks h → KHandle ∉ ks → handler_errors h = []).
  { intros ks h' Ho Hks. eapply (omap_only _ KHandle); [|done..]. by intros [] [? [=]]. }
  intros Hk Hl.
  assert (Hf : ∀ y b h r, after_failure self record mid b y h r →
    fails h = [(k, exn_str y, b)] ∧ handler_errors h = []).
  { intros y b h' r Ha. split.
    - destruct Ha; subst; rewrite ?Hk in *; simplify_eq; done.
    - eapply He; [by eapply after_failure_only|kinds]. }
  assert (Hc0 : ∀ v h r, completes self record mid v h r → fails h = [] ∧ handler_errors h = []).
  { intros v h' r Hc. apply completes_only in Hc.
    split; [eapply fails_only|eapply He]; (exact Hc || kinds). }
  assert (Hb : ∀ y b, (k, exn_str y, b) = (k, exn_str y, (b + Z.of_nat 0)%Z)).
  { intros y b. do 2 f_equal. lia. }
  induction Hl as [a last|n a last v' h Hc|n a last v' h y Hc|n a last y Hx|n a last y h z Hx Ha
                  |n a last y h Hx Ha|n a last y h h' o Hx Ha Hl IH]; [done|..];
    try (destruct (Hc0 _ _ _ Hc) as [Hh Hh']); try (destruct (Hf _ _ _ _ Ha) as [Hh Hh']);
    unfold fails, handler_errors in *; cbn; rewrite ?Hx; rewrite ?omap_app, ?Hh, ?Hh'; try done.
  1, 2: cbn; by rewrite Hb.
  cbn. rewrite IH, Hb. f_equal. apply imap_ext. intros i x _. cbn. f_equal. lia.
Qed.

(** When a later claim is refused, the loop is left at once. *)
Lemma loop_claim_refused mid msg n a last h o h1 k h2 :
  loop mid msg n a last h o → h = h1 ++ OClaim k (Ok false) :: h2 →
  h2 = [] ∧ ∃ x, o = Ok (LoopLeft (Some x)).
Proof.
  assert (Ha : ∀ y b g r g1 g2, after_failure self record mid b y g r →
    g = g1 ++ OClaim k (Ok false) :: g2 → g2 = [] ∧ r = Ok false).
  { intros y b g r g1 g2 Hf E.
    assert (Hno : ∀ l, only [KFail; KSleep; KMetric] l → l ≠ g1 ++ OClaim k (Ok false) :: g2).
    { intros l Ho ->. eapply only_inner; [exact Ho|kinds]. }
    destruct Hf as [m y' Hm|marks Hge ->|marks y' Hlt ->|Hlt Hm|m r Hlt Hm].
    1-4: exfalso; eapply Hno; [|exact E]; try destruct (truthy_str mid); solve_only I.
    rewrite !app_assoc in E. apply app_split_r in E as (l & -> & E);
      [|eapply (only_not_in [KFail; KSleep; KMetric]); [solve_only I|kinds]].
    destruct l as [|? [|]]; by simplify_eq/=. }
  intros Hl. revert h1.
  induction Hl as [a last|n a last v' h Hc|n a last v' h y Hc|n a last y Hx|n a last y h z Hx Hf
                  |n a last y h Hx Hf|n a last y h h' o Hx Hf Hl IH];
    intros [|e h1] E; simplify_eq/=.
  - by apply completes_only, only_inner in Hc; [|kinds].
  - by apply completes_only, only_inner in Hc; [|kinds].
  - by destruct h1.
  - by destruct (Ha _ _ _ _ _ _ Hf eq_refl).
  - destruct (Ha _ _ _ _ _ _ Hf eq_refl) as [-> _]. eauto.
  - match goal with E : _ ++ _ = _ ++ _ :: _ |- _ => apply app_split_r in E as (h1' & -> & E') end.
    + by eapply IH.
    + intros (g1 & g2 & ->)%list_elem_of_split. by destruct (Ha _ _ _ _ _ _ Hf eq_refl).
Qed.

(** ** Commits *)

Lemma commits_inner h o h1 r h2 :
  commits self h o → h = h1 ++ OCommit r :: h2 → h1 = [] ∧ h2 = [].
Proof.
  unfold commits. destruct c_connected; [intros -> E|intros [-> _] E].
  - destruct h1 as [|? [|]]; by simplify_eq/=.
  - by destruct h1.
Qed.

(** A commit with only metrics behind it. *)
Lemma commits_metrics h o cs h1 r h2 :
  commits self h o → h ++ metric_obs cs = h1 ++ OCommit r :: h2 → h1 = [] ∧ only [KMetric] h2.
Proof.
  intros Hc E. apply app_split_l in E as (k & -> & E);
    [|eapply (only_not_in [KMetric]); [by apply only_metric; kinds|kinds]].
  destruct (commits_inner _ _ _ _ _ Hc E) as [-> ->]. split; [done|]. solve_only I.
Qed.

Lemma completes_commit mid v h o h1 r h2 :
  completes self record mid v h o → h = h1 ++ OCommit r :: h2 → only [KMetric] h2.
Proof.
  assert (Hm : ∀ h' o', commits self h' o' → h' = h1 ++ OCommit r :: h2 → only [KMetric] h2).
  { intros h' o' Hc E. destruct (commits_inner _ _ _ _ _ Hc E) as [_ ->]. apply only_nil. }
  assert (Hin : ∀ l h' , only [KComplete; KMetric] l → l ++ h' = h1 ++ OCommit r :: h2 →
    ∃ k, h' = k ++ OCommit r :: h2).
  { intros l h' Ho E. apply app_split_r in E as (k & _ & ->); [eauto|].
    eapply only_not_in; [exact Ho|kinds]. }
  destruct 1 as [hc o' _ Hc ->|hc x _ Hc|m hc o' _ Hc ->|m hc x _ Hc|m y hc o' _ _ Hc ->
                |m y hc x _ _ Hc|m y _ _]; intros E.
  - by destruct (commits_metrics _ _ _ _ _ _ Hc E).
  - by eapply Hm.
  - apply (Hin [_]) in E as [k E]; [|solve_only I]. by destruct (commits_metrics _ _ _ _ _ _ Hc E).
  - apply (Hin [_]) in E as [k E]; [|solve_only I].
    destruct (commits_inner _ _ _ _ _ Hc E) as [_ ->]. apply only_nil.
  - rewrite app_comm_cons in E. apply Hin in E as [k E]; [|solve_only I].
    by destruct (commits_metrics _ _ _ _ _ _ Hc E).
  - rewrite app_comm_cons in E. apply Hin in E as [k E]; [|solve_only I].
    destruct (commits_inner _ _ _ _ _ Hc E) as [_ ->]. apply only_nil.
  - by destruct h1 as [|? [|]].
Qed.

(** In the loop a commit follows the successful attempt. *)
Lemma loop_commit mid msg n a last h o h1 r h2 :
  loop mid msg n a last h o → h = h1 ++ OCommit r :: h2 →
  only [KMetric] h2 ∧ ∃ v, OHandle msg (Ok v) ∈ h1.
Proof.
  intros Hl. revert h1.
  induction Hl as [a last|n a last v' h Hc|n a last v' h y Hc|n a last y Hx|n a last y h z Hx Ha
                  |n a last y h Hx Ha|n a last y h h' o Hx Ha Hl IH];
    intros [|e h1] E; simplify_eq/=.
  1, 2: split; [by eapply completes_commit|exists v'; by left].
  - by destruct h1.
  - by apply after_failure_only, only_inner in Ha; [|kinds].
  - by apply after_failure_only, only_inner in Ha; [|kinds].
  - in_tail h1' E. destruct (IH h1' E) as [Ho [v Hv]]. split; [done|].
    exists v. right. apply elem_of_app. by right.
Qed.

(** What was committed, against the outcome. *)
Definition committed_as (h : list obs) {A} (o : res A) : Prop :=
  match o with
  | Ok _ => commit_results h = if c_connected self then [Ok tt] else []
  | Err x => commit_results h = [] ∨ commit_results h = [Err x]
  end.

Lemma commits_committed h o : commits self h o → committed_as h o.
Proof.
  unfold commits, committed_as. destruct c_connected; [intros ->|intros [-> ->]; done].
  destruct o as [[]|x]; [done|by right].
Qed.

Lemma committed_app l h l' {A} (o : res A) :
  committed_as h o → only [KComplete; KHandle; KClaim; KStatus; KFail; KSleep; KSend; KMetric] l →
  only [KMetric] l' → committed_as (l ++ h ++ l') o.
Proof.
  intros Hc Ho Ho'. unfold committed_as. rewrite !commit_results_app.
  rewrite (commit_results_only _ l), (commit_results_only _ l') by (eassumption || kinds).
  by rewrite app_nil_r.
Qed.

Lemma completes_committed mid v h o : completes self record mid v h o → committed_as h o.
Proof.
  destruct 1 as [hc o' _ Hc ->|hc x _ Hc|m hc o' _ Hc ->|m hc x _ Hc|m y hc o' _ _ Hc ->
                |m y hc x _ _ Hc|m y _ _]; try apply commits_committed in Hc.
  - apply (committed_app []); [done|solve_only I..].
  - done.
  - apply (committed_app [_]); [done|solve_only I..].
  - rewrite <- (app_nil_r hc). apply (committed_app [_]); [done|solve_only I..].
  - rewrite app_comm_cons. apply committed_app; [done|solve_only I..].
  - rewrite <- (app_nil_r hc), app_comm_cons. apply committed_app; [done|solve_only I..].
  - by left.
Qed.

Lemma loop_committed mid msg n a last h o :
  loop mid msg n a last h o →
  match o with
  | Ok LoopReturned => committed_as h (Ok tt)
  | Ok (LoopLeft _) => commit_results h = []
  | Err x => committed_as h (@Err unit x)
  end.
Proof.
  assert (Hf : ∀ b y h r, after_failure self record mid b y h r → commit_results h = []).
  { intros b y h' r Ha. eapply commit_results_only; [by eapply after_failure_only|kinds]. }
  induction 1 as [a last|n a last v' h Hc|n a last v' h y Hc|n a last y Hx|n a last y h z Hx Ha
                  |n a last y h Hx Ha|n a last y h h' o Hx Ha Hl IH].
  1: done.
  1, 2: apply completes_committed in Hc; exact Hc.
  1: by left.
  1: left; exact (Hf _ _ _ _ Ha).
  1: exact (Hf _ _ _ _ Ha).
  assert (commit_results (OHandle msg (Err y) :: h ++ h') = commit_results h') as E.
  { change (commit_results (?e :: ?t)) with (commit_results t).
    by rewrite commit_results_app, (Hf _ _ _ _ Ha). }
  unfold committed_as in *. rewrite !E. exact IH.
Qed.

Lemma dead_letters_committed last h o : dead_letters self record last h o → committed_as h o.
Proof.
  destruct 1 as [hc o' _ Hc|t y _ _|t hc o' _ _ Hc]; try apply commits_committed in Hc.
  - rewrite <- (app_nil_r hc). apply committed_app; [done|solve_only I..].
  - by left.
  - rewrite cons_middle, app_assoc, <- (app_nil_r hc). apply committed_app; [done|solve_only I..].
Qed.


Lemma executes_committed mid h o : executes self record mid h o → committed_as h o.
Proof.
  intros [[-> Ho]|(msg & hl & lr & tail & _ & -> & Hl & _ & Hlr)]%executes_shape.
  { destruct o; [done|by left]. }
  apply loop_committed in Hl.
  destruct lr as [[|last]|x]; [destruct Hlr as [-> ->]| |destruct Hlr as [-> ->]];
    rewrite ?app_nil_r; try done.
  apply dead_letters_committed in Hlr. unfold committed_as in *.
  by rewrite commit_results_app, Hl.
Qed.

(** ** Dead letters *)

Lemma handler_errors_app h1 h2 :
  handler_errors (h1 ++ h2) = handler_errors h1 ++ handler_errors h2.
Proof. apply omap_app. Qed.

Lemma handler_errors_only ks h : only ks h → KHandle ∉ ks → handler_errors h = [].
Proof. apply omap_only. by intros [] [? [=]]. Qed.

(** A loop that was left never had a successful attempt, and the error it ends
    with is that of the last one. *)
Lemma loop_left mid msg n a last h last' :
  loop mid msg n a last h (Ok (LoopLeft last')) →
  (∀ m v, OHandle m (Ok v) ∉ h) ∧
  last' = match list.last (handler_errors h) with Some x => Some x | None => last end.
Proof.
  assert (Hf : ∀ b y h r, after_failure self record mid b y h r →
    (∀ m v, OHandle m (Ok v) ∉ h) ∧ handler_errors h = []).
  { intros b y h' r Ha%after_failure_only. split; [|eapply handler_errors_only; [exact Ha|kinds]].
    intros m v. eapply only_not_in; [exact Ha|kinds]. }
  remember (Ok (LoopLeft last')) as o eqn:Eo. intros Hl. revert Eo.
  induction Hl as [a last|n a last v' h Hc|n a last v' h y Hc|n a last y Hx|n a last y h z Hx Ha
                  |n a last y h Hx Ha|n a last y h h' o Hx Ha Hl IH]; intros Eo; simplify_eq.
  - split; [by intros m v ?%elem_of_nil|done].
  - destruct (Hf _ _ _ _ Ha) as [Hn He].
    split; [by intros m v [[=]|[]%Hn]%elem_of_cons|].
    unfold handler_errors in *. cbn. by rewrite Hx, He.
  - destruct (Hf _ _ _ _ Ha) as [Hn He], (IH eq_refl) as [Hn' ->].
    split; [by intros m v [[=]|[[]%Hn|[]%Hn']%elem_of_app]%elem_of_cons|].
    assert (handler_errors (OHandle msg (Err y) :: h ++ h') = y :: handler_errors (h ++ h')) as ->
      by (unfold handler_errors; cbn; by rewrite Hx).
    rewrite handler_errors_app, He. cbn [app].
    rewrite last_cons. by destruct (list.last (handler_errors h')).
Qed.

Lemma dead_letters_send last h o h1 t v k r h2 :
  dead_letters self record last h o → h = h1 ++ OSend t v k r :: h2 →
  truthy_str (c_dlq_topic self) = Some t ∧ k = r_key record ∧
  v = json_dumps (dlq_payload record (str_exc last)) ∧ only [KMetric] h1 ∧ only [KCommit; KMetric] h2.
Proof.
  assert (Hm : OSend t v k r ∉ metric_obs (record_dlq topic)).
  { eapply (only_not_in [KMetric]); [solve_only I|kinds]. }
  destruct 1 as [hc o' _ Hc|t' y _ Ht|t' hc o' _ Ht Hc]; intros E;
    (apply app_split_r in E as (h' & -> & E); [|done]).
  - exfalso. subst hc. apply commits_only, only_inner in Hc; [done|kinds].
  - destruct h' as [|? [|]]; simplify_eq/=. split_and!; [done..|solve_only I|apply only_nil].
  - destruct h' as [|e h']; simplify_eq/=.
    + split_and!; [done..|solve_only I|]. eapply only_sub; [by eapply commits_only|kinds].
    + apply commits_only, only_inner in Hc; [done|kinds].
Qed.

(** What has happened to a message before its commit. *)
Definition settled_by (h : list obs) : Prop :=
  (∃ m v, OHandle m (Ok v) ∈ h) ∨
  (OMetric (MInc dlq_messages_total [topic]) ∈ h ∧
   ∀ t, c_dlq_producer self = true → truthy_str (c_dlq_topic self) = Some t →
     ∃ v, OSend t v (r_key record) (Ok tt) ∈ h).

Lemma settled_by_app l h : settled_by h → settled_by (l ++ h).
Proof.
  intros [(m & v & Hin)|[Hin Ht]]; [left; exists m, v; apply elem_of_app; auto|right].
  split; [apply elem_of_app; auto|]. intros t Hp Hd. destruct (Ht t Hp Hd) as [v Hv].
  exists v. apply elem_of_app; auto.
Qed.

Lemma dead_letters_commit last h o h1 r h2 :
  dead_letters self record last h o → h = h1 ++ OCommit r :: h2 → h2 = [] ∧ settled_by h1.
Proof.
  assert (Hm : ∀ l, only [KMetric; KSend] l → OCommit r ∉ l).
  { intros l Ho. eapply only_not_in; [exact Ho|kinds]. }
  destruct 1 as [hc o' Hn Hc|t' y _ Ht|t' hc o' _ Ht Hc]; intros E.
  - apply app_split_r in E as (h' & -> & E); [|apply Hm; solve_only I].
    destruct (commits_inner _ _ _ _ _ Hc E) as [-> ->]. split; [done|right].
    split; [right; left|]. intros t Hp Hd. destruct Hn; congruence.
  - exfalso. apply (only_inner [KMetric; KSend] h1 (OCommit r) h2); [rewrite <- E; solve_only I|kinds].
  - rewrite cons_middle, app_assoc in E.
    apply app_split_r in E as (h' & -> & E); [|apply Hm; solve_only I].
    destruct (commits_inner _ _ _ _ _ Hc E) as [-> ->]. split; [done|right].
    split; [right; left|]. intros t Hp Hd. simplify_eq. eexists. right; right; left.
Qed.

Lemma executes_commit mid h o h1 r h2 :
  executes self record mid h o → h = h1 ++ OCommit r :: h2 → only [KMetric] h2 ∧ settled_by h1.
Proof.
  intros Hx E. apply executes_shape in Hx
    as [[-> _]|(msg & hl & lr & tail & _ & -> & Hl & Ht & Hlr)]; [by destruct h1|].
  assert (Hhl : tail = [] → only [KMetric] h2 ∧ settled_by h1).
  { intros ->. rewrite app_nil_r in E. destruct (loop_commit _ _ _ _ _ _ _ _ _ _ Hl E) as [Ho [v Hv]].
    split; [done|]. left. eauto. }
  destruct lr as [[|last]|x]; [by apply Hhl; destruct Hlr| |by apply Hhl; destruct Hlr].
  apply app_split_r in E as (h' & -> & E).
  - destruct (dead_letters_commit _ _ _ _ _ _ Hlr E) as [-> Hs].
    split; [apply only_nil|by apply settled_by_app].
  - apply loop_committed in Hl. intros (l1 & l2 & ->)%list_elem_of_split.
    by rewrite commit_results_app in Hl; apply app_nil in Hl as [_ [=]].
Qed.

(** ** Metrics *)

(** The ways in which a message is settled, as counted in [messages_total]. *)
Definition settled (h : list obs) : Z :=
  delta messages_total [topic; "processed"%string] h +
  delta messages_total [topic; "duplicate"%string] h +
  delta messages_total [topic; "claim_lost"%string] h +
  delta messages_total [topic; "dlq"%string] h.

Lemma settled_app h h' : settled (h ++ h') = (settled h + settled h')%Z.
Proof. unfold settled. rewrite !delta_app. lia. Qed.

Lemma settled_only ks h : only ks h → KMetric ∉ ks → settled h = 0%Z.
Proof.
  intros Ho Hk. unfold settled, delta, calls.
  erewrite (omap_only _ KMetric) by (eassumption || by intros [] [? [=]]). done.
Qed.

Lemma settled_error x : settled (metric_obs (record_error topic x)) = 0%Z.
Proof. (unfold settled; count_labels). Qed.
Lemma settled_retry : settled (metric_obs (record_retry topic)) = 0%Z.
Proof. (unfold settled; count_labels). Qed.
Lemma settled_processed : settled (metric_obs (record_processed topic)) = 1%Z.
Proof. (unfold settled; count_labels). Qed.
Lemma settled_dlq : settled (metric_obs (record_dlq topic)) = 1%Z.
Proof. (unfold settled; count_labels). Qed.
Lemma settled_lost v : settled (metric_obs (lost_metric record v)) = 1%Z.
Proof. unfold lost_metric. destruct v; [case_decide|]; (unfold settled; count_labels). Qed.
Lemma settled_processing h :
  settled (OMetric (processing_enter topic) :: h ++ [OMetric (processing_exit topic)]) = settled h.
Proof.
  change (?e :: h ++ ?l) with ([e] ++ h ++ l). rewrite !settled_app.
  assert (settled [OMetric (processing_enter topic)] = 0%Z ∧
          settled [OMetric (processing_exit topic)] = 0%Z) as [-> ->] by (split; (unfold settled; count_labels)).
  lia.
Qed.
Lemma settled_no_id : settled (metric_obs (record_no_message_id topic)) = 0%Z.
Proof. (unfold settled; count_labels). Qed.


(** A quantity that adds up over the trace, counts nothing but metrics, and
    ignores errors and retries, is decided by how the delivery ends. *)
Record weight (w : list obs → Z) (processed dlq : Z) : Prop := {
  w_app : ∀ h h', w (h ++ h') = (w h + w h')%Z;
  w_only : ∀ ks h, only ks h → KMetric ∉ ks → w h = 0%Z;
  w_error : ∀ x, w (metric_obs (record_error topic x)) = 0%Z;
  w_retry : w (metric_obs (record_retry topic)) = 0%Z;
  w_processed : w (metric_obs (record_processed topic)) = processed;
  w_dlq : w (metric_obs (record_dlq topic)) = dlq;
}.

Lemma settled_weight : weight settled 1 1.
Proof.
  split; [apply settled_app|apply settled_only|apply settled_error|apply settled_retry
         |apply settled_processed|apply settled_dlq].
Qed.

Lemma gauge_weight : weight (delta active_processing [topic]) 0 0.
Proof.
  split; [apply delta_app| |intros..|idtac|idtac|idtac]; try count_labels.
  intros ks h Ho Hk. unfold delta, calls.
  erewrite (omap_only _ KMetric) by (eassumption || by intros [] [? [=]]). done.
Qed.

Lemma gauge_processing h :
  delta active_processing [topic]
    (OMetric (processing_enter topic) :: h ++ [OMetric (processing_exit topic)]) =
  delta active_processing [topic] h.
Proof.
  change (?e :: h ++ ?l) with ([e] ++ h ++ l). rewrite !delta_app.
  assert (delta active_processing [topic] [OMetric (processing_enter topic)] = 1%Z ∧
          delta active_processing [topic] [OMetric (processing_exit topic)] = (-1)%Z)
    as [-> ->] by (split; count_labels).
  lia.
Qed.

Section Weight.
Context {w : list obs → Z} {p d : Z} (Hw : weight w p d).

Lemma weight_none ks h : only ks h → KMetric ∉ ks → w h = 0%Z.
Proof. apply (w_only _ _ _ Hw). Qed.

Lemma weight_cons e h : obs_kind e ≠ KMetric → w (e :: h) = w h.
Proof.
  intros He. change (e :: h) with ([e] ++ h). rewrite (w_app _ _ _ Hw).
  rewrite (weight_none [obs_kind e] [e]); [done|by repeat constructor|].
  by intros ?%list_elem_of_singleton.
Qed.

Lemma weight_commits h o : commits self h o → w h = 0%Z.
Proof. intros Hc. eapply weight_none; [by eapply commits_only|kinds]. Qed.

Ltac weigh :=
  repeat first [ rewrite (w_app _ _ _ Hw) | rewrite (w_error _ _ _ Hw) | rewrite (w_retry _ _ _ Hw)
    | rewrite (w_processed _ _ _ Hw) | rewrite (w_dlq _ _ _ Hw)
    | match goal with |- context [w (?e :: ?h)] => rewrite (weight_cons e h) by done end ].

Lemma weight_completes mid v h o :
  completes self record mid v h o → w h = if is_ok o then p else 0%Z.
Proof.
  destruct 1 as [hc o' _ Hc ->|hc x _ Hc|m hc o' _ Hc ->|m hc x _ Hc|m y hc o' _ _ Hc ->
                |m y hc x _ _ Hc|m y _ _]; try apply weight_commits in Hc; weigh; cbn; try lia.
  by apply (weight_none [KComplete]); [solve_only I|kinds].
Qed.

Lemma weight_after_failure mid b y h r : after_failure self record mid b y h r → w h = 0%Z.
Proof.
  assert (Hz : ∀ h', only [KFail; KSleep; KClaim] h' → w h' = 0%Z).
  { intros h' Ho. eapply weight_none; [exact Ho|kinds]. }
  destruct 1; subst; weigh; try destruct (truthy_str mid); weigh;
    rewrite ?Hz by solve_only I; lia.
Qed.

Lemma weight_loop mid msg n a last h o :
  loop mid msg n a last h o → w h = match o with Ok LoopReturned => p | _ => 0%Z end.
Proof.
  induction 1 as [a last|n a last v' h Hc|n a last v' h y Hc|n a last y Hx|n a last y h z Hx Ha
                  |n a last y h Hx Ha|n a last y h h' o Hx Ha Hl IH]; weigh;
    try (by apply weight_completes in Hc); try apply weight_after_failure in Ha; try done.
  1, 2: by apply (weight_none [] []); [apply only_nil|kinds].
  rewrite Ha, IH. done.
Qed.

Lemma weight_dead_letters last h o : dead_letters self record last h o → w h = d.
Proof.
  destruct 1 as [hc o' _ Hc|t y _ _|t hc o' _ _ Hc]; try apply weight_commits in Hc;
    weigh; try lia.
  rewrite (weight_none [KSend]); [lia|solve_only I|kinds].
Qed.

(** The body of a delivery, by its outcome. *)
Lemma weight_executes mid h o :
  executes self record mid h o →
  (o = Ok tt → w h = p ∨ w h = d) ∧ (w h = 0%Z ∨ w h = p ∨ w h = d).
Proof.
  intros [[-> Ho]|(msg & hl & lr & tail & _ & -> & Hl & _ & Hlr)]%executes_shape.
  { rewrite (weight_none [] []) by (apply only_nil || kinds). split; [by intros ->|by left]. }
  rewrite (w_app _ _ _ Hw), (weight_loop _ _ _ _ _ _ _ Hl).
  destruct lr as [[|last]|x]; [destruct Hlr as [-> ->]| |destruct Hlr as [-> ->]].
  2: rewrite (weight_dead_letters _ _ _ Hlr), Z.add_0_l; auto.
  all: rewrite (weight_none [] []), Z.add_0_r by (apply only_nil || kinds); naive_solver.
Qed.
End Weight.
End Shapes.

Arguments settled_by : clear implicits.
Arguments settled : clear implicits.
