(* ===== verification/ConsumerProps.v ===== *)
(** * Properties of a delivery

    What [process_record] guarantees whatever the store, Kafka and handle()
    answer.  [executed self record h o]: some execution has the trace [h] and
    the outcome [o]. *)

From S2P Require Import Prelude Prog Utf8 PyJson Models StoreEvents Metrics.
From S2P Require Import Consumer ConsumerSpec ConsumerShapes.

Section Props.
Context `{!PyRuntime} `{!JsonCodec}.

Definition executed (self : consumer) (record : consumer_record) (h : list obs) (o : res unit)
    : Prop :=
  ∃ tr, path (@allowed) (process_record self record) tr o ∧ h = trace_of tr.

Lemma executed_delivery self record h o : executed self record h o → delivery self record h o.
Proof. intros (tr & Hp & ->). by apply process_record_delivery. Qed.

(** Where an observation that only the loop makes lies in the trace. *)
Lemma in_loop {pre hl tail post h1 h2 : list obs} {e} :
  pre ++ hl ++ tail ++ post = h1 ++ e :: h2 →
  e ∉ pre → e ∉ tail → e ∉ post →
  ∃ k1 k2, h1 = pre ++ k1 ∧ hl = k1 ++ e :: k2 ∧ h2 = k2 ++ tail ++ post.
Proof.
  intros E Hpre Htail Hpost.
  apply app_split_r in E as (k1 & -> & E); [|done].
  apply app_split_l in E as (k2 & -> & ->); [by exists k1, k2|].
  by intros [?|?]%elem_of_app.
Qed.

(** C19: handle() runs at most [max_retries] times per delivery, always on the
    message's payload. *)
Theorem attempts_bounded self record h o :
  executed self record h o →
  length (handles h) ≤ Z.to_nat (max_retries (c_config self)) ∧
  ∀ m r, (m, r) ∈ handles h → parse_payload record = Ok m.
Proof.
  intros [Ho|(mid & msg & pre & hl & lr & tail & post & _ & Hp & -> & Hl & Hpost & Hpre & _ & Ht & _)]
    %executed_delivery%delivery_loop.
  { erewrite handles_only by (exact Ho || kinds). split; [cbn; lia|]. by intros m r ?%elem_of_nil. }
  rewrite !handles_app, (handles_only _ pre), (handles_only _ tail), (handles_only _ post)
    by (eassumption || kinds).
  rewrite !app_nil_r, app_nil_l. destruct (loop_handles _ _ _ _ _ _ _ Hl) as [Hn Hm].
  split; [exact Hn|]. by intros m r ->%Hm.
Qed.

(** Each attempt stands on a claim of its own. *)
Lemma executed_licensed self record h o mid h1 m r h2 :
  executed self record h o →
  extract_message_id record = Ok (Some mid) → mid ≠ ""%string →
  h = h1 ++ OHandle m r :: h2 →
  ∃ h0 h', h1 = h0 ++ OClaim mid (Ok true) :: h' ∧ only [KMetric] h'.
Proof.
  intros Hx He Hmid E.
  apply executed_delivery, delivery_loop in Hx
    as [Ho|(mid' & msg & pre & hl & lr & tail & post & He' & _ & -> & Hl & Hpost & Hpre & Hm & Ht & _)].
  { subst. apply only_inner in Ho; [done|kinds]. }
  assert (mid' = Some mid) as -> by congruence. specialize (Hm _ eq_refl).
  apply in_loop in E as (k1 & k2 & -> & E & _);
    [|eapply only_not_in; [eassumption|kinds]..].
  destruct (loop_licensed (Some mid) mid _ _ _ _ _ _ _ _ _ _
    ltac:(unfold truthy_str; by rewrite decide_False) counted_up_start Hl E) as [->|(h0 & h' & -> & Ho)].
  - exists [], [OMetric (processing_enter (r_topic record))]. rewrite Hm. split; [done|solve_only I].
  - exists (pre ++ h0), h'. by rewrite <- app_assoc.
Qed.

(** C11: every attempt at a message with an id is licensed: between the latest
    successful claim of the id and the attempt nothing but metrics happens. *)
Theorem attempt_licensed self record h o mid h1 m r h2 :
  executed self record h o →
  extract_message_id record = Ok (Some mid) → mid ≠ ""%string →
  h = h1 ++ OHandle m r :: h2 →
  ∃ h0 h', h1 = h0 ++ OClaim mid (Ok true) :: h' ∧ only [KMetric] h'.
Proof. apply executed_licensed. Qed.

(** After a successful handle() the delivery only settles: no further
    attempt, claim, failure mark or dead letter, and the first thing done for a
    message with an id is [mark_completed] with the result. *)
Theorem success_is_final self record h o h1 m v h2 :
  executed self record h o → h = h1 ++ OHandle m (Ok v) :: h2 →
  only [KComplete; KCommit; KMetric] h2 ∧
  (∀ mid, extract_message_id record = Ok (Some mid) → mid ≠ ""%string →
    ∃ r h', h2 = OComplete mid v r :: h').
Proof.
  intros Hx E.
  apply executed_delivery, delivery_loop in Hx
    as [Ho|(mid & msg & pre & hl & lr & tail & post & He & _ & -> & Hl & Hpost & Hpre & _ & Ht & Hlr)].
  { subst. apply only_inner in Ho; [done|kinds]. }
  apply in_loop in E as (k1 & k2 & _ & E & ->);
    [|eapply only_not_in; [eassumption|kinds]..].
  destruct (loop_success _ _ _ _ _ _ _ _ _ _ _ Hl E) as (r & Hc & ->).
  assert (tail = []) as -> by (destruct r; by destruct Hlr).
  split.
  - solve_only @completes_only. eapply only_sub; [exact Hpost|kinds].
  - intros k Hk Hne. assert (mid = Some k) as -> by congruence.
    assert (Hk' : truthy_str (Some k) = Some k) by (unfold truthy_str; by rewrite decide_False).
    destruct Hc; rewrite Hk' in *; simplify_eq; simpl; eauto.
Qed.

(** Cancelling handle() (an exception outside [Exception]) ends the
    delivery there and then: it is neither marked, nor dead-lettered, nor
    committed, and the cancellation propagates. *)
Theorem cancellation_propagates self record h o h1 m x h2 :
  executed self record h o → h = h1 ++ OHandle m (Err x) :: h2 → exn_is_exception x = false →
  only [KMetric] h2 ∧ o = Err x.
Proof.
  intros Hx E Hn.
  apply executed_delivery, delivery_loop in Hx
    as [Ho|(mid & msg & pre & hl & lr & tail & post & He & _ & -> & Hl & Hpost & Hpre & _ & Ht & Hlr)].
  { subst. apply only_inner in Ho; [done|kinds]. }
  apply in_loop in E as (k1 & k2 & _ & E & ->);
    [|eapply only_not_in; [eassumption|kinds]..].
  destruct (loop_cancelled _ _ _ _ _ _ _ _ _ _ _ Hl E Hn) as [-> ->].
  by destruct Hlr as [-> ->].
Qed.

(** The waits between attempts are [b], [2b], [3b], ... milliseconds, at
    most one fewer than the attempts allowed. *)
Theorem backoff_linear self record h o :
  executed self record h o →
  ∃ k : nat, (k ≤ pred (Z.to_nat (max_retries (c_config self))))%nat ∧
    sleeps h = Z.mul (retry_backoff_ms (c_config self)) <$> seqZ 1 (Z.of_nat k).
Proof.
  intros [Ho|(mid & msg & pre & hl & lr & tail & post & _ & Hp & -> & Hl & Hpost & Hpre & _ & Ht & _)]
    %executed_delivery%delivery_loop.
  { exists 0. split; [lia|]. erewrite sleeps_only by (exact Ho || kinds). done. }
  rewrite !sleeps_app, (sleeps_only _ pre), (sleeps_only _ tail), (sleeps_only _ post)
    by (eassumption || kinds).
  rewrite !app_nil_r, app_nil_l. exact (loop_sleeps _ _ _ _ _ _ _ counted_up_start Hl).
Qed.

(** For a message with an id, every failure of handle() is marked with
    [mark_failed] exactly once and in order, with the number of the attempt and
    the text of the exception. *)
Theorem failures_marked self record h o mid :
  executed self record h o →
  extract_message_id record = Ok (Some mid) → mid ≠ ""%string →
  fails h = imap (λ i x, (mid, exn_str x, (1 + Z.of_nat i)%Z)) (handler_errors h).
Proof.
  intros Hx He Hmid.
  apply executed_delivery, delivery_loop in Hx
    as [Ho|(mid' & msg & pre & hl & lr & tail & post & He' & _ & -> & Hl & Hpost & Hpre & _ & Ht & _)].
  { by erewrite fails_only, handler_errors_only by (exact Ho || kinds). }
  assert (mid' = Some mid) as -> by congruence.
  rewrite !fails_app, !handler_errors_app.
  rewrite (fails_only _ pre), (fails_only _ tail), (fails_only _ post) by (eassumption || kinds).
  rewrite (handler_errors_only _ pre), (handler_errors_only _ tail), (handler_errors_only _ post)
    by (eassumption || kinds).
  rewrite !app_nil_r, !app_nil_l. eapply loop_fails; [|exact Hl].
  unfold truthy_str. by rewrite decide_False.
Qed.

(** The offset is committed at most once, and the delivery returns normally
    exactly when the commit succeeded (or there is no Kafka consumer). *)
Theorem commit_decides_outcome self record h o :
  executed self record h o →
  match o with
  | Ok _ => commit_results h = if c_connected self then [Ok tt] else []
  | Err x => commit_results h = [] ∨ commit_results h = [Err x]
  end.
Proof.
  intros Hx. apply executed_delivery in Hx.
  destruct Hx as [x He|hb r He Hb|mid x He|mid x He|mid v hb r He Hc|mid hb r He Hb];
    try (by left).
  - rewrite <- (app_nil_r hb). apply committed_app; [|solve_only I..].
    apply (executes_committed _ _ _ Hb).
  - rewrite !app_comm_cons, <- (app_nil_r hb). apply committed_app; [|solve_only I..].
    by apply commits_committed.
  - rewrite !app_comm_cons. apply (committed_app [_; _]); [|solve_only I..].
    apply (executes_committed _ _ _ Hb).
Qed.

(** C20: an offset is committed only when its message is settled, and after the
    commit only metrics are recorded: handle() succeeded, or the store refused
    the claim, or the message was handed to the dead-letter queue, when one is
    configured. *)
Theorem commit_after_settling self record h o h1 r h2 :
  executed self record h o → h = h1 ++ OCommit r :: h2 →
  only [KMetric] h2 ∧
  ((∃ mid v, [OClaim mid (Ok false); OGetStatus mid (Ok v)] `prefix_of` h1) ∨
   settled_by self record h1).
Proof.
  intros Hx E. apply executed_delivery in Hx.
  destruct Hx as [x He|hb o He Hb|mid x He|mid x He|mid v hb o He Hc|mid hb o He Hb].
  1, 3, 4: exfalso; apply (only_inner [KClaim; KStatus] h1 (OCommit r) h2);
    [rewrite <- E; solve_only I|kinds].
  - apply app_split_r in E as (h' & -> & E); [|eapply (only_not_in [KMetric]); [solve_only I|kinds]].
    destruct (executes_commit _ _ _ _ _ _ Hb E) as [Ho Hs]. split; [done|].
    right. by apply settled_by_app.
  - rewrite 2!app_comm_cons in E.
    apply app_split_r in E as (h' & -> & E);
      [|eapply (only_not_in [KClaim; KStatus; KMetric]); [solve_only I|kinds]].
    destruct (commits_inner _ _ _ _ _ Hc E) as [-> ->]. split; [apply only_nil|].
    left. exists mid, v. rewrite app_nil_r. by apply prefix_cons, prefix_cons, prefix_nil.
  - rewrite 2!app_comm_cons in E.
    apply app_split_l in E as (h' & -> & E);
      [|eapply (only_not_in [KMetric]); [solve_only I|kinds]].
    apply (app_split_r [_; _]) in E as (k & -> & E);
      [|eapply (only_not_in [KClaim; KMetric]); [solve_only I|kinds]].
    destruct (executes_commit _ _ _ _ _ _ Hb E) as [Ho Hs].
    split; [solve_only I; done|]. right. by apply settled_by_app.
Qed.

(** C31: a message goes to the dead-letter queue at most once, never after a
    successful handle(), to the configured topic, under its own key, with its
    origin and the text of the last attempt's error. *)
Theorem dead_letter_faithful self record h o h1 t v k r h2 :
  executed self record h o → h = h1 ++ OSend t v k r :: h2 →
  truthy_str (c_dlq_topic self) = Some t ∧ k = r_key record ∧
  v = json_dumps (dlq_payload record (str_exc (list.last (handler_errors h1)))) ∧
  (∀ m w, OHandle m (Ok w) ∉ h) ∧ only [KCommit; KMetric] h2.
Proof.
  intros Hx E. apply executed_delivery, delivery_loop in Hx
    as [Ho|(mid & msg & pre & hl & lr & tail & post & _ & _ & -> & Hl & Hpost & Hpre & _ & Ht & Hlr)].
  { exfalso. subst. apply only_inner in Ho; [done|kinds]. }
  pose proof (loops_only _ _ _ _ _ _ _ Hl) as Hlo.
  apply app_split_r in E as (k1 & -> & E); [|eapply only_not_in; [exact Hpre|kinds]].
  apply app_split_r in E as (k2 & -> & E); [|eapply only_not_in; [exact Hlo|kinds]].
  apply app_split_l in E as (k3 & -> & E); [|eapply only_not_in; [exact Hpost|kinds]].
  destruct lr as [[|last]|x]; [by destruct Hlr as [-> _], k2| |by destruct Hlr as [-> _], k2].
  destruct (dead_letters_send _ _ _ _ _ _ _ _ _ Hlr E) as (Ht' & -> & -> & Hk2 & Hk3).
  destruct (loop_left _ _ _ _ _ _ _ Hl) as [Hno ->].
  rewrite !handler_errors_app, (handler_errors_only _ pre), (handler_errors_only _ k2)
    by (eassumption || kinds).
  rewrite app_nil_r, app_nil_l. split_and!; [done..|by destruct (list.last _)| |].
  - assert (Hn : ∀ ks l m w, only ks l → KHandle ∉ ks → OHandle m (Ok w) ∉ l).
    { intros. by eapply only_not_in. }
    intros m w. rewrite !elem_of_app. intros [Hi|[Hi|[Hi|Hi]]]; [|by eapply Hno|..];
      (eapply Hn; [| |exact Hi]; [eassumption|kinds]).
  - solve_only I; eapply only_sub; eassumption || kinds.
Qed.

(** A delivery that returns has counted its message in [messages_total]
    as processed, duplicate, claim_lost or dlq exactly once; one that raises, at
    most once. *)
Theorem settled_once self record h o :
  executed self record h o →
  (o = Ok tt → settled record h = 1%Z) ∧ (0 ≤ settled record h ≤ 1)%Z.
Proof.
  intros Hx. apply executed_delivery in Hx. pose proof (settled_weight (record:=record)) as Hw.
  destruct Hx as [x He|hb r He Hb|mid x He|mid x He|mid v hb r He Hc|mid hb r He Hb];
    try (rewrite (settled_only [KClaim; KStatus]) by (solve_only I || kinds); split; [done|lia]).
  - rewrite settled_app, settled_no_id. destruct (weight_executes Hw _ _ _ Hb). intuition lia.
  - rewrite !(weight_cons Hw) by done. rewrite settled_app, settled_lost, (weight_commits Hw _ _ Hc). lia.
  - rewrite (weight_cons Hw) by done. rewrite settled_processing.
    destruct (weight_executes Hw _ _ _ Hb). intuition lia.
Qed.

(** The gauge of messages in progress returns to its value, however the
    delivery ends. *)
Theorem active_gauge_balanced self record h o :
  executed self record h o → delta active_processing [r_topic record] h = 0%Z.
Proof.
  intros Hx. apply executed_delivery in Hx. pose proof (gauge_weight (record:=record)) as Hw.
  assert (Hz : ∀ mid hb r, executes self record mid hb r →
    delta active_processing [r_topic record] hb = 0%Z).
  { intros mid hb r Hb. destruct (weight_executes Hw _ _ _ Hb). intuition lia. }
  destruct Hx as [x He|hb r He Hb|mid x He|mid x He|mid v hb r He Hc|mid hb r He Hb];
    try (apply (weight_none Hw [KClaim; KStatus]); [solve_only I|kinds]; fail).
  - rewrite delta_app, (Hz _ _ _ Hb). count_labels.
  - rewrite !(weight_cons Hw) by done. rewrite delta_app, (weight_commits Hw _ _ Hc).
    unfold lost_metric. destruct v; [case_decide|]; count_labels.
  - rewrite (weight_cons Hw) by done. rewrite gauge_processing. by eapply Hz.
Qed.

(** When the message cannot be claimed again after a failure (it was
    completed or claimed elsewhere in the meantime) it is dead-lettered like an
    exhausted one, whatever attempts are left. *)
Theorem lost_reclaim_dead_letters self record h o h1 m r h2 k h3 :
  executed self record h o →
  h = h1 ++ OHandle m r :: h2 ++ OClaim k (Ok false) :: h3 →
  ∃ x tail post, h3 = tail ++ post ∧ only [KMetric] post ∧
    dead_letters self record (Some x) tail o.
Proof.
  intros Hx E. apply executed_delivery, delivery_loop in Hx
    as [Ho|(mid & msg & pre & hl & lr & tail & post & _ & _ & -> & Hl & Hpost & Hpre & _ & Ht & Hlr)].
  { exfalso. subst. apply only_inner in Ho; [done|kinds]. }
  apply in_loop in E as (k1 & k2 & -> & -> & E); [|eapply only_not_in; [eassumption|kinds]..].
  symmetry in E. apply app_split_l in E as (k3 & -> & ->).
  2:{ eapply (only_not_in [KSend; KCommit; KMetric]); [|kinds].
      rewrite only_app. split; [exact Ht|]. eapply only_sub; [exact Hpost|kinds]. }
  destruct (loop_claim_refused _ _ _ _ _ _ _ (k1 ++ OHandle m r :: h2) k k3 Hl) as [-> [x ->]].
  { by rewrite <- app_assoc. }
  exists x, tail, post. done.
Qed.

(** A header that does not name a message id. *)
Definition unnamed (header : string * option string) : Prop :=
  header.1 ≠ "X-Message-Id"%string ∨ truthy_str header.2 = None.

Lemma header_message_id_first pre v rest :
  Forall unnamed pre → v ≠ ""%string →
  header_message_id (pre ++ ("X-Message-Id"%string, Some v) :: rest) = Some v.
Proof.
  intros Hpre Hv. induction Hpre as [|[key value] pre Hh _ IH]; cbn.
  - unfold truthy_str. by repeat (case_decide; try done).
  - destruct Hh as [Hk|Ht]; cbn in *; case_decide; [done|done|by rewrite Ht|done].
Qed.

(** C39: a message whose first X-Message-Id header with a value is not UTF-8, whatever other headers come
    before and after it, raises out of the delivery before anything else is done: it is not handled, not
    dead-lettered and its offset is not committed. *)
Theorem bad_header_raises self record h o pre v rest :
  executed self record h o →
  r_headers record = pre ++ ("X-Message-Id"%string, Some v) :: rest → Forall unnamed pre →
  v ≠ ""%string → utf8_valid v = false →
  h = [] ∧ o = Err UnicodeDecodeError.
Proof.
  intros Hx%executed_delivery Hh Hpre Hv Hu.
  assert (extract_message_id record = Err UnicodeDecodeError) as He.
  { unfold extract_message_id. rewrite Hh, header_message_id_first by done.
    unfold bytes_decode. by rewrite Hu. }
  destruct Hx; try congruence. split; congruence.
Qed.

End Props.
