(* ===== verification/ConsumerExact.v ===== *)
(** * The grammar of a delivery is exact

    Every word of the grammar of ConsumerSpec.v is the trace of an execution of
    [process_record]: with [process_record_delivery], the deliveries are the words of
    the grammar and nothing else. *)

From S2P Require Import Prelude Prog Utf8 PyJson JsonText Models StoreEvents Metrics Consumer ConsumerSpec.
From S2P Require Import ConsumerShapes ConsumerProps.

(** [p] has an execution with the trace [h] and the outcome [o]. *)
Definition can {A} (p : prog ev A) (h : list obs) (o : res A) : Prop :=
  ∃ tr, path (@allowed) p tr o ∧ trace_of tr = h.

Lemma can_ret {A} (a : A) : can (Ret a) [] (Ok a).
Proof. by exists []. Qed.

Lemma can_of_res {A} (r : res A) : can (of_res r) [] r.
Proof. by exists []; destruct r. Qed.

Lemma can_trigger {X} (e : ev X) r : allowed e r → can (trigger e) (option_list (obs_ev e r)) r.
Proof.
  intros Hr. exists [Step e r]. split; [exists r; by destruct r|]. by rewrite trace_of_cons, app_nil_r.
Qed.

Lemma can_bind {A B} (p : prog ev A) (f : A → prog ev B) h1 a h2 o :
  can p h1 (Ok a) → can (f a) h2 o → can (mbind f p) (h1 ++ h2) o.
Proof.
  intros (tr1 & H1 & <-) (tr2 & H2 & <-). exists (tr1 ++ tr2). split; [|apply trace_of_app].
  apply path_bind. by exists tr1, tr2, (Ok a).
Qed.

Lemma can_bind_err {A B} (p : prog ev A) (f : A → prog ev B) h x :
  can p h (Err x) → can (mbind f p) h (Err x).
Proof.
  intros (tr & H & <-). exists tr. split; [|done]. apply path_bind. exists tr, [], (Err x).
  by rewrite app_nil_r.
Qed.

Lemma can_attempt {A} (p : prog ev A) h r : can p h r → can (attempt p) h (Ok r).
Proof. intros (tr & H & <-). exists tr. split; [|done]. apply path_attempt. by exists r. Qed.

(** A step without an observation. *)
Lemma can_then {A B} (p : prog ev A) (f : A → prog ev B) a h o :
  can p [] (Ok a) → can (f a) h o → can (mbind f p) h o.
Proof. apply (can_bind p f []). Qed.

Lemma can_try_ok {A} (p : prog ev A) hd h a : can p h (Ok a) → can (try_except p hd) h (Ok a).
Proof.
  intros Hp. unfold try_except. rewrite <- (app_nil_r h). eapply (can_bind (attempt p)); [by apply can_attempt|].
  apply can_ret.
Qed.

Lemma can_try_caught {A} (p : prog ev A) hd h x h' o :
  can p h (Err x) → exn_is_exception x = true → can (hd x) h' o → can (try_except p hd) (h ++ h') o.
Proof.
  intros Hp Hx Hh. unfold try_except. eapply (can_bind (attempt p)); [by apply can_attempt|]. cbn. by rewrite Hx.
Qed.

Lemma can_try_fatal {A} (p : prog ev A) hd h x :
  can p h (Err x) → exn_is_exception x = false → can (try_except p hd) h (Err x).
Proof.
  intros Hp Hx. unfold try_except. rewrite <- (app_nil_r h). eapply (can_bind (attempt p)); [by apply can_attempt|].
  cbn. rewrite Hx. apply (can_of_res (Err x)).
Qed.

Lemma can_finally {A} (p : prog ev A) (q : prog ev unit) h h' o :
  can p h o → can q h' (Ok tt) → can (finally p q) (h ++ h') o.
Proof.
  intros Hp Hq. unfold finally. eapply (can_bind (attempt p)); [by apply can_attempt|].
  rewrite <- (app_nil_r h'). eapply (can_bind q); [done|]. apply can_of_res.
Qed.

Lemma can_perf : can (trigger EPerfCounter) [] (Ok 0%Z).
Proof. by apply (can_trigger EPerfCounter (Ok 0%Z)). Qed.

Lemma can_emit cs :
  can (emit cs) (omap (λ c, match c with MObserve _ _ _ => None | _ => Some (OMetric c) end) cs) (Ok tt).
Proof.
  induction cs as [|c cs IH]; [apply can_ret|]. cbn [emit].
  replace (omap _ (c :: cs)) with (option_list (obs_ev (EMetric c) (Ok tt)) ++
    omap (λ c, match c with MObserve _ _ _ => None | _ => Some (OMetric c) end) cs) by by destruct c.
  eapply can_bind; [by apply can_trigger|exact IH].
Qed.

Lemma can_record cs : forallb counted cs = true → can (emit cs) (metric_obs cs) (Ok tt).
Proof.
  intros Hcs. replace (metric_obs cs) with
    (omap (λ c, match c with MObserve _ _ _ => None | _ => Some (OMetric c) end) cs); [apply can_emit|].
  induction cs as [|c cs IH]; [done|]. apply andb_prop in Hcs as [Hc Hcs]. cbn. rewrite IH by done. by destruct c.
Qed.

Lemma can_measured_store {X} op (e : store_ev X) r :
  can (measure_store_op op (trigger (EStore e))) [obs_store e r] r.
Proof.
  eapply can_then; [apply can_perf|]. rewrite <- (app_nil_r [_]). apply can_finally.
  - by apply (can_trigger (EStore e) r).
  - eapply can_then; [apply can_perf|]. apply (can_emit [store_op_observe _ _]).
Qed.

Lemma can_measure_processing {A} topic (p : prog ev A) h o :
  can p h o →
  can (measure_processing topic p)
    (OMetric (processing_enter topic) :: h ++ [OMetric (processing_exit topic)]) o.
Proof.
  intros Hp. eapply (can_bind _ _ [_]); [by apply (can_record [processing_enter topic])|].
  eapply can_then; [apply can_perf|]. apply can_finally; [done|].
  eapply (can_bind _ _ [_] _ []); [by apply (can_record [processing_exit topic])|].
  eapply can_then; [apply can_perf|]. apply (can_emit [processing_observe _ _]).
Qed.

Section Exact.
Context `{!PyRuntime} `{!JsonCodec} (self : consumer) (record : consumer_record).

Abbreviation topic := (r_topic record).

Lemma can_commit h o : commits self h o → can (commit self record) h o.
Proof.
  unfold commits, commit. destruct (c_connected self).
  - intros ->. by apply (can_trigger ECommit o).
  - intros [-> ->]. apply can_ret.
Qed.

Lemma can_commit_processed h :
  commits self h (Ok tt) →
  can (_ ← commit self record; emit (record_processed topic)) (h ++ metric_obs (record_processed topic)) (Ok tt).
Proof. intros Hc. eapply can_bind; [by apply can_commit|by apply can_record]. Qed.

Lemma can_commit_raised {B} (f : unit → prog ev B) h x :
  commits self h (Err x) → can (mbind f (commit self record)) h (Err x).
Proof. intros Hc. by apply can_bind_err, can_commit. Qed.

Lemma can_complete mid v h o : completes self record mid v h o → can (complete self record mid v) h o.
Proof.
  unfold complete. intros [h' o' Hm Hc ->|h' x Hm Hc|m h' o' Hm Hc ->|m h' x Hm Hc|m y h' o' Hm Hy Hc ->
    |m y h' x Hm Hy Hc|m y Hm Hy]; rewrite Hm.
  - eapply can_then; [apply can_ret|by apply can_commit_processed].
  - eapply can_then; [apply can_ret|by apply can_commit_raised].
  - eapply (can_bind _ _ [_]); [by apply can_try_ok, can_measured_store|by apply can_commit_processed].
  - eapply (can_bind _ _ [_]); [by apply can_try_ok, can_measured_store|by apply can_commit_raised].
  - eapply (can_bind _ _ (_ :: _)); [|by apply can_commit_processed].
    eapply (can_try_caught _ _ [_]); [by apply can_measured_store|done|by apply can_record].
  - eapply (can_bind _ _ (_ :: _)); [|by apply can_commit_raised].
    eapply (can_try_caught _ _ [_]); [by apply can_measured_store|done|by apply can_record].
  - apply can_bind_err, can_try_fatal; [by apply can_measured_store|done].
Qed.

Lemma can_mark mid exc a :
  can (match truthy_str mid with
       | Some m => measure_store_op "mark_failed" (trigger (EStore (EMarkFailed m (exn_str exc) a)))
       | None => Ret tt
       end) (marks mid exc a) (Ok tt).
Proof. unfold marks. destruct (truthy_str mid); [apply can_measured_store|apply can_ret]. Qed.

Lemma can_on_failure mid a exc h o :
  after_failure self record mid a exc h o → can (on_failure self record mid a exc) h o.
Proof.
  unfold on_failure. intros [m y Hm|ms Hle ->|ms y Hlt ->|Hlt Hm|m r Hlt Hm];
    (eapply can_bind; [by apply can_record|]).
  - rewrite Hm. apply can_bind_err. apply can_measured_store.
  - fold (marks mid exc a). rewrite <- (app_nil_r (marks mid exc a)). eapply can_bind; [apply (can_mark mid exc a)|].
    rewrite (proj2 (Z.ltb_ge _ _)) by done. apply can_ret.
  - eapply can_bind; [apply (can_mark mid exc a)|]. rewrite (proj2 (Z.ltb_lt _ _)) by done.
    apply can_bind_err. by apply (can_trigger (ESleep _) (Err y)).
  - rewrite Hm. eapply can_then; [apply can_ret|]. rewrite (proj2 (Z.ltb_lt _ _)) by done.
    eapply (can_bind _ _ [_]); [by apply (can_trigger (ESleep _) (Ok tt))|].
    rewrite <- (app_nil_r (metric_obs _)). eapply can_bind; [by apply can_record|]. apply can_ret.
  - rewrite Hm. eapply (can_bind _ _ [_]); [apply can_measured_store|]. rewrite (proj2 (Z.ltb_lt _ _)) by done.
    eapply (can_bind _ _ [_]); [by apply (can_trigger (ESleep _) (Ok tt))|].
    eapply can_bind; [by apply can_record|]. apply can_measured_store.
Qed.

Lemma can_handle {B} msg r (f : res pyval → prog ev B) h o :
  can (f r) h o → can (r ← attempt (trigger (EHandle msg)); f r) (OHandle msg r :: h) o.
Proof.
  intros Hf. eapply (can_bind _ _ [_]); [|done]. apply can_attempt. by apply (can_trigger (EHandle msg) r).
Qed.

Lemma can_retry_loop mid msg n a last h o :
  loops self record mid msg n a last h o → can (retry_loop self n record mid msg a last) h o.
Proof.
  induction 1 as [a last|n a last v h Hc|n a last v h x Hc|n a last x Hx|n a last x h y Hx Ha
    |n a last x h Hx Ha|n a last x h h' o Hx Ha Hl IH]; cbn [retry_loop]; [apply can_ret|..];
    rewrite <- ?app_comm_cons; apply can_handle; rewrite ?Hx.
  - rewrite <- (app_nil_r h). eapply can_bind; [by apply can_complete|apply can_ret].
  - by apply can_bind_err, can_complete.
  - apply (can_of_res (Err x)).
  - by apply can_bind_err, can_on_failure.
  - rewrite <- (app_nil_r h). eapply can_bind; [by apply can_on_failure|apply can_ret].
  - eapply can_bind; [by apply can_on_failure|exact IH].
Qed.

Lemma can_dead_letters last h o :
  dead_letters self record last h o →
  can (_ ← emit (record_dlq topic); _ ← send_to_dlq self record (str_exc last); commit self record) h o.
Proof.
  intros [h' o' Hn Hc|t y Hp Ht|t h' o' Hp Ht Hc]; (eapply can_bind; [by apply can_record|]); unfold send_to_dlq.
  - eapply can_then; [|by apply can_commit]. destruct Hn as [->| ->]; [apply can_ret|].
    destruct (c_dlq_producer self); apply can_ret.
  - rewrite Hp, Ht. apply can_bind_err. by apply (can_trigger (ESend _ _ _) (Err y)).
  - rewrite Hp, Ht. eapply (can_bind _ _ [_]); [by apply (can_trigger (ESend _ _ _) (Ok tt))|by apply can_commit].
Qed.

Lemma can_execute mid h o : executes self record mid h o → can (execute_and_commit self record mid) h o.
Proof.
  unfold execute_and_commit. intros [x Hp|msg h' Hp Hl|msg h' x Hp Hl|msg h' last h'' o' Hp Hl Hd]; rewrite Hp.
  - apply can_bind_err. apply (can_of_res (Err x)).
  - eapply can_then; [apply (can_of_res (Ok msg))|]. rewrite <- (app_nil_r h').
    eapply can_bind; [by apply can_retry_loop|apply can_ret].
  - eapply can_then; [apply (can_of_res (Ok msg))|]. by apply can_bind_err, can_retry_loop.
  - eapply can_then; [apply (can_of_res (Ok msg))|]. eapply can_bind; [by apply can_retry_loop|].
    by apply can_dead_letters.
Qed.

Lemma can_process h o : delivery self record h o → can (process_record self record) h o.
Proof.
  unfold process_record. intros [x He|h' o' He Hx|mid x He|mid x He|mid v h' o' He Hc|mid h' o' He Hx]; rewrite He.
  - apply can_bind_err. apply (can_of_res (Err x)).
  - eapply can_then; [apply (can_of_res (Ok None))|]. eapply can_bind; [by apply can_record|by apply can_execute].
  - eapply can_then; [apply (can_of_res (Ok (Some mid)))|]. apply can_bind_err, can_measured_store.
  - eapply can_then; [apply (can_of_res (Ok (Some mid)))|]. eapply (can_bind _ _ [_]); [apply can_measured_store|].
    apply can_bind_err, can_measured_store.
  - eapply can_then; [apply (can_of_res (Ok (Some mid)))|]. eapply (can_bind _ _ [_]); [apply can_measured_store|].
    eapply (can_bind _ _ [_]); [apply can_measured_store|].
    eapply can_bind; [|by apply can_commit]. unfold lost_metric.
    destruct v as [p|]; [case_decide|]; by apply can_record.
  - eapply can_then; [apply (can_of_res (Ok (Some mid)))|]. eapply (can_bind _ _ [_]); [apply can_measured_store|].
    by apply can_measure_processing, can_execute.
Qed.

(** C16: the deliveries are the words of the grammar.  An observation of [process_record] with its
    outcome, whatever store, Kafka and handler answer, is a word of the life cycle [delivery]; and every
    word of [delivery] is an observation of some execution. *)
Theorem delivery_exact h o : executed self record h o ↔ delivery self record h o.
Proof.
  split; [apply executed_delivery|]. intros (tr & Hp & <-)%can_process. by exists tr.
Qed.

End Exact.
