(* ===== verification/ConsumerRun.v ===== *)
(** * Deliveries against a store

    A world for the events of Consumer.v: any store with an instance of
    [DedupStore], a clock, handler outcomes given in advance, a DLQ and a
    Prometheus registry that record what they are sent.  Running [process_record]
    in it shows what a delivery does to the record of its message. *)

From S2P Require Import Prelude Prog Utf8 PyJson Models Store StoreEvents Metrics Consumer.

Section World.
Context {S : Type} `{DedupStore S} (elapse : Z → S → S).

Record world := mkWorld {
  w_store : S;
  w_clock : Z;                                  (* microseconds *)
  w_outcomes : list (res pyval);                (* of the coming handle() calls *)
  w_handled : list payload;
  w_committed : nat;
  w_dlq : list (string * string * option string);
  w_registry : registry;
  w_poll : list consumer_record;                (* the records still to be polled *)
  w_running : bool;
}.

Definition with_store (s : S) (w : world) : world :=
  mkWorld s (w_clock w) (w_outcomes w) (w_handled w) (w_committed w) (w_dlq w)
    (w_registry w) (w_poll w) (w_running w).

Definition on_store {X} (f : action S X) : action world X := λ w,
  let '(s, r) := f (w_store w) in (with_store s w, r).

(** handle() returns [None] when no outcome is left. *)
Definition handle_call (m : payload) : action world pyval := λ w,
  (mkWorld (w_store w) (w_clock w) (tail (w_outcomes w)) (w_handled w ++ [m]) (w_committed w)
     (w_dlq w) (w_registry w) (w_poll w) (w_running w),
   match w_outcomes w with r :: _ => r | [] => Ok PyNone end).

Definition sleep_call (ms : Z) : action world unit := λ w,
  let d := Z.max 0 (ms * 1000) in
  (mkWorld (elapse d (w_store w)) (w_clock w + d) (w_outcomes w) (w_handled w) (w_committed w)
     (w_dlq w) (w_registry w) (w_poll w) (w_running w), Ok tt).

Definition ev_handler (X : Type) (e : ev X) : action world X := λ w,
  match e in ev X return action world X with
  | EStore e => λ w, on_store (call_store (w_clock w) e) w
  | EMetric c => λ w,
      (mkWorld (w_store w) (w_clock w) (w_outcomes w) (w_handled w) (w_committed w) (w_dlq w)
         (apply_call (w_registry w) c) (w_poll w) (w_running w), Ok tt)
  | EPerfCounter => λ w, (w, Ok (w_clock w))
  | ESleep ms => sleep_call ms
  | EHandle m => handle_call m
  | ECommit => λ w,
      (mkWorld (w_store w) (w_clock w) (w_outcomes w) (w_handled w) (Datatypes.S (w_committed w))
         (w_dlq w) (w_registry w) (w_poll w) (w_running w), Ok tt)
  | ESend t v k => λ w,
      (mkWorld (w_store w) (w_clock w) (w_outcomes w) (w_handled w) (w_committed w)
         (w_dlq w ++ [(t, v, k)]) (w_registry w) (w_poll w) (w_running w), Ok tt)
  | EPoll => λ w,
      (mkWorld (w_store w) (w_clock w) (w_outcomes w) (w_handled w) (w_committed w) (w_dlq w)
         (w_registry w) (tail (w_poll w)) (w_running w), Ok (head (w_poll w)))
  | EIsRunning => λ w, (w, Ok (w_running w))
  | _ => λ w, (w, Ok tt)
  end w.

Definition new_world (s : S) (clock : Z) (outcomes : list (res pyval)) : world :=
  mkWorld s clock outcomes [] 0 [] ∅ [] true.

End World.
Arguments world S : clear implicits.
Arguments new_world {S} s clock outcomes.
