(* ===== verification/ConsumerStore.v ===== *)
(** * A delivery and the record of its message

    [process_record] run in the world of ConsumerRun.v against a store that
    satisfies the laws of Store.v: what a delivery does to the record of its
    message, and what a redelivery finds. *)

From S2P Require Import Prelude Prog Utf8 PyJson JsonText Models Store MemoryStore StoreEvents Metrics.
From S2P Require Import Consumer ConsumerRun.

Section Delivery.
Context `{!PyRuntime} `{!JsonCodec} {S : Type} `{DedupStoreLaws S}.
Implicit Types w : world S.

Abbreviation crun p w := (run (ev_handler st_elapse) p w).

Definition with_registry (r : registry) w : world S :=
  mkWorld (w_store w) (w_clock w) (w_outcomes w) (w_handled w) (w_committed w) (w_dlq w) r
    (w_poll w) (w_running w).

(** Metrics change the registry only. *)
Lemma run_emit cs w :
  crun (emit cs) w = (with_registry (foldl apply_call (w_registry w) cs) w, Ok tt).
Proof.
  revert w. induction cs as [|c cs IH]; intros w; [by destruct w|].
  cbn [emit]. unfold mbind, prog_mbind. rewrite run_bind, run_trigger. cbn [ev_handler].
  by rewrite IH.
Qed.

Definition metered (cs : list metric_call) w : world S :=
  with_registry (foldl apply_call (w_registry w) cs) w.

Lemma run_measured {X} op (e : store_ev X) w s' r :
  call_store (w_clock w) e (w_store w) = (s', r) →
  crun (measure_store_op op (trigger (EStore e))) w =
  (metered [store_op_observe op (w_clock w - w_clock w)] (with_store s' w), r).
Proof.
  intros E. unfold measure_store_op, mbind, prog_mbind.
  rewrite run_bind, run_trigger. cbn [ev_handler]. rewrite run_finally, run_trigger.
  cbn [ev_handler]. unfold on_store. rewrite E. unfold mbind, prog_mbind.
  rewrite run_bind, run_trigger. cbn [ev_handler]. rewrite run_emit. done.
Qed.

Lemma run_measure_processing {A} topic (p : prog ev A) w :
  crun (measure_processing topic p) w =
  let '(w', r) := crun p (metered [processing_enter topic] w) in
  (metered [processing_exit topic; processing_observe topic (w_clock w' - w_clock w)] w', r).
Proof.
  unfold measure_processing, mbind, prog_mbind.
  rewrite run_bind, run_emit, run_bind, run_trigger. cbn [ev_handler].
  rewrite run_finally. change (with_registry _ w) with (metered [processing_enter topic] w).
  destruct (crun p _) as [w' r]. rewrite run_bind, run_emit, run_bind, run_trigger.
  cbn [ev_handler]. by rewrite run_emit.
Qed.

(** The attempt that succeeds, in a loop with attempts left. *)
Lemma run_loop_success self record mid msg v rest n a last w s2 :
  c_connected self = true → mid ≠ ""%string → w_outcomes w = Ok v :: rest →
  mark_completed (w_clock w) mid v (w_store w) = (s2, Ok tt) →
  ∃ r, crun (retry_loop self (Datatypes.S n) record (Some mid) msg a last) w =
    (mkWorld s2 (w_clock w) rest (w_handled w ++ [msg]) (Datatypes.S (w_committed w)) (w_dlq w) r
       (w_poll w) (w_running w), Ok LoopReturned).
Proof.
  intros Hconn Hmid Ho E2.
  assert (Htr : truthy_str (Some mid) = Some mid) by (unfold truthy_str; by rewrite decide_False).
  cbn [retry_loop]. unfold mbind, prog_mbind. rewrite run_bind, run_attempt, run_trigger.
  set (w2 := mkWorld (w_store w) (w_clock w) rest (w_handled w ++ [msg]) (w_committed w) (w_dlq w)
    (w_registry w) (w_poll w) (w_running w)).
  assert (E3 : ev_handler st_elapse pyval (EHandle msg) w = (w2, Ok v)).
  { cbn. unfold handle_call. cbn. by rewrite Ho. }
  rewrite E3, run_bind. unfold complete, mbind, prog_mbind.
  rewrite Htr, run_bind, run_try_except, (run_measured _ (EMarkCompleted mid v) w2 s2 (Ok tt) E2).
  cbv beta iota. unfold commit. rewrite Hconn, run_bind, run_trigger. cbn [ev_handler].
  rewrite run_emit. eexists. reflexivity.
Qed.

(** [execute_and_commit] when the first attempt succeeds. *)
Lemma run_execute_success self record mid msg v rest w s2 :
  c_connected self = true → (1 ≤ max_retries (c_config self))%Z →
  mid ≠ ""%string → parse_payload record = Ok msg → w_outcomes w = Ok v :: rest →
  mark_completed (w_clock w) mid v (w_store w) = (s2, Ok tt) →
  ∃ r, crun (execute_and_commit self record (Some mid)) w =
    (mkWorld s2 (w_clock w) rest (w_handled w ++ [msg]) (Datatypes.S (w_committed w)) (w_dlq w) r
       (w_poll w) (w_running w), Ok tt).
Proof.
  intros Hconn Hmax Hmid Hp Ho E2.
  unfold execute_and_commit, mbind, prog_mbind. rewrite run_bind, run_of_res, Hp, run_bind.
  unfold loop_fuel. destruct (Z.to_nat (max_retries (c_config self))) as [|n] eqn:En; [lia|].
  destruct (run_loop_success self record mid msg v rest n 1 None w s2) as [r ->]; [done..|].
  by exists r.
Qed.

(** ** A message that is not claimable *)

Definition same_message (w w' : world S) : Prop :=
  w_handled w' = w_handled w ∧ w_dlq w' = w_dlq w ∧ w_outcomes w' = w_outcomes w ∧
  w_clock w' = w_clock w.

(** The delivery of a refused claim, call by call. *)
Lemma run_refused self record mid w :
  c_connected self = true → extract_message_id record = Ok (Some mid) →
  st_inv (w_store w) → st_claim_ok (w_clock w) mid (w_store w) →
  Spec.claimable (st_config (w_store w)) (st_clock (w_clock w) (w_store w))
    (st_view (w_store w) mid) = false →
  ∃ w', crun (process_record self record) w = (w', Ok tt) ∧ same_message w w' ∧
    claim (w_clock w) mid (w_store w) = (w_store w', Ok false) ∧
    w_committed w' = Datatypes.S (w_committed w) ∧ w_poll w' = w_poll w ∧
    w_running w' = w_running w.
Proof.
  intros Hconn He Hi Hok Hno.
  destruct (claim_spec _ _ _ Hi Hok) as (s1 & E1 & Hi1 & _ & _).
  unfold Spec.do_claim in E1. rewrite Hno in E1. simpl in E1.
  unfold process_record, mbind, prog_mbind. rewrite run_bind, run_of_res, He, run_bind.
  rewrite (run_measured "claim" (EClaim mid) w s1 (Ok false) E1), run_bind.
  set (w1 := metered _ (with_store s1 w)).
  assert (E2 : call_store (w_clock w1) (EGetStatus mid) (w_store w1) = (s1, Ok (st_view s1 mid))).
  { cbn. by rewrite get_status_spec. }
  rewrite (run_measured "get_status" (EGetStatus mid) w1 s1 _ E2), run_bind.
  set (w2 := metered _ (with_store s1 w1)).
  assert (Hm : ∃ cs, crun (match st_view s1 mid with
      | Some p => if decide (ps_status p = PROCESSING) then emit (record_claim_lost (r_topic record))
                  else emit (record_duplicate (r_topic record))
      | None => emit (record_duplicate (r_topic record)) end) w2 = (metered cs w2, Ok tt)).
  { destruct (st_view s1 mid); [case_decide|]; eexists; apply run_emit. }
  destruct Hm as [cs Hm]. rewrite Hm. unfold commit. rewrite Hconn, run_trigger. cbn [ev_handler].
  eexists. split; [reflexivity|]. by split_and!.
Qed.

(** The delivery of a claim that is won, when handle() succeeds, call by call. *)
Lemma run_first_success self record mid msg v rest w :
  c_connected self = true → (1 ≤ max_retries (c_config self))%Z →
  extract_message_id record = Ok (Some mid) → mid ≠ ""%string → parse_payload record = Ok msg →
  st_inv (w_store w) → st_claim_ok (w_clock w) mid (w_store w) →
  st_complete_ok (w_clock w) mid v →
  Spec.claimable (st_config (w_store w)) (st_clock (w_clock w) (w_store w))
    (st_view (w_store w) mid) = true →
  w_outcomes w = Ok v :: rest →
  ∃ w' s1, crun (process_record self record) w = (w', Ok tt) ∧
    claim (w_clock w) mid (w_store w) = (s1, Ok true) ∧
    mark_completed (w_clock w) mid v s1 = (w_store w', Ok tt) ∧
    w_handled w' = w_handled w ++ [msg] ∧ w_dlq w' = w_dlq w ∧ w_outcomes w' = rest ∧
    w_committed w' = Datatypes.S (w_committed w) ∧ w_clock w' = w_clock w ∧
    w_poll w' = w_poll w ∧ w_running w' = w_running w.
Proof.
  intros Hconn Hmax He Hmid Hp Hi Hok Hcok Hyes Ho.
  destruct (claim_spec _ _ _ Hi Hok) as (s1 & E1 & Hi1 & _ & _).
  unfold Spec.do_claim in E1. rewrite Hyes in E1. simpl in E1.
  destruct (mark_completed_spec s1 (w_clock w) mid v Hi1 Hcok) as (s2 & E2 & _).
  unfold process_record, mbind, prog_mbind. rewrite run_bind, run_of_res, He, run_bind.
  rewrite (run_measured "claim" (EClaim mid) w s1 (Ok true) E1). cbv beta iota.
  rewrite run_measure_processing.
  set (w1 := metered [processing_enter _] _).
  destruct (run_execute_success self record mid msg v rest w1 s2) as [r Hrun]; try done.
  rewrite Hrun. eexists _, s1. split; [reflexivity|]. by split_and!.
Qed.

(** The record that a won claim and [mark_completed] leave. *)
Lemma completed_record s now mid v s1 s2 :
  st_inv s → st_claim_ok now mid s → st_complete_ok now mid v →
  claim now mid s = (s1, Ok true) → mark_completed now mid v s1 = (s2, Ok tt) →
  st_inv s2 ∧ st_frame mid s s2 ∧
  ∃ p, st_view s2 mid = Some p ∧ ps_status p = COMPLETED ∧ ps_result p ≡ v ∧
    ps_attempts p = match st_view s mid with Some q => ps_attempts q + 1 | None => 1 end%Z.
Proof.
  intros Hi Hok Hcok E1 E2.
  destruct (claim_spec _ _ _ Hi Hok) as (s1' & E1' & Hi1 & (Hc1 & Hk1 & Hf1) & V1).
  rewrite E1 in E1'. injection E1' as <- Hwon. unfold Spec.do_claim in V1, Hwon.
  destruct (Spec.claimable _ _ _); [simpl in V1|done].
  destruct (mark_completed_spec s1 now mid v Hi1 Hcok) as (s2' & E2' & Hi2 & (Hc2 & Hk2 & Hf2) & V2).
  rewrite E2 in E2'. injection E2' as <-.
  inversion V1 as [p1 q1 (_ & Hs1 & Ha1 & _) Hview|]; subst. rewrite <- Hview in V2.
  simpl in V2. rewrite decide_True in V2 by done.
  inversion V2 as [p q (_ & Hs2 & Ha2 & Hr2 & _) Hq|]; subst.
  split_and!; [done| |exists p; split_and!; [done..|]].
  - split_and!; [congruence|intros; by rewrite Hk2|]. intros m' Hm'. by rewrite Hf2, Hf1.
  - rewrite Ha2. cbn. rewrite Ha1. by destruct (st_view s mid).
Qed.

(** A redelivery is skipped.  When the store does not let the message be
    claimed (it is COMPLETED, FAILED for good, or in other hands), nothing is
    handled or dead-lettered, the record stays, and the offset is committed. *)
Theorem redelivery_skipped self record mid w :
  c_connected self = true → extract_message_id record = Ok (Some mid) →
  st_inv (w_store w) → st_claim_ok (w_clock w) mid (w_store w) →
  Spec.claimable (st_config (w_store w)) (st_clock (w_clock w) (w_store w))
    (st_view (w_store w) mid) = false →
  ∃ w', crun (process_record self record) w = (w', Ok tt) ∧ same_message w w' ∧
    st_view (w_store w') mid ≡ st_view (w_store w) mid ∧
    w_committed w' = Datatypes.S (w_committed w).
Proof.
  intros Hconn He Hi Hok Hno.
  destruct (run_refused self record mid w) as (w' & E & Hs & Hc & Hn & _); [done..|].
  exists w'. split_and!; [done..| |done].
  destruct (claim_spec _ _ _ Hi Hok) as (s1 & E1 & _ & _ & V). rewrite Hc in E1.
  injection E1 as <- _. unfold Spec.do_claim in V. by rewrite Hno in V.
Qed.

(** ** A message that can be claimed *)

(** The first successful delivery.  When the message can be claimed and
    handle() returns [v], the payload is handled once, the record is COMPLETED
    with the result [v], nothing is dead-lettered and the offset is committed. *)
Theorem delivery_completes self record mid msg v rest w :
  c_connected self = true → (1 ≤ max_retries (c_config self))%Z →
  extract_message_id record = Ok (Some mid) → mid ≠ ""%string → parse_payload record = Ok msg →
  st_inv (w_store w) → st_claim_ok (w_clock w) mid (w_store w) →
  st_complete_ok (w_clock w) mid v →
  Spec.claimable (st_config (w_store w)) (st_clock (w_clock w) (w_store w))
    (st_view (w_store w) mid) = true →
  w_outcomes w = Ok v :: rest →
  ∃ w' p, crun (process_record self record) w = (w', Ok tt) ∧
    w_handled w' = w_handled w ++ [msg] ∧ w_dlq w' = w_dlq w ∧ w_outcomes w' = rest ∧
    w_committed w' = Datatypes.S (w_committed w) ∧
    st_view (w_store w') mid = Some p ∧ ps_status p = COMPLETED ∧ ps_result p ≡ v.
Proof.
  intros Hconn Hmax He Hmid Hp Hi Hok Hcok Hyes Ho.
  destruct (run_first_success self record mid msg v rest w)
    as (w' & s1 & E & E1 & E2 & Hh & Hd & Hr & Hn & _); [done..|].
  destruct (completed_record _ _ _ _ _ _ Hi Hok Hcok E1 E2) as (_ & _ & p & ? & ? & ? & _).
  exists w', p. by split_and!.
Qed.

End Delivery.

(** ** Evaluated on the in-memory store: a delivery and its redelivery *)

#[local] Existing Instances Memory.memory_store Memory.memory_view Memory.memory_laws.
#[local] Existing Instances json_text text_runtime.

Definition payments_consumer : consumer := mkConsumer default_config (Some "payments.dlq"%string) true true true.

Definition payment : consumer_record :=
  mkRecord "payments" 1 42 [] (Some (json_dumps (JObj [("message_id", JStr "p1"); ("amount", JInt 5)])%string)) None.

Definition first_world : world Memory.state :=
  new_world (Memory.init None) 1000000 [Ok (PyJson (JInt 1))].

Lemma memory_claim_ok s : Memory.ms_config s = default_config → Memory.claim_ok 1000000 "p1" s.
Proof. intros Hc. unfold Memory.claim_ok. rewrite Hc. by vm_compute. Qed.

Lemma delivery_completes_witness :
  ∃ w' p, run (ev_handler st_elapse) (process_record payments_consumer payment) first_world
      = (w', Ok tt) ∧
    w_handled w' = [PJson (JObj [("message_id", JStr "p1"); ("amount", JInt 5)])%string] ∧
    w_dlq w' = [] ∧ w_outcomes w' = [] ∧ w_committed w' = 1 ∧
    st_view (w_store w') "p1" = Some p ∧ ps_status p = COMPLETED ∧ ps_result p ≡ PyJson (JInt 1).
Proof.
  refine (delivery_completes payments_consumer payment "p1" _ (PyJson (JInt 1)) [] first_world
    eq_refl _ _ _ _ (Memory.init_inv None) (memory_claim_ok (Memory.init None) eq_refl) I eq_refl eq_refl);
    vm_compute; done.
Defined.

Definition second_world : world Memory.state :=
  (run (ev_handler st_elapse) (process_record payments_consumer payment) first_world).1.

Lemma second_world_inv : Memory.inv (w_store second_world).
Proof.
  assert (w_store second_world = Memory.mkState {["p1"%string :=
    mkStatus "p1" COMPLETED 1 (PyJson (JInt 1)) None None 1000000 1000000]} default_config) as ->
    by (vm_compute; reflexivity).
  apply map_Forall_singleton. split_and!; simpl; first [done | by intros []].
Qed.

Lemma redelivery_skipped_witness :
  ∃ w', run (ev_handler st_elapse) (process_record payments_consumer payment) second_world
      = (w', Ok tt) ∧ same_message second_world w' ∧
    st_view (w_store w') "p1" ≡ st_view (w_store second_world) "p1" ∧
    w_committed w' = 2.
Proof.
  refine (redelivery_skipped payments_consumer payment "p1" second_world eq_refl _
    second_world_inv (memory_claim_ok (w_store second_world) eq_refl) _); vm_compute; done.
Defined.
