(* ===== verification/ConsumerStream.v ===== *)
(** * The poll loop over a stream of records

    [run_consumer] on whatever Kafka delivers, with any redeliveries, against any
    store: each message is handled once. *)

From S2P Require Import Prelude Prog Utf8 PyJson JsonText Models Store MemoryStore StoreEvents Metrics.
From S2P Require Import Consumer ConsumerRun ConsumerStore.

Section Stream.
Context `{!PyRuntime} `{!JsonCodec} {T : Type} `{DedupStoreLaws T}.
Implicit Types w : world T.

Abbreviation crun p w := (run (ev_handler st_elapse) p w).

Context (self : consumer).

(** A polled record with its message id and its payload. *)
Definition keyed (r : consumer_record * string * payload) : Prop :=
  let '(record, mid, msg) := r in
  extract_message_id record = Ok (Some mid) ∧ mid ≠ ""%string ∧ parse_payload record = Ok msg.

Definition ids (rs : list (consumer_record * string * payload)) : list string := (λ r, r.1.2) <$> rs.

(** The payloads of the first records of their messages, but for the messages in [seen]. *)
Fixpoint fresh (seen : gset string) (rs : list (consumer_record * string * payload))
    : list payload :=
  match rs with
  | [] => []
  | (_, mid, msg) :: rs' =>
      if decide (mid ∈ seen) then fresh seen rs' else msg :: fresh ({[mid]} ∪ seen) rs'
  end.

(** The messages in [seen] are COMPLETED, the others of [rs] are new. *)
Definition settled_store (seen : gset string) (mids : list string) (s : T) : Prop :=
  st_inv s ∧ ∀ mid, mid ∈ mids →
    if decide (mid ∈ seen)
    then ∃ p, st_view s mid = Some p ∧ ps_status p = COMPLETED ∧ ps_attempts p = 1%Z
    else st_view s mid = None.

(** At the clock [c] the store can represent what a consumer does with [mids]. *)
Definition serves (mids : list string) (c : Z) (s0 : T) : Prop :=
  ∀ s mid, mid ∈ mids → st_inv s → st_config s = st_config s0 →
    (∀ now, st_clock now s = st_clock now s0) →
    (∀ p, st_view s mid = Some p → ps_attempts p = 1%Z) → st_claim_ok c mid s.

(** What the stream needs of the store in the world [w]; [s0] fixes configuration and clock. *)
Definition ready (seen : gset string) (mids : list string) (s0 : T) w : Prop :=
  settled_store seen mids (w_store w) ∧ w_running w = true ∧
  st_config (w_store w) = st_config s0 ∧ ∀ now, st_clock now (w_store w) = st_clock now s0.

Lemma settled_step seen mids mid (s s' : T) :
  settled_store seen mids s → st_inv s' → st_frame mid s s' →
  (∃ p, st_view s' mid = Some p ∧ ps_status p = COMPLETED ∧ ps_attempts p = 1%Z) →
  settled_store ({[mid]} ∪ seen) mids s'.
Proof.
  intros [_ Hv] Hi (_ & _ & Hf) Hp. split; [done|]. intros m Hm.
  destruct (decide (m = mid)) as [->|Hne]; [by rewrite decide_True by set_solver|].
  specialize (Hv m Hm). rewrite Hf by done.
  destruct (decide (m ∈ seen)); [rewrite decide_True by set_solver|rewrite decide_False by set_solver]; done.
Qed.

(** One delivery: of a message in [seen], or of a new one whose first attempt returns. *)
Lemma run_seen record mid seen mids s0 w :
  c_connected self = true → extract_message_id record = Ok (Some mid) → mid ∈ mids →
  ready seen mids s0 w → serves mids (w_clock w) s0 → mid ∈ seen →
  ∃ w', crun (process_record self record) w = (w', Ok tt) ∧ ready seen mids s0 w' ∧
    same_message w w' ∧ w_committed w' = Datatypes.S (w_committed w) ∧ w_poll w' = w_poll w.
Proof.
  intros Hconn He Hin (Hset & Hrun & Hcfg & Hclk) Hserve Hseen.
  pose proof Hset as [Hi Hv]. pose proof (Hv mid Hin) as Hvm. rewrite decide_True in Hvm by done.
  destruct Hvm as (p & Hvp & Hs & Ha).
  assert (Hok : st_claim_ok (w_clock w) mid (w_store w)).
  { apply Hserve; [done..|]. intros q. rewrite Hvp. by intros [= <-]. }
  destruct (run_refused self record mid w) as (w' & E & Hsame & Hc & Hn & Hp' & Hr'); [done..| |].
  { rewrite Hvp. cbn. unfold Spec.retryable, Spec.orphaned, is_failed. by rewrite Hs. }
  exists w'. split_and!; [done| |done..].
  destruct (claim_spec _ _ _ Hi Hok) as (s1 & E1 & Hi1 & (Hc1 & Hk1 & Hf1) & V1).
  rewrite Hc in E1. injection E1 as <- Hb.
  unfold Spec.do_claim in V1, Hb. rewrite Hvp in V1, Hb. destruct (Spec.claimable _ _ _); [done|].
  cbn in V1. split_and!; [|congruence|congruence|intros; by rewrite Hk1].
  replace seen with ({[mid]} ∪ seen) by set_solver. eapply settled_step; [done..|].
  inversion V1 as [q q' (_ & Hs' & Ha' & _) Hq|]; subst. exists q. by rewrite Hs', Ha'.
Qed.

Lemma run_new record mid msg v rest seen mids s0 w :
  c_connected self = true → (1 ≤ max_retries (c_config self))%Z →
  extract_message_id record = Ok (Some mid) → mid ≠ ""%string → parse_payload record = Ok msg →
  mid ∈ mids → ready seen mids s0 w → serves mids (w_clock w) s0 →
  st_complete_ok (w_clock w) mid v → mid ∉ seen → w_outcomes w = Ok v :: rest →
  ∃ w', crun (process_record self record) w = (w', Ok tt) ∧ ready ({[mid]} ∪ seen) mids s0 w' ∧
    w_handled w' = w_handled w ++ [msg] ∧ w_dlq w' = w_dlq w ∧ w_outcomes w' = rest ∧
    w_committed w' = Datatypes.S (w_committed w) ∧ w_clock w' = w_clock w ∧ w_poll w' = w_poll w.
Proof.
  intros Hconn Hmax He Hmid Hp Hin (Hset & Hrun & Hcfg & Hclk) Hserve Hcok Hseen Ho.
  pose proof Hset as [Hi Hv]. pose proof (Hv mid Hin) as Hvm. rewrite decide_False in Hvm by done.
  assert (Hok : st_claim_ok (w_clock w) mid (w_store w)).
  { apply Hserve; [done..|]. intros q. by rewrite Hvm. }
  destruct (run_first_success self record mid msg v rest w)
    as (w' & s1 & E & E1 & E2 & Hh & Hd & Ho' & Hn & Ht & Hpl & Hr); [try done; by rewrite Hvm..|].
  destruct (completed_record _ _ _ _ _ _ Hi Hok Hcok E1 E2) as (Hi' & Hf & p & Hvp & Hs & _ & Ha).
  exists w'. split_and!; try done. destruct (Hf) as (Hc & Hk & _).
  split_and!; [|congruence|congruence|intros; by rewrite Hk].
  eapply settled_step; [done..|]. exists p. by rewrite Ha, Hvm.
Qed.

(** One round of the loop. *)
Lemma run_round n record rs w :
  w_poll w = record :: rs → w_running w = true →
  crun (run_records self (Datatypes.S n)) w =
  match crun (process_record self record)
    (mkWorld (w_store w) (w_clock w) (w_outcomes w) (w_handled w) (w_committed w) (w_dlq w)
       (w_registry w) rs true) with
  | (w', Ok _) => crun (run_records self n) w'
  | (w', Err x) => (w', Err x)
  end.
Proof.
  intros Hpoll Hrun. cbn [run_records]. unfold mbind, prog_mbind.
  rewrite run_bind, run_trigger. cbn [ev_handler]. rewrite Hpoll, Hrun. cbn [head tail].
  rewrite run_bind, run_trigger. cbn [ev_handler w_running]. cbv iota. by rewrite run_bind.
Qed.

Lemma run_drained n w :
  w_poll w = [] → ∃ w', crun (run_records self (Datatypes.S n)) w = (w', Ok true) ∧
    w_store w' = w_store w ∧ same_message w w' ∧ w_committed w' = w_committed w ∧ w_poll w' = [] ∧
    w_running w' = w_running w.
Proof.
  intros Hpoll. cbn [run_records]. unfold mbind, prog_mbind.
  rewrite run_bind, run_trigger. cbn [ev_handler]. rewrite Hpoll. cbn.
  eexists. split; [reflexivity|]. by split_and!.
Qed.

Lemma run_stream rs : ∀ n seen vs rest w s0 mids,
  c_connected self = true → (1 ≤ max_retries (c_config self))%Z →
  Forall keyed rs → ids rs ⊆ mids → length rs < n →
  w_poll w = (λ r, r.1.1) <$> rs →
  w_outcomes w = (Ok <$> vs) ++ rest → length vs = length (fresh seen rs) →
  ready seen mids s0 w → serves mids (w_clock w) s0 →
  Forall (λ v, ∀ mid, st_complete_ok (w_clock w) mid v) vs →
  ∃ w', crun (run_records self n) w = (w', Ok true) ∧
    w_handled w' = w_handled w ++ fresh seen rs ∧ w_outcomes w' = rest ∧ w_dlq w' = w_dlq w ∧
    w_committed w' = length rs + w_committed w ∧ w_poll w' = [] ∧
    ready (list_to_set (ids rs) ∪ seen) mids s0 w'.
Proof.
  induction rs as [|[[record mid] msg] rs IH];
    intros n seen vs rest w s0 mids Hconn Hmax Hk Hids Hn Hpoll Ho Hlen Hready Hserve Hcok;
    (destruct n as [|n]; [cbn in Hn; lia|]).
  { destruct vs; [|done]. destruct (run_drained n w Hpoll) as (w' & -> & Hst & (Hh & Hd & Hout & _) & Hc & Hp & Hr).
    exists w'. rewrite app_nil_r. split_and!; try done; [by rewrite Hout, Ho|].
    unfold ready in *. rewrite Hst, Hr. cbn. by rewrite union_empty_l_L. }
  apply Forall_cons in Hk as [(He & Hmid & Hp) Hk].
  rewrite (run_round n record ((λ r, r.1.1) <$> rs)) by (done || apply Hready).
  match goal with |- context [run _ (process_record _ _) ?v] => set (w1 := v) end.
  assert (Hr1 : ready seen mids s0 w1) by (by destruct Hready as (? & ? & ?)).
  assert (Hin : mid ∈ mids) by (apply Hids; by left).
  assert (Hids' : ids rs ⊆ mids) by (intros x Hx; apply Hids; by right).
  cbn [fresh] in *. destruct (decide (mid ∈ seen)) as [Hseen|Hnew].
  - destruct (run_seen record mid seen mids s0 w1) as (w2 & E & Hr2 & (Hh & Hd & Hout & Ht) & Hc & Hpl);
      [done..|]. rewrite E.
    destruct (IH n seen vs rest w2 s0 mids) as (w' & E' & Hh' & Ho' & Hd' & Hc' & Hp' & Hr');
      [done|done|done|done|cbn in Hn; lia|done|by rewrite Hout|done|done|by rewrite Ht|by rewrite Ht|].
    exists w'. rewrite Hh', Ho', Hd', Hc', Hc, Hh, Hd. cbn. split_and!; [done..|lia|done|].
    by replace ({[mid]} ∪ list_to_set (ids rs) ∪ seen) with (list_to_set (ids rs) ∪ seen) by set_solver.
  - destruct vs as [|v vs]; [done|]. apply Forall_cons in Hcok as [Hv Hcok].
    destruct (run_new record mid msg v ((Ok <$> vs) ++ rest) seen mids s0 w1)
      as (w2 & E & Hr2 & Hh & Hd & Hout & Hc & Ht & Hpl); [done..|]. rewrite E.
    destruct (IH n ({[mid]} ∪ seen) vs rest w2 s0 mids) as (w' & E' & Hh' & Ho' & Hd' & Hc' & Hp' & Hr');
      [done|done|done|done|cbn in Hn; lia|done|done|cbn in Hlen; lia|done|by rewrite Ht|by rewrite Ht|].
    exists w'. rewrite Hh', Ho', Hd', Hc', Hc, Hh, Hd, <- app_assoc. cbn. split_and!; [done..|lia|done|].
    by replace ({[mid]} ∪ list_to_set (ids rs) ∪ seen) with (list_to_set (ids rs) ∪ ({[mid]} ∪ seen))
      by set_solver.
Qed.

(** C1: exactly once, whatever Kafka redelivers. A connected consumer polls any sequence of records with
    message ids, in any order and with any duplicates, against a store that serves these messages and
    holds some of them as COMPLETED and none of the others; every call of its handle() returns, with a
    result that the store can hold, and no time passes. Then it hands the payload of each message that
    was not COMPLETED to handle() once, in the order of first delivery, and no other; it commits the
    offset of every record, dead-letters nothing, leaves every message COMPLETED after one attempt, and
    the loop ends with the stream. (When calls may raise and time passes: [stream_settles].) *)
Theorem run_exactly_once rs n seen vs rest w :
  c_connected self = true → (1 ≤ max_retries (c_config self))%Z →
  Forall keyed rs → length rs < n → w_poll w = (λ r, r.1.1) <$> rs → w_running w = true →
  w_outcomes w = (Ok <$> vs) ++ rest → length vs = length (fresh seen rs) →
  settled_store seen (ids rs) (w_store w) → serves (ids rs) (w_clock w) (w_store w) →
  Forall (λ v, ∀ mid, st_complete_ok (w_clock w) mid v) vs →
  ∃ w', crun (run_consumer self n) w = (w', Ok true) ∧
    w_handled w' = w_handled w ++ fresh seen rs ∧ w_outcomes w' = rest ∧ w_dlq w' = w_dlq w ∧
    w_committed w' = length rs + w_committed w ∧ w_poll w' = [] ∧
    settled_store (list_to_set (ids rs) ∪ seen) (ids rs) (w_store w').
Proof.
  intros Hconn Hmax Hk Hn Hpoll Hrun Ho Hlen Hset Hserve Hcok.
  unfold run_consumer. rewrite Hconn.
  destruct (run_stream rs n seen vs rest w (w_store w) (ids rs))
    as (w' & E & Hh & Ho' & Hd & Hc & Hp & (Hs & _)); try done.
  by exists w'.
Qed.

End Stream.

(** ** Evaluated in RedisRetry.v: the stream of a payment and a refund *)

#[local] Existing Instances Memory.memory_store Memory.memory_view Memory.memory_laws.
#[local] Existing Instances json_text text_runtime.

Lemma memory_serves mids c (s : Memory.state) :
  in_datetime c = true →
  in_datetime (c + processing_timeout_seconds (Memory.ms_config s) * 1000000) = true →
  serves mids c s.
Proof. intros H1 H2 s' mid _ _ Hc _ _. cbn in Hc. split; [done|]. by rewrite Hc. Qed.

Definition refund : consumer_record :=
  mkRecord "payments" 1 43 [("X-Message-Id", Some "p2")%string]
    (Some (json_dumps (JObj [("refund", JInt 5)])%string)) None.

(** A stream with redeliveries of both messages. *)
Definition payment_stream : list (consumer_record * string * payload) :=
  let p1 := (payment, "p1", PJson (JObj [("message_id", JStr "p1"); ("amount", JInt 5)]))%string in
  let p2 := (refund, "p2", PJson (JObj [("refund", JInt 5)]))%string in
  [p1; p2; p1; p2].

Definition stream_world {T} (s : T) (c : Z) (outcomes : list (res pyval)) : world T :=
  mkWorld s c outcomes [] 0 [] ∅ ((λ r, r.1.1) <$> payment_stream) true.

Lemma payment_stream_keyed : Forall keyed payment_stream.
Proof. repeat (apply Forall_cons; split; [by vm_compute|]). apply Forall_nil_2. Qed.
