(* ===== verification/Timed.v ===== *)
(** * Time between the records

    The worlds of ConsumerRun.v let time pass while a delivery sleeps.  Here it
    also passes while the consumer waits for a record: the poll loop runs in a
    world and a list of gaps, the waits before its coming polls. *)

From S2P Require Import Prelude Prog PyJson Models Store StoreEvents Metrics.
From S2P Require Import Consumer ConsumerEvents ConsumerRun ConsumerStore ConsumerStream.

(** A handler on a larger state runs a tree like the smaller one, when it does so for its calls. *)
Lemma run_lift {E : Type → Type} {W G A} (h : ∀ X, E X → action W X) (h' : ∀ X, E X → action (W * G) X)
    (Q : ∀ X, E X → Prop) (p : prog E A) g :
  (∀ X (e : E X) w, Q X e → h' X e (w, g) = let '(w', r) := h X e w in ((w', g), r)) →
  all_events Q p → ∀ w, run h' p (w, g) = let '(w', r) := run h p w in ((w', g), r).
Proof.
  intros Hh. induction p as [a|x|X e k IH]; cbn; intros Hp w; [done..|]. destruct Hp as [He Hk].
  rewrite Hh by done. destruct (h X e w) as [w' r]. by apply IH.
Qed.

(** All the gaps. *)
Definition total (gaps : list Z) : Z := foldr Z.add 0%Z gaps.

Lemma total_cons d gaps : total (d :: gaps) = (d + total gaps)%Z.
Proof. done. Qed.

Lemma total_nonneg gaps : Forall (λ d, 0 ≤ d)%Z gaps → (0 ≤ total gaps)%Z.
Proof. induction 1 as [|d gaps Hd _ IH]; [done|]. rewrite total_cons. lia. Qed.

Section Timed.
Context `{!PyRuntime} `{!JsonCodec} {T : Type} `{DedupStoreLaws T}.
Implicit Types w : world T.

Abbreviation crun p w := (run (ev_handler st_elapse) p w).

(** [d] microseconds pass. *)
Definition pass (d : Z) w : world T :=
  mkWorld (st_elapse d (w_store w)) (w_clock w + d) (w_outcomes w) (w_handled w) (w_committed w)
    (w_dlq w) (w_registry w) (w_poll w) (w_running w).

(** The world with [rs] left to poll. *)
Definition polling (rs : list consumer_record) w : world T :=
  mkWorld (w_store w) (w_clock w) (w_outcomes w) (w_handled w) (w_committed w) (w_dlq w)
    (w_registry w) rs (w_running w).

(** A poll takes the next gap, if there is one. *)
Definition wait (gaps : list Z) w : world T := match gaps with d :: _ => pass d w | [] => w end.

Definition timed_handler (X : Type) (e : ev X) : action (world T * list Z) X := λ wg,
  match e in ev X return action (world T * list Z) X with
  | EPoll => λ '(w, gaps),
      let '(w', r) := ev_handler st_elapse _ EPoll (wait gaps w) in ((w', tail gaps), r)
  | e => λ '(w, gaps), let '(w', r) := ev_handler st_elapse _ e w in ((w', gaps), r)
  end wg.

Abbreviation trun p wg := (run timed_handler p wg).

Definition not_poll (X : Type) (e : ev X) : Prop := match e with EPoll => False | _ => True end.

(** A delivery polls nothing. *)
Lemma trun_delivery self record mid w gaps :
  extract_message_id record = Ok (Some mid) →
  trun (process_record self record) (w, gaps) =
  let '(w', r) := crun (process_record self record) w in ((w', gaps), r).
Proof.
  intros He. apply (run_lift _ _ not_poll).
  - by intros X [] w' Hq.
  - by apply (process_events self record mid not_poll); try done; split.
Qed.

(** One round of the loop. *)
Lemma trun_round self n record mid rs gaps w :
  w_poll w = record :: rs → w_running w = true → extract_message_id record = Ok (Some mid) →
  trun (run_records self (S n)) (w, gaps) =
  match crun (process_record self record) (polling rs (wait gaps w)) with
  | (w', Ok _) => trun (run_records self n) (w', tail gaps)
  | (w', Err x) => ((w', tail gaps), Err x)
  end.
Proof.
  intros Hpoll Hrun He. cbn [run_records]. unfold mbind, prog_mbind.
  assert (E1 : timed_handler _ EPoll (w, gaps) = ((polling rs (wait gaps w), tail gaps), Ok (Some record))).
  { unfold timed_handler. cbn [ev_handler]. assert (w_poll (wait gaps w) = record :: rs) as -> by by destruct gaps. done. }
  assert (E2 : timed_handler _ EIsRunning (polling rs (wait gaps w), tail gaps) =
    ((polling rs (wait gaps w), tail gaps), Ok true)) by (destruct gaps; cbn; unfold polling; cbn; by rewrite Hrun).
  rewrite run_bind, run_trigger, E1, run_bind, run_trigger, E2, run_bind.
  rewrite (trun_delivery self record mid) by done.
  by destruct (crun (process_record self record) _) as [w' [[]|x]].
Qed.

Lemma trun_drained self n w :
  w_poll w = [] → ∃ w', trun (run_records self (S n)) (w, []) = ((w', []), Ok true) ∧
    w_store w' = w_store w ∧ same_message w w' ∧ w_committed w' = w_committed w ∧
    w_running w' = w_running w.
Proof.
  intros Hpoll. cbn [run_records]. unfold mbind, prog_mbind.
  rewrite run_bind, run_trigger. cbn [timed_handler ev_handler wait]. rewrite Hpoll. cbn.
  eexists. split; [reflexivity|]. by split_and!.
Qed.

(** Without gaps it is the loop of ConsumerStream.v. *)
Lemma trun_untimed {A} (p : prog ev A) w :
  trun p (w, []) = let '(w', r) := crun p w in ((w', []), r).
Proof. apply (run_lift _ _ (λ _ _, True)); [by intros X [] w' _|]. induction p; cbn; auto. Qed.

End Timed.
