(* ===== verification/Interrupted.v ===== *)
(** * Deliveries that are killed or cancelled

    A process that is killed stops between two calls; a task that is cancelled gets
    [CancelledError] out of the call that it awaits, and its [finally] blocks still
    run.  By Cancellation.v these reach nothing but metrics and the clock, so a
    cancelled task leaves what a killed one leaves. *)

From S2P Require Import Prelude Prog CrashLogic PyJson Models Store StoreEvents Metrics.
From S2P Require Import Consumer ConsumerSpec Cancellation ConsumerRun ConsumerStore.

(** How an execution is stopped: before its call [n]; or by a cancellation that comes out of
    the first call, from [n] on, that can be cancelled, [late] when the call has had its effect. *)
Inductive stop_by :=
| Killed (n : nat)
| Cancelled (n : nat) (late : bool).

Section Interrupt.
Context {E : Type → Type} {W : Type} (h : ∀ X, E X → action W X).

(** The calls that return at once and do not await. *)
Context (sync : ∀ X, E X → bool).

(** The world, and the calls left before the cancellation if it is still to come. *)
Definition interrupting (late : bool) (X : Type) (e : E X) : action (W * option nat) X := λ '(w, due),
  let '(w', r) := h X e w in
  match due with
  | None => ((w', None), r)
  | Some (S n) => ((w', Some n), r)
  | Some O =>
      if sync X e then ((w', Some O), r)
      else ((if late then w' else w, None), Err CancelledError)
  end.

(** Where it leaves the world. *)
Definition stopped (s : stop_by) {A} (p : prog E A) (w : W) : W :=
  match s with
  | Killed n => run_prefix h n p w
  | Cancelled n late => (run (interrupting late) p (w, Some n)).1.1
  end.

(** Calls that are made in worlds that can serve them. *)
Definition served_until (ok : ∀ X, E X → W → Prop) (s : stop_by) {A} (p : prog E A) (w : W) : Prop :=
  match s with
  | Killed n => served h ok n p w
  | Cancelled _ _ => ∀ n, served h ok n p w
  end.

Context (allowed : ∀ X, E X → res X → Prop).
Context (answers : ∀ X (e : E X) w, allowed X e (h X e w).2).
Context (cancels : ∀ X (e : E X), sync X e = false → allowed X e (Err CancelledError)).

(** Worlds that differ in what the synchronous calls change. *)
Context (alike : W → W → Prop) `{!PreOrder alike}.
Context (sync_alike : ∀ X (e : E X) w, sync X e = true → alike w (h X e w).1).

Abbreviation quick := (λ X e, sync X e = true).

(** What the exception unwinds. *)
Lemma unwinds_run late x {A} (p : prog E A) : ∀ n w,
  unwinds allowed quick x n p →
  ∃ w', run (interrupting late) p (w, None) = ((w', None), Err x) ∧ alike w w'.
Proof using PreOrder0 answers sync_alike.
  induction p as [a|y|X e k IH]; intros [|n] w; cbn; try done; try (intros ->; by exists w).
  intros [Hq Hk]. pose proof (answers X e w) as Ha. pose proof (sync_alike X e w Hq) as Hal.
  destruct (h X e w) as [w1 r]. destruct (IH r n w1 (Hk r Ha)) as (w' & E' & Hw').
  exists w'. split; [done|]. by trans w1.
Qed.

(** What it leaves: the end of the run, or the world after some of its calls. *)
Lemma interrupted {A} late m (p : prog E A) : ∀ n w,
  interruptible allowed quick m p →
  (∃ due, run (interrupting late) p (w, Some n) = (((run h p w).1, Some due), (run h p w).2)) ∨
  (∃ i w', n ≤ i ∧ run (interrupting late) p (w, Some n) = ((w', None), Err CancelledError) ∧
     alike (run_prefix h i p w) w').
Proof using PreOrder0 answers cancels sync_alike.
  induction p as [a|y|X e k IH]; intros n w; cbn; [left; by exists n..|]. intros [He Hk].
  pose proof (answers X e w) as Ha. destruct (h X e w) as [w1 r] eqn:Eh. cbn in Ha.
  destruct n as [|n].
  - destruct (sync X e) eqn:Hs.
    + destruct (IH r 0 w1 (Hk r Ha)) as [Hl|(i & w' & Hi & Hr & Hw)]; [by left|right].
      exists (S i), w'. cbn. rewrite Eh. split_and!; [lia|done|done].
    + right. destruct (unwinds_run late CancelledError (k (Err CancelledError)) m (if late then w1 else w))
        as (w' & E' & Hw'); [by apply He, cancels|].
      destruct late; [exists 1, w'|exists 0, w']; cbn; rewrite ?Eh; by split_and!; [lia|..].
  - destruct (IH r n w1 (Hk r Ha)) as [Hl|(i & w' & Hi & Hr & Hw)]; [by left|right].
    exists (S i), w'. cbn. rewrite Eh. split_and!; [lia|done|done].
Qed.

(** The end of a run is a prefix of it. *)
Lemma run_prefix_whole {A} (p : prog E A) : ∀ w, ∃ i, run_prefix h i p w = (run h p w).1.
Proof using Type.
  induction p as [a|y|X e k IH]; intros w; [by exists 0..|]. cbn.
  destruct (h X e w) as [w1 r] eqn:Eh. destruct (IH r w1) as [i Hi]. exists (S i). cbn. by rewrite Eh.
Qed.

(** However it is stopped, it might have been killed. *)
Lemma stopped_as_killed s m {A} (p : prog E A) w :
  interruptible allowed quick m p →
  ∃ i, alike (run_prefix h i p w) (stopped s p w) ∧ ∀ ok, served_until ok s p w → served h ok i p w.
Proof using PreOrder0 answers cancels sync_alike.
  intros Hp. destruct s as [n|n late]; [by exists n|]. cbn.
  destruct (interrupted late m p n w Hp) as [[due E']|(i & w' & _ & E' & Hw)]; rewrite E'; cbn.
  - destruct (run_prefix_whole p w) as [i <-]. exists i. by split; [|auto].
  - exists i. by split; [|auto].
Qed.

End Interrupt.

(** ** The consumer *)
Section Consumer.
Context `{!PyRuntime} `{!JsonCodec} {T : Type} `{DedupStoreLaws T}.
Implicit Types w : world T.

(** Metrics and readings of the clock are no awaits. *)
Definition synchronous (X : Type) (e : ev X) : bool :=
  match e with EMetric _ | EPerfCounter => true | _ => false end.

Lemma synchronous_quick X (e : ev X) : synchronous X e = true ↔ quick X e.
Proof. by destruct e. Qed.

Lemma interruptible_sync n {A} (p : prog ev A) :
  interruptible (@allowed) quick n p → interruptible (@allowed) (λ X e, synchronous X e = true) n p.
Proof.
  assert (Hun : ∀ x m (q : prog ev A), unwinds (@allowed) quick x m q →
    unwinds (@allowed) (λ X e, synchronous X e = true) x m q).
  { intros x m q. revert m. induction q as [a|y|X e k IH]; intros [|m]; cbn; try done.
    intros [He Hk]. split; [by apply synchronous_quick|]. intros r Hr. by apply IH, Hk. }
  induction p as [a|y|X e k IH]; cbn; [done..|]. intros [He Hk]. split; [|intros r Hr; by apply IH, Hk].
  intros x Hx Ha. by apply Hun, He.
Qed.

Lemma ev_answers X (e : ev X) w : allowed e (ev_handler st_elapse X e w).2.
Proof. destruct e; try done; cbn; unfold on_store; by destruct (call_store _ _ _). Qed.

Lemma ev_cancels X (e : ev X) : synchronous X e = false → allowed e (Err CancelledError).
Proof. by destruct e. Qed.

(** All but the registry. *)
Definition same_but_metrics w w' : Prop := w' = with_registry (w_registry w') w.

#[export] Instance same_but_metrics_preorder : PreOrder same_but_metrics.
Proof.
  split; [by intros []|]. intros w1 w2 w3 H12 H23. unfold same_but_metrics in *. rewrite H23, H12. done.
Qed.

Lemma sync_same_but_metrics X (e : ev X) w :
  synchronous X e = true → same_but_metrics w (ev_handler st_elapse X e w).1.
Proof. destruct e; try done; by destruct w. Qed.

(** A cancelled delivery leaves, but for the metrics, what a delivery leaves that dies. *)
Lemma delivery_stopped self record s w :
  ∃ i, same_but_metrics (run_prefix (ev_handler st_elapse) i (process_record self record) w)
    (stopped (ev_handler st_elapse) synchronous s (process_record self record) w).
Proof.
  destruct (stopped_as_killed (ev_handler st_elapse) synchronous (@allowed) ev_answers ev_cancels
    same_but_metrics sync_same_but_metrics s 5 (process_record self record) w) as (i & Hi & _);
    [apply interruptible_sync, interruptible_process|by exists i].
Qed.

(** C21: a consumer that is cancelled has been cut off.  The task of run() is cancelled: after [n] of its
    calls [CancelledError] comes out of the first one that awaits, the poll, a call of the store,
    handle(), the back-off, the dead letter or the commit, whether or not that call has had its effect.
    Then either run() had ended before; or it ends with this exception, and what it leaves (store,
    clock, calls of handle(), commits, dead letters, what is still to be polled) is what it leaves when
    the process is killed at that call: only the metrics may differ. *)
Theorem cancelled_as_killed self rounds n late w :
  let h := ev_handler st_elapse in
  let p := run_consumer self rounds in
  (∃ due, run (interrupting h synchronous late) p (w, Some n) = (((run h p w).1, Some due), (run h p w).2)) ∨
  (∃ i w', n ≤ i ∧ run (interrupting h synchronous late) p (w, Some n) = ((w', None), Err CancelledError) ∧
     same_but_metrics (run_prefix h i p w) w').
Proof.
  apply (interrupted (ev_handler st_elapse) synchronous (@allowed) ev_answers ev_cancels
    same_but_metrics sync_same_but_metrics late 5), interruptible_sync, interruptible_run.
Qed.

End Consumer.
