(* ===== verification/Window.v ===== *)
(** * The deduplication window

    The poll loop over a stream in which time passes between the records, on a
    store that forgets: it hands to handle() what a reference function selects,
    which knows nothing but when each message was handled last. *)

From S2P Require Import Prelude Prog Utf8 PyJson JsonText Models Store MemoryStore StoreEvents Metrics.
From S2P Require Import Consumer ConsumerRun ConsumerStore ConsumerStream Timed.

(** ** The reference *)

Abbreviation polled := (consumer_record * string * payload)%type.

Section Reference.

(** Is a message first claimed at one time still remembered at another? *)
Context (remembers : Z → Z → bool).

(** [born]: when each message was claimed for the first time, or again after it was forgotten. *)
Definition remembered (born : gmap string Z) (c : Z) (mid : string) : bool :=
  match born !! mid with Some t => remembers t c | None => false end.

(** The calls of handle(), with their times, for records that arrive after gaps. *)
Fixpoint windowed (born : gmap string Z) (c : Z) (rs : list (Z * polled)) : list (Z * string * payload) :=
  match rs with
  | [] => []
  | (d, (_, mid, msg)) :: rs' =>
      if remembered born (c + d) mid then windowed born (c + d) rs'
      else (c + d, mid, msg)%Z :: windowed (<[mid := c + d]> born)%Z (c + d) rs'
  end.

(** What is remembered at the end. *)
Fixpoint births (born : gmap string Z) (c : Z) (rs : list (Z * polled)) : gmap string Z :=
  match rs with
  | [] => born
  | (d, (_, mid, _)) :: rs' =>
      births (if remembered born (c + d) mid then born else <[mid := c + d]> born)%Z (c + d) rs'
  end.

(** The times of the arrivals. *)
Fixpoint arrivals (c : Z) (rs : list (Z * polled)) : list (Z * string) :=
  match rs with
  | [] => []
  | (d, (_, mid, _)) :: rs' => (c + d, mid)%Z :: arrivals (c + d) rs'
  end.

(** A longer memory for what was claimed later. *)
Context (remembers_later : ∀ t t' c, (t ≤ t')%Z → remembers t c = true → remembers t' c = true).

Lemma windowed_forgotten rs : ∀ born c t0 t mid msg,
  Forall (λ d, 0 ≤ d)%Z rs.*1 → born !! mid = Some t0 → (t0 ≤ c)%Z →
  (t, mid, msg) ∈ windowed born c rs → remembers t0 t = false.
Proof using remembers_later.
  induction rs as [|[d [[record m] msg'] ] rs IH]; intros born c t0 t mid msg Hd Hb Hle; cbn; [by intros ?%elem_of_nil|].
  apply Forall_cons in Hd as [Hd Hds]. cbn in Hd.
  destruct (remembered born (c + d) m) eqn:Hm; [apply IH; [done..|lia]|].
  destruct (decide (m = mid)) as [->|Hne].
  - unfold remembered in Hm. rewrite Hb in Hm. intros [[= -> ->]|Hin]%elem_of_cons; [done|].
    apply IH with (t0 := (c + d)%Z) in Hin; [|done|by rewrite lookup_insert_eq|lia].
    destruct (remembers t0 t) eqn:Ht; [|done]. rewrite <- Hin. symmetry. eapply remembers_later; [|done]. lia.
  - intros [[= -> <-]|Hin]%elem_of_cons; [done|]. eapply (IH _ (c + d)%Z); [done|by rewrite lookup_insert_ne|lia|done].
Qed.

(** No message is handled again while it is remembered. *)
Lemma windowed_apart rs : ∀ born c i j t1 t2 mid m1 m2,
  Forall (λ d, 0 ≤ d)%Z rs.*1 → i < j →
  windowed born c rs !! i = Some (t1, mid, m1) → windowed born c rs !! j = Some (t2, mid, m2) →
  remembers t1 t2 = false.
Proof using remembers_later.
  induction rs as [|[d [[record m] msg'] ] rs IH]; intros born c i j t1 t2 mid m1 m2 Hd Hlt; cbn; [done|].
  apply Forall_cons in Hd as [Hd Hds]. cbn in Hd.
  destruct (remembered born (c + d) m); [by apply IH|].
  destruct j as [|j]; [lia|]. destruct i as [|i]; cbn; [|apply IH; [done|lia] ].
  intros [= -> -> ->] Hj. eapply windowed_forgotten; [done|by rewrite lookup_insert_eq|done|].
  by eapply list_elem_of_lookup_2.
Qed.

(** Every arrival is handled, or follows a call that is remembered. *)
Lemma windowed_covers rs : ∀ born c a mid,
  Forall (λ d, 0 ≤ d)%Z rs.*1 → (∀ m t, born !! m = Some t → t ≤ c)%Z → (a, mid) ∈ arrivals c rs →
  ∃ t, (t ≤ a)%Z ∧ (t = a ∨ remembers t a = true) ∧
    (born !! mid = Some t ∨ ∃ msg, (t, mid, msg) ∈ windowed born c rs).
Proof using Type.
  induction rs as [|[d [[record m] msg'] ] rs IH]; intros born c a mid Hd Hb; cbn; [by intros ?%elem_of_nil|].
  apply Forall_cons in Hd as [Hd Hds]. cbn in Hd.
  assert (Hb' : ∀ m' t, born !! m' = Some t → (t ≤ c + d)%Z) by (intros m' t Hm'; specialize (Hb m' t Hm'); lia).
  destruct (remembered born (c + d) m) eqn:Hm; intros [[= -> ->]|Hin]%elem_of_cons.
  - unfold remembered in Hm. destruct (born !! m) as [t|] eqn:Ht; [|done].
    exists t. split; [by eapply Hb'|]. split; [by right|by left].
  - by apply IH.
  - exists (c + d)%Z. split; [done|]. split; [by left|]. right. exists msg'. by left.
  - destruct (IH (<[m := c + d]> born)%Z (c + d)%Z a mid) as (t & Hle & Ht & Hw); [done| |done|].
    { intros m' t. rewrite lookup_insert. case_decide; [by intros [= <-]|apply Hb']. }
    exists t. split; [done|]. split; [done|]. destruct Hw as [Hbt|(msg & Hw)]; [|right; exists msg; by right].
    rewrite lookup_insert in Hbt. case_decide as Hk; [subst|by left].
    injection Hbt as <-. right. exists msg'. by left.
Qed.

(** At most one call for each record. *)
Lemma windowed_length rs : ∀ born c, length (windowed born c rs) ≤ length rs.
Proof using Type.
  induction rs as [|[d [[record m] msg'] ] rs IH]; intros born c; [done|]. cbn.
  destruct (remembered _ _ _); cbn; [specialize (IH born (c + d)%Z)|specialize (IH (<[m := c + d]> born)%Z (c + d)%Z)]; lia.
Qed.

(** While everything is remembered, the reference is that of ConsumerStream.v. *)
Lemma windowed_fresh c0 limit rs : ∀ born c,
  (∀ t t', (c0 ≤ t ≤ t')%Z → (t' ≤ limit)%Z → remembers t t' = true) →
  (∀ mid t, born !! mid = Some t → c0 ≤ t ≤ c)%Z → (c0 ≤ c)%Z →
  Forall (λ d, 0 ≤ d)%Z rs.*1 → (c + total rs.*1 ≤ limit)%Z →
  (windowed born c rs).*2 = fresh (dom born) rs.*2.
Proof using Type.
  induction rs as [|[d [[record m] msg'] ] rs IH]; intros born c Hr Hb Hc Hd Hlim; [done|].
  rewrite fmap_cons in Hd, Hlim. rewrite total_cons in Hlim. apply Forall_cons in Hd as [Hd Hds]. cbn [fst] in *.
  pose proof (total_nonneg _ Hds). rewrite fmap_cons. cbn [windowed fresh snd]. unfold remembered.
  destruct (born !! m) as [t|] eqn:Hm.
  - rewrite decide_True by by apply elem_of_dom_2 in Hm. specialize (Hb m t Hm) as Hbm.
    rewrite Hr by lia. apply IH; try done; [intros m' t' Hm'; specialize (Hb m' t' Hm'); lia|lia|lia].
  - rewrite decide_False by by apply not_elem_of_dom. rewrite fmap_cons. cbn [snd]. f_equal.
    rewrite <- dom_insert_L with (x := (c + d)%Z). apply IH; try done; [|lia|lia].
    intros m' t'. rewrite lookup_insert. case_decide; [intros [= <-]; lia|intros Hm'].
    specialize (Hb m' t' Hm'). lia.
Qed.

End Reference.

(** ** A store that remembers for a while

    [P born c s]: at the clock [c] the store [s] serves the messages [mids] up to
    [limit], and has a record of exactly those that [born] says are remembered. *)
Class Window {T : Type} `{DedupStoreLaws T} (mids : list string) (limit : Z) (remembers : Z → Z → bool)
    (P : gmap string Z → Z → T → Prop) : Prop := {
  win_inv : ∀ b c s, P b c s → st_inv s;
  win_later : ∀ t t' c, (t ≤ t')%Z → remembers t c = true → remembers t' c = true;
  win_claim_ok : ∀ b c s mid, P b c s → mid ∈ mids →
    (∀ p, st_view s mid = Some p → ps_attempts p = 1%Z) → st_claim_ok c mid s;
  win_view : ∀ b c s mid, P b c s → mid ∈ mids →
    bool_decide (is_Some (st_view s mid)) = remembered remembers b c mid;
  win_refuse : ∀ b c s s' mid, P b c s → mid ∈ mids → st_claim_ok c mid s →
    claim c mid s = (s', Ok false) → P b c s';
  win_first : ∀ b c s s' mid, P b c s → mid ∈ mids → st_claim_ok c mid s → st_view s mid = None →
    claim c mid s = (s', Ok true) → P (<[mid := c]> b) c s';
  win_complete : ∀ b c s s' mid v, P b c s → mid ∈ mids → st_complete_ok c mid v →
    mark_completed c mid v s = (s', Ok tt) → P b c s';
  win_elapse : ∀ b c s d, P b c s → (0 ≤ d)%Z → (c + d ≤ limit)%Z → P b (c + d)%Z (st_elapse d s);
}.

Section Windowed.
Context `{!PyRuntime} `{!JsonCodec} {T : Type} `{DedupStoreLaws T}.
Implicit Types w : world T.

Abbreviation crun p w := (run (ev_handler st_elapse) p w).
Abbreviation trun p wg := (run timed_handler p wg).

Context (self : consumer) (mids : list string) (limit : Z) (remembers : Z → Z → bool).
Context (P : gmap string Z → Z → T → Prop) `{!Window mids limit remembers P}.
Context (connected : c_connected self = true) (attempts_allowed : (1 ≤ max_retries (c_config self))%Z).

(** Between deliveries every record is COMPLETED. *)
Definition all_completed (s : T) : Prop :=
  ∀ mid p, mid ∈ mids → st_view s mid = Some p → ps_status p = COMPLETED ∧ ps_attempts p = 1%Z.

Record resting (b : gmap string Z) w : Prop := {
  re_store : P b (w_clock w) (w_store w);
  re_completed : all_completed (w_store w);
  re_running : w_running w = true;
}.

Lemma all_completed_step mid s s' :
  all_completed s → st_frame mid s s' →
  (∀ p, st_view s' mid = Some p → ps_status p = COMPLETED ∧ ps_attempts p = 1%Z) → all_completed s'.
Proof.
  intros Hs (_ & _ & Hf) Hmid m p Hm. destruct (decide (m = mid)) as [->|Hne]; [apply Hmid|].
  rewrite Hf by done. by apply Hs.
Qed.

(** A gap, and the poll that ends it. *)
Lemma resting_pass b d rs w :
  resting b w → (0 ≤ d)%Z → (w_clock w + d ≤ limit)%Z → resting b (polling rs (pass d w)).
Proof.
  intros [Hp Hc Hr] Hd Hl. split; [by eapply win_elapse| |done]. intros mid p Hm Hv. cbn in Hv.
  destruct (elapse_view d (w_store w) mid Hd) as [[_ E]|[_ E]];
    [by eapply win_inv|rewrite E in Hv; by eapply Hc|by rewrite E in Hv].
Qed.

(** A record whose message is remembered. *)
Lemma window_skips b record mid w :
  extract_message_id record = Ok (Some mid) → mid ∈ mids → resting b w →
  remembered remembers b (w_clock w) mid = true →
  ∃ w', crun (process_record self record) w = (w', Ok tt) ∧ resting b w' ∧ same_message w w' ∧
    w_committed w' = S (w_committed w) ∧ w_poll w' = w_poll w.
Proof.
  intros He Hm [Hp Hc Hr] Hrem. assert (Hi := win_inv _ _ _ Hp).
  assert (Hok : st_claim_ok (w_clock w) mid (w_store w)).
  { eapply win_claim_ok; [done..|]. intros p Hv. by eapply Hc. }
  rewrite <- (win_view _ _ _ _ Hp Hm), bool_decide_eq_true in Hrem. destruct Hrem as [p Hv].
  destruct (Hc mid p Hm Hv) as [Hs Ha].
  destruct (run_refused self record mid w) as (w' & E & Hsame & Ecl & Hn & Hpl & Hr'); [done..| |].
  { rewrite Hv. cbn. unfold Spec.retryable, Spec.orphaned, is_failed. by rewrite Hs. }
  exists w'. split_and!; try done. destruct (claim_spec _ _ _ Hi Hok) as (s1 & E1 & _ & Hf & V).
  rewrite Ecl in E1. injection E1 as <- Hb. unfold Spec.do_claim in V, Hb.
  destruct (Spec.claimable _ _ _); [done|]. cbn in V. rewrite Hv in V.
  split; [|eapply all_completed_step; [done..|]|congruence].
  - destruct Hsame as (_ & _ & _ & ->). by eapply win_refuse.
  - intros q Hq. rewrite Hq in V. inversion V as [? ? (_ & Hs' & Ha' & _)|]; subst. by rewrite Hs', Ha'.
Qed.

(** A record whose message is new, or forgotten. *)
Lemma window_handles b record mid msg v rest w :
  keyed (record, mid, msg) → mid ∈ mids → resting b w → st_complete_ok (w_clock w) mid v →
  remembered remembers b (w_clock w) mid = false → w_outcomes w = Ok v :: rest →
  ∃ w', crun (process_record self record) w = (w', Ok tt) ∧ resting (<[mid := w_clock w]> b) w' ∧
    w_handled w' = w_handled w ++ [msg] ∧ w_dlq w' = w_dlq w ∧ w_outcomes w' = rest ∧
    w_committed w' = S (w_committed w) ∧ w_clock w' = w_clock w ∧ w_poll w' = w_poll w.
Proof.
  intros (He & Hne & Hpay) Hm [Hp Hc Hr] Hcok Hrem Ho. assert (Hi := win_inv _ _ _ Hp).
  assert (Hok : st_claim_ok (w_clock w) mid (w_store w)).
  { eapply win_claim_ok; [done..|]. intros p Hv. by eapply Hc. }
  rewrite <- (win_view _ _ _ _ Hp Hm), bool_decide_eq_false, <- eq_None_not_Some in Hrem.
  destruct (run_first_success self record mid msg v rest w)
    as (w' & s1 & E & E1 & E2 & Hh & Hd & Ho' & Hn & Ht & Hpl & Hr'); [try done; by rewrite Hrem..|].
  destruct (completed_record _ _ _ _ _ _ Hi Hok Hcok E1 E2) as (_ & Hf & p & Hvp & Hs & _ & Ha).
  exists w'. split_and!; try done. rewrite Hrem in Ha. split.
  - rewrite Ht. eapply win_complete; [|done..]. by eapply win_first.
  - eapply all_completed_step; [done..|]. intros q Hq. rewrite Hvp in Hq. by injection Hq as <-.
  - congruence.
Qed.

Lemma run_windowed rs : ∀ n b vs rest w,
  Forall keyed rs.*2 → ids rs.*2 ⊆ mids → length rs < n → Forall (λ d, 0 ≤ d)%Z rs.*1 →
  w_poll w = (λ r, r.1.1) <$> rs.*2 → (w_clock w + total rs.*1 ≤ limit)%Z →
  w_outcomes w = (Ok <$> vs) ++ rest → length vs = length (windowed remembers b (w_clock w) rs) →
  Forall (λ v, ∀ c mid, (w_clock w ≤ c ≤ limit)%Z → st_complete_ok c mid v) vs → resting b w →
  ∃ w', trun (run_records self n) (w, rs.*1) = ((w', []), Ok true) ∧
    w_handled w' = w_handled w ++ (windowed remembers b (w_clock w) rs).*2 ∧ w_outcomes w' = rest ∧
    w_dlq w' = w_dlq w ∧ w_committed w' = length rs + w_committed w ∧
    w_clock w' = (w_clock w + total rs.*1)%Z ∧ resting (births remembers b (w_clock w) rs) w'.
Proof.
  induction rs as [|[d [[record mid] msg] ] rs IH];
    intros n b vs rest w Hk Hids Hn Hd Hpoll Hlim Ho Hlen Hcok Hrest; (destruct n as [|n]; [cbn in Hn; lia|]).
  { destruct vs; [|done]. destruct (trun_drained self n w Hpoll) as (w' & E & Hst & (Hh & Hdl & Hout & Ht) & Hc & Hr).
    exists w'. split; [exact E|]. cbn. rewrite app_nil_r. destruct Hrest. split_and!; try done; [by rewrite Hout, Ho|lia|].
    split; [by rewrite Ht, Hst|by rewrite Hst|congruence]. }
  rewrite !fmap_cons in *. cbn [fst snd] in *. rewrite total_cons in *.
  apply Forall_cons in Hk as [(He & Hmid & Hp) Hk]. apply Forall_cons in Hd as [Hd Hds].
  pose proof (total_nonneg _ Hds) as Htot.
  rewrite (trun_round self n record mid ((λ r, r.1.1) <$> rs.*2)) by (done || apply Hrest).
  change (wait _ w) with (pass d w). cbn [tail]. set (w1 := polling _ (pass d w)).
  assert (Hr1 : resting b w1) by (apply resting_pass; [done..|lia]).
  assert (Hin : mid ∈ mids) by (apply Hids; by left).
  assert (Hids' : ids rs.*2 ⊆ mids) by (intros x Hx; apply Hids; by right).
  assert (Hc1 : w_clock w1 = (w_clock w + d)%Z) by done.
  cbn [windowed births] in *. destruct (remembered _ b (w_clock w + d) mid) eqn:Hrem.
  - destruct (window_skips b record mid w1) as (w2 & E & Hr2 & (Hh & Hdl & Hout & Ht) & Hc & Hpl); [done..|].
    rewrite E. rewrite <- Hc1, <- Ht in Hlen |- *.
    destruct (IH n b vs rest w2) as (w' & E' & Hh' & Ho' & Hd' & Hc' & Ht' & Hr');
      [done|done|cbn in Hn; lia|done|done|rewrite Ht; lia|by rewrite Hout|done| |done|].
    { eapply Forall_impl; [exact Hcok|]. intros v Hv c m Hcl. apply Hv. lia. }
    exists w'. rewrite Hh', Ho', Hd', Hc', Hh, Hdl, Hc, Ht'. cbn. split_and!; try done; lia.
  - destruct vs as [|v vs]; [done|]. apply Forall_cons in Hcok as [Hv Hcok].
    destruct (window_handles b record mid msg v ((Ok <$> vs) ++ rest) w1)
      as (w2 & E & Hr2 & Hh & Hdl & Hout & Hc & Ht & Hpl); [done..|apply Hv; lia|done|done|].
    rewrite E. rewrite <- Hc1, <- Ht in Hlen |- *. rewrite <- Ht in Hr2.
    destruct (IH n (<[mid := w_clock w2]> b) vs rest w2) as (w' & E' & Hh' & Ho' & Hd' & Hc' & Ht' & Hr');
      [done|done|cbn in Hn; lia|done|done|rewrite Ht; lia|done|cbn in Hlen; lia| |done|].
    { eapply Forall_impl; [exact Hcok|]. intros v' Hv' c m Hcl. apply Hv'. lia. }
    exists w'. rewrite Hh', Ho', Hd', Hc', Hh, Hdl, Hc, Ht', <- app_assoc. cbn. split_and!; try done; lia.
Qed.

(** C2: the poll loop is a filter with a window. A connected consumer polls any sequence of records with
    message ids, with any duplicates, while any time passes between them, on a store that remembers a
    message for a while after its first claim; every call of its handle() returns, with a result that the
    store can hold. Then it hands to handle(), in order, exactly what the reference [windowed] selects,
    which handles a record when its message is not remembered at the time; it commits every record, dead-
    letters nothing, and at the end the store has the records that the reference remembers, all
    COMPLETED. *)
Theorem stream_windowed rs n b vs rest w :
  Forall keyed rs.*2 → ids rs.*2 ⊆ mids → length rs < n → Forall (λ d, 0 ≤ d)%Z rs.*1 →
  w_poll w = (λ r, r.1.1) <$> rs.*2 → (w_clock w + total rs.*1 ≤ limit)%Z →
  w_outcomes w = (Ok <$> vs) ++ rest → length vs = length (windowed remembers b (w_clock w) rs) →
  Forall (λ v, ∀ c mid, (w_clock w ≤ c ≤ limit)%Z → st_complete_ok c mid v) vs → resting b w →
  ∃ w', trun (run_consumer self n) (w, rs.*1) = ((w', []), Ok true) ∧
    w_handled w' = w_handled w ++ (windowed remembers b (w_clock w) rs).*2 ∧ w_outcomes w' = rest ∧
    w_dlq w' = w_dlq w ∧ w_committed w' = length rs + w_committed w ∧
    w_clock w' = (w_clock w + total rs.*1)%Z ∧ all_completed (w_store w') ∧
    ∀ mid, mid ∈ mids → bool_decide (is_Some (st_view (w_store w') mid)) =
      remembered remembers (births remembers b (w_clock w) rs) (w_clock w') mid.
Proof.
  intros. unfold run_consumer. rewrite connected.
  destruct (run_windowed rs n b vs rest w) as (w' & E & Hh & Ho & Hd & Hc & Ht & [Hp Hcomp Hr]); [done..|].
  exists w'. split_and!; try done. intros mid Hm. by eapply win_view.
Qed.

End Windowed.
