(* ===== verification/ConsumerRetry.v ===== *)
(** * Retries against a store

    A delivery of a new message, from its claim to the end of the retry loop, on
    any store that serves the message meanwhile: the record, the handler calls,
    the dead letter and the time that passes, for any number of failed attempts.
    The in-memory store is such a store here, the Redis store in RedisRetry.v. *)

From S2P Require Import Prelude Prog Utf8 PyJson JsonText Models Store MemoryStore StoreEvents Metrics.
From S2P Require Import Consumer ConsumerRun ConsumerStore.
Import Spec.

(** ** A period in which the store serves a message

    [P c s]: at the clock [c], up to [limit], the store [s] has the configuration
    [cfg], can represent what is claimed and marked for [mid], and lets no record
    of [mid] expire.  MemoryStore.v and the Redis store have such periods
    ([memory_steady] below, RedisRetry.v). *)
Class Steady {T : Type} `{DedupStoreLaws T} (cfg : DeduplicationConfig) (mid : string) (limit : Z)
    (P : Z → T → Prop) : Prop := {
  steady_inv : ∀ c s, P c s → st_inv s;
  steady_config : ∀ c s, P c s → st_config s = cfg;
  steady_claim_ok : ∀ c s, P c s →
    (∀ p, st_view s mid = Some p → 0 ≤ ps_attempts p ≤ max_retries cfg)%Z → st_claim_ok c mid s;
  steady_claim : ∀ c s s' b, P c s → st_claim_ok c mid s → claim c mid s = (s', Ok b) → P c s';
  steady_complete : ∀ c s s' v, P c s → st_complete_ok c mid v →
    mark_completed c mid v s = (s', Ok tt) → P c s';
  steady_fail : ∀ c s s' e a, P c s → st_fail_ok c mid e a →
    mark_failed c mid e a s = (s', Ok tt) → P c s';
  steady_elapse : ∀ c s d, P c s → (0 ≤ d)%Z → (c + d ≤ limit)%Z →
    P (c + d)%Z (st_elapse d s) ∧ (is_Some (st_view s mid) → st_survives d s mid);
}.

Section Retries.
Context `{!PyRuntime} `{!JsonCodec} {T : Type} `{DedupStoreLaws T}.
Implicit Types w : world T.

Abbreviation crun p w := (run (ev_handler st_elapse) p w).

Context (self : consumer) (record : consumer_record) (mid : string) (msg : payload).
Context (mid_nonempty : mid ≠ ""%string).

Abbreviation cfg := (c_config self).

Context (limit : Z) (P : Z → T → Prop) `{!Steady cfg mid limit P}.

(** The record of [mid] in the world. *)
Definition mem_record w : option ProcessingStatus := st_view (w_store w) mid.

Definition steady w : Prop := P (w_clock w) (w_store w).

(** The delivery of one message leaves the stream alone, and the records of the other messages that
    the store serves in the period. *)
Record elsewhere w w' : Prop := {
  el_poll : w_poll w' = w_poll w;
  el_running : w_running w' = w_running w;
  el_others : ∀ m, m ≠ mid → Steady cfg m limit P → st_view (w_store w') m = st_view (w_store w) m;
}.

Lemma elsewhere_refl w w' :
  w_poll w' = w_poll w → w_running w' = w_running w → w_store w' = w_store w → elsewhere w w'.
Proof. intros Hp Hr Hs. split; [done..|]. by rewrite Hs. Qed.

Lemma elsewhere_trans w1 w2 w3 : elsewhere w1 w2 → elsewhere w2 w3 → elsewhere w1 w3.
Proof.
  intros [Hp1 Hr1 Hv1] [Hp2 Hr2 Hv2]. split; [congruence..|].
  intros m Hm Hst. by rewrite Hv2, Hv1.
Qed.

Lemma elsewhere_call w w' :
  w_poll w' = w_poll w → w_running w' = w_running w → st_frame mid (w_store w) (w_store w') →
  elsewhere w w'.
Proof. intros Hp Hr (_ & _ & Hf). split; [done..|]. intros m Hm _. by apply Hf. Qed.

(** What a step of the retry loop leaves alone. *)
Definition same_rest w w' : Prop :=
  w_dlq w' = w_dlq w ∧ w_committed w' = w_committed w ∧ w_handled w' = w_handled w ∧
  w_outcomes w' = w_outcomes w ∧ elsewhere w w'.

(** Attempt [a] is in progress: the claim is ours. *)
Definition attempting (a : Z) w : Prop :=
  steady w ∧ ∃ p, mem_record w = Some p ∧ ps_status p = PROCESSING ∧ ps_attempts p = a.

(** Attempt [a] has failed with [x]. *)
Definition failed_at (a : Z) (x : exn) w : Prop :=
  steady w ∧ ∃ p, mem_record w = Some p ∧ ps_status p = FAILED ∧ ps_attempts p = a ∧
    ps_error p = Some (exn_str x).

Lemma truthy_mid : truthy_str (Some mid) = Some mid.
Proof. unfold truthy_str. by rewrite decide_False. Qed.

Lemma run_mark_failed a x w :
  attempting a w → st_fail_ok (w_clock w) mid (exn_str x) a →
  ∃ w', crun (measure_store_op "mark_failed" (trigger (EStore (EMarkFailed mid (exn_str x) a)))) w
      = (w', Ok tt) ∧
    failed_at a x w' ∧ same_rest w w' ∧ w_clock w' = w_clock w.
Proof.
  intros (Hst & p & Hp & Hs & Ha) Hok. unfold mem_record in Hp.
  destruct (mark_failed_spec (w_store w) (w_clock w) mid (exn_str x) a) as (s' & E & _ & Hf & V);
    [by eapply steady_inv|done|].
  rewrite Hp in V. cbn in V. rewrite decide_False in V by tauto.
  inversion V as [q q' (_ & Hs' & Ha' & _ & He' & _) Hq|]; subst.
  eexists. split; [by apply (run_measured _ (EMarkFailed mid (exn_str x) (ps_attempts p)) w s' (Ok tt))|].
  split_and!; [|by split_and!; [..|by apply elsewhere_call]|done]. split; [by eapply steady_fail|]. by exists q.
Qed.

(** A claim that is won. *)
Lemma run_claim_wins w :
  steady w → st_claim_ok (w_clock w) mid (w_store w) →
  claimable cfg (st_clock (w_clock w) (w_store w)) (mem_record w) = true →
  ∃ w', crun (measure_store_op "claim" (trigger (EStore (EClaim mid)))) w = (w', Ok true) ∧
    attempting (match mem_record w with None => 1 | Some p => ps_attempts p + 1 end) w' ∧
    same_rest w w' ∧ w_clock w' = w_clock w.
Proof.
  intros Hst Hok Hc.
  destruct (claim_spec (w_store w) (w_clock w) mid) as (s' & E & _ & Hf & V); [by eapply steady_inv|done|].
  rewrite (steady_config _ _ Hst) in E, V. unfold do_claim, mem_record in *. rewrite Hc in E, V.
  cbn in E, V. inversion V as [q q' (_ & Hs' & Ha' & _) Hq|]; subst.
  eexists. split; [by apply (run_measured _ (EClaim mid) w s' (Ok true))|].
  split_and!; [|by split_and!; [..|by apply elsewhere_call]|done]. split; [by eapply steady_claim|]. by exists q.
Qed.

Lemma run_reclaim a x w :
  failed_at a x w → retry_failed cfg = true → (1 ≤ a < max_retries cfg)%Z →
  ∃ w', crun (measure_store_op "claim" (trigger (EStore (EClaim mid)))) w = (w', Ok true) ∧
    attempting (a + 1) w' ∧ same_rest w w' ∧ w_clock w' = w_clock w.
Proof.
  intros (Hst & p & Hp & Hs & Ha & _) Hrf Hlt.
  destruct (run_claim_wins w Hst) as (w' & E & Hat & ?).
  - eapply steady_claim_ok; [done|]. intros p' Hp'. unfold mem_record in Hp.
    rewrite Hp in Hp'. injection Hp' as <-. lia.
  - rewrite Hp. cbn. unfold retryable, is_failed.
    rewrite Hs, Ha, Hrf, bool_decide_true by done. by rewrite (proj2 (Z.ltb_lt _ _)) by lia.
  - exists w'. rewrite Hp, Ha in Hat. done.
Qed.

(** The waits after [k] failures from attempt [a] on: 1000 b (a + (a+1) + ... ) microseconds. *)
Definition waited (a : Z) (k : nat) : Z :=
  500 * retry_backoff_ms cfg * Z.of_nat k * (2 * a + Z.of_nat k - 1).

Lemma waited_S a k :
  waited a (S k) = (retry_backoff_ms cfg * a * 1000 + waited (a + 1) k)%Z.
Proof. unfold waited. lia. Qed.

Lemma waited_nonneg a k : (0 ≤ retry_backoff_ms cfg)%Z → (1 ≤ a)%Z → (0 ≤ waited a k)%Z.
Proof. intros. unfold waited. apply Z.mul_nonneg_nonneg; [apply Z.mul_nonneg_nonneg|]; lia. Qed.

(** The store can represent a failure with [x]. *)
Definition reportable (x : exn) : Prop :=
  exn_is_exception x = true ∧
  ∀ c s a, P c s → (1 ≤ a ≤ max_retries cfg)%Z → st_fail_ok c mid (exn_str x) a.

(** The marking of a failure, before the loop decides how to go on. *)
Lemma run_on_failure a x w :
  attempting a w → reportable x → (1 ≤ a ≤ max_retries cfg)%Z →
  ∃ w', failed_at a x w' ∧ same_rest w w' ∧ w_clock w' = w_clock w ∧
    crun (on_failure self record (Some mid) a x) w =
    crun (if (a <? max_retries cfg)%Z then
            _ ← trigger (ESleep (retry_backoff_ms cfg * a));
            _ ← emit (record_retry (r_topic record));
            measure_store_op "claim" (trigger (EStore (EClaim mid)))
          else Ret true) w'.
Proof.
  intros Ha [_ Hx] Hle. unfold on_failure, mbind, prog_mbind.
  rewrite run_bind, run_emit, run_bind, truthy_mid. set (w1 := with_registry _ w).
  destruct (run_mark_failed a x w1) as (w2 & E2 & Hf & Hr2 & Ht2);
    [exact Ha|eapply Hx; [exact (proj1 Ha)|done]|].
  exists w2. rewrite E2. destruct Hr2 as (Hd & Hc & Hh & Hout & He).
  split; [exact Hf|]. split; [|done]. split_and!; [done..|].
  eapply elsewhere_trans; [by apply (elsewhere_refl w w1)|done].
Qed.

Lemma run_on_failure_retry a x w :
  attempting a w → reportable x → retry_failed cfg = true → (0 ≤ retry_backoff_ms cfg)%Z →
  (1 ≤ a < max_retries cfg)%Z → (w_clock w + retry_backoff_ms cfg * a * 1000 ≤ limit)%Z →
  ∃ w', crun (on_failure self record (Some mid) a x) w = (w', Ok true) ∧
    attempting (a + 1) w' ∧ same_rest w w' ∧
    w_clock w' = (w_clock w + retry_backoff_ms cfg * a * 1000)%Z.
Proof.
  intros Ha Hx Hrf Hb Hlt Hfit.
  destruct (run_on_failure a x w Ha Hx) as (w2 & Hf & Hr2 & Ht2 & ->); [lia|].
  rewrite (proj2 (Z.ltb_lt _ _)) by lia. unfold mbind, prog_mbind.
  rewrite run_bind, run_trigger. cbn [ev_handler sleep_call].
  rewrite run_bind, run_emit. cbv beta zeta iota. set (w3 := with_registry _ _).
  set (d := (retry_backoff_ms cfg * a * 1000)%Z) in *.
  assert (Hd : (0 ≤ d)%Z) by (apply Z.mul_nonneg_nonneg; nia).
  assert (Hw3 : w_clock w3 = (w_clock w + d)%Z) by (cbn; rewrite Ht2, Z.max_r by lia; lia).
  assert (He3 : elsewhere w2 w3).
  { split; [done..|]. intros m Hm Hsm. subst w3. cbn. rewrite Z.max_r by lia.
    destruct (elapse_view d (w_store w2) m Hd) as [[_ ->]|[Hns Hv]]; [by eapply steady_inv, Hf|done|].
    rewrite Hv. destruct (st_view (w_store w2) m) eqn:Hv2; [|done]. exfalso. apply Hns.
    apply (steady_elapse (mid := m) (P := P) _ _ d (proj1 Hf) Hd); [lia|by rewrite Hv2]. }
  assert (Hf3 : failed_at a x w3).
  { destruct Hf as (Hst & p & Hp & Hrest). unfold steady in Hst.
    destruct (steady_elapse _ _ d Hst Hd) as [Hst' Hsv]; [lia|].
    unfold failed_at, steady, mem_record in *. subst w3. cbn. rewrite Z.max_r by lia.
    split; [done|]. exists p. split; [|done].
    destruct (elapse_view d (w_store w2) mid Hd) as [[_ ->]|[Hns _]]; [by eapply steady_inv|done|].
    destruct Hns. apply Hsv. by rewrite Hp. }
  destruct (run_reclaim a x w3 Hf3 Hrf Hlt) as (w4 & E4 & Ha4 & Hr4 & Ht4).
  rewrite E4. exists w4. split_and!; [done|done| |congruence].
  destruct Hr2 as (Hd2 & Hc2 & Hh2 & Ho2 & He2), Hr4 as (Hd4 & Hc4 & Hh4 & Ho4 & He4). cbn in Hd4, Hc4, Hh4, Ho4.
  split_and!; [congruence..|]. eapply elsewhere_trans; [done|]. by eapply elsewhere_trans.
Qed.

Lemma run_on_failure_last a x w :
  attempting a w → reportable x → (1 ≤ a)%Z → a = max_retries cfg →
  ∃ w', crun (on_failure self record (Some mid) a x) w = (w', Ok true) ∧
    failed_at a x w' ∧ same_rest w w' ∧ w_clock w' = w_clock w.
Proof.
  intros Ha Hx Hle Hmax. destruct (run_on_failure a x w Ha Hx) as (w2 & Hf & Hr2 & Ht2 & ->); [lia|].
  rewrite (proj2 (Z.ltb_ge _ _)) by lia. by exists w2.
Qed.

(** An attempt that raises, up to the failure handling. *)
Definition after_handle w : world T :=
  mkWorld (w_store w) (w_clock w) (tail (w_outcomes w)) (w_handled w ++ [msg]) (w_committed w)
    (w_dlq w) (w_registry w) (w_poll w) (w_running w).

Lemma run_attempt_fails n a last x w rest :
  w_outcomes w = Err x :: rest → exn_is_exception x = true →
  crun (retry_loop self (S n) record (Some mid) msg a last) w =
  match crun (on_failure self record (Some mid) a x) (after_handle w) with
  | (w', Ok true) => crun (retry_loop self n record (Some mid) msg (a + 1) (Some x)) w'
  | (w', Ok false) => (w', Ok (LoopLeft (Some x)))
  | (w', Err y) => (w', Err y)
  end.
Proof.
  intros Ho Hx. cbn [retry_loop]. unfold mbind, prog_mbind.
  rewrite run_bind, run_attempt, run_trigger. cbn [ev_handler]. unfold handle_call.
  rewrite Ho, Hx, run_bind. unfold after_handle. rewrite Ho. cbn [tail].
  by destruct (crun (on_failure _ _ _ _ _) _) as [w' [[]|y]].
Qed.

(** The failures of attempts [a], [a+1], ... with attempts left after each of them. *)
Lemma run_failures xs : ∀ n a last w rest,
  attempting a w → retry_failed cfg = true → (0 ≤ retry_backoff_ms cfg)%Z → (1 ≤ a)%Z →
  (a + Z.of_nat (length xs) ≤ max_retries cfg)%Z →
  Forall reportable xs → w_outcomes w = (Err <$> xs) ++ rest →
  (w_clock w + waited a (length xs) ≤ limit)%Z →
  ∃ w' last', crun (retry_loop self (length xs + n) record (Some mid) msg a last) w =
      crun (retry_loop self n record (Some mid) msg (a + Z.of_nat (length xs)) last') w' ∧
    attempting (a + Z.of_nat (length xs)) w' ∧ w_outcomes w' = rest ∧
    w_handled w' = w_handled w ++ replicate (length xs) msg ∧ w_dlq w' = w_dlq w ∧
    w_committed w' = w_committed w ∧ w_clock w' = (w_clock w + waited a (length xs))%Z ∧
    elsewhere w w'.
Proof.
  induction xs as [|x xs IH]; intros n a last w rest Ha Hrf Hb Ha1 Hle Hxs Ho Hfit.
  { exists w, last. cbn. rewrite Z.add_0_r, app_nil_r. unfold waited. rewrite Z.mul_0_r.
    split_and!; try done. lia. }
  apply Forall_cons in Hxs as [Hx Hxs]. cbn [length fmap list_fmap app] in *.
  change (S (length xs) + n) with (S (length xs + n)).
  rewrite (run_attempt_fails _ a last x w ((Err <$> xs) ++ rest)) by (done || apply Hx).
  rewrite waited_S in Hfit |- *.
  assert (Hpos := waited_nonneg (a + 1) (length xs) Hb ltac:(lia)).
  assert (0 ≤ retry_backoff_ms cfg * a * 1000)%Z by (apply Z.mul_nonneg_nonneg; nia).
  destruct (run_on_failure_retry a x (after_handle w)) as (w1 & E1 & Ha' & Hr1 & Ht1);
    [exact Ha|done|done|done|lia|cbn; lia|].
  rewrite E1. destruct Hr1 as (Hd & Hc & Hh & Hout & He). cbn in Hd, Hc, Hh, Hout, Ht1.
  destruct (IH n (a + 1)%Z (Some x) w1 rest) as (w' & last' & E & Hat & Ho' & Hh' & Hd' & Hc' & Ht' & He');
    [done|done|done|lia|lia|done|by rewrite Hout, Ho|lia|].
  exists w', last'. replace (a + Z.of_nat (S (length xs)))%Z with (a + 1 + Z.of_nat (length xs))%Z by lia.
  split_and!; [done|done|done| |congruence|congruence|lia|].
  - rewrite Hh', Hh, <- app_assoc. done.
  - eapply elsewhere_trans; [|done]. eapply elsewhere_trans; [|exact He]. by apply elsewhere_refl.
Qed.

(** The dead letter of the delivery, where a queue is configured. *)
Definition dead_letter (error : string) : list (string * string * option string) :=
  match c_dlq_producer self, truthy_str (c_dlq_topic self) with
  | true, Some topic => [(topic, json_dumps (dlq_payload record error), r_key record)]
  | _, _ => []
  end.

Lemma run_send_to_dlq error w :
  ∃ w', crun (send_to_dlq self record error) w = (w', Ok tt) ∧
    w_dlq w' = w_dlq w ++ dead_letter error ∧ w_store w' = w_store w ∧ w_clock w' = w_clock w ∧
    w_handled w' = w_handled w ∧ w_outcomes w' = w_outcomes w ∧ w_committed w' = w_committed w ∧
    w_poll w' = w_poll w ∧ w_running w' = w_running w.
Proof.
  unfold send_to_dlq, dead_letter.
  destruct (c_dlq_producer self), (truthy_str (c_dlq_topic self)) as [t|];
    rewrite ?run_trigger; cbn [ev_handler run]; eexists; split_and!; rewrite ?app_nil_r; reflexivity.
Qed.

(** A delivery of a new message, by what its retry loop does. *)
Lemma run_new_message w :
  extract_message_id record = Ok (Some mid) → parse_payload record = Ok msg →
  steady w → mem_record w = None →
  ∃ w1, attempting 1 w1 ∧ same_rest w w1 ∧ w_clock w1 = w_clock w ∧
    crun (process_record self record) w =
    let '(w2, r) := crun (e ← retry_loop self (loop_fuel self) record (Some mid) msg 1 None;
      match e with
      | LoopReturned => Ret tt
      | LoopLeft last_exc =>
          _ ← emit (record_dlq (r_topic record));
          _ ← send_to_dlq self record (str_exc last_exc);
          commit self record
      end) w1 in
    (metered [processing_exit (r_topic record);
              processing_observe (r_topic record) (w_clock w2 - w_clock w1)] w2, r).
Proof.
  intros He Hp Hst Hnone.
  destruct (run_claim_wins w Hst) as (w1 & E1 & Ha & Hr & Ht);
    [eapply steady_claim_ok; [done|]; unfold mem_record in Hnone; by rewrite Hnone|by rewrite Hnone|].
  rewrite Hnone in Ha.
  exists (metered [processing_enter (r_topic record)] w1). split; [exact Ha|].
  destruct Hr as (Hd & Hc & Hh & Hout & Hel). split; [split_and!; [done..|]|split; [exact Ht|]].
  { eapply elsewhere_trans; [exact Hel|]. by apply elsewhere_refl. }
  unfold process_record, mbind, prog_mbind. rewrite run_bind, run_of_res, He, run_bind, E1.
  cbv beta iota. rewrite run_measure_processing. unfold execute_and_commit, mbind, prog_mbind.
  by rewrite run_bind, run_of_res, Hp.
Qed.

(** What the deliveries below start from: a connected consumer, a message without a record, and a
    steady period that lasts for [k] retries. *)
Record new_message (k : nat) w : Prop := {
  nm_connected : c_connected self = true;
  nm_id : extract_message_id record = Ok (Some mid);
  nm_payload : parse_payload record = Ok msg;
  nm_retry_failed : retry_failed cfg = true;
  nm_backoff : (0 ≤ retry_backoff_ms cfg)%Z;
  nm_steady : steady w;
  nm_fresh : mem_record w = None;
  nm_limit : (w_clock w + waited 1 k ≤ limit)%Z;
}.

(** A message that fails and then succeeds. *)
Lemma run_recovers xs v rest w :
  new_message (length xs) w → (Z.of_nat (length xs) < max_retries cfg)%Z →
  Forall reportable xs → (∀ c s, P c s → st_complete_ok c mid v) →
  w_outcomes w = (Err <$> xs) ++ Ok v :: rest →
  ∃ w' p, crun (process_record self record) w = (w', Ok tt) ∧
    w_handled w' = w_handled w ++ replicate (S (length xs)) msg ∧ w_outcomes w' = rest ∧
    w_dlq w' = w_dlq w ∧ w_committed w' = S (w_committed w) ∧
    w_clock w' = (w_clock w + waited 1 (length xs))%Z ∧
    mem_record w' = Some p ∧ ps_status p = COMPLETED ∧ ps_result p ≡ v ∧
    ps_attempts p = (Z.of_nat (length xs) + 1)%Z ∧ elsewhere w w' ∧ steady w'.
Proof.
  intros Hnm Hlt Hxs Hv Ho.
  destruct (run_new_message w) as (w1 & Ha & (Hd & Hc & Hh & Hout & Hel) & Ht & E); try apply Hnm.
  unfold loop_fuel, mbind, prog_mbind in E.
  assert (∃ n, Z.to_nat (max_retries cfg) = length xs + S n)%nat as [n Hn].
  { exists (Z.to_nat (max_retries cfg) - S (length xs))%nat. lia. }
  rewrite Hn, run_bind in E. pose proof (nm_limit _ _ Hnm) as Hlim.
  destruct (run_failures xs (S n) 1 None w1 (Ok v :: rest)) as
    (w2 & last & E2 & (Hst & p & Hp & Hs & Hat) & Ho2 & Hh2 & Hd2 & Hc2 & Ht2 & He2);
    [exact Ha|apply Hnm|apply Hnm|done|lia|done|by rewrite Hout|lia|].
  destruct (mark_completed_spec (w_store w2) (w_clock w2) mid v) as (s' & E3 & _ & Hf3 & V);
    [by eapply steady_inv|by eapply Hv|].
  unfold mem_record in Hp. rewrite Hp in V. cbn in V. rewrite decide_True in V by done.
  inversion V as [q q' (_ & Hs' & Ha' & Hr' & _) Hq|]; subst.
  destruct (run_loop_success self record mid msg v rest n
    (1 + Z.of_nat (length xs)) last w2 s') as [r E4]; [apply Hnm|done..|].
  rewrite E2, E4 in E. cbn [run] in E. eexists _, q. split; [exact E|]. cbn.
  split_and!; [|done|congruence|congruence|lia|done|done|done|rewrite Ha'; cbn; lia| |].
  - rewrite Hh2, Hh, <- app_assoc. f_equal. by rewrite <- (replicate_cons_app (length xs)).
  - eapply elsewhere_trans; [exact Hel|]. eapply elsewhere_trans; [exact He2|]. by apply elsewhere_call.
  - eapply steady_complete; [exact Hst|by eapply Hv|exact E3].
Qed.

(** The loop of a message that never succeeds. *)
Lemma run_loop_exhausts xs x rest w :
  attempting 1 w → retry_failed cfg = true → (0 ≤ retry_backoff_ms cfg)%Z →
  Z.of_nat (S (length xs)) = max_retries cfg → Forall reportable (xs ++ [x]) →
  w_outcomes w = (Err <$> (xs ++ [x])) ++ rest → (w_clock w + waited 1 (length xs) ≤ limit)%Z →
  ∃ w', crun (retry_loop self (loop_fuel self) record (Some mid) msg 1 None) w =
      (w', Ok (LoopLeft (Some x))) ∧
    failed_at (max_retries cfg) x w' ∧ w_outcomes w' = rest ∧
    w_handled w' = w_handled w ++ replicate (S (length xs)) msg ∧ w_dlq w' = w_dlq w ∧
    w_committed w' = w_committed w ∧ w_clock w' = (w_clock w + waited 1 (length xs))%Z ∧
    elsewhere w w'.
Proof.
  intros Ha Hrf Hb Hmax [Hxs Hx]%Forall_app Ho Hlim. rewrite Forall_singleton in Hx.
  unfold loop_fuel. replace (Z.to_nat (max_retries cfg)) with (length xs + 1)%nat by lia.
  rewrite fmap_app, <- app_assoc in Ho.
  destruct (run_failures xs 1 1 None w (Err x :: rest)) as
    (w2 & last & E2 & Hat & Ho2 & Hh2 & Hd2 & Hc2 & Ht2 & He2); [done..|lia|done|done|done|].
  rewrite E2, (run_attempt_fails 0 _ _ x w2 rest Ho2 (proj1 Hx)).
  destruct (run_on_failure_last (1 + Z.of_nat (length xs)) x (after_handle w2)) as
    (w3 & E3 & Hf & (Hd3 & Hc3 & Hh3 & Ho3 & He3) & Ht3); [exact Hat|done|lia|lia|].
  rewrite E3. cbn in Hd3, Hc3, Hh3, Ho3, Ht3.
  exists w3. replace (max_retries cfg) with (1 + Z.of_nat (length xs))%Z by lia.
  split; [done|]. split; [exact Hf|]. split_and!; [by rewrite Ho3, Ho2| |congruence|congruence|congruence|].
  - rewrite Hh3, Hh2, <- app_assoc. f_equal. by rewrite <- (replicate_cons_app (length xs)).
  - eapply elsewhere_trans; [exact He2|]. eapply elsewhere_trans; [|exact He3]. by apply elsewhere_refl.
Qed.

(** A message that never succeeds. *)
Lemma run_exhausts xs x rest w :
  new_message (length xs) w → Z.of_nat (S (length xs)) = max_retries cfg →
  Forall reportable (xs ++ [x]) → w_outcomes w = (Err <$> (xs ++ [x])) ++ rest →
  ∃ w' p, crun (process_record self record) w = (w', Ok tt) ∧
    w_handled w' = w_handled w ++ replicate (S (length xs)) msg ∧ w_outcomes w' = rest ∧
    w_dlq w' = w_dlq w ++ dead_letter (exn_str x) ∧ w_committed w' = S (w_committed w) ∧
    w_clock w' = (w_clock w + waited 1 (length xs))%Z ∧
    mem_record w' = Some p ∧ ps_status p = FAILED ∧ ps_error p = Some (exn_str x) ∧
    ps_attempts p = max_retries cfg ∧ elsewhere w w' ∧ steady w'.
Proof.
  intros Hnm Hmax Hxs Ho.
  destruct (run_new_message w) as (w1 & Ha & (Hd & Hc & Hh & Hout & Hel) & Ht & E); try apply Hnm.
  pose proof (nm_limit _ _ Hnm) as Hlim. unfold mbind, prog_mbind in E. rewrite run_bind in E.
  destruct (run_loop_exhausts xs x rest w1) as
    (w3 & E3 & (Hst & p & Hp & Hs & Hatt & Herr) & Ho3 & Hh3 & Hd3 & Hc3 & Ht3 & He3);
    [done|apply Hnm|apply Hnm|done|done|by rewrite Hout|lia|].
  rewrite E3 in E. rewrite run_bind, run_emit, run_bind in E.
  match type of E with context [run _ (send_to_dlq _ _ _) ?v] =>
    destruct (run_send_to_dlq (exn_str x) v) as (w4 & E4 & Hd4 & Hs4 & Ht4 & Hh4 & Ho4 & Hc4 & Hp4 & Hr4) end.
  cbn [str_exc] in E. rewrite E4 in E. unfold commit in E.
  rewrite (nm_connected _ _ Hnm), run_trigger in E. cbn [ev_handler] in E.
  cbn in Hd4, Hs4, Ht4, Hh4, Ho4, Hc4, Hp4, Hr4.
  eexists _, p. split; [exact E|]. unfold mem_record in *. cbn.
  rewrite Hh4, Ho4, Hd4, Hc4, Hh3, Ho3, Hd3, Hc3, Hh, Hd, Hc. split_and!; try done; [lia|by rewrite Hs4| |].
  - eapply elsewhere_trans; [exact Hel|]. eapply elsewhere_trans; [exact He3|]. by apply elsewhere_refl.
  - unfold steady in *. cbn. by rewrite Hs4, Ht4.
Qed.

(** A message that fails and then succeeds, on any store.  After [k] failures, fewer than the
    attempts allowed, handle() has run [k + 1] times on the payload, the record is COMPLETED with
    the result of the last attempt and counts [k + 1] attempts, nothing is dead-lettered, the offset
    is committed, and the delivery has waited for the sum of the backoffs, b k (k + 1) / 2 ms. *)
Theorem delivery_recovers xs v rest w :
  new_message (length xs) w → (Z.of_nat (length xs) < max_retries cfg)%Z →
  Forall reportable xs → (∀ c s, P c s → st_complete_ok c mid v) →
  w_outcomes w = (Err <$> xs) ++ Ok v :: rest →
  ∃ w' p, crun (process_record self record) w = (w', Ok tt) ∧
    w_handled w' = w_handled w ++ replicate (S (length xs)) msg ∧ w_outcomes w' = rest ∧
    w_dlq w' = w_dlq w ∧ w_committed w' = S (w_committed w) ∧
    w_clock w' = (w_clock w + waited 1 (length xs))%Z ∧
    mem_record w' = Some p ∧ ps_status p = COMPLETED ∧ ps_result p ≡ v ∧
    ps_attempts p = (Z.of_nat (length xs) + 1)%Z.
Proof.
  intros Hnm Hlt Hxs Hv Ho. destruct (run_recovers xs v rest w) as (w' & p & ? & ? & ? & ? & ? & ? & ? & ? & ? & ? & _);
    [done..|]. by exists w', p.
Qed.

(** A message that never succeeds, on any store.  When all the attempts allowed fail, handle()
    has run that often on the payload, the record is FAILED with their number and the text of the
    last exception, the message is dead-lettered with that text where a queue is configured, the
    offset is committed, and the waits add up to b n (n - 1) / 2 ms for [n] attempts. *)
Theorem delivery_exhausts xs x rest w :
  new_message (length xs) w → Z.of_nat (S (length xs)) = max_retries cfg →
  Forall reportable (xs ++ [x]) → w_outcomes w = (Err <$> (xs ++ [x])) ++ rest →
  ∃ w' p, crun (process_record self record) w = (w', Ok tt) ∧
    w_handled w' = w_handled w ++ replicate (S (length xs)) msg ∧ w_outcomes w' = rest ∧
    w_dlq w' = w_dlq w ++ dead_letter (exn_str x) ∧ w_committed w' = S (w_committed w) ∧
    w_clock w' = (w_clock w + waited 1 (length xs))%Z ∧
    mem_record w' = Some p ∧ ps_status p = FAILED ∧ ps_error p = Some (exn_str x) ∧
    ps_attempts p = max_retries cfg.
Proof.
  intros Hnm Hmax Hxs Ho. destruct (run_exhausts xs x rest w) as (w' & p & ? & ? & ? & ? & ? & ? & ? & ? & ? & ? & _);
    [done..|]. by exists w', p.
Qed.

End Retries.

(** ** The in-memory store is steady while its clock fits into [datetime] *)

#[local] Existing Instances Memory.memory_store Memory.memory_view Memory.memory_laws.

Definition memory_period (cfg : DeduplicationConfig) (limit c : Z) (s : Memory.state) : Prop :=
  Memory.inv s ∧ Memory.ms_config s = cfg ∧ in_datetime c = true ∧ (c ≤ limit)%Z.

Lemma memory_steady cfg mid limit :
  (0 ≤ processing_timeout_seconds cfg)%Z →
  in_datetime (limit + processing_timeout_seconds cfg * 1000000) = true →
  Steady cfg mid limit (memory_period cfg limit).
Proof.
  intros Hl Hlim. unfold in_datetime in Hlim. rewrite andb_true_iff, !Z.leb_le in Hlim.
  assert (Hok : ∀ c s, memory_period cfg limit c s → st_claim_ok c mid s).
  { intros c s (_ & Hc & Hd & Hle). split; [done|]. rewrite Hc. unfold in_datetime in *.
    rewrite !andb_true_iff, !Z.leb_le in *. lia. }
  split.
  - by intros c s [? _].
  - by intros c s (_ & ? & _).
  - intros c s Hp _. by apply Hok.
  - intros c s s' b Hp Hc1 E. destruct (claim_spec s c mid) as (s1 & E1 & Hi & (Hc & _) & _);
      [apply Hp|done|]. rewrite E in E1. injection E1 as <- _.
    destruct Hp as (_ & ? & ?). split; [done|]. cbn in Hc. by rewrite Hc.
  - intros c s s' v Hp _ E. destruct (mark_completed_spec s c mid v) as (s1 & E1 & Hi & (Hc & _) & _);
      [apply Hp|done|]. rewrite E in E1. injection E1 as <-.
    destruct Hp as (_ & ? & ?). split; [done|]. cbn in Hc. by rewrite Hc.
  - intros c s s' e a Hp _ E. destruct (mark_failed_spec s c mid e a) as (s1 & E1 & Hi & (Hc & _) & _);
      [apply Hp|done|]. rewrite E in E1. injection E1 as <-.
    destruct Hp as (_ & ? & ?). split; [done|]. cbn in Hc. by rewrite Hc.
  - intros c s d (Hi & Hc & Hd & Hle) Hd0 Hd1. split; [|done]. split_and!; [done..| |done].
    unfold in_datetime in *. rewrite !andb_true_iff, !Z.leb_le in *. lia.
Qed.

(** ** A payment that fails, for the evaluations in RedisRetry.v *)

#[local] Existing Instances json_text text_runtime.

Definition declined : exn := Exn "PaymentError" "declined" true.

Definition failing_world (outcomes : list (res pyval)) : world Memory.state :=
  new_world (Memory.init None) 1000000 outcomes.

Abbreviation payment_payload := (PJson (JObj [("message_id", JStr "p1"); ("amount", JInt 5)])%string).

#[local] Instance payment_steady :
  Steady default_config "p1" 2500000 (memory_period default_config 2500000).
Proof. by apply memory_steady. Qed.

Lemma new_payment outcomes :
  new_message payments_consumer payment "p1" payment_payload 2500000
    (memory_period default_config 2500000) 2 (failing_world outcomes).
Proof. by split. Qed.

Lemma declined_reportable : reportable payments_consumer "p1" (memory_period default_config 2500000) declined.
Proof. done. Qed.
