(* ===== verification/Settling.v ===== *)
(** * Streams in which deliveries fail

    The poll loop over records of new messages, any of them redelivered, when
    attempts fail: every message is tried until it succeeds or its attempts are used
    up, while the others wait. *)

From S2P Require Import Prelude Prog Utf8 PyJson JsonText Models Store StoreEvents Metrics.
From S2P Require Import Consumer ConsumerRun ConsumerStore ConsumerStream ConsumerRetry Timed.

Section Settling.
Context `{!PyRuntime} `{!JsonCodec} {T : Type} `{DedupStoreLaws T}.
Implicit Types w : world T.

Abbreviation crun p w := (run (ev_handler st_elapse) p w).
Abbreviation trun p wg := (run timed_handler p wg).

Context (self : consumer) (limit : Z) (P : Z → T → Prop).

Abbreviation cfg := (c_config self).
Abbreviation polled := (consumer_record * string * payload)%type.

(** ** What becomes of a message *)

(** Some attempts raise; the last one returns, or all those allowed have raised. *)
Inductive verdict :=
| Recovers (xs : list exn) (v : pyval)
| Exhausts (xs : list exn) (x : exn).

Definition outcomes_of (vd : verdict) : list (res pyval) :=
  match vd with
  | Recovers xs v => (Err <$> xs) ++ [Ok v]
  | Exhausts xs x => Err <$> (xs ++ [x])
  end.

(** The attempts before the last, after each of which the delivery waits. *)
Definition retries (vd : verdict) : nat :=
  match vd with Recovers xs _ | Exhausts xs _ => length xs end.

Definition possible (mid : string) (vd : verdict) : Prop :=
  match vd with
  | Recovers xs v =>
      (Z.of_nat (length xs) < max_retries cfg)%Z ∧ Forall (reportable self mid P) xs ∧
      ∀ c s, P c s → st_complete_ok c mid v
  | Exhausts xs x =>
      Z.of_nat (S (length xs)) = max_retries cfg ∧ Forall (reportable self mid P) (xs ++ [x])
  end.

(** The record it ends with. *)
Definition settled_with (vd : verdict) (p : ProcessingStatus) : Prop :=
  match vd with
  | Recovers xs v =>
      ps_status p = COMPLETED ∧ ps_result p ≡ v ∧ ps_attempts p = (Z.of_nat (length xs) + 1)%Z
  | Exhausts xs x =>
      ps_status p = FAILED ∧ ps_error p = Some (exn_str x) ∧ ps_attempts p = max_retries cfg
  end.

Definition settled_as (w : world T) (r : polled) (vd : verdict) : Prop :=
  ∃ p, mem_record r.1.2 w = Some p ∧ settled_with vd p.

(** What the handler and the dead-letter queue see of it. *)
Definition attempts_of (r : polled) (vd : verdict) : list payload := replicate (S (retries vd)) r.2.

Definition letters_of (r : polled) (vd : verdict) : list (string * string * option string) :=
  match vd with Recovers _ _ => [] | Exhausts _ x => dead_letter self r.1.1 (exn_str x) end.

Fixpoint total_wait (vds : list verdict) : Z :=
  match vds with [] => 0 | vd :: vds' => waited self 1 (retries vd) + total_wait vds' end.

(** The first records of the messages, but for the messages in [seen]. *)
Fixpoint firsts (seen : gset string) (rs : list polled) : list polled :=
  match rs with
  | [] => []
  | r :: rs' => if decide (r.1.2 ∈ seen) then firsts seen rs' else r :: firsts ({[r.1.2]} ∪ seen) rs'
  end.

(** ** One delivery *)

Lemma total_wait_nonneg vds : (0 ≤ retry_backoff_ms cfg)%Z → (0 ≤ total_wait vds)%Z.
Proof.
  intros Hb. induction vds as [|vd vds IH]; [done|]. cbn.
  pose proof (waited_nonneg self 1 (retries vd) Hb). lia.
Qed.

(** A settled message cannot be claimed. *)
Lemma settled_not_claimable vd p clk :
  settled_with vd p → Spec.claimable cfg clk (Some p) = false.
Proof.
  unfold Spec.claimable, Spec.retryable, Spec.orphaned, is_failed.
  destruct vd as [xs v|xs x]; intros (-> & _ & Ha); [done|]. rewrite Ha. cbn. by rewrite Z.ltb_irrefl, andb_false_r.
Qed.

Lemma settled_with_equiv vd p q : p ≡ q → settled_with vd p → settled_with vd q.
Proof.
  intros (_ & Hs & Ha & Hr & He & _). destruct vd as [xs v|xs x]; cbn; rewrite <- ?Hs, <- ?Ha, <- ?He; [|done].
  intros (? & Hv & ?). split_and!; [done| |done]. by rewrite <- Hr.
Qed.

(** What the consumer needs for all of it. *)
Record fit (mids : list string) : Prop := {
  fit_connected : c_connected self = true;
  fit_retry_failed : retry_failed cfg = true;
  fit_backoff : (0 ≤ retry_backoff_ms cfg)%Z;
  fit_steady : ∀ mid, mid ∈ mids → Steady cfg mid limit P;
}.

Abbreviation elsewhere mid := (elsewhere self mid limit P).
Abbreviation steady := (steady P).

(** The first delivery of a message. *)
Lemma run_verdict mids (r : polled) vd rest w :
  fit mids → keyed r → r.1.2 ∈ mids → possible r.1.2 vd → steady w → mem_record r.1.2 w = None →
  (w_clock w + waited self 1 (retries vd) ≤ limit)%Z → w_outcomes w = outcomes_of vd ++ rest →
  ∃ w', crun (process_record self r.1.1) w = (w', Ok tt) ∧
    w_handled w' = w_handled w ++ attempts_of r vd ∧ w_outcomes w' = rest ∧
    w_dlq w' = w_dlq w ++ letters_of r vd ∧ w_committed w' = S (w_committed w) ∧
    w_clock w' = (w_clock w + waited self 1 (retries vd))%Z ∧
    settled_as w' r vd ∧ elsewhere r.1.2 w w' ∧ steady w'.
Proof.
  intros [Hconn Hrf Hb Hst] Hk Hin Hvd Hs Hnew Hlim Ho. destruct r as [[record mid] msg]. cbn in *.
  destruct Hk as (He & Hmid & Hp). pose proof (Hst mid Hin) as Hstm.
  assert (Hnm : new_message self record mid msg limit P (retries vd) w) by (by split).
  destruct vd as [xs v|xs x]; cbn in *.
  - destruct Hvd as (Hlt & Hxs & Hv). rewrite <- app_assoc in Ho.
    destruct (run_recovers self record mid msg Hmid limit P xs v rest w)
      as (w' & p & E & Hh & Ho' & Hd & Hc & Ht & Hr & Hps & Hres & Hat & Hel & Hs'); [done..|].
    exists w'. rewrite app_nil_r. split_and!; try done. by exists p.
  - destruct Hvd as (Hmax & Hxs).
    destruct (run_exhausts self record mid msg Hmid limit P xs x rest w)
      as (w' & p & E & Hh & Ho' & Hd & Hc & Ht & Hr & Hps & Herr & Hat & Hel & Hs'); [done..|].
    exists w'. split_and!; try done. by exists p.
Qed.

(** A later one. *)
Lemma run_again mids (r : polled) vd w :
  fit mids → keyed r → r.1.2 ∈ mids → possible r.1.2 vd → steady w → settled_as w r vd →
  ∃ w', crun (process_record self r.1.1) w = (w', Ok tt) ∧ same_message w w' ∧
    w_committed w' = S (w_committed w) ∧ settled_as w' r vd ∧ elsewhere r.1.2 w w' ∧ steady w'.
Proof.
  intros [Hconn Hrf Hb Hst] Hk Hin Hvd Hs (p & Hv & Hp). destruct r as [[record mid] msg]. cbn in *.
  destruct Hk as (He & Hmid & _). pose proof (Hst mid Hin) as Hstm.
  assert (Hi := steady_inv (mid := mid) (P := P) _ _ Hs).
  assert (Hcfg := steady_config (mid := mid) (P := P) _ _ Hs).
  assert (Hok : st_claim_ok (w_clock w) mid (w_store w)).
  { apply (steady_claim_ok (P := P)); [exact Hs|]. intros q Hq. unfold mem_record in Hv.
    rewrite Hv in Hq. injection Hq as <-. destruct vd as [xs v|xs x], Hp as (_ & _ & ->), Hvd as [? _]; lia. }
  destruct (run_refused self record mid w) as (w' & E & Hsame & Hc & Hn & Hpl & Hr); [done..| |].
  { unfold mem_record in Hv. rewrite Hv, Hcfg. by eapply settled_not_claimable. }
  exists w'. destruct (claim_spec _ _ _ Hi Hok) as (s1 & E1 & _ & Hf & V).
  rewrite Hc in E1. injection E1 as <- Hno. unfold Spec.do_claim in V, Hno.
  destruct (Spec.claimable _ _ _); [done|]. cbn in V. unfold mem_record in Hv. rewrite Hv in V.
  split; [done|]. split; [done|]. split; [done|]. split; [|split].
  - inversion V as [q q' Hq Hq'|]; subst. exists q. split; [done|]. by eapply settled_with_equiv.
  - by apply elsewhere_call.
  - unfold ConsumerRetry.steady. destruct Hsame as (_ & _ & _ & ->). eapply steady_claim; [exact Hs|done|exact Hc].
Qed.

(** ** The stream *)

(** The messages handled so far, with what became of them. *)
Abbreviation history := (list (polled * verdict)).

Definition known (done : history) : gset string := list_to_set ((λ d, d.1.1.2) <$> done).

Record midway (mids : list string) (done : history) w : Prop := {
  mw_steady : steady w;
  mw_running : w_running w = true;
  mw_settled : ∀ r vd, (r, vd) ∈ done → r.1.2 ∈ mids ∧ possible r.1.2 vd ∧ settled_as w r vd;
  mw_new : ∀ mid, mid ∈ mids → mid ∉ known done → mem_record mid w = None;
}.

(** A delivery of [r] leaves the other messages as they are. *)
Lemma midway_step mids done done' (r : polled) vd w w' :
  fit mids → midway mids done w → r.1.2 ∈ mids → possible r.1.2 vd →
  (∀ r' vd', (r', vd') ∈ done' → (r', vd') ∈ done ∨ (r', vd') = (r, vd)) →
  known done' = {[r.1.2]} ∪ known done →
  (∀ r' vd', (r', vd') ∈ done → r'.1.2 = r.1.2 → vd' = vd) →
  settled_as w' r vd → elsewhere r.1.2 w w' → steady w' → midway mids done' w'.
Proof.
  intros Hfit [Hs Hr Hset Hnew] Hin Hvd Hdone Hknown Huniq Hres [_ Hrun Hel] Hs'. split.
  - done.
  - by rewrite Hrun.
  - intros r' vd' [Hd|[= -> ->]]%Hdone; [|done]. destruct (Hset r' vd' Hd) as (Hin' & Hvd' & p & Hp & Hpv).
    split_and!; [done..|]. destruct (decide (r'.1.2 = r.1.2)) as [E|Hne].
    + rewrite (Huniq _ _ Hd E). unfold settled_as. by rewrite E.
    + exists p. split; [|done]. unfold mem_record in *. rewrite <- Hp. apply Hel; [done|]. by apply Hfit.
  - intros mid Hmid Hk. rewrite Hknown in Hk. unfold mem_record in *.
    rewrite Hel; [apply Hnew; [done|set_solver]|set_solver|by apply Hfit].
Qed.

(** Time passes, and a record is polled. *)
Lemma midway_wait mids mid done gaps rs w :
  fit mids → midway mids done w → mid ∈ mids → Forall (λ d, 0 ≤ d)%Z gaps →
  (w_clock (wait gaps w) ≤ limit)%Z → midway mids done (polling rs (wait gaps w)).
Proof.
  intros Hfit [Hs Hr Hset Hnew] Hin Hg Hl. destruct gaps as [|d gaps]; [by split|].
  apply Forall_cons in Hg as [Hd _]. cbn in Hl. cbn [wait].
  assert (Hst := fit_steady _ Hfit). assert (Hi := steady_inv (Steady := Hst mid Hin) _ _ Hs).
  assert (Hview : ∀ m, m ∈ mids → st_view (st_elapse d (w_store w)) m = st_view (w_store w) m).
  { intros m Hm. destruct (elapse_view d (w_store w) m) as [[_ E]|[Hno E]]; [done|done|done|].
    destruct (st_view (w_store w) m) eqn:Hv; [|done]. destruct Hno.
    apply (steady_elapse (Steady := Hst m Hm) _ _ d Hs Hd Hl). by rewrite Hv. }
  split; [|done| |].
  - by apply (steady_elapse (Steady := Hst mid Hin) _ _ d Hs Hd Hl).
  - intros r vd Hdone. destruct (Hset r vd Hdone) as (Hm & Hvd & p & Hp & Hw). split_and!; [done..|].
    exists p. split; [|done]. unfold mem_record in *. cbn. by rewrite Hview.
  - intros m Hm Hk. unfold mem_record in *. cbn. rewrite Hview by done. by apply Hnew.
Qed.

Lemma wait_total gaps w :
  Forall (λ d, 0 ≤ d)%Z gaps → Forall (λ d, 0 ≤ d)%Z (tail gaps) ∧
  (w_clock (wait gaps w) + total (tail gaps) = w_clock w + total gaps)%Z.
Proof. destruct 1; [done|]. rewrite total_cons. cbn [tail wait pass w_clock]. split; [done|lia]. Qed.

Lemma settle_stream rs : ∀ n gaps done vds rest w mids,
  Forall (λ d, 0 ≤ d)%Z gaps → length gaps ≤ length rs →
  fit mids → Forall keyed rs → ids rs ⊆ mids → length rs < n → midway mids done w →
  (∀ r vd r' vd', (r, vd) ∈ done → (r', vd') ∈ done → r.1.2 = r'.1.2 → vd = vd') →
  w_poll w = (λ r, r.1.1) <$> rs →
  Forall2 (λ r vd, possible r.1.2 vd) (firsts (known done) rs) vds →
  w_outcomes w = (vds ≫= outcomes_of) ++ rest → (w_clock w + total_wait vds + total gaps ≤ limit)%Z →
  ∃ w', trun (run_records self n) (w, gaps) = ((w', []), Ok true) ∧
    w_handled w' = w_handled w ++ concat (zip_with attempts_of (firsts (known done) rs) vds) ∧
    w_dlq w' = w_dlq w ++ concat (zip_with letters_of (firsts (known done) rs) vds) ∧
    w_outcomes w' = rest ∧ w_committed w' = length rs + w_committed w ∧
    w_clock w' = (w_clock w + total_wait vds + total gaps)%Z ∧
    Forall2 (settled_as w') (firsts (known done) rs) vds ∧
    (∀ r vd, (r, vd) ∈ done → settled_as w' r vd).
Proof.
  induction rs as [|r rs IH];
    intros n gaps done vds rest w mids Hg Hgl Hfit Hk Hids Hn Hmid Huniq Hpoll Hvds Ho Hlim;
    (destruct n as [|n]; [cbn in Hn; lia|]).
  { destruct gaps; [|cbn in Hgl; lia].
    inversion Hvds; subst. destruct (trun_drained self n w Hpoll) as (w' & -> & Hst & (Hh & Hd & Hout & Ht) & Hc & Hr).
    exists w'. cbn. rewrite !app_nil_r, !Z.add_0_r. split_and!; try done; [by rewrite Hout, Ho|].
    intros r vd Hd'. destruct (mw_settled _ _ _ Hmid r vd Hd') as (_ & _ & p & Hp' & Hset).
    exists p. unfold mem_record in *. by rewrite Hst. }
  apply Forall_cons in Hk as [Hkr Hk].
  rewrite (trun_round self n r.1.1 r.1.2 ((λ r, r.1.1) <$> rs))
    by first [done|apply Hmid|by destruct r as [[? ?] ?]; apply Hkr].
  destruct (wait_total gaps w Hg) as [Hg' Htot]. pose proof (total_nonneg _ Hg') as Hgn.
  assert (Hgl' : length (tail gaps) ≤ length rs) by (destruct gaps; cbn in *; lia).
  set (w1 := polling _ _).
  assert (Hin : r.1.2 ∈ mids) by (apply Hids; by left).
  assert (Hids' : ids rs ⊆ mids) by (intros x Hx; apply Hids; by right).
  pose proof (total_wait_nonneg vds (fit_backoff _ Hfit)).
  assert (Hmid1 : midway mids done w1) by (eapply midway_wait; [done..|lia]).
  assert (Hw1 : w_handled w1 = w_handled w ∧ w_dlq w1 = w_dlq w ∧ w_outcomes w1 = w_outcomes w ∧
    w_committed w1 = w_committed w ∧ w_poll w1 = (λ r, r.1.1) <$> rs) by (subst w1; by destruct gaps).
  destruct Hw1 as (Hh1 & Hd1 & Ho1 & Hc1 & Hp1).
  assert (Ht1 : (w_clock w1 + total (tail gaps) = w_clock w + total gaps)%Z) by done.
  cbn [firsts] in *. destruct (decide (r.1.2 ∈ known done)) as [Hseen|Hnew].
  - assert (∃ r0 vd, (r0, vd) ∈ done ∧ r0.1.2 = r.1.2) as (r0 & vd & Hd0 & Eid).
    { unfold known in Hseen. apply elem_of_list_to_set, list_elem_of_fmap in Hseen as ([r0 vd] & E & Hd0). by exists r0, vd. }
    destruct (mw_settled _ _ _ Hmid1 r0 vd Hd0) as (_ & Hvd & Hset). unfold settled_as in Hset.
    rewrite Eid in Hvd, Hset.
    destruct (run_again mids r vd w1) as (w2 & E & (Hh & Hd & Hout & Ht) & Hc & Hset2 & Hel & Hs2);
      [done..|apply Hmid1|done|]. rewrite E.
    assert (Hmid2 : midway mids done w2).
    { eapply (midway_step mids done done r vd w1 w2); try done; [by left|set_solver|].
      intros r' vd' Hd' E'. eapply (Huniq r' vd' r0 vd); [done..|congruence]. }
    destruct (IH n (tail gaps) done vds rest w2 mids) as (w' & E' & Hh' & Hd' & Ho' & Hc' & Ht' & Hall & Hold);
      [done|done|done|done|done|cbn in Hn; lia|done|done|by rewrite (el_poll _ _ _ _ _ _ Hel)|done|by rewrite Hout, Ho1|lia|].
    exists w'. rewrite Hh', Hd', Ho', Hc', Ht', Hh, Hd, Hc, Hh1, Hd1, Hc1. cbn. split_and!; try done; lia.
  - inversion Hvds as [|? vd ? vds' Hvd Hvds' Er Ev]; subst. cbn [total_wait] in Hlim |- *.
    pose proof (total_wait_nonneg vds' (fit_backoff _ Hfit)).
    destruct (run_verdict mids r vd ((vds' ≫= outcomes_of) ++ rest) w1)
      as (w2 & E & Hh & Hout & Hd & Hc & Ht & Hset2 & Hel & Hs2);
      [done|done|done|done|apply Hmid1|by apply Hmid1|lia|by rewrite Ho1, Ho, app_assoc|]. rewrite E.
    assert (Hkn : known ((r, vd) :: done) = {[r.1.2]} ∪ known done) by done.
    assert (Hmid2 : midway mids ((r, vd) :: done) w2).
    { eapply (midway_step mids done ((r, vd) :: done) r vd w1 w2); try done; [set_solver|].
      intros r' vd' Hd' E'. exfalso. apply Hnew. rewrite <- E'. unfold known.
      apply elem_of_list_to_set, list_elem_of_fmap. by exists (r', vd'). }
    destruct (IH n (tail gaps) ((r, vd) :: done) vds' rest w2 mids) as (w' & E' & Hh' & Hd' & Ho' & Hc' & Ht' & Hall & Hold);
      [done|done|done|done|done|cbn in Hn; lia|done| |by rewrite (el_poll _ _ _ _ _ _ Hel)|by rewrite Hkn|done|lia|].
    { assert (Hno : ∀ r' vd', (r', vd') ∈ done → r'.1.2 ≠ r.1.2).
      { intros r' vd' Hd' E'. apply Hnew. rewrite <- E'. unfold known.
        apply elem_of_list_to_set, list_elem_of_fmap. by exists (r', vd'). }
      intros r1 vd1 r2 vd2 [[= -> ->]|H1']%elem_of_cons [[= -> ->]|H2']%elem_of_cons Eid; [done|..].
      - by destruct (Hno r2 vd2 H2').
      - by destruct (Hno r1 vd1 H1').
      - by eapply Huniq. }
    rewrite Hkn in *. exists w'. rewrite Hh', Hd', Ho', Hc', Ht', Hh, Hd, Hc, Ht, Hh1, Hd1, Hc1. cbn [zip_with concat length].
    rewrite <- !app_assoc.
    split_and!; [first [done|lia]..| |].
    + constructor; [|done]. apply Hold. by left.
    + intros r' vd' Hin'. apply Hold. by right.
Qed.

(** What holds when the loop ends: [d] is the time that passed between the records. *)
Definition settled_stream rs vds rest d w w' : Prop :=
  w_handled w' = w_handled w ++ concat (zip_with attempts_of (firsts ∅ rs) vds) ∧
  w_dlq w' = w_dlq w ++ concat (zip_with letters_of (firsts ∅ rs) vds) ∧
  w_outcomes w' = rest ∧ w_committed w' = length rs + w_committed w ∧
  w_clock w' = (w_clock w + total_wait vds + d)%Z ∧
  Forall2 (settled_as w') (firsts ∅ rs) vds.

(** What a stream of new messages starts with, but for the ids of its records. *)
Record stream_starts rs n gaps vds rest w : Prop := {
  ns_gaps : Forall (λ d, 0 ≤ d)%Z gaps ∧ length gaps ≤ length rs;
  ns_fit : fit (ids rs);
  ns_rounds : length rs < n;
  ns_steady : steady w;
  ns_running : w_running w = true;
  ns_new : ∀ mid, mid ∈ ids rs → mem_record mid w = None;
  ns_poll : w_poll w = (λ r, r.1.1) <$> rs;
  ns_possible : Forall2 (λ r vd, possible r.1.2 vd) (firsts ∅ rs) vds;
  ns_outcomes : w_outcomes w = (vds ≫= outcomes_of) ++ rest;
  ns_limit : (w_clock w + total_wait vds + total gaps ≤ limit)%Z;
}.

Definition new_stream rs n gaps vds rest w : Prop :=
  Forall keyed rs ∧ stream_starts rs n gaps vds rest w.

Lemma settle_run rs n gaps vds rest w :
  new_stream rs n gaps vds rest w →
  ∃ w', trun (run_consumer self n) (w, gaps) = ((w', []), Ok true) ∧
    settled_stream rs vds rest (total gaps) w w'.
Proof.
  intros [Hk [[Hg Hgl] Hfit Hn Hs Hr Hnew Hpoll Hvds Ho Hlim]].
  unfold run_consumer. rewrite (fit_connected _ Hfit).
  destruct (settle_stream rs n gaps [] vds rest w (ids rs)) as (w' & E & Hh & Hd & Ho' & Hc & Ht & Hset & _);
    [done|done|done|done|done|done| |set_solver|done|done|done|done|by exists w'].
  split; [done|done|set_solver|by intros mid Hin _; apply Hnew].
Qed.

(** C4: a stream settles.  A connected consumer polls any sequence of records of new messages, in any
    order and with any redeliveries, while time passes between them, on a store that serves them while
    it lasts; each message either succeeds after fewer failures than the attempts allowed, or fails as
    often as allowed.  Then the loop ends with the stream; the handler has been called with the payload
    of each message once for each of its attempts, message after message in the order of their first
    delivery, whatever was redelivered; exactly the messages that never succeeded are dead-lettered,
    once, with their last error; the offset of every record is committed; the time that has passed is
    the gaps and the backoffs; and each message is COMPLETED with its result, or FAILED with its last
    error, with its attempts counted. *)
Theorem stream_settles rs n gaps vds rest w :
  new_stream rs n gaps vds rest w →
  ∃ w', trun (run_consumer self n) (w, gaps) = ((w', []), Ok true) ∧
    settled_stream rs vds rest (total gaps) w w'.
Proof. apply settle_run. Qed.

(** When no time passes between the records, in the worlds of ConsumerRun.v. *)
Corollary stream_settles_at_once rs n vds rest w :
  new_stream rs n [] vds rest w →
  ∃ w', crun (run_consumer self n) w = (w', Ok true) ∧ settled_stream rs vds rest 0 w w'.
Proof.
  intros Hw. destruct (settle_run _ _ _ _ _ _ Hw) as (w' & E & Hs). rewrite trun_untimed in E.
  exists w'. destruct (crun _ w) as [w1 r]. by injection E as -> ->.
Qed.

End Settling.
