(* ===== verification/ConsumerWitness.v ===== *)
(** * Deliveries, evaluated

    The properties of ConsumerProps.v at work on concrete deliveries: the
    in-memory store, the JSON codec of JsonText.v, and scripted handlers. *)

From S2P Require Import Prelude Prog Utf8 PyJson JsonText Models Store MemoryStore StoreEvents Metrics.
From S2P Require Import Consumer ConsumerSpec ConsumerShapes ConsumerProps ConsumerRun.

#[local] Existing Instance json_text.
#[local] Existing Instance text_runtime.
#[local] Existing Instance Memory.memory_store.

(** A consumer that is connected and has a dead-letter topic. *)
Definition orders_consumer : consumer :=
  mkConsumer default_config (Some "orders.dlq"%string) true true true.

Definition order (mid : string) : consumer_record :=
  mkRecord "orders" 0 7 [("X-Message-Id"%string, Some mid)] (Some "{}"%string) (Some "k"%string).

Definition boom : exn := Exn "ValueError" "boom" true.

(** The delivery of a record on an empty in-memory store. *)
Definition deliver_on (cfg : option DeduplicationConfig) (record : consumer_record)
    (outcomes : list (res pyval)) : world Memory.state * list obs * res unit :=
  let w := new_world (Memory.init cfg) 1000000 outcomes in
  let p := process_record orders_consumer record in
  let '(w', o) := run (ev_handler (λ _ s, s)) p w in
  (w', trace_of (run_trace (ev_handler (λ _ s, s)) p w), o).

Lemma deliver_executed cfg record outcomes :
  executed orders_consumer record
    (deliver_on cfg record outcomes).1.2 (deliver_on cfg record outcomes).2.
Proof.
  unfold deliver_on. destruct (run _ _ _) as [w' o] eqn:E. simpl.
  eexists. split; [|reflexivity].
  change o with (w', o).2. rewrite <- E. apply run_path.
  intros X e w. destruct e; try exact I; reflexivity.
Qed.

Definition deliver := deliver_on None.

(** Two failures, then success. *)
Definition retried := deliver (order "m1") [Err boom; Err boom; Ok (PyJson (JInt 5))].
(** Three failures: the dead-letter queue. *)
Definition exhausted := deliver (order "m1") [Err boom; Err boom; Err boom].
(** The first handle() is cancelled. *)
Definition cancelled := deliver (order "m1") [Err CancelledError].
(** A store that does not take failed messages back. *)
Definition refused :=
  deliver_on (Some (mkConfig 86400 3 500 300 false)) (order "m1") [Err boom; Ok PyNone].
(** An id header that is not UTF-8. *)
Definition bad_id : string := String (ascii_of_N 255) "".
Definition poisoned_record : consumer_record :=
  mkRecord "orders" 0 7 [("Trace-Id", Some "t"); ("X-Message-Id", Some ""); ("X-Message-Id", Some bad_id)]%string
    (Some "{}"%string) (Some "k"%string).
Definition poisoned := deliver poisoned_record [].

(** The hypotheses of a witness are evaluated. *)
Ltac evaluate := first [ discriminate | vm_compute; reflexivity ].

Lemma attempts_bounded_witness :
  length (handles retried.1.2) = 3 ∧ length (handles retried.1.2) ≤ 3.
Proof.
  split; [evaluate|]. exact (proj1 (attempts_bounded _ _ _ _ (deliver_executed _ _ _))).
Defined.

Lemma attempt_licensed_witness :
  ∃ h0 h', take 8 retried.1.2 = h0 ++ OClaim "m1" (Ok true) :: h' ∧ only [KMetric] h'.
Proof.
  apply (attempt_licensed orders_consumer (order "m1") retried.1.2 retried.2 "m1"
           _ (PJson (JObj [])) (Err boom) (drop 9 retried.1.2) (deliver_executed _ _ _));
    evaluate.
Defined.

Lemma success_is_final_witness : only [KComplete; KCommit; KMetric] (drop 15 retried.1.2).
Proof.
  apply (success_is_final orders_consumer (order "m1") retried.1.2 retried.2
           (take 14 retried.1.2) (PJson (JObj [])) (PyJson (JInt 5)) _ (deliver_executed _ _ _)).
  evaluate.
Defined.

Lemma cancellation_propagates_witness : cancelled.2 = Err CancelledError.
Proof.
  apply (cancellation_propagates orders_consumer (order "m1") cancelled.1.2 cancelled.2
           (take 2 cancelled.1.2) (PJson (JObj [])) CancelledError (drop 3 cancelled.1.2)
           (deliver_executed _ _ _)); evaluate.
Defined.

Lemma backoff_linear_witness :
  sleeps retried.1.2 = [500; 1000]%Z ∧
  ∃ k : nat, (k ≤ 2)%nat ∧ sleeps retried.1.2 = Z.mul 500 <$> seqZ 1 (Z.of_nat k).
Proof.
  split; [evaluate|].
  exact (backoff_linear orders_consumer (order "m1") _ _ (deliver_executed _ _ _)).
Defined.

Lemma failures_marked_witness :
  fails retried.1.2 = imap (λ i x, ("m1"%string, exn_str x, (1 + Z.of_nat i)%Z)) [boom; boom].
Proof.
  apply (failures_marked orders_consumer (order "m1") retried.1.2 retried.2 "m1"
           (deliver_executed _ _ _)); evaluate.
Defined.

Lemma commit_decides_outcome_witness : commit_results retried.1.2 = [Ok tt].
Proof.
  apply (commit_decides_outcome orders_consumer (order "m1") retried.1.2 (Ok tt)).
  replace (@Ok unit tt) with retried.2 by evaluate. exact (deliver_executed _ _ _).
Defined.

Lemma commit_after_settling_witness :
  only [KMetric] (drop 21 exhausted.1.2) ∧
  ((∃ mid v, [OClaim mid (Ok false); OGetStatus mid (Ok v)] `prefix_of` take 20 exhausted.1.2) ∨
   settled_by orders_consumer (order "m1") (take 20 exhausted.1.2)).
Proof.
  apply (commit_after_settling _ _ exhausted.1.2 _ _ (Ok tt) _ (deliver_executed _ _ _)).
  evaluate.
Defined.

Lemma dead_letter_faithful_witness :
  ∃ v r, nth_error exhausted.1.2 19 = Some (OSend "orders.dlq" v (Some "k"%string) r) ∧
    v = json_dumps (dlq_payload (order "m1") "boom").
Proof.
  eexists _, _. split; [vm_compute; reflexivity|].
  apply (dead_letter_faithful orders_consumer (order "m1") exhausted.1.2 _ (take 19 exhausted.1.2)
           "orders.dlq" _ (Some "k"%string) (Ok tt) (drop 20 exhausted.1.2) (deliver_executed _ _ _)).
  evaluate.
Defined.

Lemma settled_once_witness : settled (order "m1") exhausted.1.2 = 1%Z.
Proof.
  apply (settled_once orders_consumer (order "m1") _ exhausted.2 (deliver_executed _ _ _)).
  evaluate.
Defined.

Lemma active_gauge_balanced_witness :
  delta active_processing ["orders"%string] cancelled.1.2 = 0%Z.
Proof.
  exact (active_gauge_balanced orders_consumer (order "m1") _ _ (deliver_executed _ _ _)).
Defined.

Lemma lost_reclaim_dead_letters_witness :
  ∃ x tail post, drop 8 refused.1.2 = tail ++ post ∧ only [KMetric] post ∧
    dead_letters orders_consumer (order "m1") (Some x) tail refused.2.
Proof.
  apply (lost_reclaim_dead_letters _ _ refused.1.2 _ (take 2 refused.1.2) (PJson (JObj []))
           (Err boom) (firstn 4 (drop 3 refused.1.2)) "m1" _ (deliver_executed _ _ _)).
  evaluate.
Defined.

Lemma bad_header_raises_witness : poisoned.1.2 = [] ∧ poisoned.2 = Err UnicodeDecodeError.
Proof.
  apply (bad_header_raises orders_consumer poisoned_record _ _
    [("Trace-Id", Some "t"); ("X-Message-Id", Some "")]%string bad_id [] (deliver_executed _ _ _));
    [evaluate|by repeat (apply Forall_cons; split; [first [by left|by right]|])|evaluate..].
Defined.
