(* ===== verification/Concurrency.v ===== *)
(** * Several consumers over one store

    Deliveries of any number of consumers run interleaved, one event at a time,
    over a shared store, while time passes: the situation of a rebalance or a
    redelivery, when the same message is in the hands of several consumers. *)

From S2P Require Import Prelude Prog Utf8 PyJson JsonText Models Store MemoryStore StoreEvents Metrics.
From S2P Require Import Consumer ConsumerSpec ConsumerShapes ConsumerProps.

Section System.
Context `{!PyRuntime} `{!JsonCodec} {S : Type} `{DedupStoreLaws S}.

(** The answers of everything but the store: handle(), Kafka, the clocks. *)
Context (oracle : nat → ∀ X, ev X → res X).

(** A thread is a delivery: what it has done, and what is left to do. *)
Record thread := mkThread {
  t_done : list (step ev);
  t_rest : prog ev unit;
}.

Record system := mkSystem {
  sy_threads : list thread;
  sy_store : S;
  sy_clock : Z;
  sy_ops : list store_op;      (* the calls the store has served, and the time passed *)
}.

(** The call of the store, as an operation of Store.v.  The stores do nothing in
    connect(), and close() is not part of a delivery. *)
Definition op_of {X} (now : Z) (e : store_ev X) : option store_op :=
  match e with
  | EClaim mid => Some (Store.OClaim now mid)
  | EGetStatus mid => Some (Store.OGet now mid)
  | EMarkCompleted mid v => Some (Store.OComplete now mid v)
  | EMarkFailed mid x a => Some (Store.OFail now mid x a)
  | EConnect | EClose => None
  end.

Definition serve {X} (now : Z) (e : store_ev X) : action S X :=
  match e in store_ev X return action S X with
  | EConnect | EClose => λ s, (s, Ok tt)
  | e => call_store now e
  end.

(** One event of a thread: the store serves it, or the oracle answers. *)
Definition answer {X} (n : nat) (y : system) (e : ev X) : S * list store_op * res X :=
  match e in ev X return S * list store_op * res X with
  | EStore e =>
      let '(s, r) := serve (sy_clock y) e (sy_store y) in (s, option_list (op_of (sy_clock y) e), r)
  | e => (sy_store y, [], oracle n _ e)
  end.

Inductive move :=
| Run (i : nat)          (* thread [i] takes its next event *)
| Wait (d : Z).          (* [d] microseconds pass *)

Definition do_move (n : nat) (m : move) (y : system) : system :=
  match m with
  | Wait d =>
      mkSystem (sy_threads y) (st_elapse d (sy_store y)) (sy_clock y + d) (sy_ops y ++ [OElapse d])
  | Run i =>
      match sy_threads y !! i with
      | Some (mkThread tr (Vis e k)) =>
          let '(s, ops, r) := answer n y e in
          mkSystem (<[i := mkThread (tr ++ [Step e r]) (k r)]> (sy_threads y)) s (sy_clock y)
            (sy_ops y ++ ops)
      | _ => y
      end
  end.

Fixpoint do_moves (n : nat) (ms : list move) (y : system) : system :=
  match ms with [] => y | m :: ms' => do_moves (Datatypes.S n) ms' (do_move n m y) end.

(** The deliveries of [jobs], not yet begun. *)
Definition start_system (jobs : list (consumer * consumer_record)) (s : S) (now : Z) : system :=
  mkSystem ((λ j, mkThread [] (process_record j.1 j.2)) <$> jobs) s now [].

(** Claims of [mid] won in a trace. *)
Definition is_won (mid : string) (o : obs) : bool :=
  match o with OClaim mid' (Ok true) => bool_decide (mid' = mid) | _ => false end.
Definition won (mid : string) (h : list obs) : nat := length (List.filter (is_won mid) h).

Lemma won_app mid h1 h2 : won mid (h1 ++ h2) = won mid h1 + won mid h2.
Proof. unfold won. by rewrite List.filter_app, length_app. Qed.

Lemma wins_app mid ls1 ls2 : Spec.wins mid (ls1 ++ ls2) = Spec.wins mid ls1 + Spec.wins mid ls2.
Proof. unfold Spec.wins. by rewrite List.filter_app, length_app. Qed.

(** Each attempt on its own claim: no more attempts than claims won. *)
Lemma licensed_count mid h :
  (∀ h1 m r h2, h = h1 ++ OHandle m r :: h2 →
    ∃ h0 h', h1 = h0 ++ OClaim mid (Ok true) :: h' ∧ only [KMetric] h') →
  length (handles h) ≤ won mid h.
Proof.
  remember (length h) as n eqn:Hn. revert h Hn. induction (lt_wf n) as [n _ IH]. intros h -> Hl.
  destruct h as [|e h _] using rev_ind; [done|].
  assert (Hpre : ∀ g, (length g < length (h ++ [e]))%nat → (∃ g', h = g ++ g') →
    length (handles g) ≤ won mid g).
  { intros g Hlen [g' ->]. apply (IH (length g)); [done..|]. intros h1 m r h2 ->.
    apply (Hl h1 m r (h2 ++ g' ++ [e])). by rewrite <- !app_assoc. }
  rewrite handles_app, won_app, length_app.
  assert (Hh : length (handles h) ≤ won mid h).
  { apply Hpre; [rewrite length_app; cbn; lia|exists []; by rewrite app_nil_r]. }
  destruct e as [| | | |m r| | | | |]; try (cbn [handles]; cbn; lia).
  destruct (Hl h m r [] eq_refl) as (h0 & h' & -> & Ho).
  rewrite handles_app, won_app, length_app. cbn [won List.filter].
  assert (handles (OClaim mid (Ok true) :: h') = []) as ->.
  { apply (handles_only [KClaim; KMetric]); [|kinds]. apply only_cons. split; [kinds|].
    eapply only_sub; [exact Ho|kinds]. }
  assert (length (handles h0) ≤ won mid h0).
  { apply Hpre; [rewrite !length_app; cbn; lia|by eexists]. }
  unfold won at 2. cbn. rewrite bool_decide_eq_refl. cbn. lia.
Qed.

(** ** The invariant of the system *)

Definition won_by (mid : string) (t : thread) : nat := won mid (trace_of (t_done t)).

Context (oracle_allowed : ∀ n X (e : ev X), allowed e (oracle n X e)).

Definition sys_inv (jobs : list (consumer * consumer_record)) (s0 : S) (mid : string)
    (y : system) : Prop :=
  Forall2 (λ j t, partial (@allowed) (process_record j.1 j.2) (t_done t) (t_rest t))
    jobs (sy_threads y) ∧
  sy_store y = (exec_ops (sy_ops y) s0).1 ∧
  sum_list_with (won_by mid) (sy_threads y) = Spec.wins mid (exec_ops (sy_ops y) s0).2.

Lemma start_inv jobs s now mid : sys_inv jobs s mid (start_system jobs s now).
Proof.
  split_and!; [|done|].
  - cbn. apply Forall2_fmap_r, Forall_Forall2_diag, Forall_true. done.
  - cbn. induction jobs as [|j jobs IH]; [done|]. exact IH.
Qed.

(** One answered event: what the store log and the claims won gain from it. *)
Lemma answer_spec {X} n y (e : ev X) mid s0 :
  sy_store y = (exec_ops (sy_ops y) s0).1 →
  let '(s, ops, r) := answer n y e in
  allowed e r ∧ s = (exec_ops (sy_ops y ++ ops) s0).1 ∧
  Spec.wins mid (exec_ops (sy_ops y ++ ops) s0).2 =
    Spec.wins mid (exec_ops (sy_ops y) s0).2 + won mid (option_list (obs_ev e r)).
Proof.
  intros Hs. pose proof (oracle_allowed n X e) as Hal.
  assert (Hother : ∀ r : res X, allowed e r → won mid (option_list (obs_ev e r)) = 0 →
    allowed e r ∧ sy_store y = (exec_ops (sy_ops y ++ []) s0).1 ∧
    Spec.wins mid (exec_ops (sy_ops y ++ []) s0).2 =
      Spec.wins mid (exec_ops (sy_ops y) s0).2 + won mid (option_list (obs_ev e r))).
  { intros r Hr ->. rewrite app_nil_r. split_and!; [done|done|lia]. }
  destruct e as [X e|c| | | | | | | | | | |]; [|apply Hother; [exact Hal|by try destruct c]..].
  clear Hother Hal.
  assert (Hop : ∀ op, (exec_ops (sy_ops y ++ [op]) s0).1 = (exec_op op (sy_store y)).1 ∧
    Spec.wins mid (exec_ops (sy_ops y ++ [op]) s0).2 =
      Spec.wins mid (exec_ops (sy_ops y) s0).2 + Spec.wins mid (exec_op op (sy_store y)).2).
  { intros op. rewrite exec_ops_app, <- Hs. cbn [exec_ops].
    destruct (exec_op op (sy_store y)) as [s' ls]. cbn [fst snd]. by rewrite app_nil_r, wins_app. }
  destruct e as [m|m|m v|m x a| |]; cbn.
  - destruct (claim (sy_clock y) m (sy_store y)) as [s' r] eqn:E.
    destruct (Hop (Store.OClaim (sy_clock y) m)) as [-> ->]. cbn. rewrite E.
    split_and!; [done|done|]. f_equal. unfold Spec.wins, won.
    destruct r as [[]|]; cbn; by try destruct (bool_decide (m = mid)).
  - destruct (get_status (sy_clock y) m (sy_store y)) as [s' r] eqn:E.
    destruct (Hop (Store.OGet (sy_clock y) m)) as [-> ->]. cbn. rewrite E.
    split_and!; [done|done|]. by destruct r.
  - destruct (mark_completed (sy_clock y) m v (sy_store y)) as [s' r] eqn:E.
    destruct (Hop (Store.OComplete (sy_clock y) m v)) as [-> ->]. cbn. by rewrite E.
  - destruct (mark_failed (sy_clock y) m x a (sy_store y)) as [s' r] eqn:E.
    destruct (Hop (Store.OFail (sy_clock y) m x a)) as [-> ->]. cbn. by rewrite E.
  - rewrite app_nil_r. split_and!; [done|done|]. cbn. lia.
  - rewrite app_nil_r. split_and!; [done|done|]. cbn. lia.
Qed.

Lemma do_move_inv n m jobs s0 mid y : sys_inv jobs s0 mid y → sys_inv jobs s0 mid (do_move n m y).
Proof.
  intros (Ht & Hs & Hw). destruct m as [i|d].
  2:{ split_and!; [done|..]; cbn [sy_store sy_ops sy_threads do_move]; rewrite exec_ops_app;
        cbn [exec_ops exec_op fst snd]; [by rewrite Hs|].
      rewrite wins_app, Hw. unfold Spec.wins at 3. cbn. lia. }
  cbn. destruct (sy_threads y !! i) as [[tr [a|x|X e k]]|] eqn:Hi; [by split_and!..| |by split_and!].
  pose proof (answer_spec n y e mid s0 Hs) as Ha.
  destruct (answer n y e) as [[s ops] r]. destruct Ha as (Hal & Hs' & Hw').
  split_and!; cbn; [|done|].
  - destruct (Forall2_lookup_r _ _ _ _ _ Ht Hi) as (j & Hj & Hp).
    rewrite <- (list_insert_id jobs i j Hj). apply Forall2_insert; [done|]. cbn.
    by apply partial_snoc.
  - rewrite Hw', <- Hw.
    pose proof (sum_insert (won_by mid) _ _ _ (mkThread (tr ++ [Step e r]) (k r)) Hi) as Hsum.
    assert (won_by mid (mkThread (tr ++ [Step e r]) (k r)) =
            won mid (trace_of tr) + won mid (option_list (obs_ev e r))) as Hnew.
    { unfold won_by. cbn [t_done]. by rewrite trace_of_app, won_app, trace_of_cons, app_nil_r. }
    change (won_by mid (mkThread tr (Vis e k))) with (won mid (trace_of tr)) in Hsum. lia.
Qed.

Lemma do_moves_inv ms jobs s0 mid : ∀ n y, sys_inv jobs s0 mid y → sys_inv jobs s0 mid (do_moves n ms y).
Proof. induction ms as [|m ms IH]; intros n y Hy; [done|]. by apply IH, do_move_inv. Qed.

(** ** At most once *)

(** The attempts at handling [mid] in one delivery, and in all of them. *)
Definition attempts_on (mid : string) (j : consumer * consumer_record) (t : thread) : nat :=
  match extract_message_id j.2 with
  | Ok (Some m) => if decide (m = mid) then length (handles (trace_of (t_done t))) else 0
  | _ => 0
  end.

Definition total_attempts (mid : string) (jobs : list (consumer * consumer_record)) (y : system)
    : nat :=
  sum_list (zip_with (attempts_on mid) jobs (sy_threads y)).

Lemma every_event_answered X (e : ev X) : ∃ r, allowed e r.
Proof. exists (oracle 0 X e). apply oracle_allowed. Qed.

(** An unfinished delivery, too, makes each attempt on a claim of its own. *)
Lemma thread_attempts mid j t :
  mid ≠ ""%string → partial (@allowed) (process_record j.1 j.2) (t_done t) (t_rest t) →
  attempts_on mid j t ≤ won_by mid t.
Proof.
  intros Hmid Hp. unfold attempts_on, won_by.
  destruct (extract_message_id j.2) as [[m|]|] eqn:He; [|lia..].
  case_decide as Hm; [subst m|lia]. apply licensed_count. intros h1 m r h2 E.
  destruct (partial_extend _ _ _ _ every_event_answered Hp) as (tr' & o & Hx).
  eapply (executed_licensed j.1 j.2 (trace_of (t_done t ++ tr')) o mid h1 m r (h2 ++ trace_of tr')).
  - by exists (t_done t ++ tr').
  - done.
  - done.
  - rewrite trace_of_app, E. by rewrite <- app_assoc.
Qed.

Lemma total_attempts_wins mid jobs y s0 :
  mid ≠ ""%string → sys_inv jobs s0 mid y →
  total_attempts mid jobs y ≤ Spec.wins mid (exec_ops (sy_ops y) s0).2.
Proof.
  intros Hmid (Ht & _ & <-). unfold total_attempts.
  induction Ht as [|j t jobs ts Hp Ht IH]; cbn; [lia|].
  pose proof (thread_attempts mid j t Hmid Hp). lia.
Qed.

(** C12: mutual exclusion across consumers.  However the deliveries of a message
    interleave, in however many consumers, handle() is attempted at most once in
    all of them together, as long as the claims fall within one lease of the
    first and no failure, deletion or expiry intervenes. *)
Theorem handled_at_most_once jobs s now ms mid t0 :
  let y := do_moves 0 ms (start_system jobs s now) in
  mid ≠ ""%string → st_inv s → st_view s mid = None → ops_ok (sy_ops y) s →
  Forall (Spec.undisturbed mid) (exec_ops (sy_ops y) s).2 →
  Forall (Spec.claims_at mid (λ clk,
    t0 ≤ clk < t0 + processing_timeout_seconds (st_config s) * 1000000)%Z) (exec_ops (sy_ops y) s).2 →
  total_attempts mid jobs y ≤ 1.
Proof.
  intros y Hmid Hi Hv Hok Hu Hc.
  pose proof (do_moves_inv ms jobs s mid 0 _ (start_inv jobs s now mid)) as Hinv.
  pose proof (total_attempts_wins mid jobs y s Hmid Hinv) as Hle.
  destruct (exec_ops_refines (sy_ops y) s Hi Hok) as (_ & _ & m & Hr & _).
  rewrite (Spec.absent_run _ _ t0 mid _ _ _ Hr Hv Hu Hc) in Hle. lia.
Qed.

(** No attempt without a claim, across consumers: in every interleaving
    handle() is attempted for a message no more often than its claims are won. *)
Theorem attempts_within_claims jobs s now ms mid :
  let y := do_moves 0 ms (start_system jobs s now) in
  mid ≠ ""%string → total_attempts mid jobs y ≤ Spec.wins mid (exec_ops (sy_ops y) s).2.
Proof.
  intros y Hmid. apply total_attempts_wins; [done|]. apply do_moves_inv, start_inv.
Qed.

End System.

(** ** Evaluated: two consumers race for a message *)

#[local] Existing Instances Memory.memory_store Memory.memory_view Memory.memory_laws.
#[local] Existing Instances json_text text_runtime.

(** handle() returns [None]; nothing raises. *)
Definition calm (n : nat) (X : Type) (e : ev X) : res X :=
  match e in ev X return res X with
  | EStore e =>
      match e in store_ev X return res X with
      | EClaim _ => Ok false
      | EGetStatus _ => Ok None
      | EMarkCompleted _ _ => Ok tt
      | EMarkFailed _ _ _ => Ok tt
      | EConnect => Ok tt
      | EClose => Ok tt
      end
  | EMetric _ => Ok tt
  | EPerfCounter => Ok 0%Z
  | ESleep _ => Ok tt
  | EHandle _ => Ok PyNone
  | ECommit => Ok tt
  | ESend _ _ _ => Ok tt
  | EConsumerStart => Ok tt
  | EConsumerStop => Ok tt
  | EProducerStart => Ok tt
  | EProducerStop => Ok tt
  | EPoll => Ok None
  | EIsRunning => Ok true
  end.

Lemma calm_allowed n X (e : ev X) : allowed e (calm n X e).
Proof. by destruct e. Qed.

Definition racers : list (consumer * consumer_record) :=
  let job := (mkConsumer default_config None true false true,
              mkRecord "orders" 0 7 [("X-Message-Id"%string, Some "m1"%string)] None None) in
  [job; job].

(** They alternate, event by event, until both are done. *)
Definition alternate : list move := concat (replicate 20 [Run 0; Wait 5; Run 1]).

#[local] Abbreviation raced_system :=
  (do_moves calm 0 alternate (start_system racers (Memory.init None) 1000000)).

Lemma raced_ok : ops_ok (sy_ops raced_system) (Memory.init None).
Proof. vm_compute. repeat split; discriminate. Qed.

(** What the store saw: one claim won, one refused. *)
Lemma raced_labels :
  Forall (Spec.undisturbed "m1") (exec_ops (sy_ops raced_system) (Memory.init None)).2 ∧
  Forall (Spec.claims_at "m1" (λ clk, 1000000 ≤ clk < 1000000 + 300 * 1000000)%Z)
    (exec_ops (sy_ops raced_system) (Memory.init None)).2.
Proof.
  set (ls := (exec_ops _ _).2). vm_compute in ls. subst ls.
  split; repeat constructor; simpl; intros; lia.
Qed.

Lemma handled_at_most_once_witness :
  total_attempts "m1" racers raced_system = 1 ∧ total_attempts "m1" racers raced_system ≤ 1.
Proof.
  split; [vm_compute; reflexivity|].
  exact (handled_at_most_once calm calm_allowed racers (Memory.init None) 1000000 alternate "m1"
    1000000 ltac:(discriminate) (Memory.init_inv None) eq_refl raced_ok
    (proj1 raced_labels) (proj2 raced_labels)).
Defined.

Lemma attempts_within_claims_witness :
  total_attempts "m1" racers raced_system ≤
  Spec.wins "m1" (exec_ops (sy_ops raced_system) (Memory.init None)).2.
Proof.
  exact (attempts_within_claims calm calm_allowed racers (Memory.init None) 1000000 alternate "m1"
    ltac:(discriminate)).
Defined.
