(* ===== verification/Leases.v ===== *)
(** * Leases across consumers

    Who holds the lease of a message while the deliveries of Concurrency.v are
    interleaved, with failures, re-claims, crashes (a thread that takes no more
    steps) and time that passes: at most one live holder, as long as no consumer
    outlives its lease and no record expires under one; and the race that is open
    when a consumer does. *)

From S2P Require Import Prelude Prog Utf8 PyJson JsonText Models Store MemoryStore StoreEvents Metrics.
From S2P Require Import Consumer ConsumerSpec ConsumerShapes ConsumerProps Concurrency.
Import Spec.

Section Leases.
Context `{!PyRuntime} `{!JsonCodec} {T : Type} `{DedupStoreLaws T}.
Context (oracle : nat → ∀ X, ev X → res X).
Context (oracle_allowed : ∀ n X (e : ev X), allowed e (oracle n X e)).
Context (mid : string) (mid_nonempty : mid ≠ ""%string).

Abbreviation system := (@system T).
Implicit Types (y : system) (g : gmap nat Z).

(** The clock by which the store measures leases. *)
Definition lease_clock y : Z := st_clock (sy_clock y) (sy_store y).

(** ** Who holds the lease *)

(** The ghost state maps a thread to the end of its lease: from a claim of [mid] it won to the
    next mark it makes. *)
Definition is_mark {X} (e : ev X) : bool :=
  match e with
  | EStore (EMarkCompleted m _) | EStore (EMarkFailed m _ _) => bool_decide (m = mid)
  | _ => false
  end.

Definition leased {X} (y : system) (i : nat) (e : ev X) (r : res X) (g : gmap nat Z) : gmap nat Z :=
  match obs_ev e r with
  | Some o =>
      if is_won mid o
      then <[i := (lease_clock y + processing_timeout_seconds (st_config (sy_store y)) * 1000000)%Z]> g
      else if is_mark e then base.delete i g else g
  | None => g
  end.

(** The same from the trace of the thread alone. *)
Definition holding_step (b : bool) (o : obs) : bool :=
  match o with
  | OClaim m (Ok true) => if decide (m = mid) then true else b
  | OComplete m _ _ | OFail m _ _ _ => if decide (m = mid) then false else b
  | _ => b
  end.

Definition holding (h : list obs) : bool := foldl holding_step false h.

(** ** Steps *)

(** The store can serve the call. *)
Definition servable {X} y (e : ev X) : Prop :=
  match e with
  | EStore e => if op_of (sy_clock y) e is Some op then op_ok op (sy_store y) else True
  | _ => True
  end.

(** A mark comes from a holder whose lease is live. *)
Definition punctual {X} y g (i : nat) (e : ev X) : Prop :=
  is_mark e = true → ∃ l, g !! i = Some l ∧ (lease_clock y < l)%Z.

(** No record of the message expires while a lease of it is live. *)
Definition outlived y g (n : nat) (d : Z) : Prop :=
  ∀ i l, g !! i = Some l → (lease_clock (do_move oracle n (Wait d) y) < l)%Z → st_survives d (sy_store y) mid.

Inductive lease_step : system * gmap nat Z → system * gmap nat Z → Prop :=
| step_wait y g n d :
    (0 ≤ d)%Z → outlived y g n d →
    lease_step (y, g) (do_move oracle n (Wait d) y, g)
| step_run y g n i tr X (e : ev X) k :
    sy_threads y !! i = Some (mkThread tr (Vis e k)) →
    servable y e → punctual y g i e →
    lease_step (y, g) (do_move oracle n (Run i) y, leased y i e (answer oracle n y e).2 g).

(** ** The invariant *)

Record lease_inv (jobs : list (consumer * consumer_record)) (yg : system * gmap nat Z) : Prop := {
  li_store : st_inv (sy_store yg.1);
  (** every thread runs its delivery *)
  li_threads : Forall2 (λ j t, partial (@allowed) (process_record j.1 j.2) (t_done t) (t_rest t))
    jobs (sy_threads yg.1);
  (** the ghost state is that of the traces *)
  li_ghost : ∀ i t, sy_threads yg.1 !! i = Some t →
    holding (trace_of (t_done t)) = bool_decide (is_Some (yg.2 !! i));
  (** a live lease is that of the record *)
  li_live : ∀ i l, yg.2 !! i = Some l → (lease_clock yg.1 < l)%Z →
    ∃ p, st_view (sy_store yg.1) mid = Some p ∧ ps_status p = PROCESSING ∧ ps_lease_expires_at p = Some l;
  (** and there is one at most *)
  li_one : ∀ i j l l', yg.2 !! i = Some l → (lease_clock yg.1 < l)%Z →
    yg.2 !! j = Some l' → (lease_clock yg.1 < l')%Z → i = j;
}.

Lemma holding_app h o : holding (h ++ [o]) = holding_step (holding h) o.
Proof. unfold holding. by rewrite foldl_app. Qed.

Lemma holding_metrics h0 h' :
  only [KMetric] h' → holding (h0 ++ OClaim mid (Ok true) :: h') = true.
Proof.
  intros Ho. unfold holding. rewrite foldl_app. cbn [foldl holding_step]. rewrite decide_True by done.
  induction Ho as [|o h' Hk _ IH]; [done|]. cbn. destruct o; try done; cbn in Hk; set_solver.
Qed.

(** What an answered call does to the record of [mid]. *)
Lemma answer_record {X} n y (e : ev X) :
  st_inv (sy_store y) → servable y e →
  let '(s, ops, r) := answer oracle n y e in
  allowed e r ∧ st_inv s ∧ (∀ now, st_clock now s = st_clock now (sy_store y)) ∧
  match obs_ev e r with
  | Some o =>
      if is_won mid o
      then claimable (st_config (sy_store y)) (lease_clock y) (st_view (sy_store y) mid) = true ∧
           ∃ p, st_view s mid = Some p ∧ ps_status p = PROCESSING ∧ ps_lease_expires_at p =
             Some (lease_clock y + processing_timeout_seconds (st_config (sy_store y)) * 1000000)%Z
      else is_mark e = false → st_view s mid ≡ st_view (sy_store y) mid
  | None => st_view s mid ≡ st_view (sy_store y) mid
  end.
Proof.
  intros Hi Hok. pose proof (oracle_allowed n X e) as Hal.
  destruct e as [X e|c| | | | | | | | | | |]; [|split_and!; [done..|try destruct c; cbn; intros; reflexivity]..].
  clear Hal. destruct e as [m|m|m v|m x a| |]; cbn in Hok |- *.
  - destruct (claim_spec _ _ _ Hi Hok) as (s' & E & Hi' & (_ & Hk & Hf) & V). rewrite E.
    split_and!; [done..|]. unfold do_claim in *. destruct (decide (m = mid)) as [->|Hne].
    + rewrite bool_decide_eq_true_2 by done. fold (lease_clock y) in *.
      destruct (claimable _ _ _); cbn in V |- *; [|by intros _]. split; [done|].
      inversion V as [p q (_ & Hs & _ & _ & _ & Hl & _) Hp|]; subst. by exists p.
    + rewrite bool_decide_eq_false_2 by done.
      destruct (claimable _ _ _); cbn; intros _; by rewrite Hf.
  - rewrite get_status_spec by done. by split_and!.
  - destruct (mark_completed_spec _ _ _ v Hi Hok) as (s' & E & Hi' & (_ & Hk & Hf) & V). rewrite E.
    split_and!; [done..|]. intros Hm. apply bool_decide_eq_false_1 in Hm. by rewrite Hf.
  - destruct (mark_failed_spec _ _ _ x a Hi Hok) as (s' & E & Hi' & (_ & Hk & Hf) & V). rewrite E.
    split_and!; [done..|]. intros Hm. apply bool_decide_eq_false_1 in Hm. by rewrite Hf.
  - by split_and!.
  - by split_and!.
Qed.

(** The ghost state follows the traces. *)
Lemma leased_holding {X} y i (e : ev X) r g b :
  b = bool_decide (is_Some (g !! i)) →
  foldl holding_step b (option_list (obs_ev e r)) = bool_decide (is_Some (leased y i e r g !! i)).
Proof.
  intros ->. unfold leased. destruct (obs_ev e r) as [o|] eqn:Eo; [|done]. cbn [foldl option_list].
  destruct (is_won mid o) eqn:Hw.
  { destruct o as [m [[]|]| | | | | | | | |]; try done. cbn in Hw |- *. apply bool_decide_eq_true_1 in Hw as ->.
    rewrite decide_True, lookup_insert_eq by done. by rewrite bool_decide_eq_true_2. }
  destruct (is_mark e) eqn:Hm.
  { destruct e as [X e|c| | | | | | | | | | |]; try done. injection Eo as <-.
    destruct e as [m|m|m v|m x a| |]; try done; cbn in Hm |- *; apply bool_decide_eq_true_1 in Hm as ->;
      rewrite decide_True, lookup_delete_eq by done; by rewrite bool_decide_eq_false_2 by (by intros []). }
  destruct e as [X e|c| | | | | | | | | | |];
    [|destruct c; try discriminate; by injection Eo as <-|try discriminate; by injection Eo as <-..].
  injection Eo as <-. destruct e as [m|m|m v|m x a| |]; try done; cbn in Hw, Hm |- *.
  - destruct r as [[]|]; try done. apply bool_decide_eq_false_1 in Hw. by rewrite decide_False.
  - apply bool_decide_eq_false_1 in Hm. by rewrite decide_False.
  - apply bool_decide_eq_false_1 in Hm. by rewrite decide_False.
Qed.

Lemma leased_other {X} y i j (e : ev X) r g : i ≠ j → leased y i e r g !! j = g !! j.
Proof.
  intros Hne. unfold leased. destruct (obs_ev e r); [|done].
  destruct (is_won mid o); [by rewrite lookup_insert_ne|].
  destruct (is_mark e); [by rewrite lookup_delete_ne|done].
Qed.

Lemma not_claimable_live y p l :
  st_view (sy_store y) mid = Some p → ps_status p = PROCESSING → ps_lease_expires_at p = Some l →
  (lease_clock y < l)%Z →
  claimable (st_config (sy_store y)) (lease_clock y) (st_view (sy_store y) mid) = false.
Proof.
  intros -> Hs Hl Hlt. cbn. unfold retryable, orphaned, is_failed. rewrite Hs, Hl. cbn.
  rewrite (proj2 (Z.leb_gt _ _)) by done. by rewrite andb_false_r.
Qed.

Lemma lease_inv_start jobs s now : st_inv s → lease_inv jobs (start_system jobs s now, ∅).
Proof.
  intros Hi. split; cbn; [done| | |done|done].
  - apply Forall2_fmap_r, Forall_Forall2_diag, Forall_true. done.
  - intros i t Ht. apply list_lookup_fmap_Some in Ht as (j & -> & _). done.
Qed.

Lemma lease_inv_wait jobs n d y g :
  (0 ≤ d)%Z → outlived y g n d →
  lease_inv jobs (y, g) → lease_inv jobs (do_move oracle n (Wait d) y, g).
Proof.
  intros Hd Hsv [Hi Ht Hg Hl Ho].
  assert (Hmono : (lease_clock y ≤ lease_clock (do_move oracle n (Wait d) y))%Z) by by apply elapse_clock.
  split; cbn [fst snd] in *; [by apply elapse_inv|done|done| |].
  - intros i l Hgi Hlt. destruct (Hl i l Hgi) as (p & Hp & Hrest); [lia|]. exists p. split; [|done]. cbn.
    destruct (elapse_view d (sy_store y) mid Hd Hi) as [[_ ->]|[[] _]]; [done|]. by eapply Hsv.
  - intros i j l l' Hgi Hlt Hgj Hlt'. eapply Ho; [exact Hgi|lia|exact Hgj|lia].
Qed.

(** Live leases after a call: those of before, and that of a claim that is won. *)
Lemma leased_live {X} y i (e : ev X) r g s :
  (∀ j l, g !! j = Some l → (lease_clock y < l)%Z →
    ∃ p, st_view (sy_store y) mid = Some p ∧ ps_status p = PROCESSING ∧ ps_lease_expires_at p = Some l) →
  (∀ j j' l l', g !! j = Some l → (lease_clock y < l)%Z → g !! j' = Some l' → (lease_clock y < l')%Z → j = j') →
  punctual y g i e →
  match obs_ev e r with
  | Some o =>
      if is_won mid o
      then claimable (st_config (sy_store y)) (lease_clock y) (st_view (sy_store y) mid) = true ∧
           ∃ p, st_view s mid = Some p ∧ ps_status p = PROCESSING ∧ ps_lease_expires_at p =
             Some (lease_clock y + processing_timeout_seconds (st_config (sy_store y)) * 1000000)%Z
      else is_mark e = false → st_view s mid ≡ st_view (sy_store y) mid
  | None => st_view s mid ≡ st_view (sy_store y) mid
  end →
  (∀ j l, leased y i e r g !! j = Some l → (lease_clock y < l)%Z →
    ∃ p, st_view s mid = Some p ∧ ps_status p = PROCESSING ∧ ps_lease_expires_at p = Some l) ∧
  (∀ j j' l l', leased y i e r g !! j = Some l → (lease_clock y < l)%Z →
    leased y i e r g !! j' = Some l' → (lease_clock y < l')%Z → j = j').
Proof.
  intros Hl Ho Hp. unfold leased.
  assert (Hkeep : st_view s mid ≡ st_view (sy_store y) mid → ∀ j l, g !! j = Some l → (lease_clock y < l)%Z →
    ∃ p, st_view s mid = Some p ∧ ps_status p = PROCESSING ∧ ps_lease_expires_at p = Some l).
  { intros V j l Hg Hlt. destruct (Hl j l Hg Hlt) as (p & Hv & Hs & Hle).
    rewrite Hv in V. inversion V as [q q' (_ & Hs' & _ & _ & _ & Hl' & _) Hq|]; subst q'.
    exists q. by rewrite Hs', Hl'. }
  destruct (obs_ev e r) as [o|] eqn:Eo; [|intros V; split; [by apply Hkeep|done]].
  destruct (is_won mid o).
  - intros [Hyes (p & Hv & Hs & Hle)].
    assert (Hdead : ∀ j l, g !! j = Some l → (lease_clock y < l)%Z → False).
    { intros j l Hg Hlt. destruct (Hl j l Hg Hlt) as (q & Hq & Hsq & Hlq).
      by rewrite (not_claimable_live y q l Hq Hsq Hlq Hlt) in Hyes. }
    split.
    + intros j l. rewrite lookup_insert_Some. intros [[<- <-]|[_ Hg]] Hlt; [|by edestruct Hdead].
      by exists p.
    + intros j j' l l'. rewrite !lookup_insert_Some.
      intros [[<- <-]|[_ Hg]] Hlt [[<- <-]|[_ Hg']] Hlt'; [done|by edestruct Hdead..].
  - destruct (is_mark e) eqn:Hm; [|intros V; split; [by apply Hkeep, V|done]].
    intros _. destruct (Hp Hm) as (l0 & Hg0 & Hlt0).
    assert (Hdead : ∀ j l, base.delete i g !! j = Some l → (lease_clock y < l)%Z → False).
    { intros j l. rewrite lookup_delete_Some. intros [Hne Hg] Hlt. apply Hne. by eapply Ho. }
    split; [intros j l Hg Hlt|intros j j' l l' Hg Hlt _ _]; by edestruct Hdead.
Qed.

Lemma lease_inv_run jobs n y g i tr X (e : ev X) k :
  sy_threads y !! i = Some (mkThread tr (Vis e k)) → servable y e → punctual y g i e →
  lease_inv jobs (y, g) → lease_inv jobs (do_move oracle n (Run i) y, leased y i e (answer oracle n y e).2 g).
Proof.
  intros Hi Hok Hp [Hst Ht Hg Hl Ho]. cbn [fst snd] in *.
  pose proof (answer_record n y e Hst Hok) as Ha. cbn [do_move]. rewrite Hi.
  destruct (answer oracle n y e) as [[s ops] r]. destruct Ha as (Hal & Hst' & Hk & Hrec).
  cbn [snd]. set (y' := mkSystem _ s (sy_clock y) _).
  assert (Hclk : lease_clock y' = lease_clock y) by apply Hk.
  destruct (leased_live y i e r g s Hl Ho Hp Hrec) as [Hl' Ho'].
  split; cbn [fst snd]; [done| | | |].
  - destruct (Forall2_lookup_r _ _ _ _ _ Ht Hi) as (j & Hj & Hpart). cbn.
    rewrite <- (list_insert_id jobs i j Hj). apply Forall2_insert; [done|]. exact (partial_snoc _ _ _ _ _ r Hpart Hal).
  - intros j t Hj. cbn in Hj. apply list_lookup_insert_Some in Hj as [(<- & <- & _)|[Hne Hj]].
    + cbn [t_done]. rewrite trace_of_app, trace_of_cons, app_nil_r. unfold holding. rewrite foldl_app.
      apply leased_holding. exact (Hg i _ Hi).
    + rewrite leased_other by done. by apply Hg.
  - rewrite Hclk. intros j l Hj Hlt. by apply (Hl' j l Hj Hlt).
  - rewrite Hclk. exact Ho'.
Qed.

Lemma lease_inv_steps jobs yg yg' : rtc lease_step yg yg' → lease_inv jobs yg → lease_inv jobs yg'.
Proof.
  induction 1 as [|? ? ? [] _ IH]; [done|..]; intros Hinv; apply IH;
    [by apply lease_inv_wait|by eapply lease_inv_run].
Qed.

(** ** What it means *)

(** The thread is at its call of handle(), for a record of [mid]. *)
Definition handling (jobs : list (consumer * consumer_record)) y (i : nat) : Prop :=
  ∃ j t m k, jobs !! i = Some j ∧ sy_threads y !! i = Some t ∧
    extract_message_id j.2 = Ok (Some mid) ∧ t_rest t = Vis (EHandle m) k.

Lemma handling_holds jobs y g i : lease_inv jobs (y, g) → handling jobs y i → is_Some (g !! i).
Proof.
  intros [_ Ht Hg _ _] (j & [tr rest] & m & k & Hj & Hi & He & Hr). cbn [fst snd t_rest t_done] in *. subst rest.
  pose proof (Hg i _ Hi) as Hb. cbn [t_done] in Hb.
  destruct (Forall2_lookup_l _ _ _ _ _ Ht Hj) as (t' & Hi' & Hp). rewrite Hi in Hi'. injection Hi' as <-.
  cbn [t_done t_rest] in Hp.
  assert (Hp' := partial_snoc _ _ _ _ _ (oracle 0 _ (EHandle m)) Hp (oracle_allowed 0 _ (EHandle m))).
  destruct (partial_extend _ _ _ _ (every_event_answered oracle oracle_allowed) Hp') as (tr' & o & Hx).
  destruct (executed_licensed j.1 j.2 (trace_of ((tr ++ [Step (EHandle m) (oracle 0 _ (EHandle m))]) ++ tr'))
    o mid (trace_of tr) m (oracle 0 _ (EHandle m)) (trace_of tr')) as (h0 & h' & E & Ho);
    [by eexists|done|done|by rewrite !trace_of_app, trace_of_cons, <- app_assoc|].
  rewrite E, holding_metrics in Hb by done. symmetry in Hb. by apply bool_decide_eq_true_1 in Hb.
Qed.

(** C7: one live holder, at every moment.  Deliveries of any number of consumers interleave over one
    store, by calls that it can represent; they fail, claim again, stop for ever, and time passes.  As long as no consumer marks the
    message after its lease is over and the record of the message does not expire while a lease of it
    is live, in every state that is reached each consumer in handle() for the message holds a lease
    that it was granted, at most one of these leases is live, and a live one is the lease of the stored
    record, which is PROCESSING. *)
Theorem one_live_holder jobs s now y g :
  st_inv s → rtc lease_step (start_system jobs s now, ∅) (y, g) →
  (∀ i, handling jobs y i → is_Some (g !! i)) ∧
  (∀ i l, g !! i = Some l → (lease_clock y < l)%Z →
    ∃ p, st_view (sy_store y) mid = Some p ∧ ps_status p = PROCESSING ∧ ps_lease_expires_at p = Some l) ∧
  (∀ i j l l', g !! i = Some l → g !! j = Some l' → (lease_clock y < l)%Z → (lease_clock y < l')%Z → i = j).
Proof.
  intros Hi Hr. pose proof (lease_inv_steps jobs _ _ Hr (lease_inv_start jobs s now Hi)) as Hinv.
  split_and!; [intros i; by eapply handling_holds|apply Hinv|].
  intros i j l l' Hl Hl' Hlt Hlt'. by eapply (li_one _ _ Hinv).
Qed.

(** ** A consumer that outlives its lease *)

(** C35: marks are not fenced.  The stores look at the status of a record, not at who claimed it: when a
    consumer reports a failure with attempts left, whoever holds the lease by now, the next claim of
    the message is won although that lease is live. *)
Theorem stale_mark_unlocks n y i j tr tr' x a k k' p l :
  i ≠ j → sy_threads y !! i = Some (mkThread tr (Vis (EStore (EMarkFailed mid x a)) k)) →
  sy_threads y !! j = Some (mkThread tr' (Vis (EStore (EClaim mid)) k')) →
  st_inv (sy_store y) → st_view (sy_store y) mid = Some p → ps_status p = PROCESSING →
  ps_lease_expires_at p = Some l → (lease_clock y < l)%Z →
  retry_failed (st_config (sy_store y)) = true → (a < max_retries (st_config (sy_store y)))%Z →
  servable y (EStore (EMarkFailed mid x a)) → servable (do_move oracle n (Run i) y) (EStore (EClaim mid)) →
  let y' := do_moves oracle n [Run i; Run j] y in
  sy_threads y' !! j = Some (mkThread (tr' ++ [Step (EStore (EClaim mid)) (Ok true)]) (k' (Ok true))) ∧
  (lease_clock y' < l)%Z.
Proof.
  intros Hne Hti Htj Hi Hv Hs Hl Hlt Hr Ha Hok Hok1. cbn [do_moves]. cbn in Hok.
  revert Hok1. cbn [do_move]. rewrite Hti. cbn.
  destruct (mark_failed_spec _ _ _ x a Hi Hok) as (s1 & E1 & Hi1 & (Hc1 & Hk1 & _) & V1). rewrite E1. cbn.
  intros Hok1. rewrite list_lookup_insert_ne, Htj by done. cbn.
  rewrite Hv in V1. cbn in V1. rewrite decide_False in V1 by (by intros [_ []]).
  inversion V1 as [q q' (_ & Hs' & Ha' & _) Hq|]; subst q'. symmetry in Hq.
  destruct (claim_spec s1 (sy_clock y) mid Hi1 Hok1) as (s2 & E2 & _ & (_ & Hk2 & _) & _).
  rewrite E2. cbn. split; [|unfold lease_clock in *; cbn; by rewrite Hk2, Hk1].
  rewrite list_lookup_insert_eq by (rewrite length_insert; by eapply lookup_lt_Some).
  unfold do_claim, claimable. rewrite Hq. unfold retryable, is_failed. cbn in Hs', Ha'.
  rewrite Hs', Ha', Hc1, Hr, bool_decide_true, (proj2 (Z.ltb_lt _ _) Ha) by done. done.
Qed.

(** ** Schedules *)

(** The state that a schedule leads to, with the ghost state. *)
Fixpoint play (n : nat) (ms : list move) (yg : system * gmap nat Z) : system * gmap nat Z :=
  match ms with
  | [] => yg
  | m :: ms' =>
      let '(y, g) := yg in
      play (S n) ms' (do_move oracle n m y,
        match m with
        | Wait _ => g
        | Run i =>
            match sy_threads y !! i with
            | Some (mkThread _ (Vis e _)) => leased y i e (answer oracle n y e).2 g
            | _ => g
            end
        end)
  end.

(** Every move of the schedule is a step. *)
Fixpoint playable (n : nat) (ms : list move) (yg : system * gmap nat Z) : Prop :=
  match ms with
  | [] => True
  | m :: ms' =>
      let '(y, g) := yg in
      match m with
      | Wait d => (0 ≤ d)%Z ∧ outlived y g n d
      | Run i =>
          match sy_threads y !! i with
          | Some (mkThread _ (Vis e _)) => servable y e ∧ punctual y g i e
          | _ => False
          end
      end ∧ playable (S n) ms' (play n [m] yg)
  end.

Lemma play_steps ms : ∀ n yg, playable n ms yg → rtc lease_step yg (play n ms yg).
Proof.
  induction ms as [|m ms IH]; intros n [y g] Hp; [done|]. destruct Hp as [Hm Hp].
  apply IH in Hp. eapply rtc_l; [|exact Hp]. cbn [play]. destruct m as [i|d].
  - destruct (sy_threads y !! i) as [[tr [| |X e k]]|] eqn:Hi; [done|done| |done].
    destruct Hm as [Hok Hpu]. by eapply step_run.
  - destruct Hm. by apply step_wait.
Qed.

End Leases.

(** ** Evaluated: three deliveries of one message *)

#[local] Existing Instances Memory.memory_store Memory.memory_view Memory.memory_laws.
#[local] Existing Instances json_text text_runtime.

(** handle() raises, everything else is as in Concurrency.v. *)
Definition failing (n : nat) (X : Type) (e : ev X) : res X :=
  match e in ev X return res X with
  | EHandle _ => Err (Exn "PaymentError" "declined" true)
  | e => calm n _ e
  end.

Lemma failing_allowed n X (e : ev X) : allowed e (failing n X e).
Proof. by destruct e. Qed.

Definition three : list (consumer * consumer_record) :=
  let job := (mkConsumer default_config None true false true,
              mkRecord "orders" 0 7 [("X-Message-Id"%string, Some "m1"%string)] None None) in
  [job; job; job].

Definition three_start : @system Memory.state := start_system three (Memory.init None) 1000000.

(** The first delivery claims, fails, waits and claims again; the second is refused meanwhile. *)
Definition retried : list move :=
  replicate 6 (Run 0) ++ replicate 2 (Run 1) ++ replicate 8 (Run 0) ++ [Wait 500000] ++ replicate 4 (Run 0).

(** The next call of a thread. *)
Definition next_call {A} (f : ∀ X, ev X → A) (d : A) (y : @system Memory.state) (i : nat) : A :=
  match sy_threads y !! i with Some (mkThread _ (Vis e _)) => f _ e | _ => d end.

Definition is_handle X (e : ev X) : bool := match e with EHandle _ => true | _ => false end.
Definition is_claim X (e : ev X) : option string := match e with EStore (EClaim m) => Some m | _ => None end.
Definition is_failure X (e : ev X) : option (string * string * Z) :=
  match e with EStore (EMarkFailed m x a) => Some (m, x, a) | _ => None end.

Lemma next_handle y i : next_call is_handle false y i = true →
  ∃ t m k, sy_threads y !! i = Some t ∧ t_rest t = Vis (EHandle m) k.
Proof.
  unfold next_call. destruct (sy_threads y !! i) as [[tr [| |X e k]]|]; try done.
  destruct e; try done. by eexists _, _, _.
Qed.

Lemma next_claim y i m : next_call is_claim None y i = Some m →
  ∃ tr k, sy_threads y !! i = Some (mkThread tr (Vis (EStore (EClaim m)) k)).
Proof.
  unfold next_call. destruct (sy_threads y !! i) as [[tr [| |X e k]]|]; try done.
  destruct e as [X e|c| | | | | | | | | | |]; try done. destruct e; try done. intros [= <-]. by eexists _, _.
Qed.

Lemma next_failure y i m x a : next_call is_failure None y i = Some (m, x, a) →
  ∃ tr k, sy_threads y !! i = Some (mkThread tr (Vis (EStore (EMarkFailed m x a)) k)).
Proof.
  unfold next_call. destruct (sy_threads y !! i) as [[tr [| |X e k]]|]; try done.
  destruct e as [X e|c| | | | | | | | | | |]; try done. destruct e; try done.
  intros [= <- <- <-]. by eexists _, _.
Qed.

Lemma next_handling y i j : three !! i = Some j → next_call is_handle false y i = true → handling "m1" three y i.
Proof.
  intros Hj (t & m & k & Ht & Hr)%next_handle. exists j, t, m, k. split_and!; try done.
  unfold three in Hj. by destruct i as [|[|[|]]]; simplify_eq/=.
Qed.

Lemma retried_playable : playable failing "m1" 0 retried (three_start, ∅).
Proof.
  vm_compute.
  repeat lazymatch goal with
  | |- _ ∧ _ => split
  | |- True => exact I
  | |- _ = _ => reflexivity
  | |- false = true → _ => discriminate
  | |- true = true → _ => intros _; eexists
  | |- _ → _ => done
  end.
Qed.

Lemma one_live_holder_witness :
  let y := (play failing "m1" 0 retried (three_start, ∅)).1 in
  let g := (play failing "m1" 0 retried (three_start, ∅)).2 in
  handling "m1" three y 0 ∧ g !! 0 = Some 301500000%Z ∧ lease_clock y = 1500000%Z ∧
  (∀ i, handling "m1" three y i → is_Some (g !! i)) ∧
  (∀ i l, g !! i = Some l → (lease_clock y < l)%Z →
    ∃ p, st_view (sy_store y) "m1" = Some p ∧ ps_status p = PROCESSING ∧ ps_lease_expires_at p = Some l) ∧
  (∀ i j l l', g !! i = Some l → g !! j = Some l' → (lease_clock y < l)%Z → (lease_clock y < l')%Z → i = j).
Proof.
  intros y g. split; [by eapply next_handling; [|vm_compute]|]. split; [by vm_compute|]. split; [by vm_compute|].
  apply (one_live_holder failing failing_allowed "m1" ltac:(discriminate) three (Memory.init None) 1000000 y g
    (Memory.init_inv None)).
  unfold y, g. rewrite <- surjective_pairing.
  exact (play_steps failing "m1" retried 0 (three_start, ∅) retried_playable).
Defined.

(** The first delivery is still in handle() when its lease ends; the second claims the message and
    is in handle(); then the first fails, and the third claims. *)
Definition overrun : list move :=
  replicate 6 (Run 0) ++ [Wait 300000000] ++ replicate 6 (Run 1) ++ replicate 3 (Run 0) ++ [Run 2].

Definition overrun_system : @system Memory.state := (play failing "m1" 0 overrun (three_start, ∅)).1.

Lemma overrun_inv : Memory.inv (sy_store overrun_system).
Proof.
  assert (sy_store overrun_system = Memory.mkState {["m1"%string :=
    mkStatus "m1" PROCESSING 2 PyNone None (Some 601000000%Z) 1000000 301000000]} default_config) as ->
    by (vm_compute; reflexivity).
  apply map_Forall_singleton. split_and!; simpl; first [done | by intros []].
Qed.

Lemma stale_mark_unlocks_witness :
  handling "m1" three overrun_system 1 ∧
  ∃ tr k, let y' := do_moves failing 0 [Run 0; Run 2] overrun_system in
    sy_threads y' !! 2 = Some (mkThread (tr ++ [Step (EStore (EClaim "m1")) (Ok true)]) (k (Ok true))) ∧
    (lease_clock y' < 601000000)%Z.
Proof.
  split; [by eapply next_handling; [|vm_compute]|].
  destruct (next_failure overrun_system 0 "m1" "declined" 1 ltac:(by vm_compute)) as (tr & k & Hf).
  destruct (next_claim overrun_system 2 "m1" ltac:(by vm_compute)) as (tr' & k' & Hc).
  exists tr', k'.
  eapply (stale_mark_unlocks failing "m1" 0 overrun_system 0 2 tr tr' "declined" 1 k k'
    (mkStatus "m1" PROCESSING 2 PyNone None (Some 601000000%Z) 1000000 301000000));
    [discriminate|exact Hf|exact Hc|exact overrun_inv|vm_compute; repeat split..].
Defined.
