(* ===== verification/Outbox.v ===== *)
(** * Transactional outbox (idempotency/outbox.py, the table of scripts/init_db.sql)

    [OutboxWriter] and [OutboxRelay] as effect trees over the statements they
    execute, the transaction around them, and the producer; and the statements
    themselves, as functions on the rows of the table [outbox]. *)

From S2P Require Import Prelude Prog PyJson.

(** ** The table *)

Inductive row_status := PENDING | PUBLISHED | FAILED.

#[export] Instance row_status_eq_dec : EqDecision row_status.
Proof. solve_decision. Defined.

Record row := mkRow {
  row_id : Z;
  row_topic : string;
  row_message_id : string;
  row_payload : string;                 (* the text of the JSONB value *)
  row_status_ : row_status;
  row_created_at : Z;
  row_published_at : option Z;
}.

(** The rows in the order of their ids, and the sequence behind [id]. *)
Record table := mkTable {
  tb_rows : list row;
  tb_next : Z;
}.

(** [_INSERT_SQL]: a conflicting message_id inserts nothing, but takes an id. *)
Definition INSERT (topic message_id payload : string) (created_at : Z) (t : table) : table :=
  mkTable
    (if decide (Exists (λ r, row_message_id r = message_id) (tb_rows t)) then tb_rows t
     else tb_rows t ++ [mkRow (tb_next t) topic message_id payload PENDING created_at None])
    (tb_next t + 1).

(** [_FETCH_SQL]: [locked] are the rows that another transaction holds. *)
Definition fetchable (locked : Z → bool) (r : row) : bool :=
  (bool_decide (row_status_ r = PENDING) && negb (locked (row_id r)))%bool.

Definition FETCH (locked : Z → bool) (limit : nat) (t : table) : list row :=
  take limit (List.filter (fetchable locked) (tb_rows t)).

Definition update_row (id : Z) (f : row → row) (t : table) : table :=
  mkTable ((λ r, if decide (row_id r = id) then f r else r) <$> tb_rows t) (tb_next t).

(** [_MARK_PUBLISHED_SQL] and [_MARK_FAILED_SQL] *)
Definition published (now : Z) (r : row) : row :=
  mkRow (row_id r) (row_topic r) (row_message_id r) (row_payload r) PUBLISHED (row_created_at r)
    (Some now).
Definition failed (r : row) : row :=
  mkRow (row_id r) (row_topic r) (row_message_id r) (row_payload r) FAILED (row_created_at r)
    (row_published_at r).

Definition MARK_PUBLISHED (now id : Z) : table → table := update_row id (published now).
Definition MARK_FAILED (id : Z) : table → table := update_row id failed.

(** ** Events *)
Inductive oev : Type → Type :=
| DbAcquire : oev unit                                 (* pool.acquire() *)
| DbRelease : oev unit                                 (* the connection goes back to the pool *)
| DbBegin : oev unit
| DbCommit : oev unit
| DbRollback : oev unit
| DbInsert (topic message_id payload : string) (created_at : Z) : oev unit
| DbFetch (limit : nat) : oev (list row)
| DbMarkPublished (now id : Z) : oev unit
| DbMarkFailed (id : Z) : oev unit
| RSend (topic value key : string) : oev unit          (* producer.send_and_wait *)
| RNow : oev Z
| RSleep : oev unit                                    (* asyncio.sleep(poll_interval) *)
| RIsRunning : oev bool
| RSetRunning (b : bool) : oev unit.                   (* self._running = b *)

(** [async with pool.acquire() as conn: p] *)
Definition pooled {A} (p : prog oev A) : prog oev A :=
  _ ← trigger DbAcquire; finally p (trigger DbRelease).

(** [async with conn.transaction(): p] *)
Definition transaction {A} (p : prog oev A) : prog oev A :=
  _ ← trigger DbBegin;
  r ← attempt p;
  match r with
  | Ok a => _ ← trigger DbCommit; Ret a
  | Err x => _ ← trigger DbRollback; Raise x
  end.

Section Code.
Context `{!JsonCodec}.

(** class OutboxEntry: a missing [created_at] is the time of its creation. *)
Record entry := mkEntry {
  e_topic : string;
  e_message_id : string;
  e_payload : json;
  e_created_at : Z;
}.

Definition new_entry (now : Z) (topic message_id : string) (payload : json) (created_at : option Z)
    : entry :=
  mkEntry topic message_id payload (default now created_at).

(** OutboxWriter.write *)
Definition write (e : entry) : prog oev unit :=
  trigger (DbInsert (e_topic e) (e_message_id e) (json_dumps (e_payload e)) (e_created_at e)).

(** The body of the loop over the rows: has the row been published? *)
Definition publish_row (r : row) : prog oev bool :=
  o ← attempt
    (_ ← trigger (RSend (row_topic r) (row_payload r) (row_message_id r));
     now ← trigger RNow;
     trigger (DbMarkPublished now (row_id r)));
  match o with
  | Ok _ => Ret true
  | Err x => if exn_is_exception x then _ ← trigger (DbMarkFailed (row_id r)); Ret false else Raise x
  end.

Fixpoint publish_rows (rows : list row) (count : Z) : prog oev Z :=
  match rows with
  | [] => Ret count
  | r :: rows' =>
      ok ← publish_row r;
      publish_rows rows' (if ok : bool then count + 1 else count)
  end.

(** The body of OutboxRelay._process_batch in its transaction. *)
Definition batch (batch_size : nat) : prog oev Z :=
  transaction (rows ← trigger (DbFetch batch_size); publish_rows rows 0).

(** OutboxRelay._process_batch *)
Definition process_batch (batch_size : nat) : prog oev Z := pooled (batch batch_size).

(** OutboxRelay._loop, for at most [n] rounds; [false] when the bound is hit. *)
Fixpoint relay_loop (n : nat) (batch_size : nat) : prog oev bool :=
  match n with
  | O => Ret false
  | S n' =>
      running ← trigger RIsRunning;
      if running : bool then
        _ ← try_except
          (published ← process_batch batch_size;
           if (published =? 0)%Z then trigger RSleep else Ret tt)
          (λ _, trigger RSleep);
        relay_loop n' batch_size
      else Ret true
  end.

(** OutboxRelay.start and OutboxRelay.stop *)
Definition start (n : nat) (batch_size : nat) : prog oev bool :=
  _ ← trigger (RSetRunning true);
  relay_loop n batch_size.

Definition stop : prog oev unit := trigger (RSetRunning false).

End Code.

(** ** A database and a broker

    One connection: the committed table, the transaction in progress with
    PostgreSQL's flag for a failed statement (after which every statement fails
    and the commit rolls back), and the messages that are in Kafka.  Any
    acquisition of the connection, statement, commit or send may raise, as
    [db_fault] and [kafka] say; a send that raises may have delivered its message
    all the same; and [stopped] says when another task has called [stop]. *)

(** What becomes of a send. *)
Inductive delivery :=
| Acknowledged
| Refused (x : exn)
| Unacknowledged (x : exn).   (* the message is in Kafka, but the send raises *)

Definition delivered (d : delivery) : bool := match d with Refused _ => false | _ => true end.

Definition send_result (d : delivery) : res unit :=
  match d with Acknowledged => Ok tt | Refused x | Unacknowledged x => Err x end.

Section Db.
Context (jsonb : string → string) (locked : Z → bool).
Context (db_fault : nat → option exn) (kafka : nat → string → delivery).
Context (stopped : nat → bool).

Record world := mkWorld {
  w_table : table;                         (* committed *)
  w_tx : option (table * bool);            (* in progress; has a statement failed? *)
  w_sent : list (string * string * string);
  w_clock : Z;
  w_step : nat;
  w_running : bool;
}.

Definition InFailedSQLTransactionError : exn :=
  Exn "InFailedSQLTransactionError" "current transaction is aborted" true.

Definition tick (w : world) : world :=
  mkWorld (w_table w) (w_tx w) (w_sent w) (w_clock w) (S (w_step w)) (w_running w).

(** A statement, inside a transaction or committed on its own. *)
Definition statement {A} (f : table → table * A) : action world A := λ w,
  match w_tx w with
  | Some (t, true) => (tick w, Err InFailedSQLTransactionError)
  | Some (t, false) =>
      match db_fault (w_step w) with
      | Some x => (mkWorld (w_table w) (Some (t, true)) (w_sent w) (w_clock w) (S (w_step w)) (w_running w), Err x)
      | None =>
          let '(t', a) := f t in
          (mkWorld (w_table w) (Some (t', false)) (w_sent w) (w_clock w) (S (w_step w)) (w_running w), Ok a)
      end
  | None =>
      match db_fault (w_step w) with
      | Some x => (tick w, Err x)
      | None =>
          let '(t', a) := f (w_table w) in
          (mkWorld t' None (w_sent w) (w_clock w) (S (w_step w)) (w_running w), Ok a)
      end
  end.

Definition o_handler (X : Type) (e : oev X) : action world X := λ w,
  match e in oev X return action world X with
  | DbAcquire => λ w, (tick w, match db_fault (w_step w) with Some x => Err x | None => Ok tt end)
  | DbRelease => λ w, (tick w, Ok tt)
  | DbBegin => λ w,
      match db_fault (w_step w) with
      | Some x => (tick w, Err x)
      | None =>
          (mkWorld (w_table w) (Some (w_table w, false)) (w_sent w) (w_clock w) (S (w_step w)) (w_running w), Ok tt)
      end
  | DbCommit => λ w,
      match db_fault (w_step w), w_tx w with
      | None, Some (t, false) => (mkWorld t None (w_sent w) (w_clock w) (S (w_step w)) (w_running w), Ok tt)
      | None, _ => (mkWorld (w_table w) None (w_sent w) (w_clock w) (S (w_step w)) (w_running w), Ok tt)
      | Some x, _ => (mkWorld (w_table w) None (w_sent w) (w_clock w) (S (w_step w)) (w_running w), Err x)
      end
  | DbRollback => λ w, (mkWorld (w_table w) None (w_sent w) (w_clock w) (S (w_step w)) (w_running w), Ok tt)
  | DbInsert topic mid payload at_ => statement (λ t, (INSERT topic mid (jsonb payload) at_ t, tt))
  | DbFetch limit => statement (λ t, (t, FETCH locked limit t))
  | DbMarkPublished now id => statement (λ t, (MARK_PUBLISHED now id t, tt))
  | DbMarkFailed id => statement (λ t, (MARK_FAILED id t, tt))
  | RSend topic value key => λ w,
      (mkWorld (w_table w) (w_tx w)
         (w_sent w ++ if delivered (kafka (w_step w) key) then [(topic, value, key)] else [])
         (w_clock w) (S (w_step w)) (w_running w),
       send_result (kafka (w_step w) key))
  | RNow => λ w, (tick w, Ok (w_clock w))
  | RSleep => λ w, (tick w, Ok tt)
  | RIsRunning => λ w, (tick w, Ok (w_running w && negb (stopped (w_step w)))%bool)
  | RSetRunning b => λ w,
      (mkWorld (w_table w) (w_tx w) (w_sent w) (w_clock w) (S (w_step w)) b, Ok tt)
  end w.

End Db.
