(* ===== verification/OutboxProps.v ===== *)
(** * Properties of the outbox

    Delivery through the outbox under any schedule of database and broker
    failures; the exact effect of a batch, and of enough of them, when the database
    does not fail; and what a transaction of the writer leaves. *)

From S2P Require Import Prelude Prog PyJson JsonText Outbox.

(** What of a row never changes, and what is sent of it. *)
Definition row_key (r : row) : Z * string * string * string * Z :=
  (row_id r, row_topic r, row_message_id r, row_payload r, row_created_at r).
Definition message_of (r : row) : string * string * string :=
  (row_topic r, row_payload r, row_message_id r).

(** Ids and message ids are unique, and ids below the sequence. *)
Definition table_wf (t : table) : Prop :=
  NoDup (row_id <$> tb_rows t) ∧ NoDup (row_message_id <$> tb_rows t) ∧
  Forall (λ r, row_id r < tb_next t)%Z (tb_rows t).

(** Every PUBLISHED row has been sent. *)
Definition all_sent (t : table) (sent : list (string * string * string)) : Prop :=
  Forall (λ r, row_status_ r = PUBLISHED → message_of r ∈ sent) (tb_rows t).

Definition same_keys (t t' : table) : Prop :=
  row_key <$> tb_rows t = row_key <$> tb_rows t' ∧ tb_next t = tb_next t'.

Lemma same_keys_update t t' id f :
  (∀ r, row_key (f r) = row_key r) → same_keys t t' → same_keys t (update_row id f t').
Proof.
  intros Hf [Hk Hn]. split; [|done]. cbn. rewrite Hk, <- list_fmap_compose.
  apply list_fmap_ext. intros i r _. cbn. case_decide; by rewrite ?Hf.
Qed.

Lemma all_sent_mono t sent sent' : all_sent t sent → sent ⊆ sent' → all_sent t sent'.
Proof. intros H Hs. eapply Forall_impl; [exact H|]. cbn. auto. Qed.

Lemma insert_wf topic mid payload at_ t : table_wf t → table_wf (INSERT topic mid payload at_ t).
Proof.
  intros (Hi & Hm & Hn). unfold INSERT. case_decide as Hex; split_and!; cbn; try done.
  - eapply Forall_impl; [exact Hn|]. cbn. lia.
  - rewrite fmap_app. apply NoDup_app. split_and!; [done| |apply NoDup_singleton].
    intros x (r & -> & Hr)%list_elem_of_fmap. cbn. rewrite list_elem_of_singleton.
    rewrite Forall_forall in Hn. specialize (Hn r Hr). lia.
  - rewrite fmap_app. apply NoDup_app. split_and!; [done| |apply NoDup_singleton].
    intros x (r & -> & Hr)%list_elem_of_fmap. cbn. rewrite list_elem_of_singleton.
    intros E. apply Hex, Exists_exists. eauto.
  - apply Forall_app. split; [eapply Forall_impl; [exact Hn|]; cbn; lia|].
    apply Forall_singleton. cbn. lia.
Qed.

(** One row, and no other, has the message id. *)
Definition unique_row (t : table) (mid : string) : Prop :=
  ∃ r, r ∈ tb_rows t ∧ row_message_id r = mid ∧ ∀ q, q ∈ tb_rows t → row_message_id q = mid → q = r.

(** Rows that are no longer PENDING. *)
Definition kept (t t' : table) : Prop :=
  ∀ r, r ∈ tb_rows t → row_status_ r ≠ PENDING → r ∈ tb_rows t'.

(** What is sent while the committed table is [t] comes from PENDING rows of it. *)
Definition from_pending (t : table) (m : string * string * string) : Prop :=
  ∃ r, r ∈ tb_rows t ∧ row_status_ r = PENDING ∧ m = message_of r.

Lemma same_keys_wf t t' : same_keys t t' → table_wf t → table_wf t'.
Proof.
  intros [Hk Hn] (Hi & Hm & Hb).
  assert (row_id <$> tb_rows t = row_id <$> tb_rows t') as Ei.
  { apply (f_equal (fmap (λ k : _ * _ * _ * _ * _, k.1.1.1.1))) in Hk.
    by rewrite <- !list_fmap_compose in Hk. }
  assert (row_message_id <$> tb_rows t = row_message_id <$> tb_rows t') as Em.
  { apply (f_equal (fmap (λ k : _ * _ * _ * _ * _, k.1.1.2))) in Hk.
    by rewrite <- !list_fmap_compose in Hk. }
  split_and!; [by rewrite <- Ei|by rewrite <- Em|].
  assert (Forall (λ i, (i < tb_next t)%Z) (row_id <$> tb_rows t')) as Hb'
    by (rewrite <- Ei; by apply Forall_fmap).
  apply Forall_fmap in Hb'. by rewrite <- Hn.
Qed.

(** Two rows of one table with the same id are the same row. *)
Lemma wf_row_eq t r q : table_wf t → r ∈ tb_rows t → q ∈ tb_rows t → row_id q = row_id r → q = r.
Proof.
  intros (Hnd & _) [j Hj]%list_elem_of_lookup [i Hi]%list_elem_of_lookup Hid.
  assert (i = j) as ->; [|congruence].
  eapply (NoDup_lookup _ _ _ (row_id r)); [exact Hnd|..]; rewrite list_lookup_fmap.
  - rewrite Hi. cbn. by rewrite Hid.
  - by rewrite Hj.
Qed.

(** The row with a given id, by the keys. *)
Lemma same_keys_row t t' r r' :
  table_wf t → same_keys t t' → r ∈ tb_rows t → r' ∈ tb_rows t' → row_id r' = row_id r →
  row_key r' = row_key r.
Proof.
  intros Hwf [Hk _] Hr Hr' Hid.
  assert (row_key r' ∈ row_key <$> tb_rows t) as (q & Hq & Hqin)%list_elem_of_fmap.
  { rewrite Hk. apply list_elem_of_fmap. by exists r'. }
  rewrite Hq. f_equal. apply (wf_row_eq t); [done..|]. unfold row_key in Hq. congruence.
Qed.

Lemma kept_update t t' r f :
  table_wf t → r ∈ tb_rows t → row_status_ r = PENDING → kept t t' →
  kept t (update_row (row_id r) f t').
Proof.
  intros Hwf Hr Hp Hk q Hq Hs. cbn. apply list_elem_of_fmap. exists q. split; [|by apply Hk].
  case_decide as Hid; [|done]. destruct Hs. by rewrite (wf_row_eq _ _ _ Hwf Hr Hq Hid).
Qed.

Section Faults.
Context (jsonb : string → string) (locked : Z → bool).
Context (db_fault : nat → option exn) (kafka : nat → string → delivery).
Context (stopped : nat → bool).

Abbreviation orun p w := (run (o_handler jsonb locked db_fault kafka stopped) p w).

(** From the table [t0] to the table [t], while [sent0] grew to [sent]. *)
Record progress (t0 : table) (sent0 : list (string * string * string)) (t : table)
    (sent : list (string * string * string)) : Prop := {
  pr_keys : same_keys t0 t;
  pr_kept : kept t0 t;
  pr_all_sent : all_sent t sent;
  pr_sent : ∃ new, sent = sent0 ++ new ∧ Forall (from_pending t0) new;
}.

(** The transaction of a batch that began in the world [w0]. *)
Definition in_batch (w0 w : world) : Prop :=
  w_table w = w_table w0 ∧
  ∃ t ab, w_tx w = Some (t, ab) ∧ progress (w_table w0) (w_sent w0) t (w_sent w).

Lemma in_batch_statement {A} w0 w (f : table → table * A) :
  in_batch w0 w →
  (∀ t, progress (w_table w0) (w_sent w0) t (w_sent w) →
        progress (w_table w0) (w_sent w0) (f t).1 (w_sent w)) →
  in_batch w0 (statement db_fault f w).1.
Proof.
  intros (Ht & t & ab & Htx & Hp) Hf. unfold statement. rewrite Htx.
  destruct ab; [by split; [|exists t, true]|].
  destruct (db_fault (w_step w)) as [x|]; [by split; [|exists t, true]|].
  specialize (Hf t Hp). destruct (f t) as [t' a]. split; [done|]. by exists t', false.
Qed.

Lemma in_batch_failed w0 w r :
  table_wf (w_table w0) → r ∈ tb_rows (w_table w0) → row_status_ r = PENDING → in_batch w0 w →
  in_batch w0 (statement db_fault (λ t, (MARK_FAILED (row_id r) t, tt)) w).1.
Proof.
  intros Hwf Hr Hpend Hw. apply in_batch_statement; [done|]. intros t [Hk Hkept Ha Hs].
  split; [by apply same_keys_update|by apply kept_update| |done].
  apply Forall_fmap. eapply Forall_impl; [exact Ha|]. intros q Hq. cbn. by case_decide.
Qed.

Lemma in_batch_published w0 w r now :
  table_wf (w_table w0) → r ∈ tb_rows (w_table w0) → row_status_ r = PENDING → in_batch w0 w →
  message_of r ∈ w_sent w →
  in_batch w0 (statement db_fault (λ t, (MARK_PUBLISHED now (row_id r) t, tt)) w).1.
Proof.
  intros Hwf Hr Hpend Hw Hsent. apply in_batch_statement; [done|]. intros t [Hk Hkept Ha Hs].
  split; [by apply same_keys_update|by apply kept_update| |done].
  apply Forall_fmap, Forall_forall. intros q Hq. cbn. unfold all_sent in Ha.
  rewrite Forall_forall in Ha. case_decide as Hid; [|by apply Ha]. intros _.
  pose proof (same_keys_row _ _ _ _ Hwf Hk Hr Hq Hid) as E. unfold row_key in E.
  injection E as E1 E2 E3 E4 E5. unfold message_of in *. cbn. by rewrite E2, E3, E4.
Qed.

Lemma publish_row_safe w0 w r :
  table_wf (w_table w0) → r ∈ tb_rows (w_table w0) → row_status_ r = PENDING → in_batch w0 w →
  in_batch w0 (orun (publish_row r) w).1.
Proof.
  intros Hwf Hr Hpend Hw.
  assert (Hfail : ∀ w1, in_batch w0 w1 →
    in_batch w0 (orun (_ ← trigger (DbMarkFailed (row_id r)); Ret false) w1).1).
  { intros w1 H1. unfold mbind, prog_mbind. rewrite run_bind, run_trigger. cbn [o_handler].
    pose proof (in_batch_failed w0 w1 r Hwf Hr Hpend H1) as H2.
    by destruct (statement _ _ w1) as [w2 [[]|x]]. }
  unfold publish_row, mbind, prog_mbind. rewrite run_bind, run_attempt, run_bind, run_trigger.
  cbn [o_handler]. set (d := kafka _ _). set (w1 := mkWorld _ _ _ _ _ _).
  assert (H1 : in_batch w0 w1).
  { destruct Hw as (Ht & t & ab & Htx & [Hk Hkept Ha (new & Hs & Hnew)]). split; [done|].
    exists t, ab. split; [done|]. split; [done..| |].
    - eapply all_sent_mono; [exact Ha|]. cbn. set_solver.
    - exists (new ++ if delivered d then [message_of r] else []). split; [cbn; by rewrite Hs, <- app_assoc|].
      apply Forall_app. split; [done|]. destruct (delivered d); [|constructor].
      apply Forall_singleton. by exists r. }
  destruct d as [|x|x] eqn:Ed; cbn [send_result delivered] in *;
    [|destruct (exn_is_exception x); [by apply Hfail|exact H1]..].
  rewrite run_bind, run_trigger. cbn [o_handler]. rewrite run_trigger. cbn [o_handler].
  set (w2 := tick w1). assert (H1' : in_batch w0 w2) by exact H1.
  assert (H2 := in_batch_published w0 w2 r (w_clock w1) Hwf Hr Hpend H1').
  specialize (H2 ltac:(apply elem_of_app; right; by left)).
  destruct (statement _ _ w2) as [w3 [[]|x]]; cbn in *; [exact H2|].
  destruct (exn_is_exception x); [by apply Hfail|exact H2].
Qed.

Lemma publish_rows_safe w0 rows : ∀ w count,
  table_wf (w_table w0) →
  Forall (λ r, r ∈ tb_rows (w_table w0) ∧ row_status_ r = PENDING) rows → in_batch w0 w →
  in_batch w0 (orun (publish_rows rows count) w).1.
Proof.
  induction rows as [|r rows IH]; intros w count Hwf Hrows Hw; [done|].
  apply Forall_cons in Hrows as [[Hr Hp] Hrows]. cbn [publish_rows].
  unfold mbind, prog_mbind. rewrite run_bind.
  pose proof (publish_row_safe w0 w r Hwf Hr Hp Hw) as H1.
  destruct (orun (publish_row r) w) as [w1 [ok|x]]; [|exact H1]. by apply IH.
Qed.

Lemma fetch_rows limit t :
  Forall (λ r, r ∈ tb_rows t ∧ row_status_ r = PENDING) (FETCH locked limit t).
Proof.
  apply Forall_forall. intros r Hr. unfold FETCH in Hr.
  apply (subseteq_take limit), list_elem_of_In, filter_In in Hr as [Hr Hf].
  apply list_elem_of_In in Hr. unfold fetchable in Hf. apply andb_prop in Hf as [Hf _].
  by apply bool_decide_eq_true in Hf.
Qed.

Lemma progress_refl t sent : all_sent t sent → progress t sent t sent.
Proof. intros Ha. split; [done|by intros r|done|]. exists []. by rewrite app_nil_r. Qed.

(** A row that is PENDING later was PENDING before. *)
Lemma pending_before t0 t r :
  table_wf t0 → same_keys t0 t → kept t0 t → r ∈ tb_rows t → row_status_ r = PENDING →
  ∃ r0, r0 ∈ tb_rows t0 ∧ row_status_ r0 = PENDING ∧ message_of r0 = message_of r.
Proof.
  intros Hwf Hk Hkept Hr Hp. destruct (Hk) as [Hkeys _].
  assert (row_key r ∈ row_key <$> tb_rows t0) as (q & Hq & Hqin)%list_elem_of_fmap.
  { rewrite Hkeys. apply list_elem_of_fmap. by exists r. }
  exists q. unfold row_key in Hq. injection Hq as Q1 Q2 Q3 Q4 Q5.
  split_and!; [done| |unfold message_of; congruence].
  destruct (decide (row_status_ q = PENDING)) as [|Hne]; [done|].
  assert (q ∈ tb_rows t) as Hqt by (by apply Hkept). rewrite <- Hp. f_equal. apply (wf_row_eq t); [by eapply same_keys_wf|done..].
Qed.

Lemma progress_trans t0 s0 t1 s1 t2 s2 :
  table_wf t0 → progress t0 s0 t1 s1 → progress t1 s1 t2 s2 → progress t0 s0 t2 s2.
Proof.
  intros Hwf [[K1 N1] P1 A1 (n1 & -> & F1)] [[K2 N2] P2 A2 (n2 & -> & F2)]. split.
  - split; congruence.
  - intros r Hr Hs. by apply P2; [apply P1|].
  - done.
  - exists (n1 ++ n2). rewrite app_assoc. split; [done|]. apply Forall_app. split; [done|].
    eapply Forall_impl; [exact F2|]. cbn. intros m (r & Hr & Hp & ->).
    destruct (pending_before t0 t1 r) as (r0 & ? & ? & E); [done..|]. rewrite <- E. by exists r0.
Qed.

(** A connection of the pool. *)
Lemma run_pooled {A} (p : prog oev A) w :
  orun (pooled p) w =
  match db_fault (w_step w) with
  | Some x => (tick w, Err x)
  | None => let '(w', r) := orun p (tick w) in (tick w', r)
  end.
Proof.
  unfold pooled, mbind, prog_mbind. rewrite run_bind, run_trigger. cbn [o_handler].
  destruct (db_fault (w_step w)); [done|]. rewrite run_finally.
  by destruct (orun p (tick w)) as [w' r].
Qed.

(** A batch is committed whole or leaves the table as it was. *)
Lemma batch_safe bs w :
  table_wf (w_table w) → all_sent (w_table w) (w_sent w) →
  let w' := (orun (batch bs) w).1 in
  (w_tx w = None → w_tx w' = None) ∧
  progress (w_table w) (w_sent w) (w_table w') (w_sent w').
Proof.
  intros Hwf Ha. unfold batch, transaction, mbind, prog_mbind.
  rewrite run_bind, run_trigger. cbn [o_handler].
  destruct (db_fault (w_step w)) as [x|]; cbn zeta.
  { split; [done|]. by apply progress_refl. }
  set (w1 := mkWorld _ (Some _) _ _ _ _).
  assert (H1 : in_batch w w1).
  { split; [done|]. exists (w_table w), false. split; [done|]. by apply progress_refl. }
  rewrite run_bind, run_attempt, run_bind, run_trigger. cbn [o_handler].
  pose proof (in_batch_statement w w1 (λ t, (t, FETCH locked bs t)) H1 (λ t H, H)) as H2.
  assert (Hout : ∀ w3 (r : res Z), in_batch w w3 →
    let w' := (orun (match r with
      | Ok a => prog_bind (trigger DbCommit) (λ _, Ret a)
      | Err x => prog_bind (trigger DbRollback) (λ _, Raise x) end) w3).1 in
    (w_tx w = None → w_tx w' = None) ∧
    progress (w_table w) (w_sent w) (w_table w') (w_sent w')).
  { intros w3 r (Ht & t & ab & Htx & Hp).
    assert (Hback : progress (w_table w) (w_sent w) (w_table w3) (w_sent w3)).
    { rewrite Ht. destruct Hp as [_ _ _ (new & Hs & Hn)]. split; [done|by intros q| |by exists new].
      eapply all_sent_mono; [exact Ha|]. rewrite Hs. set_solver. }
    destruct r as [a|x]; rewrite run_bind, run_trigger; cbn [o_handler]; [|done].
    destruct (db_fault (w_step w3)); [done|]. rewrite Htx. by destruct ab. }
  unfold statement in *. cbn [w_tx] in *.
  destruct (db_fault (w_step w1)) as [x|] eqn:Ef; cbn [w_tx w1] in *.
  { exact (Hout _ (Err x) H2). }
  pose proof (publish_rows_safe w (FETCH locked bs (w_table w)) _ 0 Hwf
    (fetch_rows bs (w_table w)) H2) as H3. cbn in H3 |- *.
  match type of H3 with in_batch _ (run ?h ?p ?v).1 => destruct (run h p v) as [w3 r] end.
  exact (Hout w3 r H3).
Qed.

Lemma process_batch_safe bs w :
  table_wf (w_table w) → all_sent (w_table w) (w_sent w) →
  let w' := (orun (process_batch bs) w).1 in
  (w_tx w = None → w_tx w' = None) ∧
  progress (w_table w) (w_sent w) (w_table w') (w_sent w').
Proof.
  intros Hwf Ha. unfold process_batch. rewrite run_pooled.
  destruct (db_fault (w_step w)); [split; [done|by apply progress_refl]|].
  pose proof (batch_safe bs (tick w) Hwf Ha) as H. by destruct (orun (batch bs) (tick w)).
Qed.

(** The state of the relay between two batches. *)
Definition quiescent (w : world) : Prop :=
  w_tx w = None ∧ table_wf (w_table w) ∧ all_sent (w_table w) (w_sent w).

Lemma relay_loop_safe n bs : ∀ w, quiescent w →
  let '(w', r) := orun (relay_loop n bs) w in
  quiescent w' ∧ progress (w_table w) (w_sent w) (w_table w') (w_sent w') ∧
  match r with Ok _ => True | Err x => exn_is_exception x = false end.
Proof.
  induction n as [|n IH]; intros w (Htx & Hwf & Ha).
  { cbn. split_and!; [done..|by apply progress_refl|done]. }
  cbn [relay_loop]. unfold mbind, prog_mbind. rewrite run_bind, run_trigger. cbn [o_handler].
  destruct (_ && _)%bool; [|cbn; split_and!; [done..|by apply progress_refl|done]].
  rewrite run_bind, run_try_except, run_bind.
  pose proof (process_batch_safe bs (tick w) Hwf Ha) as [H1 H2].
  destruct (orun (process_batch bs) (tick w)) as [w1 r1]. cbn in H1, H2.
  assert (Hq1 : quiescent w1).
  { split_and!; [by apply H1|by eapply same_keys_wf; [apply H2|]|apply H2]. }
  assert (Hnext : ∀ w2, w_table w2 = w_table w1 → w_sent w2 = w_sent w1 → w_tx w2 = w_tx w1 →
    let '(w', r) := orun (relay_loop n bs) w2 in
    quiescent w' ∧ progress (w_table w) (w_sent w) (w_table w') (w_sent w') ∧
    match r with Ok _ => True | Err x => exn_is_exception x = false end).
  { intros w2 E1 E2 E3. specialize (IH w2). unfold quiescent in IH. rewrite E1, E2, E3 in IH.
    destruct (orun (relay_loop n bs) w2) as [w' r]. destruct (IH Hq1) as (Q & P & R).
    split_and!; [apply Q..| |done]. by eapply progress_trans. }
  destruct r1 as [count|x]; [destruct (count =? 0)%Z|
    destruct (exn_is_exception x) eqn:Ex]; rewrite ?run_trigger; cbn [o_handler run].
  - by apply Hnext.
  - by apply Hnext.
  - by apply Hnext.
  - done.
Qed.

(** C26: whatever statement, commit or send fails, and however many rounds the relay runs: a row is
    PUBLISHED only if its message has been sent; no row is lost, and what a row says never changes;
    a row once settled, PUBLISHED or FAILED, stays as it is and its message is not sent again (what
    is sent comes from rows that were PENDING); no transaction is left open; and no exception ends
    the loop but one that is not an [Exception]. *)
Theorem relay_safe n bs w :
  quiescent w →
  let '(w', r) := orun (start n bs) w in
  quiescent w' ∧ same_keys (w_table w) (w_table w') ∧ kept (w_table w) (w_table w') ∧
  (∃ new, w_sent w' = w_sent w ++ new ∧ Forall (from_pending (w_table w)) new) ∧
  match r with Ok _ => True | Err x => exn_is_exception x = false end.
Proof.
  intros Hq. unfold start, mbind, prog_mbind. rewrite run_bind, run_trigger. cbn [o_handler].
  match goal with |- context [run _ (relay_loop n bs) ?v] =>
    pose proof (relay_loop_safe n bs v Hq) as H end.
  destruct (run _ (relay_loop n bs) _) as [w' r]. destruct H as (Hq' & [] & Hr). done.
Qed.

(** ** The writer *)
Section Writer.
Context `{!JsonCodec}.

(** Application code that writes entries and then returns or raises. *)
Fixpoint write_all (es : list entry) : prog oev unit :=
  match es with
  | [] => Ret tt
  | e :: es' => _ ← write e; write_all es'
  end.

Definition insert_entry (t : table) (e : entry) : table :=
  INSERT (e_topic e) (e_message_id e) (jsonb (json_dumps (e_payload e))) (e_created_at e) t.

Lemma insert_entries_wf es : ∀ t, table_wf t → table_wf (foldl insert_entry t es).
Proof. induction es as [|e es IH]; intros t Ht; [done|]. apply IH. by apply insert_wf. Qed.

Lemma insert_entries_prefix es : ∀ t, tb_rows t `prefix_of` tb_rows (foldl insert_entry t es).
Proof.
  induction es as [|e es IH]; intros t; [done|]. cbn. etrans; [|apply IH].
  unfold insert_entry, INSERT. case_decide; cbn; [done|by apply prefix_app_r].
Qed.

Lemma insert_entries_in es : ∀ t e, e ∈ es →
  ∃ r, r ∈ tb_rows (foldl insert_entry t es) ∧ row_message_id r = e_message_id e.
Proof.
  induction es as [|e' es IH]; intros t e He; [by apply not_elem_of_nil in He|].
  apply elem_of_cons in He as [<-|He]; [|by apply IH].
  assert (∃ r, r ∈ tb_rows (insert_entry t e) ∧ row_message_id r = e_message_id e)
    as (r & Hr & Hm).
  { unfold insert_entry, INSERT. case_decide as Hex; cbn.
    - by apply Exists_exists in Hex as (r & ? & ?); exists r.
    - eexists. split; [apply elem_of_app; right; by left|done]. }
  exists r. split; [|done]. destruct (insert_entries_prefix es (insert_entry t e)) as [k Hk].
  cbn. rewrite Hk. apply elem_of_app. by left.
Qed.

Lemma write_all_run es : ∀ w t,
  w_tx w = Some (t, false) →
  let '(w', r) := orun (write_all es) w in
  w_table w' = w_table w ∧ w_sent w' = w_sent w ∧
  match r with
  | Ok _ => w_tx w' = Some (foldl insert_entry t es, false)
  | Err _ => ∃ t' ab, w_tx w' = Some (t', ab)
  end.
Proof.
  induction es as [|e es IH]; intros w t Htx; [done|]. cbn [write_all].
  unfold write, mbind, prog_mbind. rewrite run_bind, run_trigger. cbn [o_handler].
  unfold statement. rewrite Htx. destruct (db_fault (w_step w)) as [x|].
  - split_and!; [done..|]. by exists t, true.
  - match goal with |- context [run _ (write_all es) ?v] => exact (IH v _ eq_refl) end.
Qed.

(** C28: entries are written with the transaction of the business code, whatever fails: if it
    returns, every entry has exactly one row, also when its message id was written before, and
    the rows that were there are kept; if it raises, the table is as it was. *)
Theorem write_atomic {A} es (o : res A) w :
  w_tx w = None → table_wf (w_table w) →
  let '(w', r) := orun (transaction (_ ← write_all es; of_res o)) w in
  w_tx w' = None ∧ w_sent w' = w_sent w ∧ table_wf (w_table w') ∧
  match r with
  | Ok a =>
      o = Ok a ∧ tb_rows (w_table w) `prefix_of` tb_rows (w_table w') ∧
      ∀ e, e ∈ es → unique_row (w_table w') (e_message_id e)
  | Err _ => w_table w' = w_table w
  end.
Proof.
  intros Htx Hwf. unfold transaction, mbind, prog_mbind. rewrite run_bind, run_trigger.
  cbn [o_handler]. destruct (db_fault (w_step w)) as [x|]; [done|].
  rewrite run_bind, run_attempt, run_bind.
  match goal with |- context [run _ (write_all es) ?v] =>
    pose proof (write_all_run es v _ eq_refl) as Hrun end.
  destruct (run _ (write_all es) _) as [w1 [[]|x]]; destruct Hrun as (Ht & Hs & Hr).
  2: { rewrite run_bind, run_trigger. cbn in *. by rewrite Ht. }
  cbn in Ht, Hs. rewrite run_of_res.
  destruct o as [a|x]; rewrite run_bind, run_trigger; cbn [o_handler]; [|cbn; by rewrite Ht].
  destruct (db_fault (w_step w1)) as [x|]; [cbn; by rewrite Ht|]. rewrite Hr. cbn.
  pose proof (insert_entries_wf es _ Hwf) as Hwf'.
  split_and!; [done..|apply insert_entries_prefix|]. intros e He.
  destruct (insert_entries_in es (w_table w) e He) as (r & Hin & Hm). exists r.
  split_and!; [done..|]. intros q Hq Hqm. apply list_elem_of_lookup in Hin as [i Hi], Hq as [j Hj].
  assert (i = j) as ->; [|congruence]. destruct Hwf' as (_ & Hnd & _).
  eapply (NoDup_lookup _ _ _ (row_message_id r)); [exact Hnd|..]; rewrite list_lookup_fmap.
  - by rewrite Hi.
  - rewrite Hj. cbn. by rewrite Hqm, Hm.
Qed.

End Writer.

End Faults.

(** ** A batch when the database works *)

(** The broker refuses or accepts a message by its key. *)
Definition accepts (kf : string → option exn) (r : row) : bool :=
  match kf (row_message_id r) with None => true | Some _ => false end.

Definition broker (kf : string → option exn) (_ : nat) (key : string) : delivery :=
  match kf key with None => Acknowledged | Some x => Refused x end.

Definition settle_row (now : Z) (kf : string → option exn) (r q : row) : row :=
  if accepts kf r then published now q else failed q.

Definition settle_at (now : Z) (kf : string → option exn) (q r : row) : row :=
  if decide (row_id q = row_id r) then settle_row now kf r q else q.

Lemma settle_row_id now kf r q : row_id (settle_row now kf r q) = row_id q.
Proof. unfold settle_row. by case_match. Qed.

Lemma settle_at_other now kf rows : ∀ q,
  row_id q ∉ row_id <$> rows → foldl (settle_at now kf) q rows = q.
Proof.
  induction rows as [|r rows IH]; intros q Hq; [done|]. cbn in *.
  apply not_elem_of_cons in Hq as [Hne Hq]. unfold settle_at at 2. rewrite decide_False by done.
  by apply IH.
Qed.

Lemma settle_at_all now kf rows q :
  NoDup (row_id <$> rows) → (∀ r, r ∈ rows → row_id r = row_id q → r = q) →
  foldl (settle_at now kf) q rows =
  if decide (row_id q ∈ row_id <$> rows) then settle_row now kf q q else q.
Proof.
  induction rows as [|r rows IH]; intros Hnd Heq; [done|]. cbn in *.
  apply NoDup_cons in Hnd as [Hr Hnd].
  destruct (decide (row_id q = row_id r)) as [E|E].
  - assert (r = q) as -> by (by apply Heq; [left|]). rewrite (decide_True (P := _ ∈ _)) by (by left).
    unfold settle_at at 2. rewrite decide_True by done.
    apply settle_at_other. by rewrite settle_row_id.
  - unfold settle_at at 2. rewrite decide_False by done. rewrite IH; [|done|].
    + apply decide_ext. rewrite elem_of_cons. by split; [right|intros [?|?]].
    + intros r' Hr'. apply Heq. by right.
Qed.

Lemma foldl_update now kf rows : ∀ t,
  foldl (λ t r, update_row (row_id r) (settle_row now kf r) t) t rows =
  mkTable ((λ q, foldl (settle_at now kf) q rows) <$> tb_rows t) (tb_next t).
Proof.
  induction rows as [|r rows IH]; intros [l n]; cbn; [by rewrite list_fmap_id|].
  rewrite IH. cbn. by rewrite <- list_fmap_compose.
Qed.

Lemma fetch_NoDup locked limit t : table_wf t → NoDup (row_id <$> FETCH locked limit t).
Proof.
  intros (Hnd & _). unfold FETCH.
  assert (NoDup (row_id <$> List.filter (fetchable locked) (tb_rows t))) as H.
  { revert Hnd. induction (tb_rows t) as [|r l IH]; [done|]. cbn. intros [Hr Hl]%NoDup_cons.
    destruct (fetchable locked r); [|by apply IH]. cbn. apply NoDup_cons. split; [|by apply IH].
    intros (q & Hq & Hin)%list_elem_of_fmap. apply Hr, list_elem_of_fmap. exists q.
    split; [done|]. by apply list_elem_of_In, filter_In, proj1, list_elem_of_In in Hin. }
  rewrite <- (take_drop limit (List.filter _ _)), fmap_app in H. by apply NoDup_app in H as [H _].
Qed.

Section Works.
Context (jsonb : string → string) (locked : Z → bool) (kf : string → option exn).
Context (stopped : nat → bool).
Context (kf_exception : ∀ k x, kf k = Some x → exn_is_exception x = true).

Abbreviation orun p w := (run (o_handler jsonb locked (λ _, None) (broker kf) stopped) p w).

Lemma publish_rows_run rows : ∀ w count t,
  w_tx w = Some (t, false) →
  let '(w', r) := orun (publish_rows rows count) w in
  r = Ok (count + Z.of_nat (length (List.filter (accepts kf) rows)))%Z ∧
  w_table w' = w_table w ∧ w_clock w' = w_clock w ∧ w_running w' = w_running w ∧
  w_sent w' = w_sent w ++ (message_of <$> List.filter (accepts kf) rows) ∧
  w_tx w' = Some
    (foldl (λ t r, update_row (row_id r) (settle_row (w_clock w) kf r) t) t rows, false).
Proof.
  induction rows as [|r rows IH]; intros w count t Htx.
  { cbn. by rewrite Z.add_0_r, app_nil_r. }
  cbn [publish_rows List.filter foldl]. unfold publish_row, mbind, prog_mbind.
  rewrite run_bind, run_bind, run_attempt, run_bind, run_trigger. cbn [o_handler].
  assert (Hb : broker kf (w_step w) (row_message_id r) =
    match kf (row_message_id r) with None => Acknowledged | Some x => Refused x end) by done.
  destruct (kf (row_message_id r)) as [x|] eqn:Ek; rewrite !Hb; cbn [delivered send_result]; rewrite ?app_nil_r.
  - assert (accepts kf r = false) as Ea by (unfold accepts; by rewrite Ek).
    assert (settle_row (w_clock w) kf r = failed) as Es by (unfold settle_row; by rewrite Ea).
    rewrite Ea, Es.
    rewrite (kf_exception _ _ Ek), run_bind, run_trigger. cbn [o_handler].
    unfold statement. cbn [tick w_tx]. rewrite Htx. cbn [run].
    match goal with |- context [run _ (publish_rows rows ?c) ?v] => specialize (IH v c _ eq_refl) end.
    exact IH.
  - assert (accepts kf r = true) as Ea by (unfold accepts; by rewrite Ek).
    assert (settle_row (w_clock w) kf r = published (w_clock w)) as Es
      by (unfold settle_row; by rewrite Ea).
    rewrite Ea, Es, run_bind, run_trigger. cbn [o_handler]. rewrite run_trigger. cbn [o_handler].
    unfold statement. cbn [tick w_tx w_clock]. rewrite Htx. cbn [run].
    match goal with |- context [run _ (publish_rows rows ?c) ?v] => specialize (IH v c _ eq_refl) end.
    destruct (run _ _ _) as [w' r']. destruct IH as (-> & ? & ? & ? & Hs & ?). split_and!; [|done|done|done| |done].
    + f_equal. cbn [length]. lia.
    + rewrite Hs. cbn. by rewrite <- app_assoc.
Qed.

(** A batch, when the database works. *)
Lemma batch_run bs w :
  w_tx w = None → table_wf (w_table w) →
  let rows := FETCH locked bs (w_table w) in
  let '(w', r) := orun (process_batch bs) w in
  r = Ok (Z.of_nat (length (List.filter (accepts kf) rows))) ∧
  w_sent w' = w_sent w ++ (message_of <$> List.filter (accepts kf) rows) ∧
  w_tx w' = None ∧ w_clock w' = w_clock w ∧ w_running w' = w_running w ∧
  tb_rows (w_table w') =
    (λ q, if decide (row_id q ∈ row_id <$> rows)
          then (if accepts kf q then published (w_clock w) q else failed q) else q)
    <$> tb_rows (w_table w).
Proof.
  intros Htx Hwf. unfold process_batch. rewrite run_pooled. unfold batch, transaction, mbind, prog_mbind.
  cbn zeta. rewrite run_bind, run_trigger. cbn [o_handler].
  rewrite run_bind, run_attempt, run_bind, run_trigger. cbn [o_handler].
  unfold statement. cbn [w_tx w_sent w_table w_clock w_step w_running tick].
  match goal with |- context [run _ (publish_rows ?rows 0) ?v] =>
    pose proof (publish_rows_run rows v 0 _ eq_refl) as H end.
  destruct (run _ (publish_rows _ _) _) as [w1 r1]. destruct H as (-> & Ht & Hc & Hr & Hs & Hx).
  rewrite run_bind, run_trigger. cbn [o_handler]. rewrite Hx. cbn [run].
  cbn [w_sent w_clock w_running] in Hs, Hc, Hr. split_and!; [done..|].
  cbn [w_table w_clock]. rewrite foldl_update. cbn [tb_rows].
  apply list_fmap_ext. intros i q Hq%list_elem_of_lookup_2.
  rewrite settle_at_all; [done|by apply fetch_NoDup|].
  intros r Hin Hid. pose proof (fetch_rows locked bs (w_table w)) as Hf.
  rewrite Forall_forall in Hf. destruct (Hf r Hin) as [Hrin _]. by apply (wf_row_eq (w_table w)).
Qed.

(** When the database works, a batch settles exactly the rows it fetched.  It sends, in the
    order of their ids, the messages the broker accepts; marks those rows PUBLISHED with the time
    and the refused ones FAILED; leaves every other row alone, the ones that another relay holds
    included; and returns the number of messages sent. *)
Theorem batch_settles_fetched bs w :
  w_tx w = None → table_wf (w_table w) →
  let rows := FETCH locked bs (w_table w) in
  let '(w', r) := orun (process_batch bs) w in
  r = Ok (Z.of_nat (length (List.filter (accepts kf) rows))) ∧
  w_sent w' = w_sent w ++ (message_of <$> List.filter (accepts kf) rows) ∧
  w_tx w' = None ∧
  tb_rows (w_table w') =
    (λ q, if decide (row_id q ∈ row_id <$> rows)
          then (if accepts kf q then published (w_clock w) q else failed q) else q)
    <$> tb_rows (w_table w).
Proof.
  intros Htx Hwf. pose proof (batch_run bs w Htx Hwf) as H. cbn zeta in *.
  destruct (orun (process_batch bs) w) as [w' r]. naive_solver.
Qed.

(** *** Draining a backlog *)

Definition settled (now : Z) (q : row) : row := if accepts kf q then published now q else failed q.

Definition settle_fetched (now : Z) (rows : list row) (q : row) : row :=
  if decide (row_id q ∈ row_id <$> rows) then settled now q else q.

Lemma settled_not_fetchable now q : fetchable locked (settled now q) = false.
Proof. unfold settled. by destruct (accepts kf q). Qed.

(** After a batch, the rows to fetch are those it left. *)
Lemma filter_after_batch now rows : ∀ bs,
  NoDup (row_id <$> rows) →
  List.filter (fetchable locked)
    (settle_fetched now (take bs (List.filter (fetchable locked) rows)) <$> rows) =
  drop bs (List.filter (fetchable locked) rows).
Proof.
  assert (Hsub : ∀ bs (l : list row), row_id <$> take bs (List.filter (fetchable locked) l) ⊆ row_id <$> l).
  { intros bs l x (q & -> & Hq)%list_elem_of_fmap. apply list_elem_of_fmap. exists q. split; [done|].
    by apply (subseteq_take bs), list_elem_of_In, filter_In, proj1, list_elem_of_In in Hq. }
  induction rows as [|q rows IH]; intros bs; [by destruct bs|]. rewrite fmap_cons. intros [Hq Hnd]%NoDup_cons.
  destruct bs as [|bs].
  { cbn [take]. rewrite drop_0. f_equal. transitivity (id <$> (q :: rows)); [by apply list_fmap_ext|apply list_fmap_id]. }
  cbn [List.filter fmap list_fmap]. destruct (fetchable locked q) eqn:Ef.
  - cbn [take drop]. unfold settle_fetched at 1. rewrite decide_True by (cbn; left).
    rewrite settled_not_fetchable, <- IH by done. f_equal. apply list_fmap_ext.
    intros i r Hr%list_elem_of_lookup_2. unfold settle_fetched. cbn [fmap list_fmap].
    assert (row_id r ≠ row_id q) by (intros E; apply Hq, list_elem_of_fmap; by exists r).
    destruct (decide (row_id r ∈ row_id <$> take bs (List.filter (fetchable locked) rows)));
      [rewrite decide_True by set_solver|rewrite decide_False by set_solver]; done.
  - unfold settle_fetched at 1. rewrite decide_False.
    + rewrite Ef. by apply IH.
    + intros Hin. exact (Hq (Hsub (S bs) rows _ Hin)).
Qed.

Lemma settle_twice now (t : table) bs q :
  table_wf t → q ∈ tb_rows t →
  (λ r, if fetchable locked r then settled now r else r) (settle_fetched now (FETCH locked bs t) q) =
  if fetchable locked q then settled now q else q.
Proof.
  intros Hwf Hq. unfold settle_fetched. case_decide as Hin; [|done].
  rewrite settled_not_fetchable. apply list_elem_of_fmap in Hin as (r & Hid & Hr).
  pose proof (fetch_rows locked bs t) as Hf. rewrite Forall_forall in Hf. destruct (Hf r Hr) as [Hrin _].
  assert (q = r) as -> by (by apply (wf_row_eq t)).
  unfold FETCH in Hr. by apply (subseteq_take bs), list_elem_of_In, filter_In in Hr as [_ ->].
Qed.

Definition pending (t : table) : list row := List.filter (fetchable locked) (tb_rows t).

Lemma relay_loop_drains bs (Hstop : ∀ k, stopped k = false) (Hbs : 0 < bs) n : ∀ w,
  w_tx w = None → table_wf (w_table w) → w_running w = true → all_sent (w_table w) (w_sent w) →
  length (pending (w_table w)) ≤ n * bs →
  let '(w', r) := orun (relay_loop n bs) w in
  r = Ok false ∧ w_sent w' = w_sent w ++ (message_of <$> List.filter (accepts kf) (pending (w_table w))) ∧
  tb_rows (w_table w') =
    (λ q, if fetchable locked q then settled (w_clock w) q else q) <$> tb_rows (w_table w).
Proof.
  induction n as [|n IH]; intros w Htx Hwf Hrun Hall Hn.
  { cbn. assert (Hp : pending (w_table w) = []) by (by apply length_zero_iff_nil, Nat.le_0_r).
    rewrite Hp, app_nil_r. split_and!; [done..|].
    transitivity (id <$> tb_rows (w_table w)); [symmetry; apply list_fmap_id|].
    apply list_fmap_ext. intros i q Hq%list_elem_of_lookup_2.
    destruct (fetchable locked q) eqn:Ef; [|done]. exfalso.
    assert (q ∈ pending (w_table w)) as Hin.
    { unfold pending. apply list_elem_of_In, filter_In. split; [by apply list_elem_of_In|done]. }
    rewrite Hp in Hin. by apply not_elem_of_nil in Hin. }
  cbn [relay_loop]. unfold mbind, prog_mbind. rewrite run_bind, run_trigger. cbn [o_handler].
  rewrite Hrun, Hstop. cbn [andb negb]. rewrite run_bind, run_try_except, run_bind.
  pose proof (batch_run bs (tick w) Htx Hwf) as Hb. cbn zeta in Hb.
  pose proof (process_batch_safe jsonb locked (λ _, None) (broker kf) stopped bs (tick w) Hwf Hall) as [_ Hpr].
  destruct (orun (process_batch bs) (tick w)) as [w1 r1]. cbn in Hpr.
  destruct Hb as (-> & Hs1 & Ht1 & Hc1 & Hr1 & Hrows). cbn [tick w_table w_sent w_clock w_running] in *.
  assert (Hwf1 : table_wf (w_table w1)) by (eapply same_keys_wf; [apply Hpr|done]).
  assert (Hall1 : all_sent (w_table w1) (w_sent w1)) by apply Hpr.
  assert (Hrows1 : tb_rows (w_table w1) =
    settle_fetched (w_clock w) (FETCH locked bs (w_table w)) <$> tb_rows (w_table w)) by exact Hrows.
  assert (Hp1 : pending (w_table w1) = drop bs (pending (w_table w))).
  { unfold pending. rewrite Hrows1. apply filter_after_batch, Hwf. }
  set (cont := run _ (relay_loop n bs)) in *.
  assert (Hcont : ∀ w2, w_tx w2 = w_tx w1 → w_table w2 = w_table w1 → w_sent w2 = w_sent w1 →
    w_clock w2 = w_clock w1 → w_running w2 = w_running w1 →
    let '(w', r) := cont w2 in
    r = Ok false ∧ w_sent w' = w_sent w ++ (message_of <$> List.filter (accepts kf) (pending (w_table w))) ∧
    tb_rows (w_table w') =
      (λ q, if fetchable locked q then settled (w_clock w) q else q) <$> tb_rows (w_table w)).
  { intros w2 E1 E2 E3 E4 E5. specialize (IH w2). rewrite E1, E2, E3, E4, E5 in IH.
    rewrite Hp1, length_drop in IH. fold cont in IH. destruct (cont w2) as [w' r].
    destruct IH as (-> & Hs & Ht); [done|done|congruence|done|lia|]. split; [done|]. split.
    - rewrite Hs, Hs1, <- app_assoc, <- fmap_app, <- List.filter_app. unfold FETCH, pending. by rewrite take_drop.
    - rewrite Ht, Hrows1, <- list_fmap_compose, Hc1. apply list_fmap_ext.
      intros i q Hq%list_elem_of_lookup_2. by apply settle_twice. }
  destruct (_ =? 0)%Z; rewrite ?run_trigger; cbn [o_handler run]; by apply Hcont.
Qed.

(** C27: the relay drains its backlog.  While database and broker work, a relay that runs for enough
    rounds sends every PENDING row that no other relay holds exactly once, in the order of their ids,
    but for those whose message the broker refuses, and marks them all, PUBLISHED or FAILED; the
    rows that were settled, and those that another relay holds, it leaves alone. *)
Theorem relay_drains bs n w :
  (∀ k, stopped k = false) → 0 < bs → quiescent w → length (pending (w_table w)) ≤ n * bs →
  let '(w', r) := orun (start n bs) w in
  r = Ok false ∧ w_sent w' = w_sent w ++ (message_of <$> List.filter (accepts kf) (pending (w_table w))) ∧
  tb_rows (w_table w') =
    (λ q, if fetchable locked q then settled (w_clock w) q else q) <$> tb_rows (w_table w).
Proof.
  intros Hstop Hbs (Htx & Hwf & Hall) Hn. unfold start, mbind, prog_mbind.
  rewrite run_bind, run_trigger. cbn [o_handler].
  match goal with |- context [run _ (relay_loop n bs) ?v] =>
    exact (relay_loop_drains bs Hstop Hbs n v Htx Hwf eq_refl Hall Hn) end.
Qed.

End Works.

(** ** Witnesses *)
Section Witnesses.
#[local] Existing Instance json_text.

Definition sample_table : table :=
  mkTable [mkRow 1 "orders" "m1" "{}" PUBLISHED 10 (Some 12%Z); mkRow 2 "orders" "m2" "{}" PENDING 11 None;
           mkRow 3 "orders" "m3" "{}" PENDING 12 None; mkRow 5 "audit" "m5" "{}" PENDING 13 None] 6.

Definition sample_world : world :=
  mkWorld sample_table None [("orders", "{}", "m1")] 20 0 false.

Definition KafkaTimeoutError : exn := Exn "KafkaTimeoutError" "timed out" true.
Definition refuses_m3 (key : string) : option exn :=
  if decide (key = "m3") then Some KafkaTimeoutError else None.

Lemma sample_wf : table_wf sample_table.
Proof.
  split_and!; [by apply (bool_decide_unpack _); vm_compute..|].
  repeat (apply Forall_cons; split; [cbn; lia|]). apply Forall_nil_2.
Qed.

Lemma sample_quiescent : quiescent sample_world.
Proof.
  split_and!; [done|apply sample_wf|].
  repeat (apply Forall_cons; split; [cbn; intros ?; try done; by left|]). apply Forall_nil_2.
Qed.

Definition db_fault_at (n k : nat) : option exn :=
  if decide (k = n) then Some (Exn "ConnectionDoesNotExistError" "" true) else None.

(** The first batch is lost to the database after a send, and rolled back; the next sends again. *)
Lemma relay_safe_witness :
  let '(w', r) :=
    run (o_handler id (λ _, false) (db_fault_at 7) (broker refuses_m3) (λ n, 40 <? n)) (start 9 2)
      sample_world in
  r = Ok true ∧ w_table w' ≠ sample_table ∧ quiescent w' ∧ kept sample_table (w_table w') ∧
  w_sent w' = [("orders", "{}", "m1"); ("orders", "{}", "m2"); ("orders", "{}", "m2"); ("audit", "{}", "m5")].
Proof.
  pose proof (relay_safe id (λ _, false) (db_fault_at 7) (broker refuses_m3) (λ n, 40 <? n) 9 2
    sample_world sample_quiescent) as H.
  destruct (run _ _ _) as [w' r] eqn:E. vm_compute in E. injection E as <- <-.
  destruct H as (Hq & _ & Hk & _). split_and!; [done|done|exact Hq|exact Hk|done].
Defined.

Lemma batch_settles_fetched_witness :
  let '(w', r) :=
    run (o_handler id (λ i, bool_decide (i = 2%Z)) (λ _, None) (broker refuses_m3) (λ _, false))
      (process_batch 2) sample_world in
  r = Ok 1%Z ∧ w_sent w' = [("orders", "{}", "m1"); ("audit", "{}", "m5")] ∧
  (row_status_ <$> tb_rows (w_table w')) = [PUBLISHED; PENDING; FAILED; PUBLISHED].
Proof.
  pose proof (batch_settles_fetched id (λ i, bool_decide (i = 2%Z)) refuses_m3 (λ _, false)) as H.
  assert (Hx : ∀ k x, refuses_m3 k = Some x → exn_is_exception x = true)
    by (intros k x; unfold refuses_m3; case_decide; [by intros [= <-]|done]).
  specialize (H Hx 2 sample_world eq_refl sample_wf). cbn zeta in H.
  destruct (run _ _ _) as [w' r]. destruct H as (-> & -> & _ & ->). by vm_compute.
Defined.

Lemma relay_drains_witness :
  let '(w', r) :=
    run (o_handler id (λ i, bool_decide (i = 2%Z)) (λ _, None) (broker refuses_m3) (λ _, false)) (start 2 1)
      sample_world in
  r = Ok false ∧ w_sent w' = [("orders", "{}", "m1"); ("audit", "{}", "m5")] ∧
  (row_status_ <$> tb_rows (w_table w')) = [PUBLISHED; PENDING; FAILED; PUBLISHED].
Proof.
  assert (Hx : ∀ k x, refuses_m3 k = Some x → exn_is_exception x = true)
    by (intros k x; unfold refuses_m3; case_decide; [by intros [= <-]|done]).
  pose proof (relay_drains id (λ i, bool_decide (i = 2%Z)) refuses_m3 (λ _, false) Hx 1 2 sample_world
    (λ _, eq_refl) (le_n 1) sample_quiescent) as H.
  specialize (H ltac:(vm_compute; lia)).
  destruct (run _ _ _) as [w' r]. destruct H as (-> & -> & ->). by vm_compute.
Defined.

Definition sample_entry (id : string) : entry :=
  new_entry 15 "orders" id (JObj [("id", JStr id)]) None.

Lemma write_atomic_witness :
  let '(w', r) :=
    run (o_handler id (λ _, false) (λ _, None) (λ _ _, Acknowledged) (λ _, false))
      (transaction (_ ← write_all [sample_entry "m2"; sample_entry "m9"]; of_res (Ok 7%Z)))
      sample_world in
  r = Ok 7%Z ∧ length (tb_rows (w_table w')) = 5 ∧
  unique_row (w_table w') "m2".
Proof.
  pose proof (write_atomic id (λ _, false) (λ _, None) (λ _ _, Acknowledged) (λ _, false)
    [sample_entry "m2"; sample_entry "m9"] (Ok 7%Z) sample_world eq_refl sample_wf) as H.
  destruct (run _ _ _) as [w' r] eqn:E. vm_compute in E. injection E as <- <-.
  destruct H as (_ & _ & _ & _ & _ & Hm). split_and!; [done|done|].
  apply (Hm (sample_entry "m2")). by left.
Defined.

End Witnesses.
