(* ===== verification/Relays.v ===== *)
(** * Several relays on one table

    Any number of relays of the outbox run over one database, one event at a
    time, with transactions, row locks and READ COMMITTED visibility, while
    writers insert, statements and sends fail, and connections are lost. *)

From S2P Require Import Prelude Prog PyJson JsonText Outbox OutboxProps.

(** ** The protocol of a relay on its connection *)

Inductive phase :=
| Idle                                          (* no transaction *)
| Begun
| Batch (cur : option row) (todo : list row).   (* the row sent and not yet marked; those to come *)

Definition permitted {X} (ph : phase) (e : oev X) : Prop :=
  match e with
  | DbAcquire | DbRelease | DbBegin | RSleep | RIsRunning | RSetRunning _ => ph = Idle
  | DbFetch _ => ph = Begun
  | DbRollback => ph ≠ Idle
  | DbCommit => ∃ todo, ph = Batch None todo
  | RSend t v m => ∃ r todo, ph = Batch None (r :: todo) ∧
      t = row_topic r ∧ v = row_payload r ∧ m = row_message_id r
  | RNow => True
  | DbMarkPublished _ id | DbMarkFailed id => ∃ r todo, ph = Batch (Some r) todo ∧ id = row_id r
  | DbInsert _ _ _ _ => False
  end.

Definition next {X} (ph : phase) (e : oev X) : res X → phase :=
  match e in oev X return res X → phase with
  | DbBegin => λ r, if is_ok r then Begun else Idle
  | DbFetch _ => λ r, Batch None (if r is Ok rows then rows else [])
  | DbCommit | DbRollback => λ _, Idle
  | RSend _ _ _ => λ _, if ph is Batch None (r :: todo) then Batch (Some r) todo else ph
  | DbMarkPublished _ _ | DbMarkFailed _ => λ r,
      if ph is Batch (Some _) todo then if is_ok r then Batch None todo else ph else ph
  | _ => λ _, ph
  end.

(** Every execution from the phase [ph] keeps to the protocol, and ends in a phase that satisfies [Q]. *)
Fixpoint obeys {A} (ph : phase) (p : prog oev A) (Q : phase → res A → Prop) : Prop :=
  match p with
  | Ret a => Q ph (Ok a)
  | Raise x => Q ph (Err x)
  | Vis e k => permitted ph e ∧ ∀ r, obeys (next ph e r) (k r) Q
  end.

Lemma obeys_mono {A} (p : prog oev A) (Q Q' : phase → res A → Prop) : ∀ ph,
  (∀ ph' r, Q ph' r → Q' ph' r) → obeys ph p Q → obeys ph p Q'.
Proof.
  induction p as [a|x|X e k IH]; cbn; intros ph HQ; [auto..|]. intros [Hp Hk]. split; [done|].
  intros r. by apply IH.
Qed.

Lemma obeys_bind {A B} (p : prog oev A) (f : A → prog oev B) Q : ∀ ph,
  obeys ph p (λ ph' r, match r with Ok a => obeys ph' (f a) Q | Err x => Q ph' (Err x) end) →
  obeys ph (prog_bind p f) Q.
Proof.
  induction p as [a|x|X e k IH]; cbn; intros ph; [done..|]. intros [Hp Hk]. split; [done|].
  intros r. by apply IH.
Qed.

Lemma obeys_attempt {A} (p : prog oev A) (Q : phase → res (res A) → Prop) : ∀ ph,
  obeys ph p (λ ph' r, Q ph' (Ok r)) → obeys ph (attempt p) Q.
Proof.
  induction p as [a|x|X e k IH]; cbn; intros ph; [done..|]. intros [Hp Hk]. split; [done|].
  intros r. by apply IH.
Qed.

Lemma obeys_trigger {X} (e : oev X) ph Q :
  permitted ph e → (∀ r, Q (next ph e r) r) → obeys ph (trigger e) Q.
Proof. intros Hp HQ. split; [done|]. intros r. by destruct r; apply HQ. Qed.

Lemma publish_row_obeys r todo :
  obeys (Batch None (r :: todo)) (publish_row r) (λ ph o,
    if is_ok o then ph = Batch None todo else ∃ cur, ph = Batch cur todo).
Proof.
  unfold publish_row, mbind, prog_mbind. apply obeys_bind, obeys_attempt, obeys_bind, obeys_trigger.
  { by exists r, todo. }
  assert (Hfail : ∀ x, obeys (Batch (Some r) todo)
    (if exn_is_exception x then prog_bind (trigger (DbMarkFailed (row_id r))) (λ _, Ret false) else Raise x)
    (λ ph o, if is_ok o then ph = Batch None todo else ∃ cur, ph = Batch cur todo)).
  { intros x. destruct (exn_is_exception x); [|by eexists].
    apply obeys_bind, obeys_trigger; [by exists r, todo|]. intros [[]|y]; [done|by eexists]. }
  intros [[]|x]; cbn [next]; [|apply Hfail].
  apply obeys_bind, obeys_trigger; [done|]. intros [now|x]; cbn [next]; [|apply Hfail].
  apply obeys_trigger; [by exists r, todo|]. intros [[]|x]; cbn [next is_ok]; [done|apply Hfail].
Qed.

Lemma publish_rows_obeys rows : ∀ count,
  obeys (Batch None rows) (publish_rows rows count) (λ ph o,
    if is_ok o then ph = Batch None [] else ∃ cur todo, ph = Batch cur todo).
Proof.
  induction rows as [|r rows IH]; intros count; [done|]. cbn [publish_rows]. apply obeys_bind.
  eapply obeys_mono; [|apply publish_row_obeys]. intros ph [ok|x]; cbn [is_ok].
  - intros ->. apply IH.
  - intros [cur ->]. by eexists _, _.
Qed.

Lemma batch_obeys bs : obeys Idle (batch bs) (λ ph _, ph = Idle).
Proof.
  unfold batch, transaction, mbind, prog_mbind.
  apply obeys_bind, obeys_trigger; [done|]. intros [[]|x]; [|done]. cbn [next is_ok].
  apply obeys_bind, obeys_attempt.
  apply obeys_bind, obeys_trigger; [done|].
  assert (Hback : ∀ ph x, ph ≠ Idle →
    obeys ph (prog_bind (trigger DbRollback) (λ _, Raise x)) (λ ph (_ : res Z), ph = Idle)).
  { intros ph x Hph. apply obeys_bind, obeys_trigger; [done|]. by intros [[]|y]. }
  intros [rows|x]; cbn [next]; [|by apply Hback].
  eapply obeys_mono; [|apply publish_rows_obeys]. intros ph [count|x]; cbn [is_ok].
  - intros ->. apply obeys_bind, obeys_trigger; [by exists []|]. by intros [[]|y].
  - intros (cur & todo & ->). by apply Hback.
Qed.

Lemma process_batch_obeys bs : obeys Idle (process_batch bs) (λ ph _, ph = Idle).
Proof.
  apply obeys_bind, obeys_trigger; [done|]. intros [[]|x]; [|done].
  apply obeys_bind, obeys_attempt. eapply obeys_mono; [|apply batch_obeys]. intros ph r ->.
  apply obeys_bind, obeys_trigger; [done|]. intros [[]|x]; [by destruct r|done].
Qed.

Lemma relay_loop_obeys n bs : obeys Idle (relay_loop n bs) (λ ph _, ph = Idle).
Proof.
  induction n as [|n IH]; [done|]. cbn [relay_loop]. unfold mbind, prog_mbind.
  apply obeys_bind, obeys_trigger; [done|]. intros [[]|x]; [|done..].
  assert (Hsleep : obeys Idle (trigger RSleep) (λ ph _, ph = Idle)) by (apply obeys_trigger; done).
  apply obeys_bind. eapply (obeys_mono _ (λ ph _, ph = Idle)); [intros ph [[]|x] ->; [apply IH|done]|].
  apply obeys_bind, obeys_attempt.
  eapply (obeys_mono _ (λ ph _, ph = Idle)).
  - intros ph [[]|x] ->; [done|]. by destruct (exn_is_exception x).
  - apply obeys_bind. eapply obeys_mono; [|apply process_batch_obeys]. intros ph [count|x] ->; [|done].
    by destruct (count =? 0)%Z.
Qed.

Lemma start_obeys n bs : obeys Idle (start n bs) (λ ph _, ph = Idle).
Proof.
  apply obeys_bind, obeys_trigger; [done|]. intros [[]|x]; [apply relay_loop_obeys|done].
Qed.

(** ** The database and the relays *)

(** A transaction: the rows it holds, what it has written, whether a statement has failed; and the
    message ids that were sent in it. *)
Record tx := mkTx {
  tx_locks : list Z;
  tx_writes : list (Z * (row → row));
  tx_failed : bool;
  tx_sent : list string;
}.

Record relay := mkRelay {
  re_prog : prog oev bool;
  re_phase : phase;
  re_tx : option tx;
}.

Record rsystem := mkSystem {
  rs_relays : list relay;
  rs_table : table;                        (* committed *)
  rs_sent : list (string * string * string);
  rs_lost : list string;                   (* ids sent in transactions that were not committed *)
}.

Definition apply_writes (ws : list (Z * (row → row))) (t : table) : table :=
  foldl (λ t w, update_row w.1 w.2 t) t ws.

Definition held_in (ox : option tx) : list Z := if ox is Some x then tx_locks x else [].
Definition sent_in (ox : option tx) : list string := if ox is Some x then tx_sent x else [].
Definition locks_of (r : relay) : list Z := held_in (re_tx r).
Definition sent_of (r : relay) : list string := sent_in (re_tx r).

(** The row is held by another relay than [i]. *)
Definition held_by_others (i : nat) (s : rsystem) (id : Z) : bool :=
  bool_decide (Exists (λ r, id ∈ locks_of r) (base.delete i (rs_relays s))).

Section Relays.
Context (db_fault : nat → option exn) (kafka : nat → string → delivery).
Context (clock : nat → Z) (running : nat → bool).

(** A statement of a transaction; PostgreSQL refuses every statement after one that failed. *)
Definition in_tx {A} (n : nat) (x : tx) (f : tx * A) : tx * res A :=
  if tx_failed x then (x, Err InFailedSQLTransactionError)
  else match db_fault n with
       | Some y => (mkTx (tx_locks x) (tx_writes x) true (tx_sent x), Err y)
       | None => (f.1, Ok f.2)
       end.

Definition write_row (x : tx) (id : Z) (f : row → row) : tx :=
  mkTx (tx_locks x) (tx_writes x ++ [(id, f)]) (tx_failed x) (tx_sent x).

(** The answer to the call of a relay: the committed table, its transaction, what is sent, what is
    lost, and the result. *)
Record answered (X : Type) := Answer {
  an_table : table;
  an_tx : option tx;
  an_out : list (string * string * string);
  an_lost : list string;
  an_res : res X;
}.
#[local] Arguments Answer {X} _ _ _ _ _.
#[local] Arguments an_table {X} _.
#[local] Arguments an_tx {X} _.
#[local] Arguments an_out {X} _.
#[local] Arguments an_lost {X} _.
#[local] Arguments an_res {X} _.

(** The relays make no statement outside a transaction. *)
Definition statement {A} (n : nat) (t : table) (x : option tx) (f : tx → tx * A) : answered A :=
  match x with
  | Some x => let '(x', r) := in_tx n x (f x) in Answer t (Some x') [] [] r
  | None => Answer t None [] [] (Err (Exn "InterfaceError" "no transaction" true))
  end.

Definition db_answer {X} (n : nat) (held : Z → bool) (t : table) (x : option tx) (e : oev X) : answered X :=
  match e in oev X return answered X with
  | DbAcquire => Answer t x [] [] (match db_fault n with Some y => Err y | None => Ok tt end)
  | DbRelease => Answer t x [] [] (Ok tt)
  | DbBegin =>
      match db_fault n with
      | Some y => Answer t None [] [] (Err y)
      | None => Answer t (Some (mkTx [] [] false [])) [] [] (Ok tt)
      end
  | DbCommit =>
      match x, db_fault n with
      | Some x, None =>
          if tx_failed x then Answer t None [] (tx_sent x) (Ok tt)
          else Answer (apply_writes (tx_writes x) t) None [] [] (Ok tt)
      | Some x, Some y => Answer t None [] (tx_sent x) (Err y)
      | None, _ => Answer t None [] [] (Ok tt)
      end
  | DbRollback => Answer t None [] (sent_in x) (Ok tt)
  | DbFetch limit => statement n t x (λ x,
      let rows := FETCH held limit (apply_writes (tx_writes x) t) in
      (mkTx (tx_locks x ++ (row_id <$> rows)) (tx_writes x) false (tx_sent x), rows))
  | DbMarkPublished now id => statement n t x (λ x, (write_row x id (published now), tt))
  | DbMarkFailed id => statement n t x (λ x, (write_row x id failed, tt))
  | DbInsert _ _ _ _ => statement n t x (λ x, (x, tt))
  | RSend topic value key =>
      let d := kafka n key in
      if delivered d then
        Answer t ((λ x, mkTx (tx_locks x) (tx_writes x) (tx_failed x) (tx_sent x ++ [key])) <$> x)
          [(topic, value, key)] [] (send_result d)
      else Answer t x [] [] (send_result d)
  | RNow => Answer t x [] [] (Ok (clock n))
  | RSleep => Answer t x [] [] (Ok tt)
  | RIsRunning => Answer t x [] [] (Ok (running n))
  | RSetRunning _ => Answer t x [] [] (Ok tt)
  end.

Inductive rmove :=
| Step (i : nat)                                        (* relay [i] makes its next call *)
| Insert (topic message_id payload : string) (at_ : Z)  (* a writer commits *)
| Lose (i : nat).                                       (* relay [i] dies; its transaction is rolled back *)

Definition relay_move (n : nat) (m : rmove) (s : rsystem) : rsystem :=
  match m with
  | Insert topic mid payload at_ =>
      mkSystem (rs_relays s) (INSERT topic mid payload at_ (rs_table s)) (rs_sent s) (rs_lost s)
  | Lose i =>
      match rs_relays s !! i with
      | Some r =>
          mkSystem (<[i := mkRelay (Raise (Exn "ConnectionError" "lost" true)) Idle None]> (rs_relays s))
            (rs_table s) (rs_sent s) (rs_lost s ++ sent_of r)
      | None => s
      end
  | Step i =>
      match rs_relays s !! i with
      | Some (mkRelay (Vis e k) ph x) =>
          let a := db_answer n (held_by_others i s) (rs_table s) x e in
          mkSystem (<[i := mkRelay (k (an_res a)) (next ph e (an_res a)) (an_tx a)]> (rs_relays s))
            (an_table a) (rs_sent s ++ an_out a) (rs_lost s ++ an_lost a)
      | _ => s
      end
  end.

Fixpoint relay_moves (n : nat) (ms : list rmove) (s : rsystem) : rsystem :=
  match ms with [] => s | m :: ms' => relay_moves (S n) ms' (relay_move n m s) end.

(** ** The invariant *)

Abbreviation mark f := ((∃ now, f = published now) ∨ f = failed).

(** The batch of a transaction: the rows done with, the one sent and not yet marked, those to come. *)
Record tx_ok (t : table) (ph : phase) (x : tx) (ds : list row) (cur : option row) (todo : list row) : Prop := {
  tk_phase : (ph = Begun ∧ ds = [] ∧ cur = None ∧ todo = []) ∨ ph = Batch cur todo;
  tk_locks : tx_locks x = row_id <$> ds ++ option_list cur ++ todo;
  tk_nodup : NoDup (tx_locks x);
  (** its rows are PENDING in the committed table *)
  tk_rows : Forall (λ q, q ∈ tb_rows t ∧ row_status_ q = PENDING) (ds ++ option_list cur ++ todo);
  tk_sent : tx_sent x `sublist_of` (row_message_id <$> ds ++ option_list cur);
  (** while no statement has failed, the rows done with are marked *)
  tk_marked : tx_failed x = false → Forall (λ q, row_id q ∈ (tx_writes x).*1) ds;
  tk_writes : Forall (λ w, w.1 ∈ tx_locks x ∧ mark w.2) (tx_writes x);
}.

Definition tx_state_ok (t : table) (ph : phase) (ox : option tx) : Prop :=
  match ox with None => ph = Idle | Some x => ∃ ds cur todo, tx_ok t ph x ds cur todo end.

Definition relay_ok (t : table) (r : relay) : Prop :=
  obeys (re_phase r) (re_prog r) (λ _ _, True) ∧ tx_state_ok t (re_phase r) (re_tx r).

Definition keys (sent : list (string * string * string)) : list string := snd <$> sent.

(** [fin]: the ids sent in transactions that were committed. *)
Record system_ok (s : rsystem) (fin : list string) : Prop := {
  so_table : table_wf (rs_table s);
  so_relays : Forall (relay_ok (rs_table s)) (rs_relays s);
  so_locks : ∀ i j r q, rs_relays s !! i = Some r → rs_relays s !! j = Some q → i ≠ j →
    locks_of r ## locks_of q;
  so_fin : Forall (λ m, ∃ q, q ∈ tb_rows (rs_table s) ∧ row_message_id q = m ∧ row_status_ q ≠ PENDING) fin;
  so_once : NoDup (fin ++ (rs_relays s ≫= sent_of));
  so_count : keys (rs_sent s) ≡ₚ rs_lost s ++ fin ++ (rs_relays s ≫= sent_of);
}.

(** *** The committed table *)

Lemma apply_writes_spec ws : ∀ t,
  Forall (λ w, mark w.2) ws →
  same_keys t (apply_writes ws t) ∧
  (∀ q, q ∈ tb_rows t → row_id q ∉ ws.*1 → q ∈ tb_rows (apply_writes ws t)) ∧
  (∀ q, q ∈ tb_rows (apply_writes ws t) → row_id q ∈ ws.*1 → row_status_ q ≠ PENDING) ∧
  (∀ q, q ∈ tb_rows t → row_status_ q ≠ PENDING →
    ∃ q', q' ∈ tb_rows (apply_writes ws t) ∧ row_key q' = row_key q ∧ row_status_ q' ≠ PENDING).
Proof.
  induction ws as [|[id f] ws IH] using rev_ind; intros t Hws.
  { split_and!; [done|done|by intros ? ? ?%elem_of_nil|]. intros q ? ?. by exists q. }
  apply Forall_app in Hws as [Hws Hf]. rewrite Forall_singleton in Hf. cbn in Hf.
  destruct (IH t Hws) as (Hk & Hout & Hin & Hst). unfold apply_writes. rewrite foldl_app. cbn [foldl].
  change (foldl _ t ws) with (apply_writes ws t). cbn [fst snd].
  assert (Hkey : ∀ r, row_key (f r) = row_key r) by (by destruct Hf as [[now ->]| ->]).
  assert (Hns : ∀ r, row_status_ (f r) ≠ PENDING) by (by destruct Hf as [[now ->]| ->]).
  rewrite fmap_app. cbn [fmap list_fmap fst]. split_and!.
  - by apply same_keys_update.
  - intros q Hq Hid. rewrite elem_of_app, list_elem_of_singleton in Hid. cbn.
    apply list_elem_of_fmap. exists q. split; [by rewrite decide_False by tauto|apply Hout; tauto].
  - intros q' (q & -> & Hq)%list_elem_of_fmap Hid. case_decide as E; [done|].
    apply Hin; [done|]. rewrite elem_of_app, list_elem_of_singleton in Hid. tauto.
  - intros q Hq Hs. destruct (Hst q Hq Hs) as (q' & Hq' & Ek & Hs'). cbn.
    eexists. split; [apply list_elem_of_fmap; by exists q'|]. case_decide; [|done]. by rewrite Hkey.
Qed.

(** *** Lists of relays *)

Lemma bind_insert {A B} (f : A → list B) l i x :
  l !! i = Some x → ∃ rest, (l ≫= f) ≡ₚ f x ++ rest ∧ ∀ y, (<[i:=y]> l ≫= f) ≡ₚ f y ++ rest.
Proof.
  revert i. induction l as [|z l IH]; intros [|i] Hi; simplify_eq/=; [by exists (l ≫= f)|].
  destruct (IH _ Hi) as (rest & E1 & E2). exists (f z ++ rest).
  split; [rewrite E1|intros y; rewrite (E2 y)]; by rewrite !app_assoc, (Permutation_app_comm (f z)).
Qed.

Lemma wf_mid_eq t r q :
  table_wf t → r ∈ tb_rows t → q ∈ tb_rows t → row_message_id q = row_message_id r → q = r.
Proof.
  intros (_ & Hnd & _) [j Hj]%list_elem_of_lookup [i Hi]%list_elem_of_lookup Hid.
  assert (i = j) as ->; [|congruence].
  eapply (NoDup_lookup _ _ _ (row_message_id r)); [exact Hnd|..]; rewrite list_lookup_fmap.
  - rewrite Hi. cbn. by rewrite Hid.
  - by rewrite Hj.
Qed.

(** What a relay has sent comes from PENDING rows that it holds. *)
Lemma sent_pending t r m :
  relay_ok t r → m ∈ sent_of r →
  ∃ q, q ∈ tb_rows t ∧ row_status_ q = PENDING ∧ row_message_id q = m ∧ row_id q ∈ locks_of r.
Proof.
  intros [_ Hx] Hm. unfold sent_of, locks_of in *. destruct (re_tx r) as [x|]; [|by apply elem_of_nil in Hm].
  destruct Hx as (ds & cur & todo & [_ Hl _ Hr Hs _ _]).
  assert (m ∈ row_message_id <$> ds ++ option_list cur) as (q & -> & Hq)%list_elem_of_fmap
    by (by eapply sublist_subseteq).
  assert (Hq' : q ∈ ds ++ option_list cur ++ todo) by set_solver.
  rewrite Forall_forall in Hr. destruct (Hr q Hq') as [Ht Hp]. exists q. split_and!; try done.
  cbn. rewrite Hl. apply list_elem_of_fmap. by exists q.
Qed.

(** A relay does not see what happens to the rows it does not hold. *)
Lemma relay_ok_mono t t' r :
  (∀ q, q ∈ tb_rows t → row_id q ∈ locks_of r → q ∈ tb_rows t') → relay_ok t r → relay_ok t' r.
Proof.
  intros Hsub [Ho Hx]. split; [done|]. unfold locks_of, tx_state_ok in *. destruct (re_tx r) as [x|]; [|done].
  destruct Hx as (ds & cur & todo & Hok). exists ds, cur, todo. destruct Hok as [? Hl ? Hr ? ? ?].
  split; try done. rewrite Forall_forall in Hr |- *. intros q Hq. destruct (Hr q Hq). split; [|done].
  apply Hsub; [done|]. cbn. rewrite Hl. apply list_elem_of_fmap. by exists q.
Qed.

(** *** One call *)

(** What the call of a relay with the locks [ls] and the sent ids [ss] does to the system. *)
Inductive effect (held : Z → bool) (t : table) (ls : list Z) (ss : list string) :
    table → list Z → list string → list string → list string → Prop :=
| eff_quiet ls' :
    (∀ id, id ∈ ls' → id ∈ ls ∨ held id = false) → effect held t ls ss t ls' ss [] []
| eff_send q :
    q ∈ tb_rows t → row_status_ q = PENDING → row_id q ∈ ls → row_message_id q ∉ ss →
    effect held t ls ss t ls (ss ++ [row_message_id q]) [row_message_id q] []
| eff_lose : effect held t ls ss t [] [] [] ss
| eff_commit ws :
    Forall (λ w : Z * (row → row), w.1 ∈ ls ∧ mark w.2) ws →
    (∀ m, m ∈ ss → ∃ q, q ∈ tb_rows t ∧ row_message_id q = m ∧ row_id q ∈ ws.*1) →
    effect held t ls ss (apply_writes ws t) [] [] [] [].

Definition effect_of {X} (held : Z → bool) (t : table) (ox : option tx) (a : answered X) : Prop :=
  effect held t (held_in ox) (sent_in ox) (an_table a) (held_in (an_tx a)) (sent_in (an_tx a))
    (keys (an_out a)) (an_lost a).

Lemma effect_refl held t ox : effect held t (held_in ox) (sent_in ox) t (held_in ox) (sent_in ox) [] [].
Proof. apply eff_quiet. auto. Qed.

(** A statement that only marks its failure. *)
Lemma tx_ok_failed t ph x ds cur todo :
  tx_ok t ph x ds cur todo → tx_ok t ph (mkTx (tx_locks x) (tx_writes x) true (tx_sent x)) ds cur todo.
Proof. intros []. by split. Qed.

Lemma mark_answer n held t x ph id f now r todo :
  tx_state_ok t ph x → ph = Batch (Some r) todo → id = row_id r → mark f →
  let a := statement n t x (λ x, (write_row x id f, tt)) in
  effect_of held t x a ∧ tx_state_ok (an_table a) (next ph (DbMarkPublished now id) (an_res a)) (an_tx a).
Proof.
  intros Hx -> -> Hf. destruct x as [x|]; [|done]. destruct Hx as (ds & cur & todo' & Hok).
  pose proof Hok as [[(? & _)|Hph] Hl Hnd Hr Hs Hm Hw]; [done|]. injection Hph as <- <-.
  unfold statement, in_tx. cbn zeta. destruct (tx_failed x) eqn:Ef.
  { cbn. split; [apply (effect_refl held t (Some x))|]. exists ds, (Some r), todo. done. }
  destruct (db_fault n) as [y|].
  { cbn. split; [apply (effect_refl held t (Some x))|]. exists ds, (Some r), todo. by apply tx_ok_failed. }
  cbn. split; [apply (effect_refl held t (Some x))|]. exists (ds ++ [r]), None, todo.
  cbn in Hl, Hr, Hs. split; cbn [option_list app tx_locks tx_writes tx_sent tx_failed write_row]; rewrite ?app_nil_r, <- ?app_assoc; cbn [app]; try done.
  - by right.
  - intros _. rewrite fmap_app. apply Forall_app. split.
    + eapply Forall_impl; [by apply Hm|]. cbn. set_solver.
    + apply Forall_singleton. cbn. set_solver.
  - apply Forall_app. split; [done|]. apply Forall_singleton. cbn. split; [|done].
    rewrite Hl. set_solver.
Qed.

Lemma fetch_answer n held t ox limit :
  table_wf t → tx_state_ok t Begun ox →
  let a := db_answer n held t ox (DbFetch limit) in
  effect_of held t ox a ∧ tx_state_ok (an_table a) (next Begun (DbFetch limit) (an_res a)) (an_tx a).
Proof.
  intros Hwf Hx. destruct ox as [x|]; [|done]. destruct Hx as (ds & cur & todo & Hok).
  pose proof Hok as [[(_ & -> & -> & ->)|] Hl Hnd Hr Hs Hm Hw]; [|done]. cbn in Hl, Hs.
  assert (Hws : tx_writes x = []).
  { destruct (tx_writes x) as [|w ws]; [done|]. apply Forall_cons in Hw as [[Hw _] _]. rewrite Hl in Hw. set_solver. }
  assert (Hempty : ∀ b, tx_ok t (Batch None []) (mkTx (tx_locks x) (tx_writes x) b (tx_sent x)) [] None []).
  { intros b. split; cbn; try done. by right. }
  cbn. unfold statement, in_tx. destruct (tx_failed x) eqn:Ef.
  { cbn. split; [apply (effect_refl held t (Some x))|]. exists [], None, []. by destruct x as [? ? [] ?]. }
  destruct (db_fault n) as [y|].
  { cbn. split; [apply (effect_refl held t (Some x))|]. by exists [], None, []. }
  cbn. rewrite Hws, Hl. cbn. apply sublist_nil_r in Hs. rewrite Hs.
  pose proof (fetch_rows held limit t) as Hrows.
  split.
  - unfold effect_of. cbn. rewrite Hs. apply eff_quiet. intros id Hid. right.
    apply list_elem_of_fmap in Hid as (q & -> & Hq). unfold FETCH in Hq.
    apply (subseteq_take limit), list_elem_of_In, filter_In in Hq as [_ Hf].
    unfold fetchable in Hf. apply andb_prop in Hf as [_ Hf]. by apply negb_true_iff in Hf.
  - exists [], None, (FETCH held limit t). split; cbn; try done; [by right|].
    assert (FETCH held limit t `sublist_of` tb_rows t) as Hsub.
    { unfold FETCH. etrans; [apply sublist_take|]. clear. induction (tb_rows t) as [|r l IH]; [done|]. cbn.
      destruct (fetchable held r); [by apply sublist_skip|by apply sublist_cons]. }
    eapply sublist_NoDup; [apply Hwf|]. by apply fmap_sublist.
Qed.

Lemma send_answer n held t ox r todo :
  table_wf t → tx_state_ok t (Batch None (r :: todo)) ox →
  let e := RSend (row_topic r) (row_payload r) (row_message_id r) in
  let a := db_answer n held t ox e in
  effect_of held t ox a ∧ tx_state_ok (an_table a) (next (Batch None (r :: todo)) e (an_res a)) (an_tx a).
Proof.
  intros Hwf Hx. destruct ox as [x|]; [|done]. destruct Hx as (ds & cur & todo' & Hok).
  pose proof Hok as [[(? & _)|Hph] Hl Hnd Hr Hs Hm Hw]; [done|]. injection Hph as <- <-. cbn in Hl, Hr, Hs.
  rewrite app_nil_r in Hs. cbn. destruct (delivered (kafka n (row_message_id r))); cbn; revgoals.
  - split; [apply (effect_refl held t (Some x))|]. exists ds, (Some r), todo.
    split; cbn; try done; [by right|]. rewrite fmap_app. by apply sublist_inserts_r.
  - assert (Hin : r ∈ ds ++ r :: todo) by set_solver.
    rewrite Forall_forall in Hr. destruct (Hr r Hin) as [Ht Hp]. rewrite <- Forall_forall in Hr.
    split.
    + unfold effect_of. cbn. apply eff_send; [done|done|rewrite Hl; apply list_elem_of_fmap; by exists r|].
      intros Hsent. eapply sublist_subseteq in Hsent; [|exact Hs].
      apply list_elem_of_fmap in Hsent as (q & Hq & Hqin).
      rewrite Forall_forall in Hr. destruct (Hr q ltac:(set_solver)) as [Hqt _].
      assert (r = q) as <- by (by eapply wf_mid_eq). rewrite Hl, fmap_app in Hnd.
      apply NoDup_app in Hnd as (_ & Hnd & _). apply (Hnd (row_id r)); [|set_solver].
      apply list_elem_of_fmap. by exists r.
    + exists ds, (Some r), todo. split; cbn; try done; [by right|]. rewrite fmap_app. by apply sublist_app.
Qed.

Lemma commit_answer n held t ox todo :
  tx_state_ok t (Batch None todo) ox →
  let a := db_answer n held t ox DbCommit in
  effect_of held t ox a ∧ tx_state_ok (an_table a) Idle (an_tx a).
Proof.
  intros Hx. destruct ox as [x|]; [|done]. destruct Hx as (ds & cur & todo' & Hok).
  pose proof Hok as [[(? & _)|Hph] Hl Hnd Hr Hs Hm Hw]; [done|]. injection Hph as <- <-. cbn in Hl, Hr, Hs.
  rewrite app_nil_r in Hs. cbn. destruct (db_fault n) as [y|]; [split; [apply eff_lose|done]|].
  destruct (tx_failed x) eqn:Ef; [split; [apply eff_lose|done]|]. split; [|done].
  apply eff_commit; [done|]. intros m Hsent. cbn in Hsent. eapply sublist_subseteq in Hsent; [|exact Hs].
  apply list_elem_of_fmap in Hsent as (q & -> & Hq). specialize (Hm eq_refl).
  rewrite Forall_forall in Hr, Hm. exists q. split_and!; [apply Hr; set_solver|done|by apply Hm].
Qed.

Lemma answer_ok {X} n held t ox ph (e : oev X) :
  table_wf t → tx_state_ok t ph ox → permitted ph e →
  let a := db_answer n held t ox e in
  effect_of held t ox a ∧ tx_state_ok (an_table a) (next ph e (an_res a)) (an_tx a).
Proof.
  intros Hwf Hx Hp. assert (Hnone : ph = Idle → ox = None).
  { intros ->. destruct ox as [x|]; [|done]. destruct Hx as (ds & cur & todo & [[(? & _)|?] _ _ _ _ _ _]); done. }
  destruct e; cbn [permitted] in Hp; try done.
  - split; [apply (effect_refl held t ox)|done].
  - split; [apply (effect_refl held t ox)|done].
  - rewrite (Hnone Hp), Hp in *. cbn. destruct (db_fault n); cbn; [split; [apply (effect_refl held t None)|done]|].
    split; [apply eff_quiet; set_solver|]. exists [], None, []. split; cbn; try done; [by left|constructor].
  - destruct Hp as [todo ->]. by eapply commit_answer.
  - destruct ox as [x|]; [|done]. split; [apply eff_lose|done].
  - subst ph. by apply fetch_answer.
  - destruct Hp as (r & todo & Hph & ->). eapply mark_answer; try done. left. by eexists.
  - destruct Hp as (r & todo & Hph & ->).
    apply (mark_answer n held t ox ph (row_id r) failed 0 r todo); try done. by right.
  - destruct Hp as (r & todo & -> & -> & -> & ->). by apply send_answer.
  - split; [apply (effect_refl held t ox)|done].
  - split; [apply (effect_refl held t ox)|done].
  - split; [apply (effect_refl held t ox)|done].
  - split; [apply (effect_refl held t ox)|done].
Qed.

(** *** One move *)

(** A relay is replaced: what has to be checked of its new state. *)
Lemma replace_ok s fin i r r' t' out lost fin' :
  system_ok s fin → rs_relays s !! i = Some r → table_wf t' → relay_ok t' r' →
  (∀ j q, j ≠ i → rs_relays s !! j = Some q → relay_ok t' q ∧ locks_of r' ## locks_of q) →
  Forall (λ m, ∃ q, q ∈ tb_rows t' ∧ row_message_id q = m ∧ row_status_ q ≠ PENDING) fin' →
  keys out ++ fin ++ sent_of r ≡ₚ lost ++ fin' ++ sent_of r' →
  NoDup (fin' ++ sent_of r') →
  (∀ m, m ∈ fin' ++ sent_of r' → m ∈ fin ++ sent_of r ∨ m ∉ fin ++ (rs_relays s ≫= sent_of)) →
  system_ok (mkSystem (<[i:=r']> (rs_relays s)) t' (rs_sent s ++ out) (rs_lost s ++ lost)) fin'.
Proof.
  intros [Hwf Hr Hl Hf Ho Hc] Hi Hwf' Hr' Hj Hf' Hperm Hnd Hin.
  destruct (bind_insert sent_of _ _ _ Hi) as (rest & E1 & E2). specialize (E2 r').
  rewrite E1 in Ho. rewrite E1 in Hc. split; cbn; [done| | |done| |].
  - apply Forall_lookup_2. intros j q [(<- & <- & _)|[Hne Hq]]%list_lookup_insert_Some; [done|].
    by apply (Hj j).
  - intros a b x y Ha Hb Hne.
    apply list_lookup_insert_Some in Ha as [(<- & <- & _)|[Hna Ha]];
      apply list_lookup_insert_Some in Hb as [(<- & <- & _)|[Hnb Hb]]; [done|by apply (Hj b)| |by eapply Hl].
    intros id Hx Hy. destruct (Hj a x Hne Ha) as [_ Hd]. by apply (Hd id).
  - rewrite E2, app_assoc. apply NoDup_app. split_and!; [done| |].
    + intros m Hm Hrest. destruct (Hin m Hm) as [Hold|Hnew]; [|rewrite E1 in Hnew; set_solver].
      rewrite app_assoc in Ho. apply NoDup_app in Ho as (_ & Ho & _). by apply (Ho m).
    + rewrite app_assoc in Ho. by apply NoDup_app in Ho as (_ & _ & ?).
  - unfold keys in *. rewrite fmap_app, Hc, E2.
    transitivity (rs_lost s ++ ((snd <$> out) ++ fin ++ sent_of r) ++ rest); [solve_Permutation|].
    rewrite Hperm. solve_Permutation.
Qed.

Lemma not_held_disjoint i s id j q :
  held_by_others i s id = false → j ≠ i → rs_relays s !! j = Some q → id ∉ locks_of q.
Proof.
  intros Hh Hne Hj Hid. unfold held_by_others in Hh. apply bool_decide_eq_false_1 in Hh. apply Hh.
  apply Exists_exists. exists q. split; [|done]. apply list_elem_of_lookup.
  destruct (decide (j < i)) as [Hlt|Hge].
  - exists j. by rewrite list_lookup_delete_lt.
  - exists (pred j). rewrite list_lookup_delete_ge by lia. by replace (S (pred j)) with j by lia.
Qed.

(** A message that is sent now has not been sent in a transaction that holds. *)
Lemma fresh_message s fin i r q :
  system_ok s fin → rs_relays s !! i = Some r → q ∈ tb_rows (rs_table s) → row_status_ q = PENDING →
  row_id q ∈ locks_of r → row_message_id q ∉ sent_of r →
  row_message_id q ∉ fin ++ (rs_relays s ≫= sent_of).
Proof.
  intros [Hwf Hr Hl Hf _ _] Hi Hq Hp Hid Hs. rewrite elem_of_app. intros [Hin|Hin].
  - rewrite Forall_forall in Hf. destruct (Hf _ Hin) as (q' & Hq' & Hm & Hst).
    by rewrite (wf_mid_eq _ _ _ Hwf Hq Hq' Hm) in Hst.
  - apply list_elem_of_bind in Hin as (r' & Hm & [j Hj]%list_elem_of_lookup).
    destruct (sent_pending _ _ _ (Forall_lookup_1 _ _ _ _ Hr Hj) Hm) as (q' & Hq' & _ & Hmid & Hid').
    rewrite (wf_mid_eq _ _ _ Hwf Hq Hq' Hmid) in Hid'.
    destruct (decide (j = i)) as [->|Hne]; [by rewrite Hi in Hj; injection Hj as ->|].
    by apply (Hl j i r' r Hj Hi Hne (row_id q)).
Qed.

(** A row that is written is there afterwards, no longer PENDING. *)
Lemma written_row ws t q m :
  Forall (λ w : Z * (row → row), mark w.2) ws → q ∈ tb_rows t → row_message_id q = m → row_id q ∈ ws.*1 →
  ∃ q', q' ∈ tb_rows (apply_writes ws t) ∧ row_message_id q' = m ∧ row_status_ q' ≠ PENDING.
Proof.
  intros Hws Hq Hm Hid. destruct (apply_writes_spec ws t Hws) as ([Hk _] & _ & Hset & _).
  assert (row_key q ∈ row_key <$> tb_rows (apply_writes ws t)) as Hkq.
  { rewrite <- Hk. apply list_elem_of_fmap. by exists q. }
  apply list_elem_of_fmap in Hkq as (q' & Ek & Hq'). unfold row_key in Ek. injection Ek as K1 K2 K3 K4 K5.
  exists q'. split_and!; [done|congruence|]. apply Hset; [done|]. by rewrite <- K1.
Qed.

(** The effect of a call on the whole system. *)
Lemma effect_ok s fin i r r' t' out lost :
  system_ok s fin → rs_relays s !! i = Some r → relay_ok t' r' →
  effect (held_by_others i s) (rs_table s) (locks_of r) (sent_of r) t' (locks_of r') (sent_of r') (keys out) lost →
  ∃ fin', system_ok (mkSystem (<[i:=r']> (rs_relays s)) t' (rs_sent s ++ out) (rs_lost s ++ lost)) fin'.
Proof.
  intros Hok Hi Hr' He. pose proof Hok as [Hwf Hr Hl Hf Ho Hc].
  assert (Hothers : ∀ j q, rs_relays s !! j = Some q → relay_ok (rs_table s) q)
    by (intros; by eapply (Forall_lookup_1 _ _ _ _ Hr)).
  assert (Hndr : NoDup (fin ++ sent_of r)).
  { destruct (bind_insert sent_of _ _ _ Hi) as (rest & E1 & _). rewrite E1, app_assoc in Ho.
    by apply NoDup_app in Ho as (? & _). }
  remember (locks_of r') as lr eqn:E2. remember (sent_of r') as sr eqn:E3. remember (keys out) as ko eqn:E4.
  destruct He as [ls' Hls|q Hq Hp Hid Hs| |ws Hws Hm].
  - exists fin. eapply replace_ok; [exact Hok|exact Hi|exact Hwf|exact Hr'| |exact Hf| | |].
    + rewrite <- E2. intros j q Hne Hj. split; [by eapply Hothers|]. intros id Hid Hid'.
      destruct (Hls id) as [Hold|Hno]; [done|by apply (Hl i j r q Hi Hj (not_eq_sym Hne) id)|].
      by eapply not_held_disjoint.
    + by rewrite <- E4, <- E3.
    + by rewrite <- E3.
    + rewrite <- E3. auto.
  - exists fin.
    assert (Hfresh : row_message_id q ∉ fin ++ (rs_relays s ≫= sent_of)) by (by eapply fresh_message).
    assert (Hfresh' : row_message_id q ∉ fin ++ sent_of r).
    { destruct (bind_insert sent_of _ _ _ Hi) as (rest & Eb & _). rewrite Eb in Hfresh. set_solver. }
    eapply replace_ok; [exact Hok|exact Hi|exact Hwf|exact Hr'| |exact Hf| | |].
    + rewrite <- E2. intros j q' Hne Hj. split; [by eapply Hothers|]. by apply (Hl i j).
    + rewrite <- E4, <- E3. cbn. solve_Permutation.
    + rewrite <- E3, app_assoc. apply NoDup_app. split_and!; [done| |apply NoDup_singleton].
      intros m Hin ->%list_elem_of_singleton. done.
    + rewrite <- E3. intros m. rewrite app_assoc, elem_of_app, list_elem_of_singleton.
      intros [?| ->]; [by left|by right].
  - exists fin. eapply replace_ok; [exact Hok|exact Hi|exact Hwf|exact Hr'| |exact Hf| | |].
    + rewrite <- E2. intros j q' Hne Hj. split; [by eapply Hothers|]. by intros id ?%elem_of_nil.
    + rewrite <- E4, <- E3. cbn. solve_Permutation.
    + rewrite <- E3, app_nil_r. by apply NoDup_app in Hndr as (? & _).
    + rewrite <- E3, app_nil_r. intros m Hin. left. set_solver.
  - exists (fin ++ sent_of r).
    assert (Hmark : Forall (λ w, mark w.2) ws) by (eapply Forall_impl; [exact Hws|]; by intros ? []).
    destruct (apply_writes_spec ws (rs_table s) Hmark) as (Hk & Hkeep & Hset & Hst).
    assert (Hin : ∀ id, id ∈ ws.*1 → id ∈ locks_of r).
    { intros id (w & -> & Hw)%list_elem_of_fmap. rewrite Forall_forall in Hws. by apply Hws. }
    eapply replace_ok; [exact Hok|exact Hi|by eapply same_keys_wf|exact Hr'| | | | |].
    + rewrite <- E2. intros j q Hne Hj. split; [|by intros id ?%elem_of_nil].
      eapply relay_ok_mono; [|by eapply Hothers]. intros q' Hq' Hid. apply Hkeep; [done|].
      intros Hid'%Hin. by apply (Hl j i q r Hj Hi Hne (row_id q')).
    + apply Forall_app. split.
      * eapply Forall_impl; [exact Hf|]. intros m (q & Hq & Hmid & Hs).
        destruct (Hst q Hq Hs) as (q' & Hq' & Ek & Hs'). exists q'. split_and!; [done| |done].
        unfold row_key in Ek. congruence.
      * apply Forall_forall. intros m Hms. destruct (Hm m Hms) as (q & Hq & Hmid & Hid).
        by eapply written_row.
    + rewrite <- E4, <- E3. cbn. solve_Permutation.
    + by rewrite <- E3, app_nil_r.
    + rewrite <- E3, app_nil_r. auto.
Qed.

Lemma move_ok n m s fin : system_ok s fin → ∃ fin', system_ok (relay_move n m s) fin'.
Proof.
  intros Hok. pose proof Hok as [Hwf Hr Hl Hf Ho Hc]. destruct m as [i|topic mid payload at_|i]; cbn.
  - destruct (rs_relays s !! i) as [[[a|x|X e k] ph ox]|] eqn:Hi; try (by exists fin).
    pose proof (Forall_lookup_1 _ _ _ _ Hr Hi) as [[Hp Hk] Hx]. cbn in Hp, Hk, Hx.
    destruct (answer_ok n (held_by_others i s) (rs_table s) ox ph e Hwf Hx Hp) as [He Hx'].
    eapply (effect_ok s fin i _ _ _ _ _ Hok Hi); [split; [apply Hk|exact Hx']|exact He].
  - exists fin.
    assert (Hsub : ∀ q, q ∈ tb_rows (rs_table s) → q ∈ tb_rows (INSERT topic mid payload at_ (rs_table s))).
    { intros q Hq. unfold INSERT. case_decide; cbn; [done|]. set_solver. }
    split; cbn; [by apply insert_wf| |done| |done|done].
    + eapply Forall_impl; [exact Hr|]. intros r Hr'. eapply relay_ok_mono; [|exact Hr']. auto.
    + eapply Forall_impl; [exact Hf|]. intros x (q & Hq & ?). exists q. auto.
  - destruct (rs_relays s !! i) as [r|] eqn:Hi; [|by exists fin].
    destruct (effect_ok s fin i r (mkRelay (Raise (Exn "ConnectionError" "lost" true)) Idle None) (rs_table s) []
      (sent_of r) Hok Hi) as [fin' Hok']; [done|apply eff_lose|].
    exists fin'. by rewrite app_nil_r in Hok'.
Qed.

Lemma count_NoDup (m : string) l : NoDup l → length (filter (m =.) l) ≤ 1.
Proof.
  induction 1 as [|x l Hx Hnd IH]; [cbn; lia|]. rewrite filter_cons. case_decide as E; [|done]. subst x.
  enough (filter (m =.) l = []) as -> by (cbn; lia).
  apply list_nil_subseteq. intros y [-> Hy]%list_elem_of_filter. done.
Qed.

(** The relays of a program that starts: [n] rounds at most, batches of [bs]. *)
Definition starting (n bs : nat) : relay := mkRelay (start n bs) Idle None.

Lemma start_ok t relays :
  table_wf t → Forall (λ r, ∃ n bs, r = starting n bs) relays →
  system_ok (mkSystem relays t [] []) [].
Proof.
  intros Hwf Hs.
  assert (Hsent : relays ≫= sent_of = []).
  { induction Hs as [|r rs (n & bs & ->) _ IH]; [done|]. cbn. exact IH. }
  split; cbn; [done| | |constructor|by rewrite Hsent; constructor|by rewrite Hsent].
  - eapply Forall_impl; [exact Hs|]. intros r (n & bs & ->). split; [|done].
    eapply obeys_mono; [|apply start_obeys]. done.
  - intros i j r q Hi Hj _. destruct (Forall_lookup_1 _ _ _ _ Hs Hi) as (n & bs & ->).
    by intros id ?%elem_of_nil.
Qed.

Lemma moves_ok ms : ∀ n s fin, system_ok s fin → ∃ fin', system_ok (relay_moves n ms s) fin'.
Proof.
  induction ms as [|m ms IH]; intros n s fin Hok; [by exists fin|]. cbn.
  destruct (move_ok n m s fin Hok) as [fin' Hok']. by eapply IH.
Qed.

(** C8: relays side by side.  Any number of relays work on one table, interleaved call by call, while
    writers insert, statements, commits and sends fail, and relays die.  No row is in the batches of
    two relays at one time; and the message of a row is sent no more often than once, plus once for
    each transaction that sent it and was not committed.  So where every transaction is committed
    no message is sent twice. *)
Theorem relays_send_once relays t ms :
  table_wf t → Forall (λ r, ∃ n bs, r = starting n bs) relays →
  let s := relay_moves 0 ms (mkSystem relays t [] []) in
  (∀ i j r q, rs_relays s !! i = Some r → rs_relays s !! j = Some q → i ≠ j → locks_of r ## locks_of q) ∧
  (∀ m, length (filter (m =.) (keys (rs_sent s))) ≤ 1 + length (filter (m =.) (rs_lost s))) ∧
  (rs_lost s = [] → NoDup (keys (rs_sent s))).
Proof.
  intros Hwf Hs s. destruct (moves_ok ms 0 _ [] (start_ok t relays Hwf Hs)) as [fin Hok].
  fold s in Hok. destruct Hok as [_ _ Hl _ Ho Hc]. split; [exact Hl|]. split.
  - intros m. rewrite Hc, filter_app, length_app.
    enough (length (filter (m =.) (fin ++ rs_relays s ≫= sent_of)) ≤ 1) by lia.
    by apply count_NoDup.
  - intros E. rewrite E in Hc. cbn in Hc. by rewrite Hc.
Qed.

End Relays.

(** ** Evaluated: two relays and three rows *)

Definition three_rows : table := mkTable
  [mkRow 1 "orders" "m1" "{}" PENDING 0 None; mkRow 2 "orders" "m2" "{}" PENDING 0 None;
   mkRow 3 "orders" "m3" "{}" PENDING 0 None] 4.

(** They alternate, with batches of two; a writer inserts a fourth row. *)
Definition side_by_side : list rmove :=
  replicate 5 (Step 0) ++ replicate 5 (Step 1) ++ [Insert "orders" "m4" "{}" 5] ++
  concat (replicate 24 [Step 0; Step 1]).

Abbreviation two_relays :=
  (relay_moves (λ _, None) (λ _ _, Acknowledged) Z.of_nat (λ _, true) 0 side_by_side
    (mkSystem [starting 2 2; starting 2 2] three_rows [] [])).

(** The first dies after it has sent a row. *)
Abbreviation one_dies :=
  (relay_moves (λ _, None) (λ _ _, Acknowledged) Z.of_nat (λ _, true) 0
    (replicate 6 (Step 0) ++ [Lose 0] ++ replicate 24 (Step 1))
    (mkSystem [starting 2 2; starting 2 2] three_rows [] [])).

Lemma three_rows_wf : table_wf three_rows.
Proof.
  split_and!; [by apply (bool_decide_unpack _); vm_compute..|]. repeat constructor.
Qed.

Lemma two_starting : Forall (λ r, ∃ n bs, r = starting n bs) [starting 2 2; starting 2 2].
Proof. repeat constructor; by exists 2, 2. Qed.

Lemma relays_send_once_witness :
  keys (rs_sent two_relays) = ["m1"; "m3"; "m2"; "m4"]%string ∧ NoDup (keys (rs_sent two_relays)) ∧
  keys (rs_sent one_dies) = ["m1"; "m1"; "m2"; "m3"]%string ∧ rs_lost one_dies = ["m1"]%string ∧
  (∀ m, length (filter (m =.) (keys (rs_sent one_dies))) ≤ 1 + length (filter (m =.) (rs_lost one_dies))).
Proof.
  split; [vm_compute; reflexivity|]. split.
  { apply (relays_send_once (λ _, None) (λ _ _, Acknowledged) Z.of_nat (λ _, true) _ _ side_by_side three_rows_wf two_starting).
    vm_compute; reflexivity. }
  split; [vm_compute; reflexivity|]. split; [vm_compute; reflexivity|].
  apply (relays_send_once (λ _, None) (λ _ _, Acknowledged) Z.of_nat (λ _, true) _ _ _ three_rows_wf two_starting).
Defined.
