(* ===== verification/RedisRetry.v ===== *)
(** * Deliveries on the Redis store

    A period in which Redis serves a message: the server's clock may differ from
    the consumer's by a constant, keys expire, and the TTL outlasts the period.
    It makes the Redis store [Steady], so that the deliveries of ConsumerRetry.v
    run on it; and their theorems, and that of ConsumerStream.v, are evaluated on both
    stores. *)

From S2P Require Import Prelude Prog Utf8 PyJson JsonText Models Iso8601 Store MemoryStore StoreEvents Metrics.
From S2P Require Import Consumer ConsumerRun ConsumerStore ConsumerStream ConsumerRetry Timed Settling.
From S2P Require Import Timestamp RedisServer RedisStore RedisTable RedisProofs RefCjson RedisProps.
Import Redis RedisTable RedisLaws.

Section Period.
Context `{!JsonCodec} `{!Cjson} `{!CjsonLaws} `{!DatetimeText}.
Context {R : Type} `{!RedisServer R} `{!RedisServerLaws R}.
Implicit Types s : Redis.state R.

(** What a call leaves of the server: its clock, the other keys, and of the key its expiry, where it
    had one. *)
Definition same_server (mid : string) s s' : Prop :=
  rs_config s' = rs_config s ∧ redis_frame (redis_key mid) (rs_client s) (rs_client s') ∧
  (is_Some (redis_GET (redis_key mid) (rs_client s)) → deadline mid s' = deadline mid s).

Lemma same_server_refl mid s : same_server mid s s.
Proof. done. Qed.

Lemma claim_server s now mid s' b :
  inv s → claim_ok now mid s → claim now mid s = (s', Ok b) →
  inv s' ∧ same_server mid s s' ∧
  (redis_GET (redis_key mid) (rs_client s) = None →
    deadline mid s' = Some (now_ms (rs_client s) + ttl_seconds (rs_config s) * 1000)%Z).
Proof.
  intros Hi Hok E. split.
  { destruct (claim_refines s now mid Hi Hok) as (s1 & E1 & Hi1 & _).
    rewrite E in E1. by injection E1 as ->. }
  destruct (redis_GET (redis_key mid) (rs_client s)) as [raw|] eqn:Hg.
  - split; [|done]. destruct (Hi mid raw Hg) as [p Hh].
    pose proof (script_claim_present now mid s raw p Hok Hg Hh) as Hs. cbn zeta in Hs.
    destruct (Spec.claimable _ _ _); [|rewrite E in Hs; by injection Hs as -> _].
    destruct Hs as (r' & raw' & p' & E1 & _ & Hf & Hd & _).
    rewrite E in E1. by injection E1 as -> _.
  - destruct (script_claim_absent now mid s Hok Hg) as (r' & raw' & p' & E1 & _ & Hf & Hd & _).
    rewrite E in E1. injection E1 as -> _. split; [|done]. split; [done|]. split; [exact Hf|].
    rewrite Hg. by intros [? ?].
Qed.

Lemma complete_server s now mid r s' :
  inv s → complete_ok now mid r → mark_completed now mid r s = (s', Ok tt) →
  inv s' ∧ same_server mid s s'.
Proof.
  intros Hi Hok E. split.
  { destruct (complete_refines s now mid r Hi Hok) as (s1 & E1 & Hi1 & _).
    rewrite E in E1. by injection E1 as ->. }
  destruct Hok as (Hn & j & -> & Hwf & Hsafe).
  destruct (processing_cases (view s mid)) as [(p & Hv & Hs)|Hno].
  - destruct (view_Some _ _ _ Hi Hv) as (raw & Hg & Hh).
    destruct (script_complete now mid s raw p j j Hn Hwf) as (r' & ? & ? & E1 & _ & Hf & Hd & _);
      rewrite ?(lua_norm_safe _ _ Hsafe); try done.
    rewrite E in E1. by injection E1 as ->.
  - rewrite (completes _ _ _ _ _ _ (complete_skips s now mid j Hi Hno)) in E. by injection E as <-.
Qed.

Lemma fail_server s now mid e a s' :
  inv s → fail_ok now mid e a → mark_failed now mid e a s = (s', Ok tt) →
  inv s' ∧ same_server mid s s'.
Proof.
  intros Hi Hok E. split.
  { destruct (fail_refines s now mid e a Hi Hok) as (s1 & E1 & Hi1 & _).
    rewrite E in E1. by injection E1 as ->. }
  destruct (processing_cases (view s mid)) as [(p & Hv & Hs)|Hno].
  - destruct (view_Some _ _ _ Hi Hv) as (raw & Hg & Hh).
    destruct (script_fail now mid s raw p e a) as (r' & ? & ? & E1 & _ & Hf & Hd & _); try done.
    rewrite E in E1. by injection E1 as ->.
  - rewrite (fails _ _ _ _ _ _ _ (fail_skips s now mid e a Hi Hno)) in E. by injection E as <-.
Qed.

(** ** The period

    From the consumer's clock [start] to [limit]; the server's clock is ahead by
    [skew]. *)
Record redis_period (cfg : DeduplicationConfig) (mid : string) (skew start limit c : Z) s : Prop := {
  rp_inv : inv s;
  rp_config : rs_config s = cfg;
  rp_clock : redis_clock (rs_client s) = (c + skew)%Z;
  rp_range : (start ≤ c ≤ limit)%Z;
  rp_alive : is_Some (redis_GET (redis_key mid) (rs_client s)) →
    alive_at (limit + skew) (deadline mid s) = true;
}.

(** What the configuration and the clocks must satisfy for that. *)
Record period_ok (cfg : DeduplicationConfig) (mid : string) (skew start limit : Z) : Prop := {
  po_mid : utf8_valid mid = true;
  po_start : in_datetime start = true;
  po_limit : in_datetime limit = true;
  po_ttl : px_ok (ttl_seconds cfg * 1000) = true;
  po_outlasts : ((limit + skew) / 1000 ≤ (start + skew) / 1000 + ttl_seconds cfg * 1000)%Z;
  po_lease : (0 ≤ (start + skew) / 1000 + processing_timeout_seconds cfg * 1000)%Z;
  po_lease_end : ((limit + skew) / 1000 + processing_timeout_seconds cfg * 1000 < exact_ms)%Z;
  po_retries : (max_retries cfg + 1 < 10 ^ 14)%Z;
}.

(** The store serves all messages at one time. *)
Lemma redis_serves mids c s :
  in_datetime c = true → Forall (λ mid, utf8_valid mid = true) mids →
  px_ok (ttl_seconds (rs_config s) * 1000) = true →
  (0 ≤ now_ms (rs_client s) + processing_timeout_seconds (rs_config s) * 1000 < exact_ms)%Z →
  serves mids c s.
Proof.
  intros Hn Hu Ht Hl s' mid Hin _ Hc Hk Ha. cbn in Hc, Hk.
  assert (now_ms (rs_client s') = now_ms (rs_client s)) as Hms by (specialize (Hk 0%Z); lia).
  rewrite Forall_forall in Hu. split_and!; [done|by apply Hu|by rewrite Hc| | |].
  - rewrite Hms, Hc. lia.
  - rewrite Hms, Hc. lia.
  - intros p Hp. rewrite (Ha p Hp). lia.
Qed.

Section Steady.
Context (cfg : DeduplicationConfig) (mid : string) (skew start limit : Z).
Context (ok : period_ok cfg mid skew start limit).

Lemma period_now c s : redis_period cfg mid skew start limit c s → in_datetime c = true.
Proof.
  intros [_ _ _ Hr _]. destruct ok as [_ Ha Hb _ _ _ _ _]. unfold in_datetime in *.
  rewrite !andb_true_iff, !Z.leb_le in *. lia.
Qed.

Lemma period_claim_ok c s :
  redis_period cfg mid skew start limit c s →
  (∀ p, view s mid = Some p → 0 ≤ ps_attempts p ≤ max_retries cfg)%Z → claim_ok c mid s.
Proof.
  intros Hp Hv. pose proof (period_now c s Hp) as Hn. destruct Hp as [_ Hc Hk Hr _].
  destruct ok as [Hm _ _ Ht _ Hl Hle Hma]. split_and!; [done|done|by rewrite Hc| | |].
  - unfold now_ms. rewrite Hk, Hc.
    assert ((start + skew) / 1000 ≤ (c + skew) / 1000)%Z by (apply Z.div_le_mono; lia). lia.
  - unfold now_ms. rewrite Hk, Hc.
    assert ((c + skew) / 1000 ≤ (limit + skew) / 1000)%Z by (apply Z.div_le_mono; lia). lia.
  - intros p Hpv. specialize (Hv p Hpv). lia.
Qed.

(** A call that keeps the server, and either finds the key or sets an expiry that outlasts. *)
Lemma period_call c s s' :
  redis_period cfg mid skew start limit c s → inv s' → same_server mid s s' →
  (redis_GET (redis_key mid) (rs_client s) = None →
    is_Some (redis_GET (redis_key mid) (rs_client s')) →
    alive_at (limit + skew) (deadline mid s') = true) →
  redis_period cfg mid skew start limit c s'.
Proof.
  intros [Hi Hc Hk Hr Ha] Hi' (Hc' & [Hk' _] & Hd) Hnew. split; [done|congruence|congruence|done|].
  intros Hs'. destruct (redis_GET (redis_key mid) (rs_client s)) as [raw|] eqn:Hg; [|by apply Hnew].
  rewrite Hd by done. by apply Ha.
Qed.

Lemma redis_steady : ConsumerRetry.Steady cfg mid limit (redis_period cfg mid skew start limit).
Proof.
  split.
  - by intros c s [].
  - by intros c s [].
  - apply period_claim_ok.
  - intros c s s' b Hp Hok E.
    destruct (claim_server s c mid s' b (rp_inv _ _ _ _ _ _ _ Hp) Hok E) as (Hi' & Hsame & Hnew).
    eapply period_call; [done..|]. intros Hg _. rewrite (Hnew Hg). cbn. apply Z.leb_le.
    destruct Hp as [_ Hc Hk Hr _]. unfold now_ms. rewrite Hk, Hc. etrans; [apply ok|].
    apply Z.add_le_mono_r, Z.div_le_mono; lia.
  - intros c s s' v Hp Hok E.
    destruct (complete_server s c mid v s' (rp_inv _ _ _ _ _ _ _ Hp) Hok E) as (Hi' & Hsame).
    eapply period_call; [done..|]. intros Hg Hg'.
    destruct (complete_refines s c mid v (rp_inv _ _ _ _ _ _ _ Hp) Hok) as (s1 & E1 & _ & _ & V).
    cbn in E. rewrite E in E1. injection E1 as <-. exfalso. revert V. unfold view at 2. rewrite Hg. cbn.
    destruct Hg' as [raw Hraw]. destruct (Hi' mid raw Hraw) as [p Hh].
    rewrite (view_holds _ _ _ _ Hraw Hh). by inversion 1.
  - intros c s s' e a Hp Hok E.
    destruct (fail_server s c mid e a s' (rp_inv _ _ _ _ _ _ _ Hp) Hok E) as (Hi' & Hsame).
    eapply period_call; [done..|]. intros Hg Hg'.
    destruct (fail_refines s c mid e a (rp_inv _ _ _ _ _ _ _ Hp) Hok) as (s1 & E1 & _ & _ & V).
    cbn in E. rewrite E in E1. injection E1 as <-. exfalso. revert V. unfold view at 2. rewrite Hg. cbn.
    destruct Hg' as [raw Hraw]. destruct (Hi' mid raw Hraw) as [p Hh].
    rewrite (view_holds _ _ _ _ Hraw Hh). by inversion 1.
  - intros c s d [Hi Hc Hk Hr Ha] Hd Hlim.
    assert (Hmono : ∀ dl, alive_at (limit + skew) dl = true → alive_at (c + d + skew) dl = true).
    { intros [dl|]; [|done]. cbn. rewrite !Z.leb_le. intros Hdl.
      assert ((c + d + skew) / 1000 ≤ (limit + skew) / 1000)%Z by (apply Z.div_le_mono; lia). lia. }
    assert (Hget : ∀ k, redis_GET k (redis_elapse d (rs_client s)) =
      if alive_at (c + d + skew) (redis_deadline k (rs_client s)) then redis_GET k (rs_client s) else None).
    { intros k. rewrite redis_elapse_GET, Hk by done. by replace (c + skew + d)%Z with (c + d + skew)%Z by lia. }
    split; [split|].
    + exact (elapse_inv (S := Redis.state R) d s Hd Hi).
    + done.
    + cbn. rewrite redis_elapse_clock, Hk. lia.
    + lia.
    + intros [raw Hraw]. cbn in Hraw. unfold deadline. cbn.
      rewrite (redis_elapse_deadline _ _ _ raw) by done. apply Ha. rewrite Hget in Hraw.
      case_match; [by exists raw|done].
    + intros [p Hv]. cbn. rewrite Hk. destruct (view_Some s mid p Hi Hv) as (raw & Hg & _).
      replace (c + skew + d)%Z with (c + d + skew)%Z by lia. apply Hmono, Ha. by exists raw.
Qed.

End Steady.

(** ** A period for several messages *)
Section All.
Context (cfg : DeduplicationConfig) (mids : list string) (skew start limit : Z).
Context (ok : ∀ mid, mid ∈ mids → period_ok cfg mid skew start limit).

Definition redis_periods (c : Z) s : Prop :=
  ∀ mid, mid ∈ mids → redis_period cfg mid skew start limit c s.

(** A call for [mid] keeps the periods of the other messages. *)
Lemma period_other mid m c s s' :
  m ≠ mid → redis_period cfg m skew start limit c s → inv s' → same_server mid s s' →
  redis_period cfg m skew start limit c s'.
Proof.
  intros Hne [Hi Hc Hk Hr Ha] Hi' (Hc' & [Hk' Hf] & _). destruct (Hf (redis_key m)) as [Hg Hd];
    [by intros ?%redis_key_inj|].
  split; [done|congruence|congruence|done|]. unfold deadline in *. by rewrite Hg, Hd.
Qed.

Lemma periods_call mid c s s' :
  mid ∈ mids → redis_periods c s → inv s' → same_server mid s s' →
  redis_period cfg mid skew start limit c s' → redis_periods c s'.
Proof.
  intros Hin Hp Hi' Hs Hmid m Hm. destruct (decide (m = mid)) as [->|Hne]; [done|].
  eapply period_other; [exact Hne|by apply Hp|done..].
Qed.

Lemma redis_periods_steady mid :
  mid ∈ mids → ConsumerRetry.Steady cfg mid limit redis_periods.
Proof.
  intros Hin. pose proof (redis_steady cfg mid skew start limit (ok mid Hin)) as Hst. split.
  - intros c s Hp. by apply Hp in Hin as [].
  - intros c s Hp. by apply Hp in Hin as [].
  - intros c s Hp. eapply steady_claim_ok. by apply Hp.
  - intros c s s' b Hp Hok E. assert (Hi := rp_inv _ _ _ _ _ _ _ (Hp mid Hin)).
    destruct (claim_server s c mid s' b Hi Hok E) as (Hi' & Hsame & _).
    eapply periods_call; [done..|]. eapply (steady_claim (mid := mid)); [by apply Hp|done|exact E].
  - intros c s s' v Hp Hok E. assert (Hi := rp_inv _ _ _ _ _ _ _ (Hp mid Hin)).
    destruct (complete_server s c mid v s' Hi Hok E) as (Hi' & Hsame).
    eapply periods_call; [done..|]. eapply (steady_complete (mid := mid)); [by apply Hp|done|exact E].
  - intros c s s' e a Hp Hok E. assert (Hi := rp_inv _ _ _ _ _ _ _ (Hp mid Hin)).
    destruct (fail_server s c mid e a s' Hi Hok E) as (Hi' & Hsame).
    eapply periods_call; [done..|]. eapply (steady_fail (mid := mid)); [by apply Hp|done|exact E].
  - intros c s d Hp Hd Hlim. split.
    + intros m Hm. pose proof (redis_steady cfg m skew start limit (ok m Hm)) as Hsm.
      by apply (steady_elapse (mid := m) (P := redis_period cfg m skew start limit) c s d (Hp m Hm)).
    + by apply (steady_elapse (mid := mid) (P := redis_period cfg mid skew start limit) c s d (Hp mid Hin)).
Qed.

End All.
End Period.

(** ** Evaluated: two failures, each with a wait, then a success *)

#[local] Existing Instances Memory.memory_store Memory.memory_view Memory.memory_laws payment_steady.
#[local] Existing Instances json_text text_runtime iso8601.
#[local] Existing Instances RefCjson.ref_cjson RefCjson.ref_cjson_laws Ref.ref_server Ref.ref_laws.

(** The consumer's clock is 123456 microseconds behind the server's. *)
Abbreviation redis_now := 1700000000000000%Z.
Abbreviation payment_period :=
  (redis_period default_config "p1" 123456 redis_now (redis_now + 1500000)%Z).

Definition redis_world (outcomes : list (res pyval)) : world (Redis.state Ref.server) :=
  new_world new_redis redis_now outcomes.

Lemma payment_period_ok : period_ok default_config "p1" 123456 redis_now (redis_now + 1500000).
Proof. by split. Qed.

#[local] Instance payment_redis_steady :
  Steady default_config "p1" (redis_now + 1500000) payment_period.
Proof. apply redis_steady, payment_period_ok. Qed.

Lemma new_redis_payment outcomes :
  new_message payments_consumer payment "p1" payment_payload (redis_now + 1500000) payment_period 2
    (redis_world outcomes).
Proof.
  split; [done|by vm_compute|by vm_compute|done|done| |by vm_compute|by vm_compute].
  split; [exact new_redis_inv|done|done|cbn; lia|]. intros [raw Hraw]. by vm_compute in Hraw.
Qed.

Lemma redis_declined : reportable payments_consumer "p1" payment_period declined.
Proof.
  split; [done|]. intros c s a Hp Ha. cbn in Ha.
  split_and!; [by eapply period_now; [apply payment_period_ok|exact Hp]|done|done|lia].
Qed.

(** On both stores. *)
Lemma delivery_recovers_witness :
  (∃ w' p, run (ev_handler st_elapse) (process_record payments_consumer payment)
      (failing_world [Err declined; Err declined; Ok (PyJson (JInt 1))]) = (w', Ok tt) ∧
    w_handled w' = replicate 3 payment_payload ∧ w_outcomes w' = [] ∧ w_dlq w' = [] ∧
    w_committed w' = 1 ∧ w_clock w' = 2500000%Z ∧
    mem_record "p1" w' = Some p ∧ ps_status p = COMPLETED ∧ ps_result p ≡ PyJson (JInt 1) ∧
    ps_attempts p = 3%Z) ∧
  (∃ w' p, run (ev_handler st_elapse) (process_record payments_consumer payment)
      (redis_world [Err declined; Err declined; Ok (PyJson (JInt 1))]) = (w', Ok tt) ∧
    w_handled w' = replicate 3 payment_payload ∧ w_outcomes w' = [] ∧ w_dlq w' = [] ∧
    w_committed w' = 1 ∧ w_clock w' = (redis_now + 1500000)%Z ∧
    mem_record "p1" w' = Some p ∧ ps_status p = COMPLETED ∧ ps_result p ≡ PyJson (JInt 1) ∧
    ps_attempts p = 3%Z).
Proof.
  split.
  - apply (delivery_recovers payments_consumer payment "p1" payment_payload ltac:(done) 2500000
      (memory_period default_config 2500000)
      [declined; declined] (PyJson (JInt 1)) [] (failing_world _) (new_payment _));
      [by vm_compute|by repeat constructor|done|done].
  - apply (delivery_recovers (T := Redis.state Ref.server) payments_consumer payment "p1" payment_payload
      ltac:(done) (redis_now + 1500000) payment_period
      [declined; declined] (PyJson (JInt 1)) [] (redis_world _) (new_redis_payment _)).
    + by vm_compute.
    + exact (Forall_replicate _ 2 _ redis_declined).
    + intros c s Hp. split; [by eapply period_now; [apply payment_period_ok|exact Hp]|].
      exists (JInt 1). by vm_compute.
    + done.
Defined.

Lemma delivery_exhausts_witness :
  (∃ w' p, run (ev_handler st_elapse) (process_record payments_consumer payment)
      (failing_world [Err declined; Err declined; Err declined]) = (w', Ok tt) ∧
    w_handled w' = replicate 3 payment_payload ∧ w_outcomes w' = [] ∧
    w_dlq w' = dead_letter payments_consumer payment "declined" ∧ w_committed w' = 1 ∧
    w_clock w' = 2500000%Z ∧
    mem_record "p1" w' = Some p ∧ ps_status p = FAILED ∧ ps_error p = Some "declined"%string ∧
    ps_attempts p = 3%Z) ∧
  (∃ w' p, run (ev_handler st_elapse) (process_record payments_consumer payment)
      (redis_world [Err declined; Err declined; Err declined]) = (w', Ok tt) ∧
    w_handled w' = replicate 3 payment_payload ∧ w_outcomes w' = [] ∧
    w_dlq w' = dead_letter payments_consumer payment "declined" ∧ w_committed w' = 1 ∧
    w_clock w' = (redis_now + 1500000)%Z ∧
    mem_record "p1" w' = Some p ∧ ps_status p = FAILED ∧ ps_error p = Some "declined"%string ∧
    ps_attempts p = 3%Z).
Proof.
  split.
  - apply (delivery_exhausts payments_consumer payment "p1" payment_payload ltac:(done) 2500000
      (memory_period default_config 2500000) [declined; declined] declined [] (failing_world _)
      (new_payment _)); [by vm_compute|by repeat constructor|done].
  - apply (delivery_exhausts (T := Redis.state Ref.server) payments_consumer payment "p1" payment_payload
      ltac:(done) (redis_now + 1500000) payment_period [declined; declined] declined [] (redis_world _)
      (new_redis_payment _)); [by vm_compute|exact (Forall_replicate _ 3 _ redis_declined)|done].
Defined.

(** The stream: on the in-memory store after a first delivery, and on a new Redis. *)
Lemma run_exactly_once_witness :
  (∃ w', run (ev_handler st_elapse) (run_consumer payments_consumer 5)
      (stream_world (w_store second_world) 1000000 [Ok (PyJson (JInt 2))]) = (w', Ok true) ∧
    w_handled w' = [PJson (JObj [("refund", JInt 5)])%string] ∧ w_outcomes w' = [] ∧ w_dlq w' = [] ∧
    w_committed w' = 4 ∧ w_poll w' = [] ∧
    settled_store (list_to_set (ids payment_stream) ∪ {["p1"%string]}) (ids payment_stream) (w_store w')) ∧
  (∃ w', run (ev_handler st_elapse) (run_consumer payments_consumer 5)
      (stream_world new_redis redis_now [Ok (PyJson (JInt 1)); Ok (PyJson (JInt 2))]) = (w', Ok true) ∧
    w_handled w' = [payment_payload; PJson (JObj [("refund", JInt 5)])%string] ∧ w_outcomes w' = [] ∧
    w_dlq w' = [] ∧ w_committed w' = 4 ∧ w_poll w' = [] ∧
    settled_store (list_to_set (ids payment_stream) ∪ ∅) (ids payment_stream) (w_store w')).
Proof.
  assert (Hf1 : fresh {["p1"%string]} payment_stream = [PJson (JObj [("refund", JInt 5)])%string])
    by (vm_compute; reflexivity).
  assert (Hf2 : fresh ∅ payment_stream = [payment_payload; PJson (JObj [("refund", JInt 5)])%string])
    by (vm_compute; reflexivity).
  split; [rewrite <- Hf1|rewrite <- Hf2].
  - apply (run_exactly_once (T := Memory.state) payments_consumer payment_stream 5 {["p1"%string]}
      [PyJson (JInt 2)] [] (stream_world (w_store second_world) 1000000 [Ok (PyJson (JInt 2))]));
      [done|done|apply payment_stream_keyed|cbn; lia|done|done|done|by rewrite Hf1| | |by repeat constructor].
    + split; [apply second_world_inv|]. intros mid Hm. case_decide as Hs.
      * apply elem_of_singleton in Hs as ->. eexists. by vm_compute.
      * assert (mid = "p2"%string) as -> by (cbn in Hm; set_solver). by vm_compute.
    + by apply memory_serves.
  - apply (run_exactly_once (T := Redis.state Ref.server) payments_consumer payment_stream 5 ∅
      [PyJson (JInt 1); PyJson (JInt 2)] [] (stream_world new_redis redis_now _));
      [done|done|apply payment_stream_keyed|cbn; lia|done|done|done|by rewrite Hf2| | |].
    + split; [exact new_redis_inv|]. intros mid _. by rewrite decide_False by apply not_elem_of_empty.
    + apply redis_serves; [done| |done|by vm_compute]. by repeat constructor.
    + apply Forall_cons. split; [intros mid; split; [done|exists (JInt 1); by vm_compute]|].
      apply Forall_cons. split; [intros mid; split; [done|exists (JInt 2); by vm_compute]|].
      apply Forall_nil_2.
Defined.

(** A stream with redeliveries: the payment fails twice and then succeeds, the refund never does. *)
Definition fates : list verdict :=
  [Recovers [declined; declined] (PyJson (JInt 1)); Exhausts [declined; declined] declined].

(** A second before the first record and before the second. *)
Definition gaps : list Z := [1000000; 1000000]%Z.

Abbreviation all_periods :=
  (redis_periods default_config (ids payment_stream) 123456 redis_now (redis_now + 5000000)%Z).

Lemma all_periods_ok mid :
  mid ∈ ids payment_stream → period_ok default_config mid 123456 redis_now (redis_now + 5000000).
Proof.
  intros Hin. cbn in Hin. rewrite !elem_of_cons, elem_of_nil in Hin.
  destruct Hin as [->|[->|[->|[->|[]]]]]; by split.
Qed.

Lemma redis_declined_all mid : reportable payments_consumer mid all_periods declined.
Proof.
  split; [done|]. intros c s a Hp Ha. cbn in Ha. split_and!; [|done|done|lia].
  eapply (period_now default_config "p1"); [by apply all_periods_ok; left|apply Hp; by left].
Qed.

Lemma new_redis_periods : all_periods redis_now new_redis.
Proof.
  intros mid Hin. split; [exact new_redis_inv|done|done|cbn; lia|]. intros [raw Hraw].
  cbn in Hin. rewrite !elem_of_cons, elem_of_nil in Hin.
  destruct Hin as [->|[->|[->|[->|[]]]]]; by vm_compute in Hraw.
Qed.

Lemma fates_new {T} `{DedupStoreLaws T} limit P (s : T) c :
  fit payments_consumer limit P (ids payment_stream) → P c s →
  (∀ mid, mid ∈ ids payment_stream → st_view s mid = None) →
  Forall2 (λ r vd, possible payments_consumer P r.1.2 vd) (take 2 payment_stream) fates →
  (c + 5000000 ≤ limit)%Z →
  new_stream payments_consumer limit P payment_stream 5 gaps fates [] (stream_world s c (fates ≫= outcomes_of)).
Proof.
  intros Hfit Hp Hnew Hvd Hl.
  split; [apply payment_stream_keyed|].
  split; [split; [by repeat constructor|cbn; lia]|done|cbn; lia|done..|].
  cbn [w_clock stream_world]. change (total_wait payments_consumer fates) with 3000000%Z.
  change (total gaps) with 2000000%Z. lia.
Qed.

Lemma stream_settles_witness :
  (∃ w', run timed_handler (run_consumer payments_consumer 5)
      (stream_world (Memory.init None) 1000000 (fates ≫= outcomes_of), gaps) = ((w', []), Ok true) ∧
    length (w_handled w') = 6 ∧ length (w_dlq w') = 1 ∧ w_committed w' = 4 ∧ w_clock w' = 6000000%Z ∧
    Forall2 (settled_as payments_consumer w') (take 2 payment_stream) fates) ∧
  (∃ w', run timed_handler (run_consumer payments_consumer 5)
      (stream_world new_redis redis_now (fates ≫= outcomes_of), gaps) = ((w', []), Ok true) ∧
    length (w_handled w') = 6 ∧ length (w_dlq w') = 1 ∧ w_committed w' = 4 ∧
    w_clock w' = (redis_now + 5000000)%Z ∧
    Forall2 (settled_as payments_consumer w') (take 2 payment_stream) fates).
Proof.
  split.
  - destruct (stream_settles payments_consumer 6000000 (memory_period default_config 6000000)
      payment_stream 5 gaps fates [] (stream_world (Memory.init None) 1000000 (fates ≫= outcomes_of)))
      as (w' & E & Hh & Hd & _ & Hc & Ht & Hs).
    + apply fates_new; [split; [done..|]; intros mid _; by apply memory_steady|done|done| |done].
      repeat (apply Forall2_cons; split; [by repeat constructor|]). apply Forall2_nil_2.
    + exists w'. rewrite Hh, Hd, Hc, Ht. by split_and!.
  - destruct (stream_settles (T := Redis.state Ref.server) payments_consumer (redis_now + 5000000) all_periods
      payment_stream 5 gaps fates [] (stream_world new_redis redis_now (fates ≫= outcomes_of)))
      as (w' & E & Hh & Hd & _ & Hc & Ht & Hs).
    + apply fates_new; [split; [done..|]; intros mid Hin; by apply redis_periods_steady; [apply all_periods_ok|]
        |exact new_redis_periods| | |done].
      { intros mid Hin. cbn in Hin. rewrite !elem_of_cons, elem_of_nil in Hin.
        destruct Hin as [->|[->|[->|[->|[]]]]]; by vm_compute. }
      repeat (apply Forall2_cons; split; [split; [done|]|]); [..|apply Forall2_nil_2].
      * split; [exact (Forall_replicate _ 2 _ (redis_declined_all "p1"))|]. intros c s Hp. split.
        { eapply (period_now default_config "p1"); [by apply all_periods_ok; left|apply Hp; by left]. }
        exists (JInt 1). by vm_compute.
      * exact (Forall_replicate _ 3 _ (redis_declined_all "p2")).
    + exists w'. rewrite Hh, Hd, Hc, Ht. by split_and!.
Defined.
