(* ===== verification/WindowStores.v ===== *)
(** * The windows of the two stores

    The in-memory store never forgets; Redis forgets a message when the TTL of its
    first claim is over.  Both are [Window]s, so the poll loop on them is the
    reference of Window.v; for Redis this bounds how far apart the calls of
    handle() for one message are. *)

From S2P Require Import Prelude Prog Utf8 PyJson JsonText Models Iso8601 Store MemoryStore StoreEvents Metrics.
From S2P Require Import Consumer ConsumerRun ConsumerStore ConsumerStream ConsumerRetry Timed Window.
From S2P Require Import Timestamp RedisServer RedisStore RedisTable RedisProofs RefCjson RedisProps RedisRetry.

(** ** In memory *)
Section Memory.
#[local] Existing Instances Memory.memory_store Memory.memory_view Memory.memory_laws.

Definition memory_remembers (t c : Z) : bool := true.

Definition memory_window (cfg : DeduplicationConfig) (mids : list string) (limit : Z)
    (born : gmap string Z) (c : Z) (s : Memory.state) : Prop :=
  Memory.inv s ∧ Memory.ms_config s = cfg ∧ in_datetime c = true ∧ (c ≤ limit)%Z ∧
  ∀ mid, mid ∈ mids → bool_decide (is_Some (Memory.ms_store s !! mid)) = bool_decide (is_Some (born !! mid)).

Lemma memory_remembered born c mid :
  remembered memory_remembers born c mid = bool_decide (is_Some (born !! mid)).
Proof. unfold remembered. by destruct (born !! mid). Qed.

Lemma memory_is_window cfg mids limit :
  (0 ≤ processing_timeout_seconds cfg)%Z →
  in_datetime (limit + processing_timeout_seconds cfg * 1000000) = true →
  Window mids limit memory_remembers (memory_window cfg mids limit).
Proof.
  intros Hl Hlim. unfold in_datetime in Hlim. rewrite andb_true_iff, !Z.leb_le in Hlim.
  assert (Hok : ∀ b c s mid, memory_window cfg mids limit b c s → st_claim_ok c mid s).
  { intros b c s mid (_ & Hc & Hd & Hle & _). split; [done|]. rewrite Hc. unfold in_datetime in *.
    rewrite !andb_true_iff, !Z.leb_le in *. lia. }
  split.
  - by intros b c s [].
  - done.
  - intros b c s mid Hp _ _. by eapply Hok.
  - intros b c s mid (_ & _ & _ & _ & Hv) Hm. rewrite memory_remembered. by apply Hv.
  - intros b c s s' mid (Hi & Hc & Hd & Hle & Hv) Hm Hcl E. cbn in E. rewrite Memory.claim_eq in E by done.
    injection E as <- Hb. unfold Spec.do_claim in *. destruct (Spec.claimable _ _ _); [done|]. cbn.
    destruct (Memory.ms_store s !! mid) as [p|] eqn:Hp; [|done]. cbn. by rewrite Memory.set_store_id.
  - intros b c s s' mid (Hi & Hc & Hd & Hle & Hv) Hm Hcl Hnone E. cbn in Hnone.
    destruct (claim_spec s c mid) as (s1 & E1 & Hi1 & (Hc1 & _) & _); [done..|]. rewrite E in E1. injection E1 as <- _.
    cbn in E. rewrite Memory.claim_eq in E by done. injection E as <- _. cbn in Hc1. rewrite Hnone in *.
    split_and!; [done|by rewrite Hc1|done..|]. intros m Hm'. cbn. rewrite !lookup_insert. case_decide; [|by apply Hv].
    by rewrite !bool_decide_true by done.
  - intros b c s s' mid v (Hi & Hc & Hd & Hle & Hv) Hm Hcl E.
    destruct (mark_completed_spec s c mid v) as (s1 & E1 & Hi1 & (Hc1 & _ & Hf) & V); [done..|].
    rewrite E in E1. injection E1 as <-. cbn in Hc1, Hf, V.
    split_and!; [done|by rewrite Hc1|done..|]. intros m Hm'. rewrite <- Hv by done.
    destruct (decide (m = mid)) as [->|Hne]; [|by rewrite Hf]. apply bool_decide_ext.
    destruct (Memory.ms_store s !! mid) as [p|]; cbn in V; [|by inversion V].
    split; [done|]. case_decide; inversion V; eauto.
  - intros b c s d (Hi & Hc & Hd & Hle & Hv) Hd' Hl'. cbn. split_and!; try done.
    unfold in_datetime in *. rewrite !andb_true_iff, !Z.leb_le in *. lia.
Qed.

End Memory.

(** ** In Redis *)
Section Redis.
Import Redis RedisTable RedisLaws.
Context `{!JsonCodec} `{!Cjson} `{!CjsonLaws} `{!DatetimeText}.
Context {R : Type} `{!RedisServer R} `{!RedisServerLaws R}.
Implicit Types s : Redis.state R.

(** The server's clock is ahead of the consumer's by [skew]. *)
Context (cfg : DeduplicationConfig) (mids : list string) (skew start limit : Z).

(** The expiry of a key that was set when the consumer's clock was [t], in milliseconds. *)
Definition expiry (t : Z) : Z := (t + skew) / 1000 + ttl_seconds cfg * 1000.

Definition redis_remembers (t c : Z) : bool := alive_at (c + skew) (Some (expiry t)).

(** In time: the TTL, up to the millisecond of the server's clock. *)
Lemma redis_forgets t c : redis_remembers t c = false → (t + ttl_seconds cfg * 1000000 < c)%Z.
Proof.
  unfold redis_remembers, expiry. cbn. rewrite Z.leb_gt. intros Hlt.
  pose proof (Z.div_mod (t + skew) 1000) as Hm. pose proof (Z.mod_pos_bound (t + skew) 1000) as Hb.
  pose proof (Z.div_mod (c + skew) 1000) as Hm'. pose proof (Z.mod_pos_bound (c + skew) 1000) as Hb'. lia.
Qed.

Lemma redis_remembers_until t c : redis_remembers t c = true → (c < t + ttl_seconds cfg * 1000000 + 1000)%Z.
Proof.
  unfold redis_remembers, expiry. cbn. rewrite Z.leb_le. intros Hlt.
  pose proof (Z.div_mod (t + skew) 1000) as Hm. pose proof (Z.mod_pos_bound (t + skew) 1000) as Hb.
  pose proof (Z.div_mod (c + skew) 1000) as Hm'. pose proof (Z.mod_pos_bound (c + skew) 1000) as Hb'. lia.
Qed.

Lemma redis_remembers_later t t' c : (t ≤ t')%Z → redis_remembers t c = true → redis_remembers t' c = true.
Proof.
  unfold redis_remembers, expiry. cbn. rewrite !Z.leb_le. intros Hle.
  assert ((t + skew) / 1000 ≤ (t' + skew) / 1000)%Z by (apply Z.div_le_mono; lia). lia.
Qed.

Lemma redis_remembers_mono t c c' : (c ≤ c')%Z → redis_remembers t c' = true → redis_remembers t c = true.
Proof.
  unfold redis_remembers. cbn. rewrite !Z.leb_le. intros Hle.
  assert ((c + skew) / 1000 ≤ (c' + skew) / 1000)%Z by (apply Z.div_le_mono; lia). lia.
Qed.

(** What the configuration and the clocks must satisfy. *)
Record window_ok : Prop := {
  wo_mids : Forall (λ mid, utf8_valid mid = true) mids;
  wo_start : in_datetime start = true;
  wo_limit : in_datetime limit = true;
  wo_ttl : px_ok (ttl_seconds cfg * 1000) = true;
  wo_lease : (0 ≤ (start + skew) / 1000 + processing_timeout_seconds cfg * 1000)%Z;
  wo_lease_end : ((limit + skew) / 1000 + processing_timeout_seconds cfg * 1000 < exact_ms)%Z;
}.
Context (ok : window_ok).

Record redis_window (born : gmap string Z) (c : Z) s : Prop := {
  rw_inv : inv s;
  rw_config : rs_config s = cfg;
  rw_clock : redis_clock (rs_client s) = (c + skew)%Z;
  rw_range : (start ≤ c ≤ limit)%Z;
  rw_view : ∀ mid, mid ∈ mids → bool_decide (is_Some (view s mid)) = remembered redis_remembers born c mid;
  rw_expiry : ∀ mid, mid ∈ mids → is_Some (view s mid) → deadline mid s = expiry <$> born !! mid;
}.

Lemma view_GET mid s : inv s → is_Some (view s mid) ↔ is_Some (redis_GET (redis_key mid) (rs_client s)).
Proof.
  intros Hi. split.
  - intros [p Hv]. destruct (view_Some _ _ _ Hi Hv) as (raw & Hg & _). by exists raw.
  - intros [raw Hg]. destruct (view s mid) eqn:Hv; [done|]. by rewrite (view_None _ _ Hi Hv) in Hg.
Qed.

(** A call that keeps the records there are, and their expiry. *)
Lemma window_call b c s s' mid :
  redis_window b c s → inv s' → same_server mid s s' → st_frame mid s s' →
  bool_decide (is_Some (view s' mid)) = bool_decide (is_Some (view s mid)) → redis_window b c s'.
Proof.
  intros [Hi Hc Hk Hr Hv He] Hi' (Hc' & [Hk' Hg] & Hd) (_ & _ & Hf) Hsame.
  assert (Hview : ∀ m, bool_decide (is_Some (view s' m)) = bool_decide (is_Some (view s m))).
  { intros m. destruct (decide (m = mid)) as [->|Hne]; [done|]. cbn in Hf. by rewrite Hf. }
  split; [done|congruence|congruence|done|intros m Hm; rewrite Hview; by apply Hv|].
  intros m Hm Hs. rewrite <- bool_decide_eq_true, Hview, bool_decide_eq_true in Hs. rewrite <- He by done.
  destruct (decide (m = mid)) as [->|Hne]; [by apply Hd, view_GET|].
  unfold deadline. by destruct (Hg (redis_key m)) as [_ ->]; [by intros ?%redis_key_inj|].
Qed.

Lemma redis_is_window : Window mids limit redis_remembers redis_window.
Proof.
  destruct ok as [Hu Hs Hl Ht Hlo Hhi]. rewrite Forall_forall in Hu.
  assert (Hnow : ∀ b c s, redis_window b c s → in_datetime c = true).
  { intros b c s Hp. destruct (rw_range _ _ _ Hp). unfold in_datetime in *. rewrite !andb_true_iff, !Z.leb_le in *. lia. }
  split.
  - by intros b c s [].
  - apply redis_remembers_later.
  - intros b c s mid Hp Hm Ha. pose proof Hp as [_ Hc Hk Hr _ _]. split_and!; [by eapply Hnow|by apply Hu|by rewrite Hc| | |].
    + unfold now_ms. rewrite Hk, Hc. assert ((start + skew) / 1000 ≤ (c + skew) / 1000)%Z by (apply Z.div_le_mono; lia). lia.
    + unfold now_ms. rewrite Hk, Hc. assert ((c + skew) / 1000 ≤ (limit + skew) / 1000)%Z by (apply Z.div_le_mono; lia). lia.
    + intros p Hv. rewrite (Ha p Hv). lia.
  - intros b c s mid [] Hm. by apply rw_view0.
  - intros b c s s' mid Hp Hm Hok E. assert (Hi := rw_inv _ _ _ Hp).
    destruct (claim_server s c mid s' false Hi Hok E) as (Hi' & Hsame & _).
    destruct (claim_spec s c mid) as (s1 & E1 & _ & Hf & V); [done..|]. rewrite E in E1. injection E1 as <- Hb.
    unfold Spec.do_claim in Hb, V. destruct (Spec.claimable _ _ _); [done|]. cbn in V.
    eapply window_call; [done..|]. apply bool_decide_ext. by rewrite V.
  - intros b c s s' mid Hp Hm Hok Hnone E. pose proof Hp as [Hi Hc Hk Hr Hv He]. cbn in Hnone.
    destruct (claim_server s c mid s' true Hi Hok E) as (Hi' & (Hc' & [Hk' Hg] & _) & Hd).
    destruct (claim_spec s c mid) as (s1 & E1 & _ & (_ & _ & Hf) & V); [done..|]. rewrite E in E1. injection E1 as <-.
    cbn in Hf, V. rewrite Hnone in V. cbn in V.
    assert (Hme : redis_remembers c c = true).
    { unfold redis_remembers, expiry. cbn. apply Z.leb_le. unfold px_ok in Ht. rewrite andb_true_iff, !Z.ltb_lt in Ht. lia. }
    split; [done|congruence|congruence|done| |].
    + intros m Hm'. unfold remembered. rewrite lookup_insert. case_decide as Hd'; [subst m|].
      * rewrite Hme. apply bool_decide_eq_true. inversion V; eauto.
      * rewrite Hf by done. by apply Hv.
    + intros m Hm' Hs'. rewrite lookup_insert. case_decide as Hd'; [subst m|].
      * rewrite Hd by exact (view_None _ _ Hi Hnone). unfold now_ms, expiry. cbn. by rewrite Hk, Hc.
      * rewrite Hf in Hs' by done. rewrite <- He by done. unfold deadline.
        by destruct (Hg (redis_key m)) as [_ ->]; [by intros ?%redis_key_inj|].
  - intros b c s s' mid v Hp Hm Hok E. assert (Hi := rw_inv _ _ _ Hp).
    destruct (complete_server s c mid v s' Hi Hok E) as (Hi' & Hsame).
    destruct (mark_completed_spec s c mid v) as (s1 & E1 & _ & Hf & V); [done..|]. rewrite E in E1. injection E1 as <-.
    eapply window_call; [done..|]. apply bool_decide_ext. cbn in V. rewrite V. destruct (view s mid); [|done]. cbn.
    case_decide; split; eauto.
  - intros b c s d Hp Hd Hlim. pose proof Hp as [Hi Hc Hk Hr Hv He].
    assert (Hel : ∀ mid, mid ∈ mids → bool_decide (is_Some (view (st_elapse d s) mid)) =
        remembered redis_remembers b (c + d) mid ∧
      (is_Some (view (st_elapse d s) mid) → is_Some (view s mid))).
    { intros mid Hm. specialize (Hv mid Hm). specialize (He mid Hm). unfold remembered in *.
      destruct (elapse_view d s mid) as [[Ha E]|[Ha E]]; [done|done| |]; cbn in Ha, E |- *; rewrite E; (split; [|done || by intros []]).
      - destruct (view s mid) as [p|] eqn:Hp'.
        + destruct (b !! mid) as [t|]; [|done]. unfold deadline in He. rewrite He, Hk in Ha by done. cbn [fmap] in Ha.
          symmetry. unfold redis_remembers. by replace (c + d + skew)%Z with (c + skew + d)%Z by lia.
        + destruct (b !! mid) as [t|]; [|done]. destruct (redis_remembers t (c + d)) eqn:Hrem; [|done].
          exfalso. rewrite (redis_remembers_mono t c (c + d)) in Hv by (done || lia). done.
      - destruct (b !! mid) as [t|]; [|done]. destruct (redis_remembers t (c + d)) eqn:Hrem; [|done].
        exfalso. rewrite (redis_remembers_mono t c (c + d)) in Hv by (done || lia).
        rewrite bool_decide_eq_true in Hv. apply Ha. unfold deadline in He. rewrite He, Hk by done.
        unfold redis_remembers in Hrem. cbn [fmap option_fmap option_map]. by replace (c + skew + d)%Z with (c + d + skew)%Z by lia. }
    split; [exact (elapse_inv (S := Redis.state R) d s Hd Hi)|done|cbn; rewrite redis_elapse_clock, Hk; lia|lia| |].
    + intros mid Hm. by apply Hel.
    + intros mid Hm Hs'. destruct (Hel mid Hm) as [_ Hold]. rewrite <- (He mid Hm (Hold Hs')).
      apply view_GET in Hs' as [raw Hraw]; [|exact (elapse_inv (S := Redis.state R) d s Hd Hi)].
      unfold deadline. cbn. by rewrite (redis_elapse_deadline _ _ _ raw).
Qed.

End Redis.

(** ** A stream on Redis *)
Section Stream.
Import Redis RedisTable RedisLaws.
Context `{!PyRuntime} `{!JsonCodec} `{!Cjson} `{!CjsonLaws} `{!DatetimeText}.
Context {R : Type} `{!RedisServer R} `{!RedisServerLaws R}.
Implicit Types w : world (Redis.state R).

(** A new message for Redis, at the start of a period that ends at [limit]. *)
Record redis_stream (cfg : DeduplicationConfig) (mids : list string) (skew limit : Z) w : Prop := {
  rst_window : window_ok cfg mids skew (w_clock w) limit;
  rst_inv : inv (w_store w);
  rst_config : rs_config (w_store w) = cfg;
  rst_clock : redis_clock (rs_client (w_store w)) = (w_clock w + skew)%Z;
  rst_new : ∀ mid, mid ∈ mids → view (w_store w) mid = None;
  rst_running : w_running w = true;
}.

Lemma redis_stream_resting cfg mids skew limit w :
  redis_stream cfg mids skew limit w → (w_clock w ≤ limit)%Z →
  resting mids (redis_window cfg mids skew (w_clock w) limit) ∅ w.
Proof.
  intros [Hok Hi Hc Hk Hnew Hr] Hl. split; [split| |done]; try done.
  - intros mid Hm. by rewrite Hnew.
  - intros mid Hm. rewrite Hnew by done. by intros [].
  - intros mid p Hm. cbn. by rewrite Hnew.
Qed.

(** The results that Redis can hold. *)
Definition storable (v : pyval) : Prop :=
  ∃ j, v = PyJson j ∧ json_wf j = true ∧ lua_safe 999 (json_canon j) = true.

(** C3: on Redis a message is handled once per TTL. A connected consumer polls any sequence of records of
    new messages, with any duplicates, while any time passes between them; every call of handle()
    returns, with a result that Redis can hold ([storable]), so that no attempt is repeated. Then
    handle() receives, in order, the payloads that the reference [windowed] selects; any two calls for
    one message are more than the TTL apart; and every record, when it arrives, is handled or follows a
    call for its message that is at most the TTL, and a millisecond of the server's clock, old. The clock
    of the server may differ from that of the consumer. *)
Theorem handled_once_per_ttl self rs n vs skew w :
  let limit := (w_clock w + total rs.*1)%Z in
  let log := windowed (redis_remembers (c_config self) skew) ∅ (w_clock w) rs in
  c_connected self = true → (1 ≤ max_retries (c_config self))%Z →
  Forall keyed rs.*2 → length rs < n → Forall (λ d, 0 ≤ d)%Z rs.*1 →
  w_poll w = (λ r, r.1.1) <$> rs.*2 → w_outcomes w = Ok <$> vs → length rs ≤ length vs →
  Forall storable vs → redis_stream (c_config self) (ids rs.*2) skew limit w →
  ∃ w', run timed_handler (run_consumer self n) (w, rs.*1) = ((w', []), Ok true) ∧
    w_handled w' = w_handled w ++ log.*2 ∧ w_dlq w' = w_dlq w ∧
    w_committed w' = length rs + w_committed w ∧
    (∀ i j t1 t2 mid m1 m2, i < j → log !! i = Some (t1, mid, m1) → log !! j = Some (t2, mid, m2) →
      (t1 + ttl_seconds (c_config self) * 1000000 < t2)%Z) ∧
    (∀ a mid, (a, mid) ∈ arrivals (w_clock w) rs → ∃ t msg, (t, mid, msg) ∈ log ∧
      (t ≤ a < t + ttl_seconds (c_config self) * 1000000 + 1000)%Z).
Proof.
  intros limit log Hconn Hmax Hk Hn Hd Hpoll Ho Hlen Hvs Hst. pose proof (total_nonneg _ Hd).
  assert (Hnn : (0 < ttl_seconds (c_config self))%Z).
  { pose proof (wo_ttl _ _ _ _ _ (rst_window _ _ _ _ _ Hst)) as Ht. unfold px_ok in Ht.
    rewrite andb_true_iff, !Z.ltb_lt in Ht. lia. }
  pose proof (redis_is_window _ _ _ _ _ (rst_window _ _ _ _ _ Hst)) as Hw.
  assert (Hlog : length log ≤ length vs).
  { pose proof (windowed_length (redis_remembers (c_config self) skew) rs ∅ (w_clock w)). subst log. lia. }
  destruct (run_windowed self (ids rs.*2) limit (redis_remembers (c_config self) skew) _
    Hconn Hmax rs n ∅ (take (length log) vs) (Ok <$> drop (length log) vs) w)
    as (w' & E & Hh & _ & Hdl & Hc & _ & _); try done.
  - by rewrite <- fmap_app, take_drop.
  - by rewrite length_take_le.
  - apply Forall_take. eapply Forall_impl; [exact Hvs|]. intros v Hv c mid Hr. split; [|done].
    destruct (rst_window _ _ _ _ _ Hst) as [_ Ha Hb _ _ _]. unfold in_datetime in *.
    rewrite !andb_true_iff, !Z.leb_le in *. lia.
  - apply redis_stream_resting; [done|]. lia.
  - exists w'. unfold run_consumer. rewrite Hconn. split_and!; try done.
    + intros i j t1 t2 mid m1 m2 Hij Hi Hj. eapply redis_forgets.
      eapply windowed_apart; [apply redis_remembers_later|done..].
    + intros a mid Ha.
      destruct (windowed_covers (redis_remembers (c_config self) skew) rs ∅ (w_clock w) a mid)
        as (t & Hle & Hor & [Hb|[msg Hin]]); [done|done|done|done|].
      exists t, msg. split; [done|]. destruct Hor as [->|Hrem]; [lia|].
      apply redis_remembers_until in Hrem. lia.
Qed.

End Stream.

(** ** Evaluated: a payment, a refund, the payment again within a day, and again after it *)

Import Redis RedisTable RedisLaws.

#[local] Existing Instances Memory.memory_store Memory.memory_view Memory.memory_laws.
#[local] Existing Instances json_text text_runtime iso8601.
#[local] Existing Instances RefCjson.ref_cjson RefCjson.ref_cjson_laws Ref.ref_server Ref.ref_laws.

Definition days : list (Z * polled) :=
  zip [0; 1000000; 3600000000; 86400000000]%Z
    (match payment_stream with [p1; p2; _; _] => [p1; p2; p1; p1] | _ => [] end).

Definition refund_payload : payload := PJson (JObj [("refund", JInt 5)])%string.

Definition days_world {T} (s : T) (c : Z) (n : nat) : world T :=
  mkWorld s c (replicate n (Ok (PyJson (JInt 1)))) [] 0 [] ∅ ((λ r, r.1.1) <$> days.*2) true.

Lemma days_keyed : Forall keyed days.*2.
Proof. repeat (apply Forall_cons; split; [by vm_compute|]). apply Forall_nil_2. Qed.

Lemma days_redis : redis_stream default_config (ids days.*2) 123456
  (w_clock (days_world new_redis redis_now 4) + total days.*1) (days_world new_redis redis_now 4).
Proof.
  split; [split; [by repeat constructor|done..]|exact new_redis_inv|done|done| |done].
  intros mid Hin. cbn in Hin. rewrite !elem_of_cons, elem_of_nil in Hin.
  destruct Hin as [->|[->|[->|[->|[]]]]]; by vm_compute.
Qed.

Lemma handled_once_per_ttl_witness :
  ∃ w', run timed_handler (run_consumer payments_consumer 5) (days_world new_redis redis_now 4, days.*1)
      = ((w', []), Ok true) ∧
    w_handled w' = [payment_payload; refund_payload; payment_payload] ∧ w_dlq w' = [] ∧ w_committed w' = 4.
Proof.
  destruct (handled_once_per_ttl payments_consumer days 5 (replicate 4 (PyJson (JInt 1))) 123456
    (days_world new_redis redis_now 4)) as (w' & E & Hh & Hd & Hc & _).
  - done.
  - done.
  - apply days_keyed.
  - cbn. lia.
  - by repeat constructor.
  - done.
  - done.
  - done.
  - apply (Forall_replicate _ 4). exists (JInt 1). by vm_compute.
  - apply days_redis.
  - exists w'. rewrite Hh, Hd, Hc. split_and!; [done|by vm_compute|done..].
Defined.

(** In memory the payment is handled once. *)
Lemma stream_windowed_witness :
  ∃ w', run timed_handler (run_consumer payments_consumer 5) (days_world (Memory.init None) 1000000 2, days.*1)
      = ((w', []), Ok true) ∧
    w_handled w' = [payment_payload; refund_payload] ∧ w_committed w' = 4.
Proof.
  destruct (stream_windowed payments_consumer (ids days.*2) 100000000000 memory_remembers
    (memory_window default_config (ids days.*2) 100000000000)
    (Window0 := memory_is_window default_config (ids days.*2) 100000000000 ltac:(done) ltac:(done))
    ltac:(done) ltac:(done) days 5 ∅ (replicate 2 (PyJson (JInt 1))) []
    (days_world (Memory.init None) 1000000 2)) as (w' & E & Hh & _ & _ & Hc & _).
  - apply days_keyed.
  - done.
  - cbn. lia.
  - by repeat constructor.
  - done.
  - by vm_compute.
  - done.
  - by vm_compute.
  - by repeat constructor.
  - split; [|done|done]. split_and!; [apply Memory.init_inv|done|by vm_compute|by vm_compute|].
    intros mid _. done.
  - exists w'. rewrite Hh, Hc. split_and!; [done|by vm_compute|done].
Defined.
