(* ===== verification/Pipeline.v ===== *)
(** * From the outbox to the handler

    The messages that the relay of Outbox.v sends, delivered by Kafka at least
    once each, to the consumer of Consumer.v, whose attempts may fail; and what
    happens when a payload does not name its id. *)

From S2P Require Import Prelude Prog Utf8 PyJson JsonText Outbox OutboxProps Models Store MemoryStore.
From S2P Require Import StoreEvents Metrics Consumer ConsumerRun ConsumerStore ConsumerStream ConsumerRetry Timed Settling.

(** A message of the relay: topic, value, key. *)
Abbreviation message := (string * string * string)%type.

(** The record of a message sent by [_process_batch], which passes no headers. *)
Definition record_of (m : message) (partition offset : Z) : consumer_record :=
  mkRecord m.1.1 partition offset [] (Some m.1.2) (Some m.2).

Section Pipeline.
Context `{!PyRuntime} `{!JsonCodec}.

(** What handle() receives for a message. *)
Definition message_payload (m : message) : payload :=
  match json_loads_bytes m.1.2 with Ok j => PJson j | Err _ => PRaw m.1.2 end.

(** The payload of the row names the row's message id, as the consumer looks for it. *)
Definition identifies (r : row) : Prop :=
  row_message_id r ≠ ""%string ∧ row_payload r ≠ ""%string ∧
  ∃ kvs, json_loads_bytes (row_payload r) = Ok (JObj kvs) ∧
    dict_get "message_id" kvs = JStr (row_message_id r).

Definition polled_record (d : message * Z * Z) : consumer_record * string * payload :=
  (record_of d.1.1 d.1.2 d.2, d.1.1.2, message_payload d.1.1).

Lemma identifies_keyed r partition offset :
  identifies r → keyed (polled_record (message_of r, partition, offset)).
Proof.
  intros (Hm & Hp & kvs & Hl & Hd). unfold keyed, polled_record, extract_message_id, parse_payload.
  cbn. rewrite decide_False, Hl, Hd by done. unfold message_payload, py_or. cbn. rewrite Hl.
  destruct (row_message_id r) as [|a s]; [done|]. by cbn.
Qed.

(** The first message of each key, but for the keys in [seen]. *)
Fixpoint first_messages (seen : gset string) (ms : list message) : list message :=
  match ms with
  | [] => []
  | m :: ms' =>
      if decide (m.2 ∈ seen) then first_messages seen ms'
      else m :: first_messages ({[m.2]} ∪ seen) ms'
  end.

(** The first delivery of each message, but for the keys in [seen]. *)
Fixpoint first_deliveries (seen : gset string) (ds : list (message * Z * Z)) : list (message * Z * Z) :=
  match ds with
  | [] => []
  | d :: ds' =>
      if decide (d.1.1.2 ∈ seen) then first_deliveries seen ds'
      else d :: first_deliveries ({[d.1.1.2]} ∪ seen) ds'
  end.

Lemma firsts_first ds : ∀ seen,
  firsts seen (polled_record <$> ds) = polled_record <$> first_deliveries seen ds ∧
  (first_deliveries seen ds).*1.*1 = first_messages seen ds.*1.*1 ∧ first_deliveries seen ds ⊆ ds.
Proof.
  induction ds as [|d ds IH]; intros seen; [done|]. cbn. case_decide.
  - destruct (IH seen) as (? & ? & ?). split_and!; [done..|set_solver].
  - destruct (IH ({[d.1.1.2]} ∪ seen)) as (E1 & E2 & ?). cbn. rewrite E1, E2. split_and!; [done..|set_solver].
Qed.

Lemma first_messages_spec ms : ∀ seen,
  first_messages seen ms ⊆ ms ∧ NoDup (first_messages seen ms).*2 ∧
  (∀ m, m ∈ first_messages seen ms → m.2 ∉ seen) ∧
  (∀ m, m ∈ ms → m.2 ∉ seen → ∃ q, q ∈ first_messages seen ms ∧ q.2 = m.2).
Proof.
  induction ms as [|m ms IH]; intros seen; cbn.
  { split_and!; [done|constructor|by intros ? ?%not_elem_of_nil..]. }
  case_decide as Hm.
  - destruct (IH seen) as (H1 & H2 & H3 & H4). split_and!; [set_solver|done|done|].
    intros q [->|Hq]%elem_of_cons Hn; [done|by apply H4].
  - destruct (IH ({[m.2]} ∪ seen)) as (H1 & H2 & H3 & H4). split_and!.
    + set_solver.
    + cbn. apply NoDup_cons. split; [|done].
      intros (q & Hq & Hin)%list_elem_of_fmap. specialize (H3 q Hin). set_solver.
    + intros q [->|Hq]%elem_of_cons; [done|]. specialize (H3 q Hq). set_solver.
    + intros q [->|Hq]%elem_of_cons Hn; [exists m; split; [by left|done]|].
      destruct (decide (q.2 = m.2)) as [E|E]; [exists m; split; [by left|done]|].
      destruct (H4 q Hq) as (q' & ? & ?); [set_solver|]. exists q'. split; [by right|done].
Qed.

(** Messages of one table with the same key are the same message. *)
Lemma from_pending_key t m q :
  table_wf t → from_pending t m → from_pending t q → m.2 = q.2 → m = q.
Proof.
  intros (_ & Hnd & _) (r & [i Hi]%list_elem_of_lookup & _ & ->) (r' & [j Hj]%list_elem_of_lookup & _ & ->) E.
  assert (i = j) as ->; [|congruence].
  eapply (NoDup_lookup _ _ _ (row_message_id r)); [exact Hnd|..]; rewrite list_lookup_fmap.
  - by rewrite Hi.
  - rewrite Hj. cbn in *. by rewrite E.
Qed.

Lemma first_messages_exact t sent polled :
  table_wf t → Forall (from_pending t) sent → (∀ m, m ∈ polled ↔ m ∈ sent) →
  let ms := first_messages ∅ polled in
  NoDup ms ∧ (∀ m, m ∈ ms ↔ m ∈ sent) ∧ length ms ≤ length (tb_rows t).
Proof.
  intros Hwf Hs Hp ms. destruct (first_messages_spec polled ∅) as (H1 & H2 & _ & H4).
  rewrite Forall_forall in Hs. split_and!; [by eapply NoDup_fmap_1| |].
  - intros m. split; [intros Hm; by apply Hp, H1|]. intros Hm.
    destruct (H4 m) as (q & Hq & E); [by apply Hp|set_solver|].
    by rewrite <- (from_pending_key t q m Hwf (Hs _ (proj1 (Hp _) (H1 _ Hq))) (Hs _ Hm) E).
  - fold ms in H1, H2. rewrite <- (length_fmap snd ms), <- (length_fmap row_message_id (tb_rows t)).
    apply submseteq_length, NoDup_submseteq; [done|].
    intros k (m & -> & Hm)%list_elem_of_fmap. destruct (Hs m) as (r & Hr & _ & ->); [by apply Hp, H1|].
    apply list_elem_of_fmap. by exists r.
Qed.

(** ** End to end *)

Context {T : Type} `{DedupStoreLaws T}.
Context (jsonb : string → string) (locked : Z → bool).
Context (db_fault : nat → option exn) (kafka : nat → string → delivery) (stopped : nat → bool).

Abbreviation orun p w := (run (o_handler jsonb locked db_fault kafka stopped) p w).
Abbreviation crun p w := (run (ev_handler st_elapse) p w).

(** C5: from the table to the handler, when payloads name their message ids.  The relay runs for any
    number of rounds, whatever statement, commit or send fails, so that messages may be sent again
    after a rollback; Kafka delivers each message that was sent, in any order and any number of times;
    and a consumer whose store serves these messages and knows none of them polls these records, while
    time passes between them and its attempts may fail.  Then, for the first deliveries [fs] of the
    messages: these are the messages sent, each once; the handler has been called with the payload of
    each, once for each attempt until one returned or all allowed had raised, and with nothing else;
    exactly those that never succeeded are dead-lettered, once; every offset is committed; each message
    ends COMPLETED or FAILED; and each row that is PUBLISHED is among them. *)
Theorem outbox_settles n bs (wo : Outbox.world) self limit (P : Z → T → Prop) k gaps ds vds rest
    (wc : ConsumerRun.world T) :
  quiescent wo → w_sent wo = [] → Forall identifies (tb_rows (w_table wo)) →
  let '(wo', _) := orun (Outbox.start n bs) wo in
  (∀ m, m ∈ ds.*1.*1 ↔ m ∈ w_sent wo') →
  stream_starts self limit P (polled_record <$> ds) k gaps vds rest wc →
  ∃ wc' fs, run timed_handler (run_consumer self k) (wc, gaps) = ((wc', []), Ok true) ∧
    fs ⊆ ds ∧ NoDup fs.*1.*1 ∧ (∀ m, m ∈ fs.*1.*1 ↔ m ∈ w_sent wo') ∧
    w_handled wc' = w_handled wc ++ concat (zip_with attempts_of (polled_record <$> fs) vds) ∧
    w_dlq wc' = w_dlq wc ++ concat (zip_with (letters_of self) (polled_record <$> fs) vds) ∧
    w_committed wc' = length ds + w_committed wc ∧
    Forall2 (settled_as self wc') (polled_record <$> fs) vds ∧
    ∀ r, r ∈ tb_rows (w_table wo') → row_status_ r = PUBLISHED → message_of r ∈ fs.*1.*1.
Proof.
  intros Hq Hnil Hid.
  pose proof (relay_loop_safe jsonb locked db_fault kafka stopped n bs) as Hrelay.
  unfold Outbox.start, mbind, prog_mbind. rewrite run_bind, run_trigger. cbn [o_handler].
  match goal with |- context [run _ (relay_loop n bs) ?v] => specialize (Hrelay v Hq) end.
  destruct (orun (relay_loop n bs) _) as [wo' ro]. destruct Hrelay as ((_ & _ & Hall) & Hprog & _).
  destruct Hprog as [_ _ _ (new & Hs & Hnew)]. cbn in Hs, Hnew. rewrite Hnil in Hs. cbn in Hs.
  intros Hkafka Hstart. destruct Hq as (_ & Hwf & _).
  destruct (first_messages_exact (w_table wo) new (ds.*1.*1) Hwf Hnew) as (Hnd & Hin & _); [by rewrite <- Hs|].
  destruct (firsts_first ds ∅) as (Ef & Em & Hsub). rewrite <- Em in Hnd, Hin.
  assert (Hk : Forall keyed (polled_record <$> ds)).
  { apply Forall_fmap, Forall_forall. intros [[m p] o] Hm. assert (m ∈ new) as Hm'.
    { rewrite <- Hs. apply Hkafka. apply list_elem_of_fmap. exists (m, p). split; [done|].
      apply list_elem_of_fmap. by exists (m, p, o). }
    rewrite Forall_forall in Hnew. destruct (Hnew m Hm') as (r & Hr & _ & ->).
    rewrite Forall_forall in Hid. by apply identifies_keyed, Hid. }
  destruct (settle_run self limit P (polled_record <$> ds) k gaps vds rest wc) as (wc' & E & Hset); [by split|].
  destruct Hset as (Hh & Hd & _ & Hc & _ & Hr). rewrite Ef in *. rewrite length_fmap in Hc.
  exists wc', (first_deliveries ∅ ds). split_and!; try done; [by rewrite Hs|].
  intros r Hrow Hpub. apply Hin. rewrite <- Hs. unfold all_sent in Hall. rewrite Forall_forall in Hall. by apply Hall.
Qed.

(** ** Payloads that do not name their message id *)

(** A message whose id the consumer does not find is not deduplicated: each delivery of it
    hands its payload to handle() again, and the store is neither asked nor told.  For a message of
    the outbox that is so whenever the payload names no id, since neither the column message_id nor
    the key of the Kafka message that carries it is looked at. *)
Theorem unidentified_handled_again self record msg v rest (w : ConsumerRun.world T) :
  c_connected self = true → (1 ≤ max_retries (c_config self))%Z →
  extract_message_id record = Ok None → parse_payload record = Ok msg →
  w_outcomes w = Ok v :: rest →
  ∃ w', crun (process_record self record) w = (w', Ok tt) ∧
    w_handled w' = w_handled w ++ [msg] ∧ w_outcomes w' = rest ∧ w_store w' = w_store w ∧
    w_dlq w' = w_dlq w ∧ w_committed w' = Datatypes.S (w_committed w).
Proof.
  intros Hconn Hmax He Hp Ho.
  unfold process_record, execute_and_commit, loop_fuel, mbind, prog_mbind.
  rewrite run_bind, run_of_res, He, run_bind, run_emit, run_bind, run_of_res, Hp, run_bind.
  destruct (Z.to_nat (max_retries (c_config self))) as [|n] eqn:En; [lia|].
  cbn [retry_loop]. unfold mbind, prog_mbind. rewrite run_bind, run_attempt, run_trigger.
  cbn [ev_handler]. unfold handle_call. cbn [with_registry w_outcomes]. rewrite Ho, run_bind.
  unfold complete, commit, mbind, prog_mbind. rewrite Hconn. cbn [truthy_str].
  rewrite run_bind. cbn [run]. rewrite run_bind, run_trigger. cbn [ev_handler].
  rewrite run_emit. cbn [run]. eexists. split; [reflexivity|]. by split_and!.
Qed.

End Pipeline.

(** ** Evaluated *)

#[local] Existing Instances Memory.memory_store Memory.memory_view Memory.memory_laws.
#[local] Existing Instances json_text text_runtime.

(** A table of two orders whose payloads name their ids, and a relay whose first batch is lost to
    the database after a send. *)
Definition order_row (id : Z) (mid : string) : row :=
  mkRow id "orders" mid (json_dumps (JObj [("message_id", JStr mid); ("order", JInt id)])%string)
    PENDING 10 None.

Definition orders_world : Outbox.world :=
  Outbox.mkWorld (mkTable [order_row 1 "o1"; order_row 2 "o2"] 3) None [] 20 0 false.

Abbreviation relay_run :=
  (run (o_handler id (λ _, false) (db_fault_at 7) (λ _ _, Acknowledged) (λ n, 40 <? n)) (Outbox.start 9 1)).

Lemma orders_quiescent : quiescent orders_world.
Proof.
  split_and!; [done| |by repeat (apply Forall_cons; split; [done|])].
  split_and!; [by apply (bool_decide_unpack _); vm_compute..|].
  repeat (apply Forall_cons; split; [cbn; lia|]). apply Forall_nil_2.
Qed.

Lemma order_identifies id mid :
  mid ≠ ""%string → json_wf (JObj [("message_id", JStr mid); ("order", JInt id)])%string = true →
  json_loads_bytes (row_payload (order_row id mid)) =
    Ok (JObj [("message_id", JStr mid); ("order", JInt id)])%string →
  identifies (order_row id mid).
Proof.
  intros Hm _ Hl. split_and!; [done|apply json_dumps_nonempty|].
  eexists. split; [exact Hl|]. done.
Qed.

(** The three messages sent, the first twice, delivered out of order and once more. *)
Definition order_deliveries : list (message * Z * Z) :=
  let o1 := message_of (order_row 1 "o1") in
  let o2 := message_of (order_row 2 "o2") in
  [(o1, 0, 0); (o2, 0, 2); (o1, 0, 1); (o2, 0, 2)]%Z.

(** The first order succeeds at its second attempt, the other never does. *)
Definition order_fates : list verdict :=
  [Recovers [declined] (PyJson (JInt 1)); Exhausts [declined; declined] declined].

Definition orders_consumer : ConsumerRun.world Memory.state :=
  ConsumerRun.mkWorld (Memory.init None) 1000000 (order_fates ≫= outcomes_of) [] 0 [] ∅
    ((λ d, (polled_record d).1.1) <$> order_deliveries) true.

Abbreviation orders_limit := 10000000%Z.

Lemma orders_start :
  stream_starts payments_consumer orders_limit (memory_period default_config orders_limit)
    (polled_record <$> order_deliveries) 5 [1000000; 2000000]%Z order_fates [] orders_consumer.
Proof.
  split; [split; [by repeat constructor|cbn; lia]| |cbn; lia|done|done|done| | |done|done].
  - split; [done..|]. intros mid _. by apply memory_steady.
  - by rewrite <- list_fmap_compose.
  - repeat (apply Forall2_cons; split; [by repeat constructor|]). apply Forall2_nil_2.
Qed.

Lemma outbox_settles_witness :
  let '(wo', _) := relay_run orders_world in
  length (w_sent wo') = 3 ∧
  ∃ wc' fs, run timed_handler (run_consumer payments_consumer 5) (orders_consumer, [1000000; 2000000]%Z) =
      ((wc', []), Ok true) ∧
    (∀ m, m ∈ fs.*1.*1 ↔ m ∈ w_sent wo') ∧
    w_handled wc' = concat (zip_with attempts_of (polled_record <$> fs) order_fates) ∧
    w_committed wc' = 4 ∧
    Forall2 (settled_as payments_consumer wc') (polled_record <$> fs) order_fates ∧
    (∀ r, r ∈ tb_rows (w_table wo') → row_status_ r = PUBLISHED → message_of r ∈ fs.*1.*1).
Proof.
  pose proof (outbox_settles id (λ _, false) (db_fault_at 7) (λ _ _, Acknowledged) (λ n, 40 <? n) 9 1
    orders_world payments_consumer orders_limit (memory_period default_config orders_limit) 5
    [1000000; 2000000]%Z order_deliveries order_fates [] orders_consumer orders_quiescent eq_refl) as H.
  assert (Hs : w_sent (relay_run orders_world).1 = [message_of (order_row 1 "o1");
    message_of (order_row 1 "o1"); message_of (order_row 2 "o2")]) by (vm_compute; reflexivity).
  destruct (run _ _ orders_world) as [wo' ro]. cbn [fst] in Hs.
  split; [by rewrite Hs|]. destruct H as (wc' & fs & E & _ & _ & Hm & Hh & _ & Hc & Hset & Hp).
  - repeat (apply Forall_cons; split; [apply order_identifies; [done|vm_compute; reflexivity..]|]). apply Forall_nil_2.
  - intros m. rewrite Hs. unfold order_deliveries. cbn [fmap list_fmap fst].
    generalize (message_of (order_row 1 "o1")), (message_of (order_row 2 "o2")). clear. set_solver.
  - exact orders_start.
  - exists wc', fs. by split_and!.
Defined.

(** *** The entry of OutboxWriter's documentation, whose payload has only an order_id *)

Definition documented_entry : entry :=
  new_entry 15 "orders" "order-7" (JObj [("order_id", JInt 7)])%string None.

(** Written in a transaction to an empty table, then relayed; the first commit of the relay fails. *)
Definition relayed_documented : list message :=
  let w0 := Outbox.mkWorld (mkTable [] 1) None [] 20 0 false in
  let '(w1, _) := run (o_handler id (λ _, false) (λ _, None) (λ _ _, Acknowledged) (λ _, false))
    (transaction (write documented_entry)) w0 in
  w_sent (run (o_handler id (λ _, false) (db_fault_at 10) (λ _ _, Acknowledged) (λ n, 40 <? n)) (Outbox.start 9 1)
    w1).1.

Definition documented_record (offset : Z) : consumer_record :=
  record_of ("orders", json_dumps (JObj [("order_id", JInt 7)]), "order-7")%string 0 offset.

(** [n] deliveries of it, to a handler that returns. *)
Definition documented_world (n : nat) : ConsumerRun.world Memory.state :=
  ConsumerRun.mkWorld (Memory.init None) 1000000 (replicate n (Ok PyNone)) [] 0 [] ∅
    ((λ k, documented_record (Z.of_nat k)) <$> seq 0 n) true.

Lemma unidentified_handled_again_witness :
  ∃ w', run (ev_handler st_elapse) (process_record payments_consumer (documented_record 0)) (documented_world 2)
      = (w', Ok tt) ∧
    w_handled w' = [PJson (JObj [("order_id", JInt 7)])%string] ∧ w_outcomes w' = [Ok PyNone] ∧
    w_store w' = Memory.init None ∧ w_dlq w' = [] ∧ w_committed w' = 1.
Proof.
  apply (unidentified_handled_again payments_consumer (documented_record 0) _ PyNone [Ok PyNone]
    (documented_world 2)); [done|done|by vm_compute|by vm_compute|done].
Defined.

(** The outbox does not make publishing exactly once by itself.  The entry of OutboxWriter's own
    documentation, whose payload does not contain its message id, is written and relayed; the first
    batch is rolled back after its send, so the relay sends it twice (the module documentation:
    "Kafka dedup handles duplicate publishes"); the consumer polls both and handles both. *)
Theorem documented_entry_handled_twice :
  relayed_documented = replicate 2 ("orders", json_dumps (JObj [("order_id", JInt 7)]), "order-7")%string ∧
  let '(w', r) := run (ev_handler st_elapse) (run_consumer payments_consumer 3) (documented_world 2) in
  r = Ok true ∧ w_handled w' = replicate 2 (PJson (JObj [("order_id", JInt 7)])%string) ∧
  w_store w' = Memory.init None.
Proof. split; vm_compute; done. Qed.
