(* ===== verification/LoopProps.v ===== *)
(** * The loops of the program

    The retry loops of the consumer and of the decorator, and the loop of the
    relay, are the while loops of the source; and deliveries and decorated calls
    end after a bounded number of calls, whatever these answer.  So the fuel of the
    model takes nothing away. *)

From S2P Require Import Prelude Prog Loops Utf8 PyJson JsonText Models Store StoreEvents Metrics.
From S2P Require Guard Outbox.
From S2P Require Import Consumer.

(** ** DedupConsumer._execute_and_commit *)
Section Consumer.
Context `{!PyRuntime} `{!JsonCodec} (self : consumer).
Context (record : consumer_record) (message_id : option string) (message : payload).
Context (allowed : ∀ X, ev X → res X → Prop).

#[local] Instance ev_equiv {A} : Equiv (prog ev A) := prog_equiv allowed.

(** [while attempts <= max_retries], with the variables attempts and last_exc. *)
Definition retry_cond (s : Z * option exn) : bool := (s.1 <=? max_retries (c_config self))%Z.

Definition retry_body (s : Z * option exn) : prog ev ((Z * option exn) + loop_end) :=
  let '(attempts, last_exc) := s in
  r ← attempt (trigger (EHandle message));
  match r with
  | Ok result => _ ← complete self record message_id result; Ret (inr LoopReturned)
  | Err exc =>
      if exn_is_exception exc then
        go_on ← on_failure self record message_id attempts exc;
        Ret (if go_on : bool then inl (attempts + 1, Some exc)%Z else inr (LoopLeft (Some exc)))
      else Raise exc
  end.

(** What the code after the loop sees. *)
Definition after_retry (x : (Z * option exn) + loop_end) : loop_end :=
  match x with inl (_, last_exc) => LoopLeft last_exc | inr e => e end.

Lemma retry_body_next s tr s' :
  path allowed (retry_body s) tr (Ok (inl s')) → s'.1 = (s.1 + 1)%Z.
Proof.
  destruct s as [a last]. unfold retry_body, mbind, prog_mbind. rewrite path_bind.
  intros (tr1 & tr2 & [[v|exc]|x] & -> & _ & Hb); [| |by destruct Hb].
  - apply path_bind in Hb as (? & tr3 & [[]|x] & -> & _ & Hb); [|by destruct Hb].
    by destruct tr3.
  - destruct (exn_is_exception exc); [|by destruct tr2].
    apply path_bind in Hb as (? & tr3 & [[]|x] & -> & _ & Hb); [| |by destruct Hb];
      destruct tr3; try done; cbn in Hb; by simplify_eq.
Qed.

Definition rounds_left (s : Z * option exn) : nat :=
  Z.to_nat (max_retries (c_config self) + 1 - s.1).

Lemma retry_loop_rounds n : ∀ a last,
  n = rounds_left (a, last) →
  retry_loop self n record message_id message a last ≡
  prog_bind (loop retry_cond retry_body n (a, last))
    (λ x, Ret (match x with Some x => after_retry x | None => LoopLeft None end)).
Proof.
  induction n as [|n IH]; intros a last Hn.
  { assert (Hc : retry_cond (a, last) = false) by
      (unfold retry_cond, rounds_left in *; cbn in *; apply Z.leb_gt; lia).
    cbn [loop]. by rewrite Hc. }
  assert (Hc : retry_cond (a, last) = true) by
    (unfold retry_cond, rounds_left in *; cbn in *; apply Z.leb_le; lia).
  assert (Hn' : n = rounds_left (a + 1, last)%Z) by (unfold rounds_left in *; cbn in *; lia).
  assert (Hl : loop retry_cond retry_body (S n) (a, last) =
    prog_bind (retry_body (a, last))
      (λ x, match x with
            | inl s' => loop retry_cond retry_body n s'
            | inr r => Ret (Some (inr r)) end)) by (cbn [loop]; by rewrite Hc).
  rewrite Hl. clear Hl Hc. generalize (loop retry_cond retry_body n) IH. clear IH. intros rest IH.
  assert (Hb : retry_body (a, last) = prog_bind (attempt (trigger (EHandle message)))
    (λ r, match r with
      | Ok result => prog_bind (complete self record message_id result) (λ _, Ret (inr LoopReturned))
      | Err exc =>
          if exn_is_exception exc then
            prog_bind (on_failure self record message_id a exc) (λ go_on,
              Ret (if go_on : bool then inl (a + 1, Some exc)%Z else inr (LoopLeft (Some exc))))
          else Raise exc
      end)) by done.
  rewrite Hb, !(prog_bind_assoc allowed). apply (prog_bind_proper allowed); [done|]. intros [v|exc].
  - rewrite !(prog_bind_assoc allowed). by apply (prog_bind_proper allowed).
  - destruct (exn_is_exception exc); [|done]. rewrite !(prog_bind_assoc allowed).
    apply (prog_bind_proper allowed); [done|]. intros [|]; cbn; [|done]. by apply IH.
Qed.

(** The retry loop of the model is the while loop of the source. [retry_loop] with the fuel it is called
    with has the executions of [while attempts <= max_retries] by the rules of the language, where
    nothing bounds the rounds, with the same calls, answers and outcomes: the fuel takes nothing away. *)
Theorem retry_loop_is_while tr o :
  path allowed (retry_loop self (loop_fuel self) record message_id message 1 None) tr o ↔
  ∃ o', while_path allowed retry_cond retry_body (1%Z, None) tr o' ∧ o = after_retry <$> o'.
Proof.
  assert (Hpos : ∀ s, retry_cond s = true → 0 < rounds_left s).
  { intros [a l]. unfold retry_cond, rounds_left. cbn. rewrite Z.leb_le. lia. }
  assert (Hdec : ∀ s tr s', retry_cond s = true → path allowed (retry_body s) tr (Ok (inl s')) →
    rounds_left s' < rounds_left s).
  { intros [a l] tr' [a' l'] Hc Hb. apply retry_body_next in Hb. unfold retry_cond, rounds_left in *.
    cbn in *. rewrite Z.leb_le in Hc. lia. }
  assert (Heq : loop_fuel self = rounds_left (1%Z, None)) by (unfold loop_fuel, rounds_left; f_equal; cbn; lia).
  rewrite (retry_loop_rounds _ 1 None Heq tr o), path_bind.
  assert (Hm : rounds_left (1%Z, None) ≤ loop_fuel self) by lia.
  split.
  - intros (tr1 & tr2 & [[x|]|y] & -> & H1 & H2).
    + destruct tr2; [|done]. rewrite app_nil_r. exists (Ok x). split; [|by rewrite H2].
      by apply (loop_is_while _ _ _ _ Hpos Hdec _ _ _ _ Hm).
    + by apply (loop_finishes _ _ _ _ Hpos Hdec) in H1.
    + destruct H2 as [-> ->]. rewrite app_nil_r. exists (Err y). split; [|done].
      by apply (loop_is_while _ _ _ _ Hpos Hdec _ _ _ _ Hm).
  - intros (o' & Hw & ->). apply (loop_is_while _ _ _ _ Hpos Hdec _ _ _ _ Hm) in Hw.
    exists tr, [], (finished o'). rewrite app_nil_r. split_and!; [done..|]. by destruct o'.
Qed.

End Consumer.

(** ** A delivery ends *)
Section Delivery.
Context `{!PyRuntime} `{!JsonCodec} (self : consumer).

Lemma within_emit cs n : length cs ≤ n → within n (emit cs).
Proof.
  intros Hn. eapply within_mono; [clear Hn|exact Hn]. induction cs as [|c cs IH]; [done|].
  exact (within_bind _ _ 1 _ (within_trigger _) (λ _, IH)).
Qed.

Lemma within_measure_store_op {A} op (p : prog ev A) n :
  within n p → within (n + 3) (measure_store_op op p).
Proof.
  intros Hp. replace (n + 3) with (1 + (n + (1 + 1))) by lia.
  apply within_bind; [apply within_trigger|]. intros start. apply within_finally; [done|].
  apply within_bind; [apply within_trigger|]. intros stop. by apply within_emit; cbn; lia.
Qed.

Lemma within_store_call {X} op (e : store_ev X) :
  within 4 (measure_store_op op (trigger (EStore e))).
Proof. exact (within_measure_store_op _ _ 1 (within_trigger _)). Qed.

Lemma within_measure_processing {A} topic (p : prog ev A) n :
  within n p → within (n + 5) (measure_processing topic p).
Proof.
  intros Hp. replace (n + 5) with (1 + (1 + (n + (1 + (1 + 1))))) by lia.
  apply within_bind; [by apply within_emit; cbn; lia|]. intros _.
  apply within_bind; [apply within_trigger|]. intros start. apply within_finally; [done|].
  apply within_bind; [by apply within_emit; cbn; lia|]. intros _.
  apply within_bind; [apply within_trigger|]. intros stop. by apply within_emit; cbn; lia.
Qed.

Lemma within_commit record : within 1 (commit self record).
Proof. unfold commit. destruct (c_connected self); [apply within_trigger|done]. Qed.

Lemma within_complete record mid v : within 7 (complete self record mid v).
Proof.
  unfold complete. apply (within_bind _ _ 5 2).
  - destruct (truthy_str mid); [|done].
    apply (within_try_except _ _ 4 1); [apply within_store_call|]. intros x. by apply within_emit; cbn; lia.
  - intros _. apply (within_bind _ _ 1 1); [apply within_commit|]. intros _. by apply within_emit; cbn; lia.
Qed.

Lemma within_on_failure record mid a x : within 11 (on_failure self record mid a x).
Proof.
  unfold on_failure. apply (within_bind _ _ 1 10); [by apply within_emit; cbn; lia|]. intros _.
  apply (within_bind _ _ 4 6); [destruct (truthy_str mid); [apply within_store_call|done]|]. intros _.
  destruct (_ <? _)%Z; [|done].
  apply (within_bind _ _ 1 5); [apply within_trigger|]. intros _.
  apply (within_bind _ _ 1 4); [by apply within_emit; cbn; lia|]. intros _.
  destruct (truthy_str mid); [apply within_store_call|done].
Qed.

Lemma within_retry_loop record mid msg n : ∀ a last,
  within (12 * n) (retry_loop self n record mid msg a last).
Proof.
  induction n as [|n IH]; intros a last; [done|].
  replace (12 * S n) with (1 + (11 + 12 * n)) by lia. cbn [retry_loop].
  apply within_bind; [apply within_attempt, within_trigger|]. intros [v|x].
  - eapply within_mono; [apply (within_bind _ _ 7 0); [apply within_complete|done]|lia].
  - destruct (exn_is_exception x); [|done].
    apply within_bind; [apply within_on_failure|]. intros [|]; [apply IH|done].
Qed.

Lemma within_execute record mid : within (12 * loop_fuel self + 4) (execute_and_commit self record mid).
Proof.
  unfold execute_and_commit. apply (within_bind _ _ 0 (12 * loop_fuel self + 4)); [apply within_of_res|]. intros msg.
  apply within_bind; [apply within_retry_loop|]. intros [|last]; [done|].
  apply (within_bind _ _ 2 2); [by apply within_emit; cbn; lia|]. intros _.
  apply (within_bind _ _ 1 1); [|intros; apply within_commit].
  unfold send_to_dlq. destruct (c_dlq_producer self), (truthy_str (c_dlq_topic self));
    first [apply within_trigger|done].
Qed.

Lemma within_process_record record : within (12 * loop_fuel self + 13) (process_record self record).
Proof.
  unfold process_record. apply (within_bind _ _ 0 (12 * loop_fuel self + 13)); [apply within_of_res|]. intros [mid|].
  - replace (12 * loop_fuel self + 13) with (4 + (12 * loop_fuel self + 4 + 5)) by lia.
    apply (within_bind _ _ 4 (12 * loop_fuel self + 4 + 5)); [apply within_store_call|]. intros [|].
    + by apply within_measure_processing, within_execute.
    + apply (within_mono _ 6); [|lia].
      apply (within_bind _ _ 4 2); [apply within_store_call|]. intros existing.
      apply (within_bind _ _ 1 1); [|intros; apply within_commit].
      destruct existing; [case_decide|]; by apply within_emit; cbn; lia.
  - apply (within_mono _ (1 + (12 * loop_fuel self + 4))); [|lia].
    apply (within_bind _ _ 1 (12 * loop_fuel self + 4)); [by apply within_emit; cbn; lia|]. intros _. apply within_execute.
Qed.

(** C14: a delivery ends.  Whatever store, Kafka and handler answer, exceptions of any kind included,
    no execution of [_process_record], finished or not, makes more than 12 max_retries + 13 calls;
    and where every call has an answer, every execution can be carried to its end. *)
Theorem delivery_terminates (allowed : ∀ X, ev X → res X → Prop) record tr q :
  (∀ X (e : ev X), ∃ r, allowed X e r) →
  partial allowed (process_record self record) tr q →
  length tr ≤ 12 * Z.to_nat (max_retries (c_config self)) + 13 ∧
  ∃ tr' o, path allowed (process_record self record) (tr ++ tr') o ∧
    length (tr ++ tr') ≤ 12 * Z.to_nat (max_retries (c_config self)) + 13.
Proof.
  intros Hall Hp. pose proof (within_process_record record) as Hw. unfold loop_fuel in Hw.
  split; [by eapply within_partial|].
  destruct (partial_extend allowed _ _ _ Hall Hp) as (tr' & o & Hpath). exists tr', o.
  split; [done|]. eapply within_partial; [done|]. by apply path_partial.
Qed.

End Delivery.

#[local] Existing Instances json_text text_runtime.

(** Every call raises; the empty execution is carried to an end. *)
Definition all_fail (X : Type) (_ : ev X) (r : res X) : Prop := ∃ x, r = Err x.

Lemma delivery_terminates_witness :
  ∃ tr' o, path all_fail (process_record (new_consumer None None)
      (mkRecord "t" 0 0 [("X-Message-Id", Some "m")%string] None None)) ([] ++ tr') o ∧
    length ([] ++ tr') ≤ 49.
Proof.
  eapply (delivery_terminates (new_consumer None None) all_fail
    (mkRecord "t" 0 0 [("X-Message-Id", Some "m")%string] None None) []); [|reflexivity].
  intros X e. by exists (Err (RuntimeError "down")), (RuntimeError "down").
Defined.

(** ** The decorator *)
Section Decorator.
Import Guard.
Context `{!PyRuntime} (key_fn : option (call_args → res string)) (config : DeduplicationConfig).

Lemma within_raise_last last n : within n (raise_last last).
Proof. by destruct last. Qed.

Lemma within_attempts_loop key args n : ∀ a last,
  within (4 * n) (attempts_loop config n key args a last).
Proof.
  induction n as [|n IH]; intros a last; [apply within_raise_last|].
  replace (4 * S n) with (1 + (3 + 4 * n)) by lia. cbn [attempts_loop].
  apply (within_bind _ _ 1 (3 + 4 * n)); [apply within_attempt, within_trigger|]. intros [v|x].
  - apply (within_mono _ (1 + 0)); [|lia].
    apply (within_bind _ _ 1 0); [|done]. apply (within_try_except _ _ 1 0); [apply within_trigger|done].
  - destruct (exn_is_exception x); [|done].
    apply (within_bind _ _ 1 (2 + 4 * n)); [apply within_trigger|]. intros _.
    destruct (_ <? _)%Z; [|eapply within_mono; [apply IH|lia]].
    apply (within_bind _ _ 1 (1 + 4 * n)); [apply within_trigger|]. intros _.
    apply (within_bind _ _ 1 (4 * n)); [apply within_trigger|]. intros [|]; [apply IH|apply within_raise_last].
Qed.

(** A decorated call ends: after 4 max_retries + 2 calls at most. *)
Theorem idempotent_terminates args :
  within (4 * Z.to_nat (max_retries config) + 2) (idempotent key_fn config args).
Proof.
  set (n := Z.to_nat (max_retries config)).
  unfold idempotent. apply (within_bind _ _ 0 (4 * n + 2)); [apply within_of_res|]. intros key.
  apply (within_mono _ (1 + (1 + 4 * n))); [|lia].
  apply (within_bind _ _ 1 (1 + 4 * n)); [apply within_trigger|]. intros existing.
  assert (Hp : within (1 + 4 * n) (claimed ← trigger (GStore (EClaim key));
    if claimed : bool then attempts_loop config n key args 1 None else Ret PyNone)).
  { apply (within_bind _ _ 1 (4 * n)); [apply within_trigger|].
    intros [|]; [apply within_attempts_loop|done]. }
  destruct existing as [p|]; [|exact Hp]. by case_decide.
Qed.

End Decorator.

(** ** OutboxRelay._loop *)
Section Relay.
Import Outbox.
Context `{!JsonCodec} (allowed : ∀ X, oev X → res X → Prop) (batch_size : nat).

(** One round: [while self._running], then the body. *)
Definition relay_body (_ : unit) : prog oev (unit + unit) :=
  running ← trigger RIsRunning;
  if running : bool then
    _ ← try_except
      (published ← process_batch batch_size;
       if (published =? 0)%Z then trigger RSleep else Ret tt)
      (λ _, trigger RSleep);
    Ret (inl tt)
  else Ret (inr tt).

Abbreviation relay_while := (while_path allowed (λ _, true) relay_body tt).

#[local] Instance oev_equiv {A} : Equiv (prog oev A) := prog_equiv allowed.

Lemma relay_loop_rounds n :
  relay_loop n batch_size ≡
  prog_bind (loop (λ _, true) relay_body n tt)
    (λ x, Ret (match x with Some _ => true | None => false end)).
Proof.
  induction n as [|n IH]; [done|]. cbn [loop].
  assert (Hb : relay_body tt = prog_bind (trigger RIsRunning) (λ running,
    if running : bool then
      prog_bind (try_except
        (prog_bind (process_batch batch_size) (λ published,
           if (published =? 0)%Z then trigger RSleep else Ret tt))
        (λ _, trigger RSleep)) (λ _, Ret (inl tt))
    else Ret (inr tt))) by done.
  unfold mbind at 1, prog_mbind at 1. rewrite Hb, !(prog_bind_assoc allowed). clear Hb. cbn [relay_loop].
  generalize (loop (λ _ : unit, true) relay_body n) IH. clear IH. intros rest IH.
  apply (prog_bind_proper allowed); [done|]. intros [|]; [|done].
  unfold mbind, prog_mbind. generalize (try_except (prog_bind (process_batch batch_size) (λ published,
    if (published =? 0)%Z then trigger RSleep else Ret tt)) (λ _, trigger RSleep)). intros body.
  rewrite !(prog_bind_assoc allowed). apply (prog_bind_proper allowed); [done|]. by intros [].
Qed.

(** The loop of the relay by the rules of the language: it runs until [stop], or until something
    that is not an [Exception] is raised; and each such execution is one of the model's, for some
    number of rounds. *)
Theorem relay_loop_is_while tr :
  (relay_while tr (Ok (inr tt)) ↔ ∃ n, path allowed (relay_loop n batch_size) tr (Ok true)) ∧
  ∀ x, relay_while tr (Err x) ↔ ∃ n, path allowed (relay_loop n batch_size) tr (Err x).
Proof.
  split; [|intros x]; rewrite while_rounds; (split; intros [n Hp]; exists n).
  - rewrite (relay_loop_rounds n _ _), path_bind. eexists tr, [], _. by rewrite app_nil_r.
  - rewrite (relay_loop_rounds n _ _), path_bind in Hp.
    destruct Hp as (tr1 & tr2 & [[[[]|[]]|]|y] & -> & H1 & H2); try by (destruct tr2).
    + exfalso. apply loop_while with (o := Ok (inl tt)) in H1. by eapply while_true_exit in H1.
    + destruct tr2; [|done]. by rewrite app_nil_r.
    + by destruct H2.
  - rewrite (relay_loop_rounds n _ _), path_bind. eexists tr, [], _. by rewrite app_nil_r.
  - rewrite (relay_loop_rounds n _ _), path_bind in Hp.
    destruct Hp as (tr1 & tr2 & [[a|]|y] & -> & H1 & H2); try by (destruct tr2).
    destruct H2 as [-> [= ->]]. by rewrite app_nil_r.
Qed.

End Relay.
