(* ===== verification/Api.v ===== *)
(** * The HTTP endpoints (api.py)

    /health, /ready and /metrics as effect trees over the Redis client that the
    readiness probe opens.  The text of a metrics page is written by
    prometheus_client, the rendering of a response by FastAPI. *)

From S2P Require Import Prelude Prog PyJson Models Metrics.

(** ** Responses *)
Inductive content :=
| JSON (j : json)                                  (* JSONResponse *)
| Text (text media_type : string).                 (* Response *)

Record response := mkResponse {
  status_code : Z;
  body : content;
}.

Definition JSONResponse (j : json) : response := mkResponse 200 (JSON j).
Definition JSONResponse_status (j : json) (code : Z) : response := mkResponse code (JSON j).

(** ** Events *)
Inductive aev : Type → Type :=
| AFromUrl (url : string) (socket_connect_timeout : Z) : aev unit     (* aioredis.from_url *)
| APing : aev unit                                                    (* client.ping() *)
| AClose : aev unit.                                                  (* client.close() *)

(** GET /health *)
Definition health : prog aev response := Ret (JSONResponse (JObj [("status", JStr "ok")]%string)).

(** GET /ready *)
Definition ready (settings : Settings) : prog aev response :=
  try_except
    (_ ← trigger (AFromUrl (redis_url settings) 2);
     _ ← trigger APing;
     _ ← trigger AClose;
     Ret (JSONResponse (JObj [("status", JStr "ready"); ("redis", JStr "ok")]%string)))
    (λ exc, Ret (JSONResponse_status
       (JObj [("status", JStr "not_ready"); ("redis", JStr (exn_str exc))]%string) 503)).

(** GET /metrics *)
Definition prometheus_metrics (generate_latest : registry → string) (CONTENT_TYPE_LATEST : string)
    (r : registry) : prog aev response :=
  Ret (mkResponse 200 (Text (generate_latest r) CONTENT_TYPE_LATEST)).

(** ** What the readiness probe answers *)

Definition aallowed (X : Type) (_ : aev X) (_ : res X) : Prop := True.

(** The first exception of the calls made. *)
Definition first_error (tr : list (step aev)) : option exn :=
  head (omap (λ st, match step_res st with Ok _ => None | Err x => Some x end) tr).

(** The client is open: it has been created and not closed. *)
Definition client_open (tr : list (step aev)) : bool :=
  foldl (λ b st, match step_ev st, is_ok (step_res st) with
    | AFromUrl _ _, true => true
    | AClose, true => false
    | _, _ => b
    end) false tr.

(** The readiness probe.  Whatever the Redis client does, /ready answers 200 exactly when the
    client was created, answered the ping and was closed; it answers 503 with the text of the
    exception when one of these raised an [Exception]; and nothing else leaves it but an exception
    that is not an [Exception] (a cancellation).  But the client is closed only when the ping
    succeeded: a probe that finds Redis unready leaves its client open. *)
Theorem ready_reports settings tr o :
  path aallowed (ready settings) tr o →
  match first_error tr with
  | None =>
      o = Ok (JSONResponse (JObj [("status", JStr "ready"); ("redis", JStr "ok")]%string)) ∧
      length tr = 3 ∧ client_open tr = false
  | Some x =>
      o = (if exn_is_exception x
           then Ok (mkResponse 503
             (JSON (JObj [("status", JStr "not_ready"); ("redis", JStr (exn_str x))]%string)))
           else Err x) ∧
      client_open tr = bool_decide (2 ≤ length tr)
  end.
Proof.
  unfold ready, try_except. intros (tr1 & tr2 & r & -> & Hp & Ho)%path_bind.
  destruct tr1 as [|st1 tr1]; [done|]. destruct Hp as ([[]|x] & -> & _ & Hp); cbn in Hp.
  - destruct tr1 as [|st2 tr1]; [done|]. destruct Hp as ([[]|x] & -> & _ & Hp); cbn in Hp.
    + destruct tr1 as [|st3 tr1]; [done|]. destruct Hp as ([[]|x] & -> & _ & Hp); cbn in Hp.
      * destruct tr1; [|done]. subst r. destruct tr2; [|done]. by rewrite Ho.
      * destruct tr1; [|done]. subst r. cbn in *. by destruct (exn_is_exception x), tr2.
    + destruct tr1; [|done]. subst r. cbn in *. by destruct (exn_is_exception x), tr2.
  - destruct tr1; [|done]. subst r. cbn in *. by destruct (exn_is_exception x), tr2.
Qed.

(** ** Evaluated: Redis is down *)

Definition ConnectionError (msg : string) : exn := Exn "ConnectionError" msg true.

Definition down_trace : list (step aev) :=
  [Step (AFromUrl "redis://localhost:6379/0" 2) (Ok tt); Step APing (Err (ConnectionError "refused"))].

Lemma ready_reports_witness :
  Ok (mkResponse 503 (JSON (JObj [("status", JStr "not_ready"); ("redis", JStr "refused")]%string))) =
    Ok (mkResponse 503 (JSON (JObj [("status", JStr "not_ready"); ("redis", JStr "refused")]%string))) ∧
  client_open down_trace = true.
Proof.
  apply (ready_reports default_settings down_trace (Ok _)). cbn.
  exists (Ok tt). split_and!; [done..|]. by exists (Err (ConnectionError "refused")).
Defined.
