(* ===== verification/Logging.v ===== *)
(** * The logging configuration (logging_config.py)

    The two processors of the module, and what [setup_logging] leaves in structlog
    and in the standard library's [logging].  The processors of structlog are
    named, not modelled: a pipeline takes their functions as a parameter. *)

From S2P Require Import Prelude PyJson Models.

(** ** Processors *)

(** [event_dict.setdefault(k, v)] *)
Definition dict_setdefault (k : string) (v : json) (kvs : list (string * json)) : list (string * json) :=
  match dict_lookup k kvs with Some _ => kvs | None => dict_set k v kvs end.

Definition _drop_color_message_key (event_dict : list (string * json)) : list (string * json) :=
  dict_pop "color_message" event_dict.

Definition _add_app_context (event_dict : list (string * json)) : list (string * json) :=
  dict_setdefault "app" (JStr "kafkadedup") event_dict.

(** The processors that [setup_logging] puts together; the first two are the module's own. *)
Inductive processor :=
| AddAppContext
| DropColorMessageKey
| MergeContextvars
| AddLoggerName
| AddLogLevel
| TimeStamper (fmt : string) (utc : bool)
| StackInfoRenderer
| WrapForFormatter
| RemoveProcessorsMeta
| JSONRenderer
| ConsoleRenderer.

Definition shared_processors : list processor :=
  [AddAppContext; MergeContextvars; AddLoggerName; AddLogLevel; TimeStamper "iso" true;
   StackInfoRenderer; DropColorMessageKey].

(** ** The standard library's [logging] *)

Definition WARNING : Z := 30.
Definition INFO : Z := 20.

(** An attribute of the module: a level, or something [setLevel] refuses. *)
Inductive attribute := Level (level : Z) | NoLevel (refused : exn).

(** [getattr(logging, name)] for upper-case names. *)
Definition logging_attr (name : string) : option attribute :=
  match list_find (λ e, e.1 = name)
    [("CRITICAL", Level 50); ("FATAL", Level 50); ("ERROR", Level 40); ("WARNING", Level 30);
     ("WARN", Level 30); ("INFO", Level 20); ("DEBUG", Level 10); ("NOTSET", Level 0);
     ("BASIC_FORMAT", NoLevel (ValueError "Unknown level: '%(levelname)s:%(name)s:%(message)s'"));
     ("_STYLES", NoLevel (TypeError "Level not an integer or a valid string"))]%string
  with Some (_, (_, a)) => Some a | None => None end.

(** [str.upper()] on ASCII; other characters stay, and no name of a level has any. *)
Definition ascii_upper (a : ascii) : ascii :=
  let n := N_of_ascii a in
  if ((97 <=? n) && (n <=? 122))%N then ascii_of_N (n - 32) else a.

Fixpoint str_upper (s : string) : string :=
  match s with EmptyString => EmptyString | String a s' => String (ascii_upper a) (str_upper s') end.

Inductive stream := STDOUT | STDERR.

Record handler_config := mkHandlerConfig {
  hc_stream : stream;
  hc_foreign_pre_chain : list processor;
  hc_processors : list processor;
}.

(** What [setup_logging] sets: structlog's configuration, the root logger, the levels of others. *)
Record logging_state := mkLogging {
  lg_structlog : list processor;
  lg_handlers : list handler_config;
  lg_root_level : Z;
  lg_levels : gmap string Z;
}.

(** [logger.setLevel(level)] of the root logger *)
Definition set_root_level (a : attribute) : action logging_state unit := λ st,
  match a with
  | Level l => (mkLogging (lg_structlog st) (lg_handlers st) l (lg_levels st), Ok tt)
  | NoLevel x => (st, Err x)
  end.

Definition set_level (name : string) (l : Z) : action logging_state unit := λ st,
  (mkLogging (lg_structlog st) (lg_handlers st) (lg_root_level st) (<[name := l]> (lg_levels st)), Ok tt).

Fixpoint for_names (names : list string) (f : string → action logging_state unit)
    : action logging_state unit :=
  match names with
  | [] => mret tt
  | n :: names' => _ ← f n; for_names names' f
  end.

Definition noisy : list string := ["aiokafka"; "kafka"; "asyncio"]%string.

(** [stderr_isatty] is [sys.stderr.isatty()]. *)
Definition setup_logging (settings : Settings) (stderr_isatty : bool)
    (log_level_arg : option string) (json_logs : option bool) : action logging_state unit :=
  let level_str := str_upper (match log_level_arg with
    | Some s => if decide (s = "")%string then log_level settings else s
    | None => log_level settings
    end) in
  let level := default (Level INFO) (logging_attr level_str) in
  let json_logs := match json_logs with Some b => b | None => negb stderr_isatty end in
  let renderer := if json_logs : bool then JSONRenderer else ConsoleRenderer in
  _ ← (λ st, (mkLogging (shared_processors ++ [WrapForFormatter])
         [mkHandlerConfig STDOUT shared_processors [RemoveProcessorsMeta; renderer]]
         (lg_root_level st) (lg_levels st), Ok tt));
  _ ← set_root_level level;
  for_names noisy (λ name, set_level name WARNING).

(** [logger.getEffectiveLevel()] of a logger below the root *)
Definition effective_level (name : string) (st : logging_state) : Z :=
  match lg_levels st !! name with
  | Some l => if (l =? 0)%Z then lg_root_level st else l
  | None => lg_root_level st
  end.

(** ** Lemmas on dicts *)

Lemma dict_lookup_absent k kvs : k ∉ kvs.*1 → dict_lookup k kvs = None.
Proof.
  induction kvs as [|[k1 v1] kvs IH]; cbn; [done|]. intros Hk.
  rewrite decide_False by set_solver. apply IH. set_solver.
Qed.

Lemma dict_lookup_pop k k' kvs :
  NoDup kvs.*1 → dict_lookup k (dict_pop k' kvs) = if decide (k = k') then None else dict_lookup k kvs.
Proof.
  intros Hnd. case_decide as Hk; [subst|by apply dict_lookup_pop_ne].
  induction kvs as [|[k1 v1] kvs IH]; cbn; [done|]. apply NoDup_cons in Hnd as [Hk Hnd].
  destruct (decide (k1 = k')) as [->|]; [by apply dict_lookup_absent|].
  cbn. rewrite decide_False by done. by apply IH.
Qed.

Lemma dict_set_keys k v kvs : NoDup kvs.*1 → NoDup (dict_set k v kvs).*1.
Proof.
  assert (Hsub : ∀ kvs, (dict_set k v kvs).*1 ⊆ k :: kvs.*1).
  { clear. intros kvs. induction kvs as [|[k1 v1] l IH]; cbn; [set_solver|].
    destruct (decide (k1 = k)); cbn; set_solver. }
  induction kvs as [|[k1 v1] kvs IH]; cbn; [intros _; apply NoDup_singleton|].
  intros [Hk Hnd]%NoDup_cons. destruct (decide (k1 = k)) as [->|Hne]; cbn; [by apply NoDup_cons|].
  apply NoDup_cons. split; [|by apply IH]. intros Hin%Hsub. set_solver.
Qed.

(** ** What the processors do *)

(** The two processors change their key only. *)
Lemma drop_color_lookup k kvs :
  NoDup kvs.*1 →
  dict_lookup k (_drop_color_message_key kvs) =
    if decide (k = "color_message"%string) then None else dict_lookup k kvs.
Proof. apply dict_lookup_pop. Qed.

Lemma add_app_lookup k kvs :
  dict_lookup k (_add_app_context kvs) =
    if decide (k = "app"%string)
    then Some (default (JStr "kafkadedup") (dict_lookup k kvs)) else dict_lookup k kvs.
Proof.
  unfold _add_app_context, dict_setdefault.
  destruct (dict_lookup "app" kvs) as [v|] eqn:E.
  - case_decide; [|done]. subst. by rewrite E.
  - rewrite dict_lookup_set. destruct (decide ("app"%string = k)), (decide (k = "app"%string)); subst; [by rewrite E|done..].
Qed.

(** Running a list of processors; [foreign] are those of structlog. *)
Section Pipeline.
Context (foreign : processor → list (string * json) → list (string * json)).
Context (foreign_dict : ∀ p kvs, NoDup kvs.*1 → NoDup (foreign p kvs).*1).

Definition run_processor (kvs : list (string * json)) (p : processor) : list (string * json) :=
  match p with
  | AddAppContext => _add_app_context kvs
  | DropColorMessageKey => _drop_color_message_key kvs
  | _ => foreign p kvs
  end.

Lemma add_app_dict kvs : NoDup kvs.*1 → NoDup (_add_app_context kvs).*1.
Proof.
  intros H. unfold _add_app_context, dict_setdefault. case_match; [done|]. by apply dict_set_keys.
Qed.

(** What every log record carries.  Through the processors of [setup_logging], whatever
    structlog's own do as long as they keep the key "app", a record names the application: its own
    "app" where it has one, and else kafkadedup; and uvicorn's color_message is gone. *)
Theorem records_name_app kvs :
  (∀ p l, dict_lookup "app" (foreign p l) = dict_lookup "app" l) →
  NoDup kvs.*1 →
  let out := foldl run_processor kvs shared_processors in
  dict_lookup "app" out = Some (default (JStr "kafkadedup") (dict_lookup "app" kvs)) ∧
  dict_lookup "color_message" out = None.
Proof.
  intros Happ Hnd. cbn [shared_processors foldl run_processor]. cbn zeta.
  assert (Hd : NoDup (foreign StackInfoRenderer (foreign (TimeStamper "iso" true) (foreign AddLogLevel
    (foreign AddLoggerName (foreign MergeContextvars (_add_app_context kvs)))))).*1)
    by (by repeat apply foreign_dict; apply add_app_dict).
  rewrite !drop_color_lookup by done. rewrite decide_False, decide_True by done.
  by rewrite !Happ, add_app_lookup, decide_True.
Qed.

End Pipeline.

(** ** What [setup_logging] leaves *)

Lemma noisy_levels (m : gmap string Z) :
  Forall (λ n, <["asyncio"%string := WARNING]> (<["kafka"%string := WARNING]>
    (<["aiokafka"%string := WARNING]> m)) !! n = Some WARNING) noisy.
Proof.
  unfold noisy. rewrite !Forall_cons. split_and!; [| | |apply Forall_nil_2].
  - rewrite !lookup_insert_ne by done. by rewrite lookup_insert_eq.
  - rewrite lookup_insert_ne by done. by rewrite lookup_insert_eq.
  - by rewrite lookup_insert_eq.
Qed.

(** The logging set up.  The root logger has one handler, on stdout, that renders JSON when
    json_logs asks for it or, by default, when stderr is not a terminal; its level is the one the
    argument or the settings name in any case, INFO for an unknown name; and the three noisy loggers
    are set to WARNING.  A name of the [logging] module that is no level raises, after the handler
    has been replaced. *)
Theorem logging_configured settings tty arg json st :
  let name := str_upper (match arg with
    | Some s => if decide (s = "")%string then log_level settings else s
    | None => log_level settings end) in
  let render := match json with Some b => b | None => negb tty end in
  let '(st', r) := setup_logging settings tty arg json st in
  lg_handlers st' = [mkHandlerConfig STDOUT shared_processors
    [RemoveProcessorsMeta; if render then JSONRenderer else ConsoleRenderer]] ∧
  match logging_attr name with
  | Some (NoLevel x) => r = Err x ∧ lg_root_level st' = lg_root_level st ∧ lg_levels st' = lg_levels st
  | a =>
      r = Ok tt ∧ lg_root_level st' = match a with Some (Level l) => l | _ => INFO end ∧
      Forall (λ n, lg_levels st' !! n = Some WARNING) noisy
  end.
Proof.
  cbn zeta. unfold setup_logging, mbind, action_bind, set_root_level. cbn -[logging_attr str_upper].
  set (name := str_upper _). destruct (logging_attr name) as [[l|x]|]; cbn; (split; [done|]);
    [|done|]; (split_and!; [done|done|apply noisy_levels]).
Qed.

(** The noisy loggers are not quieter than the root logger when that is set above WARNING: at the
    level ERROR, warnings of aiokafka are shown and the program's own are not. *)
Lemma noisy_louder_than_root settings tty st :
  let '(st', r) := setup_logging settings tty (Some "error"%string) None st in
  r = Ok tt ∧ lg_root_level st' = 40%Z ∧ effective_level "src.consumer" st' = default 40%Z
    (l ← lg_levels st !! "src.consumer"; if (l =? 0)%Z then None else Some l) ∧
  Forall (λ n, effective_level n st' = WARNING) noisy.
Proof.
  cbn. split_and!; [done|done| |].
  - unfold effective_level. cbn. rewrite !lookup_insert_ne by done.
    destruct (lg_levels st !! "src.consumer") as [l|]; cbn; [|done]. by destruct (l =? 0)%Z.
  - eapply Forall_impl; [apply noisy_levels|]. intros n Hn. unfold effective_level. cbn. by rewrite Hn.
Qed.

(** ** Evaluated *)

Lemma records_name_app_witness :
  dict_lookup "app" (foldl (run_processor (λ _ l, l))
    [("event", JStr "started"); ("color_message", JStr "x")]%string shared_processors) =
    Some (JStr "kafkadedup") ∧
  dict_lookup "color_message" (foldl (run_processor (λ _ l, l))
    [("event", JStr "started"); ("color_message", JStr "x")]%string shared_processors) = None.
Proof.
  apply (records_name_app (λ _ l, l) (λ _ _ H, H)); [done|].
  by apply (bool_decide_unpack _); vm_compute.
Defined.
