(* ===== verification/Lifecycle.v ===== *)
(** * The life cycle of a consumer (consumer/base.py, start and stop of dedup_consumer.py)

    [BaseConsumer] is the abstract base class; [DedupConsumer] is an instance.
    What start() opens, stop() closes. *)

From S2P Require Import Prelude Prog Utf8 PyJson JsonText Models StoreEvents Metrics Consumer.

(** ** class BaseConsumer(ABC)

    start() and stop() with the object they leave, [run] for at most some number of records. *)
Class BaseConsumer (C : Type) := {
  bc_start : C → prog ev (C * res unit);
  bc_stop : C → prog ev (C * res unit);
  bc_run : C → nat → prog ev bool;
  bc_handle : C → payload → prog ev pyval;
}.

#[export] Instance dedup_consumer `{!PyRuntime} `{!JsonCodec} : BaseConsumer consumer := {
  bc_start := start;
  bc_stop := stop;
  bc_run := run_consumer;
  bc_handle := λ _, default_handle;
}.

Section Lifecycle.
Context `{!PyRuntime} `{!JsonCodec}.

Inductive resource := KafkaConsumer | DlqProducer | Store.

#[export] Instance resource_eq_dec : EqDecision resource.
Proof. solve_decision. Defined.

(** The resource that a successful call has opened, or closed. *)
Definition opens (st : step ev) : option resource :=
  match st with
  | Step e r =>
      if is_ok r then
        match e with
        | EConsumerStart => Some KafkaConsumer
        | EProducerStart => Some DlqProducer
        | EStore EConnect => Some Store
        | _ => None
        end
      else None
  end.

Definition closes (st : step ev) : option resource :=
  match st with
  | Step e r =>
      if is_ok r then
        match e with
        | EConsumerStop => Some KafkaConsumer
        | EProducerStop => Some DlqProducer
        | EStore EClose => Some Store
        | _ => None
        end
      else None
  end.

Definition opened (tr : list (step ev)) : list resource := omap opens tr.
Definition closed (tr : list (step ev)) : list resource := omap closes tr.

(** What stop() sets out to close, in order. *)
Definition stop_plan (self : consumer) : list resource :=
  (if c_connected self then [KafkaConsumer] else []) ++
  (if c_dlq_producer self then [DlqProducer] else []) ++ [Store].

Definition lallowed (X : Type) (_ : ev X) (_ : res X) : Prop := True.
Abbreviation lpath := (path lallowed).

(** A call and what follows, in an execution. *)
Lemma lpath_attempt {X A} (e : ev X) (k : res X → prog ev A) tr o :
  lpath (prog_bind (attempt (trigger e)) k) tr o →
  ∃ r tr', tr = Step e r :: tr' ∧ lpath (k r) tr' o.
Proof.
  intros (tr1 & tr2 & r & -> & Hp & Hk)%path_bind. destruct tr1 as [|st tr1]; [done|].
  destruct Hp as (r' & -> & _ & Hp). exists r'.
  destruct r' as [a|x]; cbn in Hp; (destruct tr1; [|done]); subst r; by exists tr2.
Qed.

Lemma start_spec self tr self' r :
  lpath (start self) tr (Ok (self', r)) →
  c_running self' = (if r is Ok _ then true else c_running self) ∧ c_connected self' = true ∧
  c_config self' = c_config self ∧ c_dlq_topic self' = c_dlq_topic self ∧
  (DlqProducer ∈ opened tr → c_dlq_producer self' = true) ∧
  (r = Ok tt → opened tr = KafkaConsumer ::
    (if truthy_str (c_dlq_topic self) is Some _ then [DlqProducer] else []) ++ [Store]).
Proof.
  unfold start, mbind, prog_mbind. intros (r1 & tr1 & -> & Hp)%lpath_attempt.
  destruct r1 as [[]|x]; [|destruct tr1; [|done]; injection Hp as -> ->; unfold opened; cbn;
    split_and!; try done; set_solver].
  destruct (truthy_str (c_dlq_topic self)) as [t|].
  - apply lpath_attempt in Hp as (r2 & tr2 & -> & Hp).
    destruct r2 as [[]|x]; [|destruct tr2; [|done]; injection Hp as -> ->; by split_and!].
    apply lpath_attempt in Hp as (r3 & tr3 & -> & Hp).
    destruct r3 as [[]|x]; (destruct tr3; [|done]); injection Hp as -> ->; by split_and!.
  - cbn [attempt prog_bind] in Hp. apply lpath_attempt in Hp as (r3 & tr3 & -> & Hp).
    destruct r3 as [[]|x]; (destruct tr3; [|done]); injection Hp as -> ->; unfold opened; cbn;
      split_and!; try done; set_solver.
Qed.

(** One call of stop(), of a resource that is there or not. *)
Lemma lpath_stop_call {A} (b : bool) (e : ev unit) c (k : prog ev A) tr o :
  (∀ r, closes (Step e r) = if is_ok r then Some c else None) →
  lpath (prog_bind (if b then trigger e else Ret tt) (λ _, k)) tr o →
  (∃ tr', closed tr = (if b then [c] else []) ++ closed tr' ∧ lpath k tr' o) ∨
  (∃ x, b = true ∧ closed tr = [] ∧ o = Err x).
Proof.
  intros Hc. destruct b; [|by intros Hp; left; exists tr].
  intros (tr1 & tr2 & r & -> & Hp & Hk)%path_bind. destruct tr1 as [|st tr1]; [done|].
  destruct Hp as (r' & -> & _ & Hp).
  assert (tr1 = [] ∧ r = r') as [-> ->] by (destruct r', tr1; done).
  unfold closed. cbn [app omap list_omap]. rewrite Hc. destruct r' as [[]|x]; cbn.
  - left. by exists tr2.
  - right. exists x. destruct Hk as [-> ->]. done.
Qed.

Lemma stop_spec self tr self' r :
  lpath (stop self) tr (Ok (self', r)) →
  c_running self' = false ∧ closed tr `prefix_of` stop_plan self ∧
  (r = Ok tt ↔ closed tr = stop_plan self).
Proof.
  unfold stop, mbind, prog_mbind. intros (tr1 & tr2 & ro & -> & Hp & Hk)%path_bind.
  destruct ro as [r'|x]; [|by destruct Hk]. destruct tr2; [|done]. injection Hk as -> ->. cbn.
  rewrite app_nil_r. split; [done|]. apply path_attempt in Hp as (r1 & [= ->] & Hp).
  unfold stop_plan. revert Hp.
  intros [(t1 & -> & H1)|(x & -> & -> & ->)]%(lpath_stop_call _ _ KafkaConsumer); [| |done].
  2:{ split; [apply prefix_nil|done]. }
  apply (lpath_stop_call _ _ DlqProducer) in H1 as [(t2 & -> & H2)|(x & -> & -> & ->)]; [| |done].
  2:{ rewrite app_nil_r. split; [by apply prefix_app_r|]. split; [done|].
      by intros E%(f_equal length); rewrite !length_app in E; cbn in E; lia. }
  destruct t2 as [|st t2]; [done|]. destruct H2 as (r2 & -> & _ & H2).
  assert (t2 = [] ∧ r1 = r2) as [-> ->] by (destruct r2, t2; done).
  destruct r2 as [[]|x]; cbn; [done|]. rewrite !app_nil_r. split.
  - rewrite app_assoc. by apply prefix_app_r.
  - split; [done|]. intros E%(f_equal length). rewrite !length_app in E. cbn in E. lia.
Qed.

(** C34: what start() opens, stop() closes, also when start() has failed half-way.  A consumer is
    running after start() exactly when start() returned, and never after stop(); stop() sets out to
    close everything that start() opened, the Kafka consumer first, then the dead-letter producer, then
    the store; when it returns it has closed all of them, and when a call in it raises it has not: what
    comes after that call stays open. *)
Theorem start_stop_releases self tr1 self1 r1 tr2 self2 r2 :
  c_running self = false →
  lpath (bc_start self) tr1 (Ok (self1, r1)) →
  lpath (bc_stop self1) tr2 (Ok (self2, r2)) →
  c_running self1 = is_ok r1 ∧ c_running self2 = false ∧
  opened tr1 ⊆ stop_plan self1 ∧ closed tr2 `prefix_of` stop_plan self1 ∧
  (r2 = Ok tt ↔ closed tr2 = stop_plan self1).
Proof.
  cbn [bc_start bc_stop dedup_consumer]. intros Hrun H1 H2.
  apply start_spec in H1 as (Hr & Hc & _ & _ & Hd & _).
  apply stop_spec in H2 as (Hr2 & Hpre & Hall).
  split_and!; [by rewrite Hr, Hrun; destruct r1|done| |done..].
  intros x Hx. unfold stop_plan. rewrite Hc.
  destruct x; [by left| |apply elem_of_app; right; apply elem_of_app; right; by left].
  rewrite Hd by done. right. by left.
Qed.

End Lifecycle.

(** ** Evaluated: the store cannot be reached, and the producer cannot be stopped *)

#[local] Existing Instances json_text text_runtime.

Abbreviation down := (Exn "ConnectionError" "refused" true).

Definition failed_start : list (step ev) :=
  [Step EConsumerStart (Ok tt); Step EProducerStart (Ok tt); Step (EStore EConnect) (Err down)].
Definition failed_stop : list (step ev) :=
  [Step EConsumerStop (Ok tt); Step EProducerStop (Err down)].

Lemma start_stop_releases_witness :
  ∃ self1 self2, c_running self1 = false ∧ c_running self2 = false ∧
    opened failed_start ⊆ stop_plan self1 ∧ closed failed_stop `prefix_of` stop_plan self1 ∧
    (Err down = Ok tt ↔ closed failed_stop = stop_plan self1).
Proof.
  eexists _, _.
  apply (start_stop_releases (new_consumer (Some "dlq"%string) None) failed_start _ (Err down)
    failed_stop _ (Err down)); [done|..].
  - cbn. repeat (eexists; split_and!; [reflexivity|done|]). reflexivity.
  - cbn. repeat (eexists; split_and!; [reflexivity|done|]). reflexivity.
Defined.
