(* ===== verification/Process.v ===== *)
(** * The process: main() and the tasks it runs

    [main()] (Entrypoint.v) and the run() of its three consumers (Consumer.v) as
    one program, interleaved the way asyncio interleaves them: a task runs while
    main() awaits, a cancelled task gets [CancelledError] out of the await it is in,
    and main() goes on when what it awaits is there. *)

From S2P Require Import Prelude Prog Loops Utf8 PyJson JsonText Models StoreEvents Metrics Consumer ConsumerSpec.
From S2P Require Import Handlers Entrypoint LoopProps Lifecycle Cancellation.

Section Process.
Context `{!PyRuntime} `{!JsonCodec} (s : Settings).

Abbreviation hs := (handlers s).

(** ** State *)

(** A consumer: its fields, what it has called, and what is left of its run task. *)
Record member := mkMember {
  mb_self : consumer;
  mb_calls : list (step ev);
  mb_task : option (prog ev bool);
  mb_cancel : bool;            (* task.cancel() was called and has not taken effect *)
}.

Record process := mkProcess {
  pr_members : list member;
  pr_signal : bool;            (* stop_requested is set *)
  pr_main : prog mev Z;
}.

Definition start_process : process :=
  mkProcess ((λ c, mkMember (h_consumer c) [] None false) <$> hs) false (main s).

(** The state of the run task for asyncio.wait and gather.  [Ret false] is the end of a round of the
    poll loop, not of the task. *)
Definition task_state (m : member) : task :=
  match mb_task m with
  | Some (Ret true) => Some (Ok tt)
  | Some (Raise x) => Some (Err x)
  | _ => None
  end.

Definition task_done (m : member) : bool := bool_decide (is_Some (task_state m)).

(** ** Steps *)

(** Calls that are not awaited: the metrics, the clock, and reading [self._running]. *)
Definition immediate {X} (e : ev X) : bool :=
  match e with EMetric _ | EPerfCounter | EIsRunning => true | _ => false end.

(** The answer to a call of the task. *)
Definition answers (m : member) {X} (e : ev X) (r : res X) : Prop :=
  allowed e r ∧
  match e in ev X return res X → Prop with
  | EIsRunning => λ r, r = Ok (c_running (mb_self m))
  | _ => λ _, True
  end r ∧
  (mb_cancel m = true → immediate e = false → r = Err CancelledError).

Definition awaits (p : prog mev Z) : Prop :=
  match p with
  | Vis (MWait _) _ | Vis MGather _ => True
  | _ => False
  end.

Inductive member_step : member → member → Prop :=
| task_call m X (e : ev X) k r :
    mb_task m = Some (Vis e k) → answers m e r →
    member_step m (mkMember (mb_self m) (mb_calls m ++ [Step e r]) (Some (k r))
      (mb_cancel m && immediate e))
| task_round m :
    mb_task m = Some (Ret false) →
    member_step m (mkMember (mb_self m) (mb_calls m) (Some (run_records (mb_self m) 1)) (mb_cancel m)).

Inductive process_step : process → process → Prop :=
| step_start ms sig c k i m tr self' r :
    hs !! i = Some c → ms !! i = Some m →
    path (@allowed) (bc_start (mb_self m)) tr (Ok (self', r)) →
    process_step (mkProcess ms sig (Vis (MStart c) k))
      (mkProcess (<[i := mkMember self' (mb_calls m ++ tr) None false]> ms) sig (k r))
| step_create ms sig cs k :
    Forall (λ m, mb_task m = None) ms →
    process_step (mkProcess ms sig (Vis (MWait cs) k))
      (mkProcess ((λ m, mkMember (mb_self m) (mb_calls m) (Some (bc_run (mb_self m) 1)) false) <$> ms) sig
        (Vis (MWait cs) k))
| step_wait ms sig cs k :
    Forall (λ m, mb_task m ≠ None) ms → sig = true ∨ Exists (λ m, task_done m = true) ms →
    process_step (mkProcess ms sig (Vis (MWait cs) k)) (mkProcess ms sig (k (Ok (task_state <$> ms))))
| step_cancel ms sig c k i m :
    hs !! i = Some c → ms !! i = Some m →
    process_step (mkProcess ms sig (Vis (MCancel c) k))
      (mkProcess (<[i := mkMember (mb_self m) (mb_calls m) (mb_task m) true]> ms) sig (k (Ok tt)))
| step_gather ms sig k :
    Forall (λ m, task_done m = true) ms →
    process_step (mkProcess ms sig (Vis MGather k)) (mkProcess ms sig (k (Ok tt)))
| step_stop ms sig c k i m tr self' r :
    hs !! i = Some c → ms !! i = Some m →
    path (@allowed) (bc_stop (mb_self m)) tr (Ok (self', r)) →
    process_step (mkProcess ms sig (Vis (MStop c) k))
      (mkProcess (<[i := mkMember self' (mb_calls m ++ tr) (mb_task m) (mb_cancel m)]> ms) sig (k r))
| step_task ms sig p i m m' :
    awaits p → ms !! i = Some m → member_step m m' →
    process_step (mkProcess ms sig p) (mkProcess (<[i := m']> ms) sig p)
| step_signal ms p :
    process_step (mkProcess ms false p) (mkProcess ms true p).

(** ** The phases of main() *)

Definition stopping (code : Z) (l : list handler) : prog mev Z :=
  _ ← for_each (λ c, trigger (MStop c)) l; Ret code.
Definition gathering (code : Z) : prog mev Z := _ ← trigger MGather; stopping code hs.
Definition cancelling (code : Z) (l : list handler) : prog mev Z :=
  _ ← for_each (λ c, trigger (MCancel c)) l; gathering code.
Definition waiting : prog mev Z :=
  tasks ← trigger (MWait hs); code ← of_res (exit_code tasks 0); cancelling code hs.
Definition starting (l : list handler) : prog mev Z :=
  _ ← for_each (λ c, trigger (MStart c)) l; waiting.

Lemma main_phases : main s = starting hs.
Proof. done. Qed.

Lemma elem_of_services c :
  c ∈ hs → c = OrderHandler (Some (dedup_config s)) ∨ c = PaymentHandler (Some (dedup_config s)) ∨
    c = ShipmentHandler (Some (dedup_config s)).
Proof. unfold handlers. cbn. rewrite !elem_of_cons, elem_of_nil. naive_solver. Qed.

Lemma handlers_NoDup : NoDup hs.
Proof. apply (NoDup_fmap_1 h_topics). by apply (bool_decide_unpack _). Qed.

(** The call main() is at. *)
Inductive main_call :=
| CallStart (c : handler) (k : res unit → prog mev Z)
| CallWait (k : res (list task) → prog mev Z)
| CallCancel (c : handler) (k : res unit → prog mev Z)
| CallGather (k : res unit → prog mev Z)
| CallStop (c : handler) (k : res unit → prog mev Z)
| CallNone.

Definition main_call_of (p : prog mev Z) : main_call :=
  match p with
  | Vis e k =>
      match e in mev X return (res X → prog mev Z) → main_call with
      | MStart c => CallStart c
      | MWait _ => CallWait
      | MCancel c => CallCancel c
      | MGather => CallGather
      | MStop c => CallStop c
      end k
  | _ => CallNone
  end.

Definition task_step ms sig p (q : process) : Prop :=
  awaits p ∧ ∃ i m m', ms !! i = Some m ∧ member_step m m' ∧ q = mkProcess (<[i := m']> ms) sig p.

Definition signal_step ms (sig : bool) p (q : process) : Prop :=
  sig = false ∧ q = mkProcess ms true p.

(** The steps by the call main() is at. *)
Lemma process_step_inv ms sig p q :
  process_step (mkProcess ms sig p) q →
  signal_step ms sig p q ∨ task_step ms sig p q ∨
  match main_call_of p with
  | CallStart c k => ∃ i m tr self' r, hs !! i = Some c ∧ ms !! i = Some m ∧
      path (@allowed) (bc_start (mb_self m)) tr (Ok (self', r)) ∧
      q = mkProcess (<[i := mkMember self' (mb_calls m ++ tr) None false]> ms) sig (k r)
  | CallWait k =>
      (Forall (λ m, mb_task m = None) ms ∧ q = mkProcess
        ((λ m, mkMember (mb_self m) (mb_calls m) (Some (bc_run (mb_self m) 1)) false) <$> ms) sig p) ∨
      (Forall (λ m, mb_task m ≠ None) ms ∧ (sig = true ∨ Exists (λ m, task_done m = true) ms) ∧
        q = mkProcess ms sig (k (Ok (task_state <$> ms))))
  | CallCancel c k => ∃ i m, hs !! i = Some c ∧ ms !! i = Some m ∧
      q = mkProcess (<[i := mkMember (mb_self m) (mb_calls m) (mb_task m) true]> ms) sig (k (Ok tt))
  | CallGather k => Forall (λ m, task_done m = true) ms ∧ q = mkProcess ms sig (k (Ok tt))
  | CallStop c k => ∃ i m tr self' r, hs !! i = Some c ∧ ms !! i = Some m ∧
      path (@allowed) (bc_stop (mb_self m)) tr (Ok (self', r)) ∧
      q = mkProcess (<[i := mkMember self' (mb_calls m ++ tr) (mb_task m) (mb_cancel m)]> ms) sig (k r)
  | CallNone => False
  end.
Proof.
  inversion 1; subst; cbn [main_call_of].
  - right; right. by eexists _, _, _, _, _.
  - right; right. by left.
  - right; right. by right.
  - right; right. by eexists _, _.
  - right; right. done.
  - right; right. by eexists _, _, _, _, _.
  - right; left. split; [done|]. by eexists _, _, _.
  - by left.
Qed.

(** ** A run task *)

(** The task goes on for [n] rounds after this one. *)
Definition again (self : consumer) (p : prog ev bool) (n : nat) : prog ev bool :=
  b ← p; if b : bool then Ret true else run_records self n.

#[local] Instance ev_equiv {A} : Equiv (prog ev A) := prog_equiv (@allowed).

Lemma run_records_again self n : run_records self (S n) ≡ again self (run_records self 1) n.
Proof.
  unfold again, mbind, prog_mbind. cbn [run_records]. unfold mbind, prog_mbind.
  rewrite (prog_bind_assoc (@allowed)).
  apply (prog_bind_proper (@allowed)); [done|]. intros [record|]; [|done].
  rewrite (prog_bind_assoc (@allowed)). apply (prog_bind_proper (@allowed)); [done|]. intros [|]; [|done].
  by rewrite (prog_bind_assoc (@allowed)).
Qed.

(** At most so many calls in a round of the poll loop. *)
Definition round_calls : nat := 12 * Z.to_nat (max_retries (dedup_config s)) + 15.

Lemma within_round self :
  c_config self = dedup_config s → within round_calls (run_records self 1).
Proof.
  intros Hc. unfold round_calls. replace (_ + 15) with (1 + (1 + (12 * loop_fuel self + 13 + 0)))
    by (unfold loop_fuel; rewrite Hc; lia).
  apply within_bind; [apply within_trigger|]. intros [record|]; [|done].
  apply within_bind; [apply within_trigger|]. intros [|]; [|done].
  apply within_bind; [apply within_process_record|]. intros _. done.
Qed.

(** ** What is known of a consumer *)

Definition started (c : handler) (m : member) : Prop :=
  mb_task m = None ∧ path (@allowed) (bc_start (h_consumer c)) (mb_calls m) (Ok (mb_self m, Ok tt)).

Record runs (c : handler) (m : member) (p : prog ev bool) : Prop := {
  (** the calls of start() and, so far, of run() *)
  rn_calls : ∃ tr1 tr2 n, mb_calls m = tr1 ++ tr2 ∧
    path (@allowed) (bc_start (h_consumer c)) tr1 (Ok (mb_self m, Ok tt)) ∧
    (∀ k tr o, path (@allowed) (again (mb_self m) p k) tr o →
      path (@allowed) (bc_run (mb_self m) (n + k)) (tr2 ++ tr) o);
  rn_within : within round_calls p;
  rn_interruptible : interruptible (@allowed) quick 5 p;
}.

Definition running (c : handler) (m : member) : Prop := ∃ p, mb_task m = Some p ∧ runs c m p.

Lemma path_weaken (al1 al2 : ∀ X, ev X → res X → Prop) {A} (p : prog ev A) : ∀ tr o,
  (∀ X (e : ev X) r, al1 X e r → al2 X e r) → path al1 p tr o → path al2 p tr o.
Proof.
  induction p as [a|x|X e k IH]; intros [|st tr] o Hal; cbn; try done.
  intros (r & -> & Ha & Hp). exists r. split_and!; [done|by apply Hal|by apply IH].
Qed.

Lemma started_fields c self tr :
  c ∈ hs → path (@allowed) (bc_start (h_consumer c)) tr (Ok (self, Ok tt)) →
  c_connected self = true ∧ c_config self = dedup_config s.
Proof.
  intros Hc Hp. apply (path_weaken _ lallowed) in Hp; [|done].
  apply start_spec in Hp as (_ & Hn & Hcfg & _). split; [done|]. rewrite Hcfg.
  by apply elem_of_services in Hc as [->|[->| ->]].
Qed.

Lemma started_running c m :
  c ∈ hs → started c m → running c (mkMember (mb_self m) (mb_calls m) (Some (bc_run (mb_self m) 1)) false).
Proof.
  intros Hc [_ Hp]. destruct (started_fields _ _ _ Hc Hp) as [Hn Hcfg]. eexists; split; [done|].
  cbn. unfold run_consumer. rewrite Hn. split; cbn.
  - exists (mb_calls m), [], 1. split_and!; [by rewrite app_nil_r|done|]. intros k tr o Hk.
    unfold run_consumer. rewrite Hn. by apply run_records_again.
  - by apply within_round.
  - exact (interruptible_records _ 1).
Qed.

Lemma running_step c m m' : c ∈ hs → running c m → member_step m m' → running c m'.
Proof.
  intros Hc (p & Ht & [(tr1 & tr2 & n & Hm & H1 & H2) Hw Hi]). inversion 1 as [? X e k r Ht' Ha|? Ht']; subst.
  - rewrite Ht in Ht'. injection Ht' as ->. eexists; split; [done|]. split; cbn [mb_calls mb_self].
    + exists tr1, (tr2 ++ [Step e r]), n. split_and!; [by rewrite Hm, app_assoc|done|].
      intros j tr o Hp. rewrite <- app_assoc. apply H2. exists r. by destruct Ha.
    + revert Hw. destruct round_calls as [|n']; [done|]. intros Hw. apply (within_mono _ n'); [exact (Hw r)|lia].
    + destruct Ha as [Ha _]. by apply Hi.
  - rewrite Ht in Ht'. injection Ht' as ->. destruct (started_fields _ _ _ Hc H1) as [Hn Hcfg].
    eexists; split; [done|]. split; cbn [mb_calls mb_self].
    + exists tr1, tr2, (n + 1). split_and!; [done..|]. intros j tr o Hp.
      replace (n + 1 + j) with (n + S j) by lia. apply H2. by apply run_records_again.
    + by apply within_round.
    + exact (interruptible_records _ 1).
Qed.

Lemma step_not_done m m' : member_step m m' → task_state m = None.
Proof. unfold task_state. by destruct 1 as [m X e k r -> _|m ->]. Qed.

(** A task that is not done can go on, cancelled or not. *)
Lemma running_progress c m : running c m → task_done m = false → ∃ m', member_step m m'.
Proof.
  intros (p & Ht & _). unfold task_done, task_state. rewrite Ht.
  destruct p as [[]|x|X e k]; cbn; [done|intros _; eexists; by apply task_round|done|].
  intros _. eexists. apply (task_call _ X e k
    (match e in ev X return res X with
     | EMetric _ => Ok tt
     | EPerfCounter => Ok 0%Z
     | EIsRunning => Ok (c_running (mb_self m))
     | _ => Err CancelledError
     end)); [done|]. by destruct e.
Qed.

(** ** How long a cancelled task goes on *)

Definition remaining (m : member) (N : nat) : Prop :=
  match mb_task m with
  | Some p =>
      if mb_cancel m
      then (∃ n, within n p ∧ n + 7 ≤ N) ∨ (p = run_records (mb_self m) 1 ∧ 6 ≤ N)
      else unwinds (@allowed) quick CancelledError N p
  | None => False
  end.

Lemma remaining_step c m m' N :
  running c m → remaining m N → member_step m m' → ∃ N', N = S N' ∧ remaining m' N'.
Proof.
  intros (p & Ht & [_ _ Hi]) Hl. inversion 1 as [? X e k r Ht' (Ha & _ & Hr)|? Ht']; subst;
    rewrite Ht in Ht'; injection Ht' as ->; unfold remaining in *; rewrite Ht in Hl; cbn.
  - destruct (mb_cancel m); cbn.
    2:{ destruct N as [|N]; [done|]. exists N. split; [done|]. by apply Hl. }
    assert (Hc : immediate e = false → ∀ N', 5 ≤ N' →
      unwinds (@allowed) quick CancelledError N' (k r)).
    { intros Him N' Hle. specialize (Hr eq_refl Him) as ->. eapply unwinds_mono; [exact Hle|].
      by apply Hi. }
    destruct Hl as [(n & Hw & Hle)|[He Hle]].
    + destruct n as [|n]; [done|]. exists (pred N). split; [lia|].
      destruct (immediate e) eqn:Him; [|by apply Hc; [|lia]]. left. exists n. split; [apply Hw|lia].
    + exists (pred N). split; [lia|].
      assert (immediate e = false) as Him.
      { apply (f_equal (λ p, match p with Vis e _ => immediate e | _ => false end)) in He. done. }
      rewrite Him. by apply Hc; [|lia].
  - destruct (mb_cancel m); [|done]. destruct Hl as [(n & _ & Hle)|[He _]]; [|done].
    exists (pred N). split; [lia|]. right. split; [done|lia].
Qed.

Lemma running_cancel c m : running c m → running c (mkMember (mb_self m) (mb_calls m) (mb_task m) true).
Proof. intros (p & Ht & [Hc Hw Hi]). exists p. split; [done|]. by split. Qed.

Lemma cancelled_remaining c m :
  running c m → remaining (mkMember (mb_self m) (mb_calls m) (mb_task m) true) (round_calls + 7).
Proof. intros (p & Ht & [_ Hw _]). unfold remaining. cbn. rewrite Ht. left. by exists round_calls. Qed.

(** ** The phases of the process *)

Definition fresh_member (c : handler) (m : member) : Prop := m = mkMember (h_consumer c) [] None false.

Definition cancelled (c : handler) (m : member) : Prop := running c m ∧ remaining m (round_calls + 7).

Definition ended (c : handler) (m : member) : Prop := running c m ∧ task_done m = true.

(** The whole life of a consumer: start(), run() to its end, stop(). *)
Definition lived (c : handler) (m : member) : Prop :=
  ∃ self tr1 tr2 tr3 n o, mb_calls m = tr1 ++ tr2 ++ tr3 ∧
    path (@allowed) (bc_start (h_consumer c)) tr1 (Ok (self, Ok tt)) ∧
    path (@allowed) (bc_run self n) tr2 o ∧
    path (@allowed) (bc_stop self) tr3 (Ok (mb_self m, Ok tt)) ∧
    task_state m = Some ((λ _, tt) <$> o).

(** A task that had ended has ended the same way. *)
Definition kept (m0 m : member) : Prop := ∀ t, task_state m0 = Some t → task_state m = Some t.

(** The wait of main() is over in [ms0], by a signal or by a task that has ended; none of the tasks that
    have ended was cancelled, and the code is 1 if one of them had crashed, and 0 if none had. *)
Record wait_over (ms0 : list member) (sig0 : bool) (code : Z) : Prop := {
  wo_reached : rtc process_step start_process (mkProcess ms0 sig0 waiting);
  wo_woken : sig0 = true ∨ Exists (λ m, task_done m = true) ms0;
  wo_no_cancel : ∀ m x, m ∈ ms0 → task_state m = Some (Err x) → exn_type x ≠ "CancelledError"%string;
  wo_code :
    code = 1%Z ∧ Exists (λ m, crashed (task_state m) = true) ms0 ∨
    code = 0%Z ∧ Forall (λ m, crashed (task_state m) = false) ms0;
}.

Definition unset (sig : bool) : nat := if sig then 0 else 1.

(** Before the wait is over. *)
Inductive early : process → Prop :=
| early_starting l1 l2 ms1 ms2 sig :
    hs = l1 ++ l2 → Forall2 started l1 ms1 → Forall2 fresh_member l2 ms2 →
    early (mkProcess (ms1 ++ ms2) sig (starting l2))
| early_waiting ms sig :
    Forall2 running hs ms → early (mkProcess ms sig waiting).

(** After it, with [N] steps left at most: the wait was over in [ms0], with the exit code [code]. *)
Inductive late (ms0 : list member) (code : Z) : nat → process → Prop :=
| late_cancelling N l1 l2 ms1 ms2 sig :
    hs = l1 ++ l2 → Forall2 cancelled l1 ms1 → Forall2 running l2 ms2 → Forall2 kept ms0 (ms1 ++ ms2) →
    length l2 + 3 * (round_calls + 7) + 4 + unset sig ≤ N →
    late ms0 code N (mkProcess (ms1 ++ ms2) sig (cancelling code l2))
| late_gathering N ms Ns sig :
    Forall2 running hs ms → Forall2 remaining ms Ns → Forall2 kept ms0 ms →
    sum_list Ns + 4 + unset sig ≤ N →
    late ms0 code N (mkProcess ms sig (gathering code))
| late_stopping N l1 l2 ms1 ms2 sig :
    hs = l1 ++ l2 → Forall2 lived l1 ms1 → Forall2 ended l2 ms2 → Forall2 kept ms0 (ms1 ++ ms2) →
    length l2 + unset sig ≤ N →
    late ms0 code N (mkProcess (ms1 ++ ms2) sig (stopping code l2))
| late_raised N ms sig x : unset sig ≤ N → late ms0 code N (mkProcess ms sig (Raise x)).

Definition shutdown_steps : nat := 3 * (round_calls + 7) + 8.

(** The consumer main() is at is the next one of the list. *)
Lemma update_here l1 c l2 ms1 ms2 (P1 P2 : handler → member → Prop) i m :
  hs = l1 ++ c :: l2 → Forall2 P1 l1 ms1 → Forall2 P2 (c :: l2) ms2 →
  hs !! i = Some c → (ms1 ++ ms2) !! i = Some m →
  ∃ ms2', ms2 = m :: ms2' ∧ P2 c m ∧ Forall2 P2 l2 ms2' ∧
    ∀ m', <[i:=m']> (ms1 ++ ms2) = (ms1 ++ [m']) ++ ms2'.
Proof.
  intros Hhs H1 H2 Hi Hm. apply Forall2_cons_inv_l in H2 as (m0 & ms2' & Hm0 & H2 & ->).
  assert (i = length ms1) as ->.
  { rewrite <- (Forall2_length _ _ _ H1). pose proof handlers_NoDup as Hnd. rewrite Hhs in Hnd, Hi.
    eapply NoDup_lookup; [exact Hnd|exact Hi|]. by rewrite list_lookup_middle. }
  rewrite list_lookup_middle in Hm by done. injection Hm as ->.
  exists ms2'. split_and!; [done..|]. intros m'. rewrite <- app_assoc. cbn.
  by rewrite insert_app_r_alt, Nat.sub_diag by lia.
Qed.

Lemma Forall2_update {A B} (P : A → B → Prop) l k i y y' :
  Forall2 P l k → k !! i = Some y → (∀ x, x ∈ l → P x y → P x y') → Forall2 P l (<[i:=y']> k).
Proof.
  intros HF. revert i. induction HF as [|x z l k Hx HF IH]; intros i Hi HP; [done|].
  destruct i as [|i]; cbn in *.
  - injection Hi as ->. constructor; [|done]. apply HP; [by left|done].
  - constructor; [done|]. apply IH; [done|]. intros x' Hx' Hy. apply HP; [by right|done].
Qed.

Lemma Forall2_impl_in {A B} (P Q : A → B → Prop) l k :
  Forall2 P l k → (∀ x y, x ∈ l → P x y → Q x y) → Forall2 Q l k.
Proof.
  induction 1 as [|x y l k Hx HF IH]; intros HQ; constructor; [apply HQ; [by left|done]|].
  apply IH. intros x' y' Hx'. apply HQ. by right.
Qed.

Lemma Forall2_and_r {A B} (P : A → B → Prop) (Q : B → Prop) l k :
  Forall2 P l k → Forall Q k → Forall2 (λ x y, P x y ∧ Q y) l k.
Proof. induction 1; inversion 1; constructor; auto. Qed.

Lemma cancelled_all l ms :
  Forall2 cancelled l ms → Forall2 remaining ms (replicate (length l) (round_calls + 7)).
Proof. induction 1 as [|c m l ms [_ Hm] _ IH]; by constructor. Qed.

Lemma some_member (P : handler → member → Prop) ms : Forall2 P hs ms → ∃ c m, m ∈ ms ∧ P c m.
Proof. intros (m & k & Hm & _ & ->)%Forall2_cons_inv_l. eexists _, m. split; [by left|done]. Qed.

Lemma kept_same m m' : mb_task m' = mb_task m → kept m m'.
Proof. intros E t. unfold task_state. by rewrite E. Qed.

Lemma kept_set ms0 ms i m m' :
  ms !! i = Some m → kept m m' → Forall2 kept ms0 ms → Forall2 kept ms0 (<[i:=m']> ms).
Proof. intros Hi Hk Hms. eapply Forall2_update; [done..|]. intros m0 _ Hm0 t Ht. by apply Hk, Hm0. Qed.

Lemma ended_lived c m tr self :
  ended c m → path (@allowed) (bc_stop (mb_self m)) tr (Ok (self, Ok tt)) →
  lived c (mkMember self (mb_calls m ++ tr) (mb_task m) (mb_cancel m)).
Proof.
  intros [(p & Ht & [(tr1 & tr2 & n & Hc & H1 & H2) _ _]) Hd] Hs.
  assert (∃ o, path (@allowed) (bc_run (mb_self m) n) tr2 o ∧
    task_state m = Some ((λ _ : bool, tt) <$> o)) as (o & Ho & Hst).
  { specialize (H2 0 []). rewrite Nat.add_0_r, app_nil_r in H2.
    unfold task_done, task_state in *. rewrite Ht in *. destruct p as [[]|x|]; [|done| |done].
    - exists (Ok true). split; [by apply H2|done].
    - exists (Err x). split; [by apply H2|done]. }
  exists (mb_self m), tr1, tr2, tr, n, o. split_and!; [by cbn; rewrite Hc, <- app_assoc|done..].
Qed.

(** ** Steps of the phases *)

Lemma exit_code_over ms sig code :
  rtc process_step start_process (mkProcess ms sig waiting) →
  sig = true ∨ Exists (λ m, task_done m = true) ms →
  exit_code (task_state <$> ms) 0 = Ok code → wait_over ms sig code.
Proof.
  intros Hr Hw Hx. split; [done|done| |].
  - intros m x Hm Ht. eapply exit_code_no_cancel; [exact Hx|]. apply list_elem_of_fmap. by exists m.
  - apply exit_code_spec in Hx as ->. destruct (existsb crashed (task_state <$> ms)) eqn:He; [left|right]; (split; [done|]).
    + apply existsb_exists in He as (t & Ht & Hc). apply list_elem_of_In, list_elem_of_fmap in Ht as (m & -> & Hm).
      apply Exists_exists. by exists m.
    + apply Forall_forall. intros m Hm. apply not_true_is_false. intros Hc.
      assert (existsb crashed (task_state <$> ms) = true); [|congruence].
      apply existsb_exists. exists (task_state m). split; [|done].
      apply list_elem_of_In, list_elem_of_fmap. by exists m.
Qed.

Definition raised (p : process) : Prop := ∃ x, pr_main p = Raise x.

Lemma early_step p q :
  rtc process_step start_process p → early p → process_step p q →
  early q ∨ raised q ∨ ∃ ms0 sig0 code, wait_over ms0 sig0 code ∧ Forall2 running hs ms0 ∧
    q = mkProcess ms0 sig0 (cancelling code hs).
Proof.
  intros Hreach Hp Hq. destruct Hp as [l1 l2 ms1 ms2 sig Hhs H1 H2|ms sig Hr];
    apply process_step_inv in Hq as [[-> ->]|[(Ha & i & m & m' & Hi & Hs & ->)|Hq]].
  - left. by eapply early_starting.
  - destruct l2 as [|c l2]; [|done]. apply Forall2_nil_inv_l in H2 as ->. rewrite app_nil_r in Hi.
    destruct (Forall2_lookup_r _ _ _ _ _ H1 Hi) as (c & _ & Hn & _).
    destruct Hs as [? X e k r Ht|? Ht]; by rewrite Hn in Ht.
  - destruct l2 as [|c l2]; cbn in Hq.
    + apply Forall2_nil_inv_l in H2 as ->. rewrite !app_nil_r in *. subst l1. destruct Hq as [[Hn ->]|[Hn _]].
      * left. apply early_waiting. apply Forall2_fmap_r. eapply Forall2_impl_in; [done|].
        intros c m. apply started_running.
      * exfalso. destruct (some_member _ _ H1) as (c & m & Hm & Ht & _).
        rewrite Forall_forall in Hn. by apply (Hn m).
    + destruct Hq as (i & m & tr & self' & r & Hi & Hm & Hp & ->).
      destruct (update_here _ _ _ _ _ _ _ _ _ Hhs H1 H2 Hi Hm) as (ms2' & -> & Hf & H2' & Hu).
      rewrite Hu, Hf. rewrite Hf in Hp. destruct r as [[]|x].
      * left. apply (early_starting (l1 ++ [c])); [by rewrite <- app_assoc| |done].
        apply Forall2_app; [done|]. by constructor.
      * right; left. by exists x.
  - left. by apply early_waiting.
  - left. apply early_waiting. eapply Forall2_update; [done..|]. intros c Hc Hm. by eapply running_step.
  - cbn in Hq. destruct Hq as [[Hn ->]|(Hn & Hw & ->)].
    + exfalso. destruct (some_member _ _ Hr) as (c & m & Hm & p & Ht & _).
      rewrite Forall_forall in Hn. specialize (Hn m Hm). congruence.
    + right. destruct (exit_code (task_state <$> ms) 0) as [code|x] eqn:Ec; [right|left; by exists x].
      exists ms, sig, code. split_and!; [by apply exit_code_over|done|done].
Qed.

Lemma early_start : early (start_process).
Proof.
  pose proof (early_starting [] hs [] ((λ c, mkMember (h_consumer c) [] None false) <$> hs) false
    eq_refl ltac:(constructor)) as He.
  by apply He, Forall2_fmap_r, Forall_Forall2_diag, Forall_true.
Qed.

(** A step of a cancelled task uses up one of its calls. *)
Lemma gathering_task ms Ns i m m' :
  Forall2 running hs ms → Forall2 remaining ms Ns → ms !! i = Some m → member_step m m' →
  Forall2 running hs (<[i:=m']> ms) ∧
  ∃ Ns', Forall2 remaining (<[i:=m']> ms) Ns' ∧ sum_list Ns' < sum_list Ns.
Proof.
  intros Hr Hl Hi Hs. split; [by eapply Forall2_update; [done..|]; intros c Hc Hm; eapply running_step|].
  destruct (Forall2_lookup_r _ _ _ _ _ Hr Hi) as (c & Hc & Hm).
  destruct (Forall2_lookup_l _ _ _ _ _ Hl Hi) as (N & HN & Hrem).
  destruct (remaining_step _ _ _ _ Hm Hrem Hs) as (N' & -> & Hrem').
  exists (<[i:=N']> Ns). split; [by apply Forall2_insert|].
  pose proof (sum_insert id Ns i (S N') N' HN) as Hsum. cbn in Hsum. lia.
Qed.

(** A signal after the wait changes nothing. *)
Lemma late_signal ms0 code N ms p : late ms0 code N (mkProcess ms false p) → ∃ N', N' < N ∧ late ms0 code N' (mkProcess ms true p).
Proof.
  intros Hp. remember (mkProcess ms false p) as P eqn:E.
  destruct Hp as [N l1 l2 ms1 ms2 sig Hhs H1 H2 Hk HN|N ms' Ns sig Hr Hl Hk HN
    |N l1 l2 ms1 ms2 sig Hhs H1 H2 Hk HN|N ms' sig x HN]; injection E as <- -> <-; cbn [unset] in HN;
    exists (pred N); (split; [lia|]).
  - eapply late_cancelling; [done..|cbn [unset]; lia].
  - eapply late_gathering; [done..|cbn [unset]; lia].
  - eapply late_stopping; [done..|cbn [unset]; lia].
  - apply late_raised. cbn. lia.
Qed.

Lemma cancelling_step ms0 code N c l1 l2 ms1 ms2 sig i m :
  hs = l1 ++ c :: l2 → Forall2 cancelled l1 ms1 → Forall2 running (c :: l2) ms2 →
  Forall2 kept ms0 (ms1 ++ ms2) →
  length (c :: l2) + 3 * (round_calls + 7) + 4 + unset sig ≤ N →
  hs !! i = Some c → (ms1 ++ ms2) !! i = Some m →
  ∃ N', N' < N ∧ late ms0 code N' (mkProcess
    (<[i := mkMember (mb_self m) (mb_calls m) (mb_task m) true]> (ms1 ++ ms2)) sig (cancelling code l2)).
Proof.
  intros Hhs H1 H2 Hk HN Hc Hm.
  eapply (kept_set _ _ _ _ (mkMember (mb_self m) (mb_calls m) (mb_task m) true) Hm) in Hk; [|by apply kept_same].
  destruct (update_here _ _ _ _ _ _ _ _ _ Hhs H1 H2 Hc Hm) as (ms2' & -> & Hf & H2' & Hu).
  rewrite Hu in *. exists (pred N). cbn [length] in HN. split; [lia|].
  apply (late_cancelling _ _ _ (l1 ++ [c])); [by rewrite <- app_assoc| |done..|lia].
  apply Forall2_app; [done|]. constructor; [|done]. split; [|by eapply cancelled_remaining].
  by apply running_cancel.
Qed.

Lemma gathering_step ms0 code N ms Ns sig q :
  Forall2 running hs ms → Forall2 remaining ms Ns → Forall2 kept ms0 ms →
  sum_list Ns + 4 + unset sig ≤ N →
  process_step (mkProcess ms sig (gathering code)) q → ∃ N', N' < N ∧ late ms0 code N' q.
Proof.
  intros Hr Hl Hk HN [[-> ->]|[(_ & i & m & m' & Hi & Hs & ->)|Hq]]%process_step_inv.
  - apply late_signal. by eapply late_gathering.
  - destruct (gathering_task _ _ _ _ _ Hr Hl Hi Hs) as (Hr' & Ns' & Hl' & Hlt).
    exists (pred N). split; [lia|]. eapply late_gathering; [done..| |lia].
    eapply kept_set; [done| |done]. intros t Ht. by rewrite (step_not_done _ _ Hs) in Ht.
  - cbn in Hq. destruct Hq as [Hd ->]. exists (3 + unset sig). split; [lia|].
    apply (late_stopping _ _ _ [] hs [] ms); [done|constructor| |done|cbn; lia].
    by apply Forall2_and_r.
Qed.

Lemma stopping_step ms0 code N c l1 l2 ms1 ms2 sig i m tr self' r :
  hs = l1 ++ c :: l2 → Forall2 lived l1 ms1 → Forall2 ended (c :: l2) ms2 →
  Forall2 kept ms0 (ms1 ++ ms2) → length (c :: l2) + unset sig ≤ N →
  hs !! i = Some c → (ms1 ++ ms2) !! i = Some m →
  path (@allowed) (bc_stop (mb_self m)) tr (Ok (self', r)) →
  ∃ N', N' < N ∧ late ms0 code N' (mkProcess
    (<[i := mkMember self' (mb_calls m ++ tr) (mb_task m) (mb_cancel m)]> (ms1 ++ ms2)) sig
    (match r with Ok _ => stopping code l2 | Err x => Raise x end)).
Proof.
  intros Hhs H1 H2 Hk HN Hc Hm Hp. cbn [length] in HN. exists (pred N). split; [lia|].
  destruct r as [[]|x]; [|apply late_raised; lia].
  eapply (kept_set _ _ _ _ (mkMember self' (mb_calls m ++ tr) (mb_task m) (mb_cancel m)) Hm) in Hk; [|by apply kept_same].
  destruct (update_here _ _ _ _ _ _ _ _ _ Hhs H1 H2 Hc Hm) as (ms2' & -> & Hf & H2' & Hu).
  rewrite Hu in *. apply (late_stopping _ _ _ (l1 ++ [c])); [by rewrite <- app_assoc| |done..|lia].
  apply Forall2_app; [done|]. constructor; [|done]. by apply ended_lived.
Qed.

Lemma late_step ms0 code N p q : late ms0 code N p → process_step p q → ∃ N', N' < N ∧ late ms0 code N' q.
Proof.
  intros Hp Hq. destruct Hp as [N l1 l2 ms1 ms2 sig Hhs H1 H2 Hk HN|N ms Ns sig Hr Hl Hk HN
    |N l1 l2 ms1 ms2 sig Hhs H1 H2 Hk HN|N ms sig x HN].
  - destruct l2 as [|c l2].
    { apply Forall2_nil_inv_l in H2 as ->. rewrite !app_nil_r in *. subst l1.
      eapply (gathering_step _ _ _ _ (replicate 3 (round_calls + 7))); [..|exact Hq]; [|  |done|cbn in *; lia].
      - eapply Forall2_impl_in; [exact H1|]. by intros c m _ [? _].
      - by apply cancelled_all in H1. }
    apply process_step_inv in Hq as [[-> ->]|[([] & _)|(i & m & Hi & Hm & ->)]].
    + apply late_signal. by eapply late_cancelling.
    + by eapply cancelling_step.
  - by eapply gathering_step.
  - destruct l2 as [|c l2]; apply process_step_inv in Hq as [[-> ->]|[([] & _)|Hq]].
    + apply late_signal. by eapply late_stopping.
    + done.
    + apply late_signal. by eapply late_stopping.
    + destruct Hq as (i & m & tr & self' & r & Hi & Hm & Hs & ->).
      destruct (stopping_step _ code _ _ _ _ _ _ _ _ _ _ _ _ Hhs H1 H2 Hk HN Hi Hm Hs) as (N' & ? & Hl).
      exists N'. split; [done|]. by destruct r as [[]|].
  - apply process_step_inv in Hq as [[-> ->]|[([] & _)|[]]]. apply late_signal. by apply late_raised.
Qed.

Lemma late_begins ms0 sig0 code :
  Forall2 running hs ms0 → late ms0 code shutdown_steps (mkProcess ms0 sig0 (cancelling code hs)).
Proof.
  intros Hr. apply (late_cancelling _ _ _ [] hs [] ms0); [done|constructor|done| |].
  - apply Forall_Forall2_diag, Forall_true. by intros m t.
  - unfold shutdown_steps. destruct sig0; cbn; lia.
Qed.

Inductive phase (p : process) : Prop :=
| phase_early : early p → phase p
| phase_raised : raised p → phase p
| phase_late ms0 sig0 code N :
    wait_over ms0 sig0 code → rtc process_step (mkProcess ms0 sig0 (cancelling code hs)) p →
    N ≤ shutdown_steps → late ms0 code N p → phase p.

Lemma raised_step p q : raised p → process_step p q → raised q.
Proof.
  destruct p as [ms sig p]. intros [x Hx]; cbn in Hx; subst p.
  intros [[_ ->]|[([] & _)|[]]]%process_step_inv. by exists x.
Qed.

Lemma phase_step p q : rtc process_step start_process p → phase p → process_step p q → phase q.
Proof.
  intros Hr [He|Hx|ms0 sig0 code N Hw Ht HN Hl] Hs.
  - destruct (early_step _ _ Hr He Hs) as [?|[?|(ms0 & sig0 & code & Hw & Hms & ->)]];
      [by apply phase_early|by apply phase_raised|].
    eapply phase_late; [exact Hw|apply rtc_refl|done|by apply late_begins].
  - by eapply phase_raised, raised_step.
  - destruct (late_step _ _ _ _ _ Hl Hs) as (N' & ? & Hl').
    eapply phase_late; [exact Hw|by eapply rtc_r| |exact Hl']. lia.
Qed.

Lemma reach_phase p : rtc process_step start_process p → phase p.
Proof.
  intros Hr. pattern p. refine (rtc_ind_r _ _ _ _ _ Hr).
  - apply phase_early, early_start.
  - intros y z Hy Hs Hp. by eapply phase_step.
Qed.

(** ** Progress *)

Lemma stop_path self : ∃ tr self' r, path (@allowed) (bc_stop self) tr (Ok (self', r)).
Proof.
  destruct (partial_extend (@allowed) (bc_stop self) (bc_stop self) []) as (tr & o & Hp); [|done|].
  { intros X e. exists (match e in ev X return res X with
      EMetric _ => Ok tt | EPerfCounter => Ok 0%Z | _ => Err CancelledError end). by destruct e. }
  pose proof Hp as (tr1 & tr2 & ro & _ & (r & -> & _)%path_attempt & Ho)%path_bind.
  destruct tr2; [|done]. cbn in Ho. subst o. by eexists _, _, _.
Qed.

Lemma at_next l1 c l2 ms1 ms2 (P1 P2 : handler → member → Prop) :
  hs = l1 ++ c :: l2 → Forall2 P1 l1 ms1 → Forall2 P2 (c :: l2) ms2 →
  ∃ i m, hs !! i = Some c ∧ (ms1 ++ ms2) !! i = Some m.
Proof.
  intros Hhs H1 (m & ms2' & _ & _ & ->)%Forall2_cons_inv_l. exists (length l1), m. rewrite Hhs.
  split; apply list_lookup_middle; [done|]. by eapply Forall2_length.
Qed.

Lemma gathering_progress ms sig code :
  Forall2 running hs ms → ∃ q, process_step (mkProcess ms sig (gathering code)) q.
Proof.
  intros Hr. destruct (decide (Forall (λ m, task_done m = true) ms)) as [Hd|Hd].
  - eexists. by apply step_gather.
  - apply not_Forall_Exists in Hd; [|apply _]. apply Exists_exists in Hd as (m & Hm & Hd).
    apply list_elem_of_lookup_1 in Hm as [i Hi].
    destruct (Forall2_lookup_r _ _ _ _ _ Hr Hi) as (c & _ & Hm).
    destruct (running_progress c m Hm) as [m' Hs]; [by apply not_true_is_false|].
    eexists. by eapply (step_task _ _ (gathering code)).
Qed.

Lemma late_progress ms0 code N p :
  late ms0 code N p → (∃ code, pr_main p = Ret code) ∨ (∃ x, pr_main p = Raise x) ∨ ∃ q, process_step p q.
Proof.
  intros [? l1 l2 ms1 ms2 sig Hhs H1 H2 _ _|? ms Ns sig Hr _ _ _|? l1 l2 ms1 ms2 sig Hhs H1 H2 _ _|];
  cbn [pr_main].
  - right; right. destruct l2 as [|c l2].
    + apply Forall2_nil_inv_l in H2 as ->. rewrite app_nil_r in Hhs |- *. subst l1.
      apply gathering_progress.
      eapply Forall2_impl_in; [exact H1|]. by intros c m _ [? _].
    + destruct (at_next _ _ _ _ _ _ _ Hhs H1 H2) as (i & m & Hi & Hm). eexists. by eapply step_cancel.
  - right; right. by apply gathering_progress.
  - destruct l2 as [|c l2]; [left; by exists code|right; right].
    destruct (at_next _ _ _ _ _ _ _ Hhs H1 H2) as (i & m & Hi & Hm).
    destruct (stop_path (mb_self m)) as (tr & self' & r & Hp). eexists. by eapply step_stop.
  - right; left. by eexists.
Qed.

Lemma late_nsteps ms0 code k : ∀ N p q,
  late ms0 code N p → nsteps process_step k p q → k ≤ N ∧ ∃ N', late ms0 code N' q.
Proof.
  induction k as [|k IH]; intros N p q Hl Hn; inversion Hn as [|? ? p' ? Hs Hn']; subst;
    [split; [lia|by exists N]|].
  destruct (late_step _ _ _ _ _ Hl Hs) as (N' & Hlt & Hl'). destruct (IH _ _ _ Hl' Hn') as [? ?]. split; [lia|done].
Qed.

(** main() is past its wait. *)
Definition past_wait (p : process) : Prop :=
  match main_call_of (pr_main p) with CallCancel _ _ | CallGather _ | CallStop _ _ => True | _ => False end.

(** ** What it means *)

(** C9: a clean end of the process.  However the three consumers are interleaved, whatever their calls
    answer, and whenever a signal comes: when main() returns its exit code, each consumer has lived its
    whole life in order, start(), then run() to its end, then stop(), and called nothing else (so nothing
    is called on a connection that is closed, and no task is left behind).  The process has gone through
    a state [ms0] in which its wait was over, because of a signal or of a task that had ended; the code
    is 1 if one of the tasks had crashed by then, and 0 if none had; and the tasks that had ended by then
    have not changed since. *)
Theorem process_shutdown ms sig code :
  rtc process_step start_process (mkProcess ms sig (Ret code)) →
  Forall2 lived hs ms ∧
  ∃ ms0 sig0, wait_over ms0 sig0 code ∧
    rtc process_step (mkProcess ms0 sig0 (cancelling code hs)) (mkProcess ms sig (Ret code)) ∧
    Forall2 kept ms0 ms.
Proof.
  intros [Hp|[x Hx]|ms0 sig0 code' N Hw Ht _ Hp]%reach_phase; [|done|].
  - remember (mkProcess ms sig (Ret code)) as P eqn:E.
    destruct Hp as [l1 [|] ms1 ms2 sig' _ _ _|ms0 sig' _]; discriminate E.
  - assert (code' = code ∧ Forall2 lived hs ms ∧ Forall2 kept ms0 ms) as (-> & Hlived & Hkept);
      [|split; [done|by exists ms0, sig0] ].
    clear Hw Ht. remember (mkProcess ms sig (Ret code)) as P eqn:E.
    destruct Hp as [N l1 [|] ms1 ms2 sig' Hhs H1 H2 Hk HN|N ms1 Ns sig' Hr Hl Hk HN
      |N l1 [|] ms1 ms2 sig' Hhs H1 H2 Hk HN|N ms1 sig' x HN]; try discriminate E.
    injection E as <- -> ->. apply Forall2_nil_inv_l in H2 as ->. rewrite app_nil_r in *. by subst l1.
Qed.

(** C15: the shutdown ends.  Once the wait of main() is over, the process makes at most
    36 max_retries + 74 more steps, whatever its tasks were doing and whatever their calls answer; and
    as long as main() has neither returned nor raised, it can go on. *)
Theorem shutdown_ends p k q :
  rtc process_step start_process p → past_wait p → nsteps process_step k p q →
  k ≤ 36 * Z.to_nat (max_retries (dedup_config s)) + 74 ∧
  ((∃ code, pr_main q = Ret code) ∨ (∃ x, pr_main q = Raise x) ∨ ∃ q', process_step q q').
Proof.
  intros [He|[x Hx]|ms0 sig0 code N _ _ HN Hl]%reach_phase Hp Hn.
  - by destruct He as [l1 [|] ms1 ms2 sig _ _ _|ms sig _].
  - unfold past_wait in Hp. by rewrite Hx in Hp.
  - destruct (late_nsteps _ _ _ _ _ _ Hl Hn) as (Hk & N' & Hq). split; [|by eapply late_progress].
    unfold shutdown_steps, round_calls in HN. lia.
Qed.

(** ** Schedules *)

Section Schedule.
Context (oracle : ∀ X, ev X → res X) (oracle_allowed : ∀ X (e : ev X), allowed e (oracle X e)).

Definition oracle_call (X : Type) (e : ev X) : action unit X := λ u, (u, oracle X e).

(** The next call of a task, answered by the oracle unless the task is cancelled. *)
Definition task_answer (m : member) {X} (e : ev X) : res X :=
  match e in ev X return res X with
  | EIsRunning => Ok (c_running (mb_self m))
  | EMetric _ => Ok tt
  | EPerfCounter => Ok 0%Z
  | e => if mb_cancel m then Err CancelledError else oracle _ e
  end.

Definition task_goes (m : member) : member :=
  match mb_task m with
  | Some (Vis e k) =>
      let r := task_answer m e in
      mkMember (mb_self m) (mb_calls m ++ [Step e r]) (Some (k r)) (mb_cancel m && immediate e)
  | Some (Ret false) => mkMember (mb_self m) (mb_calls m) (Some (run_records (mb_self m) 1)) (mb_cancel m)
  | _ => m
  end.

Definition start_goes (m : member) : member :=
  match (run oracle_call (bc_start (mb_self m)) tt).2 with
  | Ok (self, _) => mkMember self (mb_calls m ++ run_trace oracle_call (bc_start (mb_self m)) tt) None false
  | Err _ => m
  end.

Definition stop_goes (m : member) : member :=
  match (run oracle_call (bc_stop (mb_self m)) tt).2 with
  | Ok (self, _) => mkMember self (mb_calls m ++ run_trace oracle_call (bc_stop (mb_self m)) tt)
      (mb_task m) (mb_cancel m)
  | Err _ => m
  end.

Lemma start_goes_task m : mb_task m = None → mb_task (start_goes m) = None.
Proof. unfold start_goes. by destruct (run _ _ _).2 as [[]|]. Qed.

Lemma task_goes_step m : rtc member_step m (task_goes m).
Proof.
  unfold task_goes. destruct (mb_task m) as [[[]|x|X e k]|] eqn:Ht; [done| |done| |done].
  - by apply rtc_once, task_round.
  - apply rtc_once, task_call; [done|]. destruct e; unfold answers, task_answer; cbn;
      destruct (mb_cancel m); by split_and!.
Qed.

Lemma tasks_go n ms sig p i m :
  awaits p → ms !! i = Some m →
  rtc process_step (mkProcess ms sig p) (mkProcess (<[i := Nat.iter n task_goes m]> ms) sig p).
Proof.
  intros Ha Hi. assert (rtc member_step m (Nat.iter n task_goes m)) as Hs.
  { induction n as [|n IH]; [done|]. etrans; [exact IH|]. apply task_goes_step. }
  revert ms Hi. induction Hs as [m|m m' m'' Hs _ IH]; intros ms Hi; [by rewrite list_insert_id|].
  eapply rtc_l; [by eapply step_task|]. rewrite <- (list_insert_insert_eq ms i m'' m').
  apply IH, list_lookup_insert_eq. by eapply lookup_lt_Some.
Qed.

Lemma start_goes_step ms sig l c i m self :
  hs !! i = Some c → ms !! i = Some m →
  (run oracle_call (bc_start (mb_self m)) tt).2 = Ok (self, Ok tt) →
  process_step (mkProcess ms sig (starting (c :: l))) (mkProcess (<[i := start_goes m]> ms) sig (starting l)).
Proof.
  intros Hc Hm Hr. unfold start_goes. rewrite Hr.
  assert (path (@allowed) (bc_start (mb_self m)) (run_trace oracle_call (bc_start (mb_self m)) tt) (Ok (self, Ok tt)))
    as Hp by (rewrite <- Hr; apply run_path; intros X e w; apply oracle_allowed).
  exact (step_start ms sig c (λ r, _ ← (_ ← of_res r; for_each (λ c, trigger (MStart c)) l); waiting) i m _ _ _ Hc Hm Hp).
Qed.

Lemma stop_goes_step ms sig code l c i m self :
  hs !! i = Some c → ms !! i = Some m →
  (run oracle_call (bc_stop (mb_self m)) tt).2 = Ok (self, Ok tt) →
  process_step (mkProcess ms sig (stopping code (c :: l)))
    (mkProcess (<[i := stop_goes m]> ms) sig (stopping code l)).
Proof.
  intros Hc Hm Hr. unfold stop_goes. rewrite Hr.
  assert (path (@allowed) (bc_stop (mb_self m)) (run_trace oracle_call (bc_stop (mb_self m)) tt) (Ok (self, Ok tt)))
    as Hp by (rewrite <- Hr; apply run_path; intros X e w; apply oracle_allowed).
  exact (step_stop ms sig c (λ r, _ ← (_ ← of_res r; for_each (λ c, trigger (MStop c)) l); Ret code) i m _ _ _ Hc Hm Hp).
Qed.

Lemma create_goes ms sig :
  Forall (λ m, mb_task m = None) ms →
  process_step (mkProcess ms sig waiting)
    (mkProcess ((λ m, mkMember (mb_self m) (mb_calls m) (Some (bc_run (mb_self m) 1)) false) <$> ms) sig waiting).
Proof. exact (step_create ms sig hs (λ r, prog_bind (of_res r) (λ tasks, prog_bind (of_res (exit_code tasks 0)) (λ code, cancelling code hs)))). Qed.

Lemma wait_goes ms sig code :
  Forall (λ m, mb_task m ≠ None) ms → sig = true ∨ Exists (λ m, task_done m = true) ms →
  exit_code (task_state <$> ms) 0 = Ok code →
  process_step (mkProcess ms sig waiting) (mkProcess ms sig (cancelling code hs)).
Proof.
  intros Hn Hw Hc.
  pose proof (step_wait ms sig hs (λ r, prog_bind (of_res r) (λ tasks, prog_bind (of_res (exit_code tasks 0)) (λ code, cancelling code hs)))
    Hn Hw) as Hs.
  cbn [of_res prog_bind mbind prog_mbind] in Hs. rewrite Hc in Hs. exact Hs.
Qed.

Definition cancel_goes (m : member) : member := mkMember (mb_self m) (mb_calls m) (mb_task m) true.

Lemma cancel_goes_step ms sig code l c i m :
  hs !! i = Some c → ms !! i = Some m →
  process_step (mkProcess ms sig (cancelling code (c :: l)))
    (mkProcess (<[i := cancel_goes m]> ms) sig (cancelling code l)).
Proof.
  intros Hc Hm. exact (step_cancel ms sig c
    (λ r, prog_bind (prog_bind (of_res r) (λ _, for_each (λ c, trigger (MCancel c)) l)) (λ _, gathering code)) i m Hc Hm).
Qed.

Lemma gather_goes ms sig code :
  Forall (λ m, task_done m = true) ms →
  process_step (mkProcess ms sig (gathering code)) (mkProcess ms sig (stopping code hs)).
Proof. exact (step_gather ms sig (λ r, prog_bind (of_res r) (λ _, stopping code hs))). Qed.

(** The same step for every consumer, one after the other. *)
Abbreviation all F := (F <$> hs).

Lemma all_go (at_ : list handler → prog mev Z) (G : member → member) (F : handler → member) sig :
  (∀ c i ms l, hs !! i = Some c → ms !! i = Some (F c) →
    rtc process_step (mkProcess ms sig (at_ (c :: l))) (mkProcess (<[i := G (F c)]> ms) sig (at_ l))) →
  rtc process_step (mkProcess (all F) sig (at_ hs)) (mkProcess (all (G ∘ F)) sig (at_ [])).
Proof.
  intros Hg. etrans; [by apply (Hg (OrderHandler (Some (dedup_config s))) 0)|].
  etrans; [by apply (Hg (PaymentHandler (Some (dedup_config s))) 1)|].
  etrans; [by apply (Hg (ShipmentHandler (Some (dedup_config s))) 2)|]. apply rtc_refl.
Qed.

Lemma all_start F sig :
  (∀ c, c ∈ hs → ∃ self, (run oracle_call (bc_start (mb_self (F c))) tt).2 = Ok (self, Ok tt)) →
  rtc process_step (mkProcess (all F) sig (starting hs)) (mkProcess (all (start_goes ∘ F)) sig (starting [])).
Proof.
  intros Hr. apply all_go. intros c i ms l Hi Hm. apply rtc_once.
  destruct (Hr c) as [self Hs]; [by eapply list_elem_of_lookup_2|]. by eapply start_goes_step.
Qed.

Lemma all_stop F sig code :
  (∀ c, c ∈ hs → ∃ self, (run oracle_call (bc_stop (mb_self (F c))) tt).2 = Ok (self, Ok tt)) →
  rtc process_step (mkProcess (all F) sig (stopping code hs)) (mkProcess (all (stop_goes ∘ F)) sig (Ret code)).
Proof.
  intros Hr. apply (all_go (stopping code)). intros c i ms l Hi Hm. apply rtc_once.
  destruct (Hr c) as [self Hs]; [by eapply list_elem_of_lookup_2|]. by eapply stop_goes_step.
Qed.

Lemma all_cancel F sig code :
  rtc process_step (mkProcess (all F) sig (cancelling code hs))
    (mkProcess (all (cancel_goes ∘ F)) sig (gathering code)).
Proof.
  apply (all_go (cancelling code)). intros c i ms l Hi Hm. by eapply rtc_once, cancel_goes_step.
Qed.

Lemma all_tasks n F sig p :
  awaits p → rtc process_step (mkProcess (all F) sig p) (mkProcess (all (Nat.iter n task_goes ∘ F)) sig p).
Proof. intros Ha. apply (all_go (λ _, p)). intros c i ms l Hi Hm. by apply tasks_go. Qed.

End Schedule.

End Process.

(** ** Evaluated: SIGTERM while the order handler works *)

#[local] Existing Instances json_text text_runtime.

(** Every call returns; the poll yields one record after another. *)
Definition smooth (X : Type) (e : ev X) : res X :=
  match e in ev X return res X with
  | EStore e =>
      match e in store_ev X return res X with
      | EClaim _ => Ok true
      | EGetStatus _ => Ok None
      | EMarkCompleted _ _ => Ok tt
      | EMarkFailed _ _ _ => Ok tt
      | EConnect => Ok tt
      | EClose => Ok tt
      end
  | EMetric _ => Ok tt
  | EPerfCounter => Ok 0%Z
  | ESleep _ => Ok tt
  | EHandle _ => Ok PyNone
  | ECommit => Ok tt
  | ESend _ _ _ => Ok tt
  | EConsumerStart => Ok tt
  | EConsumerStop => Ok tt
  | EProducerStart => Ok tt
  | EProducerStop => Ok tt
  | EPoll => Ok (Some (mkRecord "orders" 0 7 [("X-Message-Id", Some "m1")%string] None None))
  | EIsRunning => Ok true
  end.

Lemma smooth_allowed X (e : ev X) : allowed e (smooth X e).
Proof. by destruct e. Qed.

Abbreviation services := (handlers default_settings).
Abbreviation Process_steps := (rtc (process_step default_settings)).

Definition begun (c : handler) : member :=
  start_goes smooth (mkMember (h_consumer c) [] None false).
Definition tasked (c : handler) : member :=
  mkMember (mb_self (begun c)) (mb_calls (begun c)) (Some (bc_run (mb_self (begun c)) 1)) false.

(** Eight calls take a task into handle(); cancelled there, it takes four to its end. *)
Definition working : handler → member := Nat.iter 8 (task_goes smooth) ∘ tasked.
Definition gathered : handler → member := Nat.iter 4 (task_goes smooth) ∘ (cancel_goes ∘ working).

Lemma services_work :
  Process_steps (start_process default_settings)
    (mkProcess (working <$> services) true (waiting default_settings)).
Proof.
  unfold working. etrans; [apply (all_start _ smooth smooth_allowed (λ c, mkMember (h_consumer c) [] None false))|].
  { intros c Hc. apply elem_of_services in Hc as [->|[->| ->]]; by eexists. }
  eapply rtc_l; [apply create_goes, Forall_fmap, Forall_true; intros c; by apply start_goes_task|].
  etrans; [exact (all_tasks _ smooth 8 tasked false (waiting default_settings) I)|].
  eapply rtc_l; [apply step_signal|]. apply rtc_refl.
Qed.

Lemma services_close :
  Process_steps (mkProcess (cancel_goes ∘ working <$> services) true (gathering default_settings 0))
    (mkProcess (stop_goes smooth ∘ gathered <$> services) true (Ret 0%Z)).
Proof.
  unfold gathered. etrans; [exact (all_tasks _ smooth 4 (cancel_goes ∘ working) true (gathering default_settings 0) I)|].
  eapply rtc_l; [apply gather_goes; by repeat constructor|].
  apply all_stop; [exact smooth_allowed|].
  intros c Hc. apply elem_of_services in Hc as [->|[->| ->]]; by eexists.
Qed.

(** The broker goes away: each task crashes at its first poll. *)
Definition KafkaConnectionError : exn := Exn "KafkaConnectionError" "connection lost" true.

Definition gone (X : Type) (e : ev X) : res X :=
  match e in ev X return res X with EPoll => Err KafkaConnectionError | e => smooth _ e end.

Definition crashed_ : handler → member := Nat.iter 1 (task_goes gone) ∘ tasked.

Lemma services_crash :
  Process_steps (start_process default_settings)
    (mkProcess (crashed_ <$> services) false (waiting default_settings)).
Proof.
  unfold crashed_. etrans; [apply (all_start _ smooth smooth_allowed (λ c, mkMember (h_consumer c) [] None false))|].
  { intros c Hc. apply elem_of_services in Hc as [->|[->| ->]]; by eexists. }
  eapply rtc_l; [apply create_goes, Forall_fmap, Forall_true; intros c; by apply start_goes_task|].
  exact (all_tasks _ gone 1 tasked false (waiting default_settings) I).
Qed.

(** After SIGTERM each task ends cancelled and the process exits with 0; after a crash it exits with 1.
    Every consumer has been stopped. *)
Lemma process_shutdown_witness :
  ((task_state <$> (stop_goes smooth ∘ gathered <$> services)) = replicate 3 (Some (Err CancelledError)) ∧
   Forall2 lived services (stop_goes smooth ∘ gathered <$> services) ∧
   ∃ ms0 sig0, wait_over default_settings ms0 sig0 0 ∧
     Forall2 kept ms0 (stop_goes smooth ∘ gathered <$> services)) ∧
  (Forall2 lived services (stop_goes smooth ∘ (cancel_goes ∘ crashed_) <$> services) ∧
   ∃ ms0 sig0, wait_over default_settings ms0 sig0 1 ∧
     Forall2 kept ms0 (stop_goes smooth ∘ (cancel_goes ∘ crashed_) <$> services)).
Proof.
  split; [split; [by vm_compute|]|].
  - destruct (process_shutdown default_settings (stop_goes smooth ∘ gathered <$> services) true 0)
      as (Hl & ms0 & sig0 & Hw & _ & Hk); [|by split; [|exists ms0, sig0]].
    etrans; [apply services_work|].
    eapply rtc_l; [apply (wait_goes _ _ _ 0); [by repeat constructor|by left|by vm_compute]|].
    etrans; [apply all_cancel|apply services_close].
  - destruct (process_shutdown default_settings (stop_goes smooth ∘ (cancel_goes ∘ crashed_) <$> services) false 1)
      as (Hl & ms0 & sig0 & Hw & _ & Hk); [|by split; [|exists ms0, sig0]].
    etrans; [apply services_crash|].
    eapply rtc_l; [apply (wait_goes _ _ _ 1); [by repeat constructor|right; by constructor|by vm_compute]|].
    etrans; [apply all_cancel|].
    eapply rtc_l; [apply gather_goes; by repeat constructor|]. apply all_stop; [exact smooth_allowed|].
    intros c Hc. apply elem_of_services in Hc as [->|[->| ->]]; by eexists.
Defined.

Lemma shutdown_ends_witness :
  ∃ k q, nsteps (process_step default_settings) k
    (mkProcess (working <$> services) true (cancelling default_settings 0 services)) q ∧
    pr_main q = Ret 0%Z ∧ k ≤ 36 * 3 + 74.
Proof.
  destruct (proj1 (rtc_nsteps (R := process_step default_settings)
    (mkProcess (working <$> services) true (cancelling default_settings 0 services))
    (mkProcess (stop_goes smooth ∘ gathered <$> services) true (Ret 0%Z)))) as [k Hk].
  { etrans; [apply all_cancel|apply services_close]. }
  eexists k, _. split_and!; [exact Hk|done|].
  refine (proj1 (shutdown_ends default_settings _ k _ _ _ Hk)); [|done].
  etrans; [apply services_work|]. apply rtc_once, wait_goes; [by repeat constructor|by left|by vm_compute].
Defined.
