(* ===== verification/HandlerRun.v ===== *)
(** * Deliveries to the handlers

    The deliveries of ConsumerRetry.v with handle() overridden by a handler of
    Handlers.v, instead of outcomes given in advance. *)

From S2P Require Import Prelude Prog Utf8 PyJson JsonText Models Store MemoryStore StoreEvents Metrics.
From S2P Require Import Consumer Handlers ConsumerRun ConsumerStore ConsumerRetry.
Import Spec.

Section Handled.
Context `{!PyRuntime} `{!JsonCodec} {T : Type} `{DedupStoreLaws T}.
Implicit Types w : world T.

Definition with_outcomes (x : list (res pyval)) w : world T :=
  mkWorld (w_store w) (w_clock w) x (w_handled w) (w_committed w) (w_dlq w) (w_registry w)
    (w_poll w) (w_running w).

(** The world of ConsumerRun.v, in which handle() is [h]. *)
Definition handled_by (h : payload → res pyval) (X : Type) (e : ev X) : action (world T) X :=
  match e in ev X return action (world T) X with
  | EHandle m => λ w,
      (mkWorld (w_store w) (w_clock w) (w_outcomes w) (w_handled w ++ [m]) (w_committed w) (w_dlq w)
         (w_registry w) (w_poll w) (w_running w), h m)
  | e => ev_handler st_elapse _ e
  end.

Abbreviation crun p w := (run (ev_handler st_elapse) p w).
Abbreviation hrun h p w := (run (handled_by h) p w).

(** Calls other than handle() neither read nor write the outcomes and the handled payloads. *)
Lemma ev_handler_frame X (e : ev X) w :
  (∃ m, ∃ E : X = pyval, eq_rect X ev e pyval E = EHandle m) ∨
  (w_handled (ev_handler st_elapse X e w).1 = w_handled w ∧
   w_outcomes (ev_handler st_elapse X e w).1 = w_outcomes w ∧
   ∀ h x, handled_by h X e (with_outcomes x w) =
     (with_outcomes x (ev_handler st_elapse X e w).1, (ev_handler st_elapse X e w).2)).
Proof.
  destruct e; try (right; by split_and!).
  - right. cbn. unfold on_store. cbn. by destruct (call_store _ _ _).
  - left. by exists message, eq_refl.
Qed.

Lemma run_handled_app {A} (p : prog ev A) : ∀ w,
  ∃ ms, w_handled (crun p w).1 = w_handled w ++ ms.
Proof.
  induction p as [a|x|X e k IH]; intros w; [by exists []; rewrite app_nil_r..|]. cbn.
  destruct (ev_handler_frame X e w) as [(m & -> & Hm)|(Hh & _ & _)].
  - cbn in Hm. subst e. cbn.
    match goal with |- context [run _ (k ?r) ?v] => destruct (IH r v) as [ms Hms] end.
    exists (m :: ms). rewrite Hms. cbn. by rewrite <- app_assoc.
  - destruct (ev_handler st_elapse X e w) as [w1 r]. cbn in Hh.
    destruct (IH r w1) as [ms Hms]. exists ms. by rewrite Hms, Hh.
Qed.

(** Where the outcomes given in advance are those of [h], the two worlds agree. *)
Lemma run_handled_by {A} h (p : prog ev A) : ∀ w w' o ms rest x,
  crun p w = (w', o) → w_handled w' = w_handled w ++ ms → w_outcomes w = (h <$> ms) ++ rest →
  hrun h p (with_outcomes x w) = (with_outcomes x w', o).
Proof.
  induction p as [a|y|X e k IH]; intros w w' o ms rest x; cbn [run]; [by intros [= <- <-]..|].
  destruct (ev_handler_frame X e w) as [(m & -> & Hm)|(Hh & Ho & Hx)].
  - cbn in Hm. subst e. cbn [ev_handler handled_by]. unfold handle_call.
    intros E Hms Hos.
    match type of E with run _ (k ?r) ?v = _ => destruct (run_handled_app (k r) v) as [ms' Hms'] end.
    rewrite E in Hms'. cbn in Hms'. rewrite Hms, <- app_assoc in Hms'. apply app_inv_head in Hms'.
    cbn in Hms'. subst ms. rewrite Hos in E. cbn in E.
    eapply (IH (h m) _ _ _ ms' rest x) in E; [exact E| |done].
    rewrite Hms. cbn. by rewrite <- app_assoc.
  - specialize (Hx h x). destruct (ev_handler st_elapse X e w) as [w1 r]. cbn in Hh, Ho, Hx.
    rewrite Hx. intros E Hms Hos. eapply IH; [exact E|by rewrite Hh|by rewrite Ho].
Qed.

Context (hd : handler) (record : consumer_record) (mid : string) (msg : payload).
Context (mid_nonempty : mid ≠ ""%string).
Context (limit : Z) (P : Z → T → Prop) `{!Steady (c_config (h_consumer hd)) mid limit P}.

Abbreviation self := (h_consumer hd).

(** C29: a delivery to a handler. A new message reaches a handler, on any store that serves it while the
    delivery lasts. When handle() returns a value for the payload that the store can hold, the record is
    COMPLETED with it after one attempt; when it raises an exception whose text the store can hold, it is
    called [max_retries] times, and the record is FAILED and the message dead-lettered with the text of
    the exception. Either way the offset is committed. *)
Theorem handler_delivery n w :
  Z.of_nat (S n) = max_retries (c_config self) → new_message self record mid msg limit P n w →
  match h_handle hd msg with
  | Ok v =>
      (∀ c s, P c s → st_complete_ok c mid v) →
      ∃ w' p, hrun (h_handle hd) (process_record self record) w = (w', Ok tt) ∧
        w_handled w' = w_handled w ++ [msg] ∧ w_dlq w' = w_dlq w ∧
        w_committed w' = S (w_committed w) ∧
        mem_record mid w' = Some p ∧ ps_status p = COMPLETED ∧ ps_result p ≡ v ∧ ps_attempts p = 1%Z
  | Err x =>
      reportable self mid P x →
      ∃ w' p, hrun (h_handle hd) (process_record self record) w = (w', Ok tt) ∧
        w_handled w' = w_handled w ++ replicate (S n) msg ∧
        w_dlq w' = w_dlq w ++ dead_letter self record (exn_str x) ∧
        w_committed w' = S (w_committed w) ∧
        mem_record mid w' = Some p ∧ ps_status p = FAILED ∧ ps_error p = Some (exn_str x) ∧
        ps_attempts p = max_retries (c_config self)
  end.
Proof.
  intros Hn Hnm. assert (Hw : ∀ x, with_outcomes x (with_outcomes [] w) = with_outcomes x w) by done.
  assert (Hself : w = with_outcomes (w_outcomes w) w) by (by destruct w).
  destruct (h_handle hd msg) as [v|x] eqn:Eh; intros Hok.
  - destruct (run_recovers self record mid msg mid_nonempty limit P [] v []
      (with_outcomes [Ok v] w)) as (w' & p & E & Hh & _ & Hd & Hc & _ & Hp & Hs & Hr & Ha & _ & _);
      [|cbn; lia|done|done|done|].
    { destruct Hnm as [? ? ? ? Hb Hst ? Hl]. split; try done. unfold waited in *. cbn in *.
      assert (0 ≤ waited self 1 n)%Z by (apply waited_nonneg; done || lia). unfold waited in *. lia. }
    eapply (run_handled_by (h_handle hd) _ _ _ _ [msg] [] (w_outcomes w)) in E;
      [|exact Hh|by cbn; rewrite Eh].
    change (with_outcomes (w_outcomes w) (with_outcomes [Ok v] w)) with (with_outcomes (w_outcomes w) w) in E.
    rewrite <- Hself in E. exists (with_outcomes (w_outcomes w) w'), p. by split_and!.
  - destruct (run_exhausts self record mid msg mid_nonempty limit P (replicate n x) x []
      (with_outcomes (Err <$> (replicate n x ++ [x])) w)) as (w' & p & E & Hh & _ & Hd & Hc & _ & Hp & Hs & Hr & Ha & _ & _).
    { rewrite length_replicate. by destruct Hnm. }
    { by rewrite length_replicate. }
    { apply Forall_app. split; [by apply Forall_replicate|by apply Forall_singleton]. }
    { by rewrite app_nil_r. }
    rewrite length_replicate in Hh.
    eapply (run_handled_by (h_handle hd) _ _ _ _ (replicate (S n) msg) [] (w_outcomes w)) in E;
      [|exact Hh|].
    2:{ cbn [with_outcomes w_outcomes]. rewrite app_nil_r, fmap_replicate, Eh.
        rewrite <- (replicate_cons_app n x), <- fmap_replicate. done. }
    match type of E with run _ _ ?v = _ => change v with (with_outcomes (w_outcomes w) w) in E end.
    rewrite <- Hself in E. exists (with_outcomes (w_outcomes w) w'), p. by split_and!.
Qed.

End Handled.

(** ** Evaluated: the order handler on the in-memory store *)

#[local] Existing Instances Memory.memory_store Memory.memory_view Memory.memory_laws.
#[local] Existing Instances json_text text_runtime.

(** The consumer of a handler after start(). *)
Definition started (hd : handler) : handler :=
  mkHandler (h_topics hd)
    (mkConsumer (c_config (h_consumer hd)) (c_dlq_topic (h_consumer hd)) true
       (if truthy_str (c_dlq_topic (h_consumer hd)) is Some _ then true else false) true)
    (h_handle hd).

Abbreviation orders := (started (OrderHandler None)).

Definition order_record (value : string) : consumer_record :=
  mkRecord "orders" 0 7 [("X-Message-Id", Some "o7")%string] (Some value) None.

(** An order, and a payload that is JSON but not an object. *)
Definition good_order : consumer_record :=
  order_record (json_dumps (JObj [("order_id", JStr "A1")])%string).
Definition bad_order : consumer_record := order_record (json_dumps (JArr [JInt 1])).

Definition orders_world : world Memory.state := new_world (Memory.init None) 1000000 [].

#[local] Instance orders_steady :
  Steady default_config "o7" 2500000 (memory_period default_config 2500000).
Proof. by apply memory_steady. Qed.

Lemma new_order record msg :
  extract_message_id record = Ok (Some "o7"%string) → parse_payload record = Ok msg →
  new_message (h_consumer orders) record "o7" msg 2500000 (memory_period default_config 2500000) 2 orders_world.
Proof. intros He Hp. by split. Qed.

Lemma handler_delivery_witness :
  (∃ w' p, run (handled_by order_handle) (process_record (h_consumer orders) good_order) orders_world = (w', Ok tt) ∧
    w_handled w' = [PJson (JObj [("order_id", JStr "A1")])%string] ∧ w_dlq w' = [] ∧ w_committed w' = 1 ∧
    mem_record "o7" w' = Some p ∧ ps_status p = COMPLETED ∧
    ps_result p ≡ PyJson (JObj [("order_id", JStr "A1"); ("status", JStr "created")]%string) ∧
    ps_attempts p = 1%Z) ∧
  (∃ w' p, run (handled_by order_handle) (process_record (h_consumer orders) bad_order) orders_world = (w', Ok tt) ∧
    w_handled w' = replicate 3 (PJson (JArr [JInt 1])) ∧
    w_dlq w' = dead_letter (h_consumer orders) bad_order "'list' object has no attribute 'get'" ∧
    w_committed w' = 1 ∧
    mem_record "o7" w' = Some p ∧ ps_status p = FAILED ∧
    ps_error p = Some "'list' object has no attribute 'get'"%string ∧ ps_attempts p = 3%Z).
Proof.
  split.
  - apply (handler_delivery orders good_order "o7" (PJson (JObj [("order_id", JStr "A1")])%string)
      ltac:(done) 2500000 (memory_period default_config 2500000) 2 orders_world eq_refl);
      [apply new_order; by vm_compute|done].
  - apply (handler_delivery orders bad_order "o7" (PJson (JArr [JInt 1]))
      ltac:(done) 2500000 (memory_period default_config 2500000) 2 orders_world eq_refl);
      [apply new_order; by vm_compute|done].
Defined.
