(* ===== verification/ConsumerCrash.v ===== *)
(** * Deliveries that end early

    A consumer may die between any two calls, and Kafka delivers the message
    again.  What the next delivery does, by what the store holds; and the message
    that is lost when the dead letter of the last attempt cannot be sent. *)

From S2P Require Import Prelude Prog Utf8 PyJson JsonText Models Iso8601 Store MemoryStore StoreEvents Metrics.
From S2P Require Import RedisServer RedisStore RedisTable RedisProofs RefCjson RedisProps.
From S2P Require Import Consumer ConsumerEvents ConsumerRun ConsumerStore ConsumerRetry Timed Interrupted RedisRetry HandlerRun.
Import Spec.

(** ** Calls other than the sending of a dead letter *)

Definition no_send (X : Type) (e : ev X) : Prop :=
  match e with ESend _ _ _ => False | _ => True end.

(** Metrics and readings of the clock. *)
Definition calm (X : Type) (e : ev X) : Prop :=
  match e with EMetric _ | EPerfCounter => True | _ => False end.

Section Silent.
Context `{!PyRuntime} `{!JsonCodec} (self : consumer) (record : consumer_record) (mid : string).

Lemma silent_emit cs : all_events no_send (emit cs).
Proof. by apply emit_events. Qed.

Lemma silent_store_call {X} op (e : store_ev X) :
  all_events no_send (measure_store_op op (trigger (EStore e))).
Proof. by apply measured_events. Qed.

Lemma silent_retry_loop msg n a last :
  all_events no_send (retry_loop self n record (Some mid) msg a last).
Proof. by apply retry_loop_events. Qed.

End Silent.

Section Crash.
Context `{!PyRuntime} `{!JsonCodec} {T : Type} `{DedupStoreLaws T}.
Implicit Types w : world T.

Abbreviation crun p w := (run (ev_handler st_elapse) p w).

Context (self : consumer) (record : consumer_record) (mid : string) (msg : payload).
Context (mid_nonempty : mid ≠ ""%string).
Abbreviation cfg := (c_config self).

(** ** What a redelivery does *)

(** A record that no delivery of its message takes up again. *)
Definition settled_for_good (c : DeduplicationConfig) (p : ProcessingStatus) : Prop :=
  ps_status p = COMPLETED ∨
  ps_status p = FAILED ∧ (retry_failed c = false ∨ max_retries c ≤ ps_attempts p)%Z.

(** The lease of the record, if it has one, is over. *)
Definition lease_over (clk : Z) (v : option ProcessingStatus) : Prop :=
  ∀ p l, v = Some p → ps_lease_expires_at p = Some l → (l ≤ clk)%Z.

Lemma claimable_or_settled c clk v :
  (∀ p, v = Some p → rec_wf mid p) → lease_over clk v →
  claimable c clk v = true ∨ ∃ p, v = Some p ∧ settled_for_good c p ∧ claimable c clk v = false.
Proof.
  intros Hwf Hl. destruct v as [p|]; [|by left]. destruct (Hwf p eq_refl) as (_ & Hsk & Hlease & _).
  unfold claimable, retryable, orphaned, is_failed. destruct (ps_status p) eqn:Hs; [| | |congruence].
  - left. destruct (proj1 Hlease eq_refl) as [l Hle]. rewrite Hle, (bool_decide_true (PROCESSING = PROCESSING)) by done.
    rewrite (proj2 (Z.leb_le _ _)) by (by eapply Hl). by rewrite orb_true_r.
  - right. exists p. split; [done|]. split; [by left|done].
  - destruct (retry_failed c) eqn:Hr; [|right; exists p; split; [done|]; split; [right; auto|done]].
    destruct (Z.ltb_spec (ps_attempts p) (max_retries c)); [by left|].
    right. exists p. split; [done|]. split; [right; auto|done].
Qed.

(** The claim that is won, and what follows it. *)
Lemma run_claimed w :
  extract_message_id record = Ok (Some mid) →
  st_inv (w_store w) → st_claim_ok (w_clock w) mid (w_store w) →
  claimable (st_config (w_store w)) (st_clock (w_clock w) (w_store w)) (st_view (w_store w) mid) = true →
  ∃ w1, crun (measure_store_op "claim" (trigger (EStore (EClaim mid)))) w = (w1, Ok true) ∧
    w_handled w1 = w_handled w ∧
    crun (process_record self record) w =
      crun (measure_processing (r_topic record) (execute_and_commit self record (Some mid))) w1.
Proof.
  intros He Hi Hok Hyes. destruct (claim_spec _ _ _ Hi Hok) as (s1 & E1 & _).
  unfold do_claim in E1. rewrite Hyes in E1. cbn in E1.
  eexists. split; [by apply (run_measured "claim" (EClaim mid) w s1 (Ok true) E1)|]. split; [done|].
  unfold process_record, mbind, prog_mbind. rewrite run_bind, run_of_res, He, run_bind.
  by rewrite (run_measured "claim" (EClaim mid) w s1 (Ok true) E1).
Qed.

(** The first call of the loop is handle(). *)
Lemma run_execute_handles w :
  (1 ≤ max_retries cfg)%Z → parse_payload record = Ok msg →
  ∃ ms, w_handled (crun (execute_and_commit self record (Some mid)) w).1 = w_handled w ++ msg :: ms.
Proof.
  intros Hmax Hp. unfold execute_and_commit, mbind, prog_mbind. rewrite Hp. cbn [of_res prog_bind].
  unfold loop_fuel. destruct (Z.to_nat (max_retries cfg)) as [|n] eqn:En; [lia|].
  cbn [retry_loop mbind prog_mbind trigger attempt prog_bind run ev_handler]. unfold handle_call.
  match goal with |- context [run _ ?q ?v] => destruct (run_handled_app q v) as [ms ->] end.
  exists ms. cbn. by rewrite <- app_assoc.
Qed.

(** A delivery whose claim is won hands the payload to handle(). *)
Lemma run_won w :
  (1 ≤ max_retries cfg)%Z → extract_message_id record = Ok (Some mid) → parse_payload record = Ok msg →
  st_inv (w_store w) → st_claim_ok (w_clock w) mid (w_store w) →
  claimable (st_config (w_store w)) (st_clock (w_clock w) (w_store w)) (st_view (w_store w) mid) = true →
  ∃ ms, w_handled (crun (process_record self record) w).1 = w_handled w ++ msg :: ms.
Proof.
  intros Hmax He Hp Hi Hok Hyes. destruct (run_claimed w He Hi Hok Hyes) as (w1 & _ & <- & ->).
  rewrite run_measure_processing.
  destruct (run_execute_handles (metered [processing_enter (r_topic record)] w1) Hmax Hp) as [ms Hms].
  exists ms. revert Hms. by destruct (crun (execute_and_commit _ _ _) _).
Qed.

(** ** Deliveries that are cut off *)

(** The payload has been handed to handle(). *)
Definition handed w w' : Prop := ∃ ms, w_handled w' = w_handled w ++ msg :: ms.

Lemma handed_event w0 X (e : ev X) w : handed w0 w → handed w0 (ev_handler st_elapse X e w).1.
Proof.
  intros [ms Hms]. destruct (run_handled_app (trigger e) w) as [ms' Hms'].
  rewrite run_trigger in Hms'. exists (ms ++ ms'). by rewrite Hms', Hms, <- app_assoc.
Qed.

Lemma handed_always w0 {A} (p : prog ev A) w : handed w0 w → always (ev_handler st_elapse) (handed w0) p w.
Proof. apply always_invariant. intros; by apply handed_event. Qed.

(** What a delivery that is cut off leaves when handle() has not been called. *)
Definition unhanded w w' : Prop :=
  w_handled w' = w_handled w ∧ st_inv (w_store w') ∧
  ∀ p, st_view (w_store w') mid = Some p → ps_status p = PROCESSING.

Definition cut_off w w' : Prop := unhanded w w' ∨ handed w w'.

Lemma handed_cut_off w0 {A} (p : prog ev A) w : handed w0 w → always (ev_handler st_elapse) (cut_off w0) p w.
Proof. intros. eapply always_mono; [|by apply handed_always]. by right. Qed.

(** Metrics and clock readings leave this alone. *)
Lemma calm_cut_off w0 {A} (p : prog ev A) : ∀ w,
  all_events calm p → cut_off w0 w → always (ev_handler st_elapse) (cut_off w0) p w.
Proof.
  induction p as [a|x|X e k IH]; intros w; [done..|]. intros [He Hk] Hw. split; [done|].
  destruct e; try done; by apply IH.
Qed.

Lemma measured_cut_off w0 op {X} (e : store_ev X) w :
  cut_off w0 w → cut_off w0 (with_store (call_store (w_clock w) e (w_store w)).1 w) →
  always (ev_handler st_elapse) (cut_off w0) (measure_store_op op (trigger (EStore e))) w.
Proof.
  intros Hw Hs. split; [done|]. cbn. split; [done|]. unfold on_store.
  destruct (call_store _ _ _) as [s1 r1]. cbn. apply calm_cut_off; [|done].
  apply all_events_bind; [apply all_events_attempt, all_events_of_res|]. intros r.
  split; [done|]. intros [t|x]; [|done]. cbn. split; [done|]. intros [[]|x]; [apply all_events_of_res|done].
Qed.

Lemma delivery_cut_off w :
  (1 ≤ max_retries cfg)%Z → extract_message_id record = Ok (Some mid) → parse_payload record = Ok msg →
  unhanded w w → st_claim_ok (w_clock w) mid (w_store w) →
  claimable (st_config (w_store w)) (st_clock (w_clock w) (w_store w)) (st_view (w_store w) mid) = true →
  always (ev_handler st_elapse) (cut_off w) (process_record self record) w.
Proof.
  intros Hmax He Hp Hun Hok Hyes. pose proof Hun as (_ & Hi & Hv).
  destruct (claim_spec _ _ _ Hi Hok) as (s1 & E1 & Hi1 & _ & V). unfold do_claim in E1, V.
  rewrite Hyes in E1, V. cbn in E1, V.
  assert (Hun1 : unhanded w (with_store s1 w)).
  { split_and!; [done..|]. intros p Hq. cbn in Hq. rewrite Hq in V.
    by inversion V as [q q' (_ & Hs & _) Hl Hr|]; subst. }
  unfold process_record, mbind, prog_mbind. rewrite He. cbn [of_res prog_bind].
  apply always_bind; [apply measured_cut_off; [by left|]; cbn [call_store]; rewrite E1; by left|].
  intros w1 b. rewrite (run_measured "claim" (EClaim mid) w s1 (Ok true) E1). intros [= <- <-].
  unfold measure_processing, mbind, prog_mbind.
  apply always_bind; [apply calm_cut_off; [by apply emit_events|by left]|].
  intros w2 []. rewrite run_emit. intros [= <-].
  apply always_bind; [split; [by left|by split; [left|]]|].
  intros w3 t. rewrite run_trigger. intros [= <- <-].
  match goal with |- always _ _ _ ?v => set (w3 := v) end.
  assert (Hun3 : cut_off w w3) by by left.
  destruct (run_execute_handles w3 Hmax Hp) as [ms Hms].
  apply always_bind.
  - apply always_attempt. unfold execute_and_commit, loop_fuel, mbind, prog_mbind. rewrite Hp.
    cbn [of_res prog_bind]. destruct (Z.to_nat (max_retries cfg)) as [|n] eqn:En; [lia|].
    cbn [retry_loop]. split; [done|]. apply handed_cut_off. by exists [].
  - intros w4 r. rewrite run_attempt. destruct (crun (execute_and_commit _ _ _) w3) as [w4' r'] eqn:E4.
    intros [= <- <-]. apply handed_cut_off. by exists ms.
Qed.

Lemma unhanded_self w0 w : unhanded w0 w → unhanded w w.
Proof. by intros (_ & ? & ?). Qed.

Abbreviation delivery := (process_record self record).
Abbreviation cut n w := (run_prefix (ev_handler st_elapse) n delivery w).

Lemma unhanded_pass w0 d w : (0 ≤ d)%Z → unhanded w0 w → unhanded w0 (pass d w).
Proof.
  intros Hd (Hh & Hi & Hv). split_and!; [done|by apply elapse_inv|]. intros p. cbn.
  destruct (elapse_view d (w_store w) mid Hd Hi) as [[_ ->]|[_ ->]]; [apply Hv|done].
Qed.

Abbreviation stop s w := (stopped (ev_handler st_elapse) synchronous s delivery w).

(** Each [(s, d)] is a delivery that is killed or cancelled, and the time until the next. *)
Fixpoint crashes (cs : list (stop_by * Z)) w : world T :=
  match cs with
  | [] => w
  | (s, d) :: cs' => crashes cs' (pass d (stop s w))
  end.

(** Each delivery, the last one included, finds a store that can claim and no live lease. *)
Fixpoint timely (cs : list (stop_by * Z)) w : Prop :=
  st_claim_ok (w_clock w) mid (w_store w) ∧
  lease_over (st_clock (w_clock w) (w_store w)) (st_view (w_store w) mid) ∧
  match cs with
  | [] => True
  | (s, d) :: cs' => (0 ≤ d)%Z ∧ timely cs' (pass d (stop s w))
  end.

(** What holds of deliveries that are killed holds of those that are cancelled. *)
Lemma stop_cut (I : world T → Prop) s w :
  (∀ w1 w2, same_but_metrics w1 w2 → I w1 → I w2) → (∀ n, I (cut n w)) → I (stop s w).
Proof.
  intros HI Hcut. destruct (delivery_stopped self record s w) as (i & Hi). by eapply HI.
Qed.

Lemma handed_trans w1 w2 w3 : handed w1 w2 → (∃ ms, w_handled w3 = w_handled w2 ++ ms) → handed w1 w3.
Proof. intros [ms1 E1] [ms2 E2]. exists (ms1 ++ ms2). by rewrite E2, E1, <- app_assoc. Qed.

Lemma cut_handled n w : ∃ ms, w_handled (cut n w) = w_handled w ++ ms.
Proof.
  apply (always_prefix (ev_handler st_elapse) (λ w', ∃ ms, w_handled w' = w_handled w ++ ms)).
  apply always_invariant; [|by exists []; rewrite app_nil_r]. intros X e w1 [ms E1].
  destruct (run_handled_app (trigger e) w1) as [ms' E2]. rewrite run_trigger in E2.
  exists (ms ++ ms'). by rewrite E2, E1, <- app_assoc.
Qed.

Lemma stop_handled s w : ∃ ms, w_handled (stop s w) = w_handled w ++ ms.
Proof. apply stop_cut; [by intros w1 w2 -> |]. intros n. apply cut_handled. Qed.

Lemma crashes_handled cs : ∀ w, ∃ ms, w_handled (crashes cs w) = w_handled w ++ ms.
Proof.
  induction cs as [|[s d] cs IH]; intros w; cbn; [by exists []; rewrite app_nil_r|].
  destruct (IH (pass d (stop s w))) as [ms E]. destruct (stop_handled s w) as [ms' E'].
  exists (ms' ++ ms). by rewrite E, app_assoc, <- E'.
Qed.

Lemma unhanded_claimable w0 w :
  unhanded w0 w → lease_over (st_clock (w_clock w) (w_store w)) (st_view (w_store w) mid) →
  claimable (st_config (w_store w)) (st_clock (w_clock w) (w_store w)) (st_view (w_store w) mid) = true.
Proof.
  intros (_ & Hi & Hv) Hl.
  destruct (claimable_or_settled (st_config (w_store w)) _ _ (λ p, view_wf _ _ p Hi) Hl)
    as [|(p & Hp & Hs & _)]; [done|].
  specialize (Hv p Hp). destruct Hs as [|[]]; congruence.
Qed.

Lemma crashes_handed w0 cs :
  (1 ≤ max_retries cfg)%Z → extract_message_id record = Ok (Some mid) → parse_payload record = Ok msg →
  ∀ w, unhanded w0 w → timely cs w → handed w0 (crun delivery (crashes cs w)).1.
Proof.
  intros Hmax He Hp. induction cs as [|[s d] cs IH]; intros w Hun (Hok & Hl & Ht); cbn [crashes] in *;
    pose proof (unhanded_claimable _ _ Hun Hl) as Hyes; pose proof Hun as (Hh & Hi & Hv).
  - destruct (run_won w Hmax He Hp Hi Hok Hyes) as [ms E]. exists ms. by rewrite <- Hh.
  - destruct Ht as [Hd Ht].
    assert (Hc : cut_off w0 (stop s w)).
    { apply stop_cut; [by intros w1 w2 -> |]. intros n.
      destruct (always_prefix _ _ _ n _ (delivery_cut_off w Hmax He Hp (unhanded_self _ _ Hun) Hok Hyes))
        as [(Hh' & Hrest)|[ms Hms]]; [left|right].
      - split; [congruence|done].
      - exists ms. by rewrite <- Hh. }
    destruct Hc as [Hc|Hc]; [apply IH; [by apply unhanded_pass|done]|].
    eapply handed_trans; [exact Hc|].
    destruct (run_handled_app delivery (crashes cs (pass d (stop s w)))) as [ms1 ->].
    destruct (crashes_handled cs (pass d (stop s w))) as [ms2 ->]. exists (ms2 ++ ms1).
    by rewrite app_assoc.
Qed.

(** C10: no message is lost to crashes.  A new message whose deliveries are stopped any number of times,
    each after any number of calls, because the process dies or because the task is cancelled, and that
    is delivered once more, each time when no lease of it is live, has been handed to handle(),
    whatever the handler, on any store. *)
Theorem handled_at_least_once cs w :
  (1 ≤ max_retries cfg)%Z → extract_message_id record = Ok (Some mid) → parse_payload record = Ok msg →
  st_inv (w_store w) → st_view (w_store w) mid = None → timely cs w →
  handed w (crun delivery (crashes cs w)).1.
Proof.
  intros Hmax He Hp Hi Hnone Ht. apply crashes_handed; [done..| |done].
  split_and!; [done..|]. by rewrite Hnone.
Qed.

(** ** A redelivery before the lease is over *)

(** Between the claim and handle(): the record is claimed, the rest is as before. *)
Lemma cut_after_claim n w :
  2 ≤ n ≤ 6 → extract_message_id record = Ok (Some mid) → parse_payload record = Ok msg →
  st_inv (w_store w) → st_claim_ok (w_clock w) mid (w_store w) → st_view (w_store w) mid = None →
  ∃ s1 r p, cut n w = with_registry r (with_store s1 w) ∧ st_inv s1 ∧ st_config s1 = st_config (w_store w) ∧
    st_view s1 mid = Some p ∧ ps_status p = PROCESSING ∧
    ps_lease_expires_at p =
      Some (st_clock (w_clock w) (w_store w) + processing_timeout_seconds (st_config (w_store w)) * 1000000)%Z.
Proof.
  intros Hn He Hp Hi Hok Hnone.
  destruct (claim_spec _ _ _ Hi Hok) as (s1 & E1 & Hi1 & (Hc1 & _) & V).
  rewrite Hnone in E1, V. unfold do_claim in E1, V. cbn in E1, V.
  inversion V as [p q (_ & Hs & _ & _ & _ & Hl & _) Hq|]; subst.
  enough (∃ r, cut n w = with_registry r (with_store s1 w)) as [r Er] by by exists s1, r, p.
  unfold process_record, mbind, prog_mbind. rewrite He. cbn [of_res prog_bind].
  unfold execute_and_commit, mbind, prog_mbind. rewrite Hp. cbn [of_res prog_bind].
  destruct n as [|[|[|[|[|[|[|n]]]]]]]; try lia; cbn; unfold on_store; cbn [call_store];
    rewrite E1; eexists; reflexivity.
Qed.

(** C37: a message that a crash loses.  A consumer dies after it has claimed a new message and before
    it calls handle(); Kafka delivers the message again while the lease of the dead consumer is live.
    The claim of the redelivery is refused, nothing is handed to handle() or dead-lettered, and the
    offset is committed all the same, so that the end of the lease brings no further delivery. *)
Theorem early_redelivery_lost n d w :
  2 ≤ n ≤ 6 → c_connected self = true →
  extract_message_id record = Ok (Some mid) → parse_payload record = Ok msg →
  st_inv (w_store w) → st_claim_ok (w_clock w) mid (w_store w) → st_view (w_store w) mid = None →
  let w1 := pass d (cut n w) in
  (0 ≤ d)%Z → st_survives d (w_store (cut n w)) mid → st_claim_ok (w_clock w1) mid (w_store w1) →
  (st_clock (w_clock w1) (w_store w1) <
   st_clock (w_clock w) (w_store w) + processing_timeout_seconds (st_config (w_store w)) * 1000000)%Z →
  ∃ w2 p, crun delivery w1 = (w2, Ok tt) ∧
    w_handled w2 = w_handled w ∧ w_dlq w2 = w_dlq w ∧ w_committed w2 = S (w_committed w) ∧
    st_view (w_store w2) mid = Some p ∧ ps_status p = PROCESSING.
Proof.
  intros Hn Hconn He Hp Hi Hok Hnone w1 Hd Hsv Hok1 Hlive.
  destruct (cut_after_claim n w Hn He Hp Hi Hok Hnone) as (s1 & r & p & Ec & Hi1 & Hc1 & Hv1 & Hs & Hl).
  assert (Hv : st_view (w_store w1) mid = Some p).
  { subst w1. rewrite Ec in Hsv |- *. cbn in *.
    by destruct (elapse_view d s1 mid Hd Hi1) as [[_ ->]|[]]. }
  assert (Hi' : st_inv (w_store w1)) by (subst w1; rewrite Ec; by apply elapse_inv).
  assert (Hno : claimable (st_config (w_store w1)) (st_clock (w_clock w1) (w_store w1))
      (st_view (w_store w1) mid) = false).
  { rewrite Hv. cbn. unfold retryable, orphaned, is_failed. rewrite Hs, Hl.
    cbn. rewrite (proj2 (Z.leb_gt _ _)) by done. by rewrite andb_false_r. }
  destruct (run_refused self record mid w1) as (w2 & E & (Hh & Hdl & _) & Hc & Hn2 & _); [done..|].
  destruct (claim_spec _ _ _ Hi' Hok1) as (s2 & E2 & _ & _ & V). rewrite Hc in E2. injection E2 as <- _.
  unfold do_claim in V. rewrite Hno, Hv in V. cbn in V.
  inversion V as [q q' (_ & Hs' & _) Hq|]; subst q'. exists w2, q. split; [exact E|].
  rewrite Hh, Hdl, Hn2. subst w1. rewrite Ec. cbn. by rewrite Hs', Hs.
Qed.

End Crash.

(** ** A dead-letter queue that is down *)

Section DlqDown.
Context `{!PyRuntime} `{!JsonCodec} {T : Type} `{DedupStoreLaws T}.
Implicit Types w : world T.

(** The world of ConsumerRun.v, in which send_and_wait() raises [y]. *)
Definition dlq_down (y : exn) (X : Type) (e : ev X) : action (world T) X :=
  match e in ev X return action (world T) X with
  | ESend _ _ _ => λ w, (w, Err y)
  | e => ev_handler st_elapse _ e
  end.

Abbreviation crun p w := (run (ev_handler st_elapse) p w).
Abbreviation drun y p w := (run (dlq_down y) p w).

Lemma run_silent {A} y (p : prog ev A) w : all_events no_send p → drun y p w = crun p w.
Proof. apply run_agree. by intros X []. Qed.

Context (self : consumer) (record : consumer_record) (mid : string) (msg : payload).
Context (mid_nonempty : mid ≠ ""%string).
Context (limit : Z) (P : Z → T → Prop) `{!Steady (c_config self) mid limit P}.

Lemma down_measure_processing {A} y topic (p : prog ev A) w :
  drun y (measure_processing topic p) w =
  let '(w', r) := drun y p (metered [processing_enter topic] w) in
  (metered [processing_exit topic; processing_observe topic (w_clock w' - w_clock w)] w', r).
Proof.
  unfold measure_processing, mbind, prog_mbind.
  rewrite run_bind, run_silent, run_emit, run_bind, run_trigger by apply silent_emit. cbn [dlq_down ev_handler].
  rewrite run_finally. change (with_registry _ w) with (metered [processing_enter topic] w).
  destruct (drun y p _) as [w' r]. rewrite run_bind, run_silent, run_emit, run_bind, run_trigger by apply silent_emit.
  cbn [dlq_down ev_handler]. by rewrite run_silent, run_emit by apply silent_emit.
Qed.

(** The delivery of a message that never succeeds, while its dead letter cannot be sent. *)
Lemma down_exhausts y xs x rest topic w :
  new_message self record mid msg limit P (length xs) w →
  Z.of_nat (S (length xs)) = max_retries (c_config self) →
  Forall (reportable self mid P) (xs ++ [x]) → w_outcomes w = (Err <$> (xs ++ [x])) ++ rest →
  c_dlq_producer self = true → truthy_str (c_dlq_topic self) = Some topic →
  ∃ w', drun y (process_record self record) w = (w', Err y) ∧
    failed_at mid P (max_retries (c_config self)) x w' ∧
    w_handled w' = w_handled w ++ replicate (S (length xs)) msg ∧ w_dlq w' = w_dlq w ∧
    w_committed w' = w_committed w ∧ w_clock w' = (w_clock w + waited self 1 (length xs))%Z.
Proof.
  intros Hnm Hmax Hxs Ho Hprod Htopic. pose proof (nm_limit _ _ _ _ _ _ _ _ Hnm) as Hlim.
  pose proof (nm_steady _ _ _ _ _ _ _ _ Hnm) as Hst.
  pose proof (nm_fresh _ _ _ _ _ _ _ _ Hnm) as Hnone.
  destruct (run_claim_wins self mid limit P w Hst) as (w1 & E1 & Ha & (Hd & Hc & Hh & Hout & _) & Ht);
    [eapply steady_claim_ok; [done|]; unfold mem_record in Hnone; by rewrite Hnone|by rewrite Hnone|].
  rewrite Hnone in Ha.
  unfold process_record, mbind, prog_mbind.
  rewrite run_bind, run_of_res, (nm_id _ _ _ _ _ _ _ _ Hnm), run_bind.
  rewrite (run_silent y (measure_store_op _ _)), E1 by apply silent_store_call.
  cbv beta iota. rewrite down_measure_processing. unfold execute_and_commit, mbind, prog_mbind.
  rewrite run_bind, run_of_res, (nm_payload _ _ _ _ _ _ _ _ Hnm), run_bind.
  rewrite run_silent by apply silent_retry_loop.
  destruct (run_loop_exhausts self record mid msg mid_nonempty limit P xs x rest
    (metered [processing_enter (r_topic record)] w1)) as (w3 & E3 & Hf & Ho3 & Hh3 & Hd3 & Hc3 & Ht3 & _);
    [exact Ha|apply Hnm|apply Hnm|done|done|by cbn; rewrite Hout|cbn; lia|].
  rewrite E3, run_bind, run_silent, run_emit, run_bind by apply silent_emit.
  unfold send_to_dlq. rewrite Hprod, Htopic, run_trigger. cbn [dlq_down].
  eexists. split; [reflexivity|]. cbn in Hh3, Hd3, Hc3, Ht3. cbn.
  split; [exact Hf|]; split_and!; [congruence..|lia].
Qed.

(** C38: a message that is lost with its dead letter.  When all the attempts allowed for a new message
    fail and the dead letter cannot be sent, the exception of the send ends the delivery before the
    commit.  But the record is FAILED with all its attempts by then: the redelivery, with the queue
    up again, hands nothing to handle(), sends no dead letter and commits the offset. *)
Theorem dead_letter_lost y xs x rest topic d w :
  new_message self record mid msg limit P (length xs) w →
  Z.of_nat (S (length xs)) = max_retries (c_config self) →
  Forall (reportable self mid P) (xs ++ [x]) → w_outcomes w = (Err <$> (xs ++ [x])) ++ rest →
  c_dlq_producer self = true → truthy_str (c_dlq_topic self) = Some topic →
  (0 ≤ d)%Z → (w_clock w + waited self 1 (length xs) + d ≤ limit)%Z →
  ∃ w1 w2 p, drun y (process_record self record) w = (w1, Err y) ∧
    w_committed w1 = w_committed w ∧ w_dlq w1 = w_dlq w ∧
    w_handled w1 = w_handled w ++ replicate (S (length xs)) msg ∧
    crun (process_record self record) (pass d w1) = (w2, Ok tt) ∧
    w_committed w2 = S (w_committed w) ∧ w_dlq w2 = w_dlq w ∧ w_handled w2 = w_handled w1 ∧
    mem_record mid w2 = Some p ∧ ps_status p = FAILED ∧
    ps_attempts p = max_retries (c_config self) ∧ ps_error p = Some (exn_str x).
Proof.
  intros Hnm Hmax Hxs Ho Hprod Htopic Hd0 Hlim.
  destruct (down_exhausts y xs x rest topic w) as (w1 & E1 & (Hst & p & Hp & Hs & Ha & He) & Hh1 & Hd1 & Hc1 & Ht1);
    [done..|].
  destruct (steady_elapse _ _ d Hst Hd0) as [Hst' Hsv]; [lia|].
  assert (Hv : st_view (w_store (pass d w1)) mid = Some p).
  { change (st_view (st_elapse d (w_store w1)) mid = Some p).
    destruct (elapse_view d (w_store w1) mid Hd0) as [[_ ->]|[Hn _]]; [by eapply steady_inv|done|].
    destruct Hn. apply Hsv. unfold mem_record in Hp. by rewrite Hp. }
  assert (Hok : st_claim_ok (w_clock (pass d w1)) mid (w_store (pass d w1))).
  { eapply steady_claim_ok; [exact Hst'|]. intros q. cbn in Hv |- *. rewrite Hv. intros [= <-]. lia. }
  assert (Hno : claimable (st_config (w_store (pass d w1)))
      (st_clock (w_clock (pass d w1)) (w_store (pass d w1))) (st_view (w_store (pass d w1)) mid) = false).
  { rewrite Hv. rewrite (steady_config _ _ Hst'). unfold claimable, retryable, orphaned, is_failed.
    rewrite Hs, Ha, (bool_decide_false (FAILED = PROCESSING)), Z.ltb_irrefl by done. by rewrite andb_false_r. }
  destruct (run_refused self record mid (pass d w1)) as (w2 & E2 & (Hh2 & Hd2 & _) & Hc & Hn2 & _);
    [apply Hnm|apply Hnm|by eapply steady_inv|done..|].
  destruct (claim_spec (w_store (pass d w1)) (w_clock (pass d w1)) mid (steady_inv _ _ Hst')) as (s2 & F2 & _ & _ & V); [done|].
  rewrite Hc in F2. injection F2 as <- _. unfold do_claim in V. rewrite Hno, Hv in V. cbn [fst] in V.
  inversion V as [q q' (_ & Hs' & Ha' & _ & He' & _) Hq|]; subst q'. exists w1, w2, q.
  cbn in Hh2, Hd2, Hn2. unfold mem_record. rewrite Hn2, Hh2, Hd2, Hs', Ha', He'.
  split_and!; congruence.
Qed.

End DlqDown.

(** ** Evaluated: the payment of ConsumerRetry.v *)

#[local] Existing Instances Memory.memory_store Memory.memory_view Memory.memory_laws.
#[local] Existing Instances Redis.redis_store RedisLaws.redis_view RedisLaws.redis_laws.
#[local] Existing Instances json_text text_runtime iso8601.
#[local] Existing Instances RefCjson.ref_cjson RefCjson.ref_cjson_laws Ref.ref_server Ref.ref_laws.

(** A delivery that dies between the claim and handle(), and one that is cancelled there, at the call
    of handle(), five minutes apart. *)
Definition two_crashes : list (stop_by * Z) :=
  [(Killed 2, 300000000%Z); (Cancelled 3 false, 300000000%Z)].

Definition redis_payment_world : world (Redis.state Ref.server) := redis_world [Ok (PyJson (JInt 1))].

(** A record of the evaluated store that the hypothesis names. *)
Ltac compute_record Hp := vm_compute in Hp; (discriminate || (injection Hp as <-)).
Ltac claim_fits := split_and!; [by vm_compute..|let p := fresh in let Hp := fresh in intros p Hp; compute_record Hp; by vm_compute].
Ltac lease_ends := let p := fresh in let l := fresh in let Hp := fresh in let Hl := fresh in
  intros p l Hp Hl; compute_record Hp; compute_record Hl; by vm_compute.

Lemma redis_timely : timely payments_consumer payment "p1" two_crashes redis_payment_world.
Proof.
  split; [claim_fits|]. split; [lease_ends|]. split; [done|].
  split; [claim_fits|]. split; [lease_ends|]. split; [done|].
  split; [claim_fits|]. split; [lease_ends|done].
Qed.

Lemma handled_at_least_once_witness :
  handed payment_payload (failing_world [Ok (PyJson (JInt 1))])
    (run (ev_handler st_elapse) (process_record payments_consumer payment)
      (crashes payments_consumer payment [(Killed 6, 300000000%Z)] (failing_world [Ok (PyJson (JInt 1))]))).1 ∧
  handed payment_payload redis_payment_world
    (run (ev_handler st_elapse) (process_record payments_consumer payment)
      (crashes payments_consumer payment two_crashes redis_payment_world)).1.
Proof.
  split.
  - apply (handled_at_least_once (T := Memory.state) payments_consumer payment "p1" payment_payload);
      [done|by vm_compute|by vm_compute|apply (Memory.init_inv None)|done|].
    split; [by vm_compute|]. split; [lease_ends|]. split; [done|].
    split; [by vm_compute|]. split; [lease_ends|done].
  - apply (handled_at_least_once (T := Redis.state Ref.server) payments_consumer payment "p1" payment_payload);
      [done|by vm_compute|by vm_compute|exact new_redis_inv|by vm_compute|exact redis_timely].
Defined.

(** Ten seconds after the crash, on both stores. *)
Lemma early_redelivery_lost_witness :
  (let w1 := pass 10000000 (run_prefix (ev_handler st_elapse) 6 (process_record payments_consumer payment)
      (failing_world [Ok (PyJson (JInt 1))])) in
   ∃ w2 p, run (ev_handler st_elapse) (process_record payments_consumer payment) w1 = (w2, Ok tt) ∧
    w_handled w2 = [] ∧ w_dlq w2 = [] ∧ w_committed w2 = 1 ∧
    st_view (w_store w2) "p1" = Some p ∧ ps_status p = PROCESSING) ∧
  (let w1 := pass 10000000 (run_prefix (ev_handler st_elapse) 2 (process_record payments_consumer payment)
      redis_payment_world) in
   ∃ w2 p, run (ev_handler st_elapse) (process_record payments_consumer payment) w1 = (w2, Ok tt) ∧
    w_handled w2 = [] ∧ w_dlq w2 = [] ∧ w_committed w2 = 1 ∧
    st_view (w_store w2) "p1" = Some p ∧ ps_status p = PROCESSING).
Proof.
  split.
  - apply (early_redelivery_lost (T := Memory.state) payments_consumer payment "p1" payment_payload 6 10000000);
      [lia|done|by vm_compute|by vm_compute|apply (Memory.init_inv None)|by vm_compute|done|done|done|by vm_compute|by vm_compute].
  - apply (early_redelivery_lost (T := Redis.state Ref.server) payments_consumer payment "p1" payment_payload 2 10000000);
      [lia|done|by vm_compute|by vm_compute|exact new_redis_inv|claim_fits|by vm_compute|done|by vm_compute|claim_fits|by vm_compute].
Defined.

#[local] Instance payment_later :
  Steady default_config "p1" 12500000 (memory_period default_config 12500000).
Proof. by apply memory_steady. Qed.

Definition broker_down : exn := Exn "KafkaConnectionError" "broker down" true.

(** All three attempts fail with the broker of the queue down; the redelivery comes ten seconds later. *)
Lemma dead_letter_lost_witness :
  let w := failing_world [Err declined; Err declined; Err declined] in
  ∃ w1 w2 p, run (dlq_down broker_down) (process_record payments_consumer payment) w = (w1, Err broker_down) ∧
    w_committed w1 = 0 ∧ w_dlq w1 = [] ∧ w_handled w1 = replicate 3 payment_payload ∧
    run (ev_handler st_elapse) (process_record payments_consumer payment) (pass 10000000 w1) = (w2, Ok tt) ∧
    w_committed w2 = 1 ∧ w_dlq w2 = [] ∧ w_handled w2 = w_handled w1 ∧
    mem_record "p1" w2 = Some p ∧ ps_status p = FAILED ∧ ps_attempts p = 3%Z ∧
    ps_error p = Some "declined"%string.
Proof.
  apply (dead_letter_lost payments_consumer payment "p1" payment_payload ltac:(done) 12500000
    (memory_period default_config 12500000) broker_down [declined; declined] declined [] "payments.dlq" 10000000);
    [by split|by vm_compute|by repeat constructor|done|done|done|done|by vm_compute].
Defined.
