(* ===== verification/Restart.v ===== *)
(** * A partition, crashes and restarts

    The poll loop over one partition of Kafka, with the committed offset: the
    process dies at any call, is started again after some time, and polls from
    the offset it had committed. *)

From S2P Require Import Prelude Prog CrashLogic Utf8 PyJson JsonText Models Store MemoryStore StoreEvents Metrics.
From S2P Require Import Consumer ConsumerEvents ConsumerSpec Cancellation Concurrency ConsumerRun ConsumerStore ConsumerStream.
From S2P Require Import Timed Interrupted ConsumerCrash.
Import Spec.

Section Partition.
Context `{!PyRuntime} `{!JsonCodec} {T : Type} `{DedupStoreLaws T}.

Abbreviation crun p w := (run (ev_handler st_elapse) p w).

(** The records of the partition, with their message ids and payloads. *)
Context (self : consumer) (rs : list (consumer_record * string * payload)).
Context (rs_keyed : Forall keyed rs) (max_pos : (1 ≤ max_retries (c_config self))%Z).

(** The world of ConsumerRun.v, the committed offset, and the calls of handle() with the position
    of the record in whose delivery they are made. *)
Record kafka := mkKafka {
  k_world : world T;
  k_offset : nat;
  k_calls : list (nat * payload);
}.
Implicit Types k : kafka.

(** The position of the consumer: the number of records polled, from the start of the partition. *)
Definition position k : nat := length rs - length (w_poll (k_world k)).

(** commit() commits the position. *)
Definition kafka_handler (X : Type) (e : ev X) : action kafka X := λ k,
  let '(w, r) := ev_handler st_elapse X e (k_world k) in
  (mkKafka w
     (match e with ECommit => position k | _ => k_offset k end)
     (match e with EHandle m => k_calls k ++ [(pred (position k), m)] | _ => k_calls k end), r).

(** A new process, [d] microseconds later: it polls from the committed offset, with new metrics. *)
Definition restart (d : Z) k : kafka :=
  let w := k_world k in
  mkKafka
    (mkWorld (st_elapse d (w_store w)) (w_clock w + d) (w_outcomes w) (w_handled w) (w_committed w)
       (w_dlq w) ∅ ((λ r, r.1.1) <$> drop (k_offset k) rs) true)
    (k_offset k) (k_calls k).

(** The poll loop, with rounds for every record. *)
Definition poll_loop : prog ev bool := run_records self (S (length rs)).

(** The store can serve the call. *)
Definition serves_call (X : Type) (e : ev X) k : Prop :=
  match e with
  | EStore e =>
      if op_of (w_clock (k_world k)) e is Some op then op_ok op (w_store (k_world k)) else True
  | _ => True
  end.

Abbreviation stop s k := (stopped kafka_handler synchronous s poll_loop k).

(** Each [(s, d)] is a process that dies or is cancelled, and the time until the next. *)
Fixpoint incarnations (cs : list (stop_by * Z)) k : kafka :=
  match cs with
  | [] => k
  | (s, d) :: cs' => incarnations cs' (restart d (stop s k))
  end.

(** No lease of a message of the partition is live. *)
Definition leases_over k : Prop :=
  Forall (λ mid, lease_over (st_clock (w_clock (k_world k)) (w_store (k_world k)))
    (st_view (w_store (k_world k)) mid)) (ids rs).

(** The store serves every call, and each process starts when the leases of the one before are over. *)
Fixpoint orderly (cs : list (stop_by * Z)) k : Prop :=
  match cs with
  | [] => True
  | (s, d) :: cs' =>
      served_until kafka_handler serves_call s poll_loop k ∧ (0 ≤ d)%Z ∧
      let k' := restart d (stop s k) in leases_over k' ∧ orderly cs' k'
  end.

(** The payload of the message has been handed to handle(), in the delivery of one of its records. *)
Definition handed_over k (mid : string) : Prop :=
  ∃ j record m, rs !! j = Some (record, mid, m) ∧ (j, m) ∈ k_calls k.

(** ** The invariants *)

(** A message that has not been handed over, at any moment and between deliveries. *)
Definition held k (mid : string) : Prop :=
  ∀ p, st_view (w_store (k_world k)) mid = Some p → ps_status p = PROCESSING.

Definition free k (mid : string) : Prop :=
  ∀ p, st_view (w_store (k_world k)) mid = Some p → ps_status p = PROCESSING ∧
    ∀ l, ps_lease_expires_at p = Some l → (l ≤ st_clock (w_clock (k_world k)) (w_store (k_world k)))%Z.

Definition handed_below k (n : nat) : Prop :=
  ∀ i record mid m, i < n → rs !! i = Some (record, mid, m) → handed_over k mid.

(** What holds wherever the process dies. *)
Record safe k : Prop := {
  safe_store : st_inv (w_store (k_world k));
  safe_held : ∀ mid, mid ∈ ids rs → handed_over k mid ∨ held k mid;
  safe_offset : handed_below k (k_offset k);
  safe_bound : k_offset k ≤ length rs;
}.

(** What holds from the call of handle() to the end of a delivery, and between deliveries. *)
Record settled k : Prop := {
  set_store : st_inv (w_store (k_world k));
  set_free : ∀ mid, mid ∈ ids rs → handed_over k mid ∨ free k mid;
  set_below : handed_below k (position k);
  set_offset : k_offset k ≤ position k;
  set_running : w_running (k_world k) = true;
  set_poll : w_poll (k_world k) = (λ r, r.1.1) <$> drop (position k) rs;
}.

Lemma free_held k mid : free k mid → held k mid.
Proof. intros Hf p Hp. by apply Hf. Qed.

Lemma settled_safe k : settled k → safe k.
Proof.
  intros [Hi Hf Hb Ho _ _]. split; [done| | |unfold position in Ho; lia].
  - intros mid Hm. destruct (Hf mid Hm); [by left|right; by apply free_held].
  - intros i record mid m Hlt. eapply Hb. lia.
Qed.

Lemma handed_mono k k' mid : k_calls k ⊆ k_calls k' → handed_over k mid → handed_over k' mid.
Proof. intros Hc (j & record & m & Hj & Hin). exists j, record, m. auto. Qed.

Lemma calls_grow X (e : ev X) k : k_calls k ⊆ k_calls (kafka_handler X e k).1.
Proof.
  unfold kafka_handler. destruct (ev_handler st_elapse X e (k_world k)) as [w r]. cbn.
  destruct e; try done. set_solver.
Qed.

(** ** One call *)

(** The calls of a delivery of [mid]. *)
Definition own (mid : string) (X : Type) (e : ev X) : Prop :=
  match e with
  | EStore (EClaim m) | EStore (EGetStatus m) | EStore (EMarkCompleted m _) | EStore (EMarkFailed m _ _) =>
      m = mid
  | EStore EConnect | EStore EClose | EPoll => False
  | _ => True
  end.

Lemma own_store mid : of_store mid (own mid).
Proof. done. Qed.

(** A call of the store for [mid] leaves the clock and the other records alone. *)
Lemma own_frame mid {X} (e : store_ev X) now (s : T) :
  own mid X (EStore e) → (if op_of now e is Some op then op_ok op s else True) → st_inv s →
  let s' := (call_store now e s).1 in st_inv s' ∧ st_frame mid s s'.
Proof.
  destruct e as [m|m|m v|m x a| |]; cbn; intros ? Hok Hi; subst; try done.
  - destruct (claim_spec s now mid Hi Hok) as (s' & -> & ? & ? & _). done.
  - rewrite get_status_spec by done. by split_and!.
  - destruct (mark_completed_spec s now mid v Hi Hok) as (s' & -> & ? & ? & _). done.
  - destruct (mark_failed_spec s now mid x a Hi Hok) as (s' & -> & ? & ? & _). done.
Qed.

Definition settled_for (mid : string) k : Prop := settled k ∧ handed_over k mid.

(** Worlds that differ in what the invariants do not read. *)
Lemma settled_alike k k' :
  w_store (k_world k') = w_store (k_world k) → w_clock (k_world k') = w_clock (k_world k) →
  w_poll (k_world k') = w_poll (k_world k) → w_running (k_world k') = w_running (k_world k) →
  k_calls k ⊆ k_calls k' → (k_offset k' = k_offset k ∨ k_offset k' = position k) →
  settled k → settled k'.
Proof.
  intros Hs Hc Hp Hr Hcalls Ho [Hi Hf Hb Hle Hrun Hpoll].
  assert (Hpos : position k' = position k) by (unfold position; by rewrite Hp).
  assert (Hh : ∀ mid, handed_over k mid → handed_over k' mid) by (intros; by eapply handed_mono).
  split; [by rewrite Hs| | |rewrite Hpos; by destruct Ho as [->| ->]|congruence|by rewrite Hp, Hpos].
  - intros mid Hm. destruct (Hf mid Hm) as [|Hfree]; [left; auto|right].
    unfold free. rewrite Hs, Hc. apply Hfree.
  - intros i record mid m. rewrite Hpos. intros Hlt Hl. eapply Hh, Hb; done.
Qed.

Lemma settled_store_call mid k (s' : T) :
  settled_for mid k → st_inv s' → st_frame mid (w_store (k_world k)) s' →
  settled (mkKafka (with_store s' (k_world k)) (k_offset k) (k_calls k)).
Proof.
  intros [[Hi Hf Hb Hle Hrun Hpoll] Hmid] Hi' (_ & Hk & Hv). split; cbn; try done.
  intros m Hm. destruct (decide (m = mid)) as [->|Hne]; [by left|].
  destruct (Hf m Hm) as [|Hfree]; [by left|right]. unfold free. cbn. rewrite Hk, Hv by done. apply Hfree.
Qed.

Lemma free_elapse k mid d r :
  (0 ≤ d)%Z → st_inv (w_store (k_world k)) → free k mid →
  free (mkKafka (mkWorld (st_elapse d (w_store (k_world k))) (w_clock (k_world k) + d)
    (w_outcomes (k_world k)) (w_handled (k_world k)) (w_committed (k_world k)) (w_dlq (k_world k)) r
    (w_poll (k_world k)) (w_running (k_world k))) (k_offset k) (k_calls k)) mid.
Proof.
  intros Hd Hi Hf p Hp. cbn in Hp.
  pose proof (elapse_clock d (w_store (k_world k)) (w_clock (k_world k)) Hd) as Hclk.
  destruct (elapse_view d (w_store (k_world k)) mid Hd Hi) as [[_ E]|[_ E]]; rewrite E in Hp; [|done].
  destruct (Hf p Hp) as [Hs Hl]. split; [done|]. intros l Hle. specialize (Hl l Hle). cbn. lia.
Qed.

Lemma settled_call mid X (e : ev X) k :
  own mid X e → serves_call X e k → settled_for mid k → settled_for mid (kafka_handler X e k).1.
Proof.
  intros Hown Hok Hset. split; [|eapply handed_mono; [apply calls_grow|apply Hset]].
  pose proof Hset as [Hs Hmid].
  destruct e as [X e|c| |ms|m| | | | | | | |]; try done;
    try (eapply settled_alike; [..|exact Hs]; cbn; solve [done|by left|by right|set_solver]).
  - unfold kafka_handler. cbn [ev_handler]. unfold on_store.
    destruct (own_frame mid e (w_clock (k_world k)) (w_store (k_world k)) Hown Hok (set_store _ Hs)) as [Hi' Hf].
    destruct (call_store _ _ _) as [s' r]. by apply (settled_store_call mid).
  - unfold kafka_handler. cbn [ev_handler sleep_call]. set (d := Z.max 0 (ms * 1000)).
    assert (Hd : (0 ≤ d)%Z) by apply Z.le_max_l. destruct Hs as [Hi Hf Hb Hle Hrun Hpoll].
    split; try done; [by apply elapse_inv|].
    intros m Hm. destruct (Hf m Hm) as [|Hfree]; [by left|right]. by apply free_elapse.
Qed.

(** So the calls of a delivery whose message has been handed over keep it. *)
Lemma settled_cwp {A} mid (p : prog ev A) k :
  all_events (own mid) p → settled_for mid k →
  cwp kafka_handler serves_call safe p k (λ k' _, settled_for mid k').
Proof.
  intros Hp Hk. apply (cwp_invariant kafka_handler serves_call safe (settled_for mid) (own mid)); try done.
  - intros k' [? _]. by apply settled_safe.
  - intros. by apply settled_call.
Qed.

(** ** Up to the call of handle() *)

Definition plain (X : Type) (e : ev X) : Prop :=
  match e with EMetric _ | EPerfCounter | EStore (EClaim _) => True | _ => False end.

Definition with_world (w : world T) k : kafka := mkKafka w (k_offset k) (k_calls k).

Lemma run_plain {A} (p : prog ev A) : ∀ k, all_events plain p →
  run kafka_handler p k = (with_world (crun p (k_world k)).1 k, (crun p (k_world k)).2).
Proof.
  induction p as [a|x|X e c IH]; intros k; cbn [run all_events]; [by destruct k..|]. intros [He Hc].
  unfold kafka_handler at 1. destruct (ev_handler st_elapse X e (k_world k)) as [w r].
  rewrite (IH r _ (Hc r)). by destruct e.
Qed.

Lemma safe_call X (e : ev X) k : plain X e → serves_call X e k → safe k → safe (kafka_handler X e k).1.
Proof.
  intros He Hok [Hi Hh Ho Hb]. destruct e as [X e|c| |ms|m| | | | | | | |]; try done.
  destruct e as [mid| | | | |]; try done. unfold kafka_handler. cbn [ev_handler]. unfold on_store. cbn in Hok |- *.
  destruct (claim_spec (w_store (k_world k)) _ mid Hi Hok) as (s' & -> & Hi' & (_ & _ & Hf) & V).
  split; cbn; [done| |done..]. intros m Hm. destruct (Hh m Hm) as [|Hheld]; [by left|right].
  intros p Hp. cbn in Hp. destruct (decide (m = mid)) as [->|Hne]; [|apply Hheld; by rewrite <- Hf].
  rewrite Hp in V. unfold do_claim in V. destruct (claimable _ _ _); cbn in V.
  - by inversion V as [? ? (_ & Hs & _) E1 E2|]; subst.
  - inversion V as [? q (_ & Hs & _) E1 E2|]; subst. rewrite Hs. by apply Hheld.
Qed.

(** A plain tree, and what its run in the world of ConsumerRun.v does. *)
Lemma plain_cwp {A} (p : prog ev A) k (Q : kafka → res A → Prop) :
  all_events plain p → safe k →
  (∀ w r, crun p (k_world k) = (w, r) → safe (with_world w k) → Q (with_world w k) r) →
  cwp kafka_handler serves_call safe p k Q.
Proof.
  intros Hp Hk HQ. eapply cwp_mono; [|apply cwp_runs, (cwp_invariant kafka_handler serves_call safe safe plain)];
    [|done|by intros; apply safe_call|done|done].
  cbn. intros k' r [Hs E]. rewrite run_plain in E by done. injection E as <- <-.
  by apply HQ; [apply surjective_pairing|].
Qed.

Lemma execute_shape record mid msg :
  parse_payload record = Ok msg → ∃ c, execute_and_commit self record (Some mid) = Vis (EHandle msg) c.
Proof.
  intros Hp. unfold execute_and_commit. rewrite Hp. unfold loop_fuel.
  destruct (Z.to_nat (max_retries (c_config self))) as [|n] eqn:En; [lia|]. by eexists.
Qed.

Lemma free_claimable k mid :
  st_inv (w_store (k_world k)) → free k mid →
  claimable (st_config (w_store (k_world k))) (st_clock (w_clock (k_world k)) (w_store (k_world k)))
    (st_view (w_store (k_world k)) mid) = true.
Proof.
  intros Hi Hfree. destruct (st_view (w_store (k_world k)) mid) as [p|] eqn:Hp; [|done].
  destruct (Hfree p Hp) as [Hs Hl]. destruct (view_wf _ _ _ Hi Hp) as (_ & _ & Hlease & _).
  destruct (proj1 Hlease Hs) as [l Hle]. cbn. unfold orphaned. rewrite Hs, Hle, bool_decide_true by done.
  rewrite (proj2 (Z.leb_le _ _)) by (by apply Hl). by rewrite orb_true_r.
Qed.

(** The claim of a message that can be claimed: it is won, unless the process dies or the store cannot
    serve it. *)
Lemma cwp_claim mid k (Q : kafka → res bool → Prop) :
  free k mid → safe k →
  (∀ w, w_store w = (claim (w_clock (k_world k)) mid (w_store (k_world k))).1 →
    st_inv (w_store w) → st_frame mid (w_store (k_world k)) (w_store w) →
    w_clock w = w_clock (k_world k) → w_poll w = w_poll (k_world k) →
    w_running w = w_running (k_world k) → safe (with_world w k) → Q (with_world w k) (Ok true)) →
  cwp kafka_handler serves_call safe (measure_store_op "claim" (trigger (EStore (EClaim mid)))) k Q.
Proof.
  intros Hfree Hs HQ.
  assert (Hst : st_inv (w_store (k_world k))) by apply Hs.
  assert (Hun : claimable (st_config (w_store (k_world k))) (st_clock (w_clock (k_world k)) (w_store (k_world k)))
    (st_view (w_store (k_world k)) mid) = true) by by apply free_claimable.
  unfold measure_store_op, mbind, prog_mbind. apply cwp_bind, cwp_trigger; [done|]. intros _.
  assert (Hk : with_world (k_world k) k = k) by by destruct k.
  unfold kafka_handler. cbn [ev_handler fst snd]. fold (with_world (k_world k) k). rewrite Hk.
  split; [done|]. unfold finally. apply cwp_bind, cwp_attempt, cwp_trigger; [done|]. intros Hok.
  pose proof (safe_call bool (EStore (EClaim mid)) k I Hok Hs) as Hs'. split; [done|]. revert Hs'. cbn in Hok.
  destruct (claim_spec _ _ _ Hst Hok) as (s' & E & Hi' & Hf & _). unfold do_claim in E. rewrite Hun in E.
  unfold kafka_handler. cbn [ev_handler call_store]. unfold on_store. rewrite E in HQ |- *. cbn [fst snd].
  intros Hs'. apply plain_cwp; [|exact Hs'|].
  - apply all_events_bind; [|intros _; apply all_events_of_res].
    apply all_events_bind; [by apply all_events_trigger|]. intros stop. by apply emit_events.
  - intros w r. rewrite run_bind, run_bind, run_trigger. cbn [ev_handler]. rewrite run_emit.
    intros [= <- <-] Hsafe. by apply HQ.
Qed.

(** ** A delivery *)

(** Record [j] has just been polled. *)
Record polled (j : nat) k : Prop := {
  pol_store : st_inv (w_store (k_world k));
  pol_free : ∀ mid, mid ∈ ids rs → handed_over k mid ∨ free k mid;
  pol_below : handed_below k j;
  pol_offset : k_offset k ≤ j;
  pol_running : w_running (k_world k) = true;
  pol_poll : w_poll (k_world k) = (λ r, r.1.1) <$> drop (S j) rs;
  pol_position : position k = S j;
}.

Lemma polled_safe j k : polled j k → safe k.
Proof.
  intros [Hi Hf Hb Ho _ _ Hpos]. split; [done| | |unfold position in Hpos; lia].
  - intros mid Hm. destruct (Hf mid Hm); [by left|right; by apply free_held].
  - intros i record mid m Hlt. eapply Hb. lia.
Qed.

(** A record of a message that has been handed over, or is being handed over, is settled. *)
Lemma polled_settled j record mid msg k :
  rs !! j = Some (record, mid, msg) → polled j k → handed_over k mid → settled_for mid k.
Proof.
  intros Hj [Hi Hf Hb Ho Hr Hp Hpos] Hh. split; [|done]. split; try done; rewrite ?Hpos; [| lia |done].
  intros i r m p Hlt Hl. destruct (decide (i = j)) as [->|]; [|eapply Hb; [|done]; lia].
  rewrite Hj in Hl. by injection Hl as <- <- <-.
Qed.

(** The call of handle(), in a world where at most the record of the message has changed. *)
Lemma polled_handed j record mid msg k w :
  rs !! j = Some (record, mid, msg) → polled j k →
  st_inv (w_store w) → st_frame mid (w_store (k_world k)) (w_store w) → w_clock w = w_clock (k_world k) →
  w_poll w = w_poll (k_world k) → w_running w = w_running (k_world k) →
  settled_for mid (kafka_handler pyval (EHandle msg) (with_world w k)).1.
Proof.
  intros Hj [Hi Hf Hb Ho Hr Hp Hpos] Hi' (_ & Hclk & Hv) Hc Hpoll Hrun.
  assert (Hpos' : position (with_world w k) = S j) by (unfold position in *; cbn; by rewrite Hpoll).
  set (k' := (kafka_handler _ _ _).1).
  assert (Hcalls : k_calls k' = k_calls k ++ [(j, msg)]) by (cbn; by rewrite Hpos').
  assert (Hmono : ∀ m, handed_over k m → handed_over k' m) by (intros m; apply handed_mono; rewrite Hcalls; set_solver).
  assert (Hmid : handed_over k' mid) by (exists j, record, msg; split; [done|]; rewrite Hcalls; set_solver).
  split; [|done]. split; change (position k') with (position (with_world w k)); rewrite ?Hpos'; cbn.
  - done.
  - intros m Hm. destruct (decide (m = mid)) as [->|Hne]; [by left|].
    destruct (Hf m Hm) as [|Hfree]; [left; auto|right]. unfold free. cbn. rewrite Hc, Hclk, Hv by done. apply Hfree.
  - intros i r m p Hlt Hl. destruct (decide (i = j)) as [->|].
    + rewrite Hj in Hl. by injection Hl as <- <- <-.
    + eapply Hmono, Hb; [|done]. lia.
  - lia.
  - congruence.
  - congruence.
Qed.

Lemma delivery_cwp j record mid msg k :
  rs !! j = Some (record, mid, msg) → polled j k →
  cwp kafka_handler serves_call safe (process_record self record) k (λ k' _, settled k').
Proof.
  intros Hj Hk. assert (Hkey := Forall_lookup_1 _ _ _ _ rs_keyed Hj). destruct Hkey as (He & Hmid & Hp).
  assert (Hin : mid ∈ ids rs) by (apply list_elem_of_fmap; exists (record, mid, msg); split; [done|by eapply list_elem_of_lookup_2]).
  destruct (pol_free _ _ Hk mid Hin) as [Hh|Hfree].
  { eapply cwp_mono; [|apply (settled_cwp mid)]; [by intros ? ? []| |by eapply polled_settled].
    by apply (process_events self record mid). }
  unfold process_record, mbind, prog_mbind. rewrite He. cbn [of_res prog_bind].
  apply cwp_bind, cwp_claim; [done|by eapply polled_safe|].
  intros w1 _ Hi1 Hf1 Hc1 Hp1 Hr1 Hs1.
  unfold measure_processing, mbind, prog_mbind.
  apply cwp_bind, plain_cwp; [by apply emit_events|done|]. intros w2 r2. rewrite run_emit. intros [= <- <-] Hs2.
  apply cwp_bind, plain_cwp; [by apply all_events_trigger|done|]. intros w3 r3. rewrite run_trigger.
  intros [= <- <-] Hs3. set (k3 := with_world _ _) in *.
  unfold finally. apply cwp_bind, cwp_attempt.
  destruct (execute_shape record mid msg Hp) as [c Hc].
  assert (Hown : all_events (own mid) (execute_and_commit self record (Some mid))) by by apply execute_events.
  rewrite Hc in Hown |- *. destruct Hown as [_ Hown].
  split; [done|]. intros _.
  match goal with |- context [kafka_handler _ _ (with_world ?w (with_world _ k3))] =>
    assert (Hset : settled_for mid (kafka_handler pyval (EHandle msg) (with_world w k)).1)
      by (eapply polled_handed; [exact Hj|exact Hk|done..]);
    change (with_world w (with_world _ k3)) with (with_world w k) end.
  destruct (kafka_handler _ _ _) as [k4 r4]. cbn [fst] in Hset.
  eapply cwp_mono; [|by apply (settled_cwp mid)]. intros k5 r5 Hset5. cbv beta in *.
  eapply cwp_mono; [|apply (settled_cwp mid); [|exact Hset5]]; [by intros ? ? []|].
  apply all_events_bind; [|intros _; apply all_events_of_res].
  apply all_events_bind; [by apply emit_events|]. intros _.
  apply all_events_bind; [by apply all_events_trigger|]. intros stop. by apply emit_events.
Qed.

(** ** The loop *)

Lemma settled_poll k :
  settled k → let '(k', r) := kafka_handler _ EPoll k in
  match rs !! position k with
  | Some (record, _, _) => r = Ok (Some record) ∧ polled (position k) k'
  | None => r = Ok None ∧ position k' = length rs ∧ settled k'
  end.
Proof.
  intros Hset. pose proof Hset as [Hi Hf Hb Ho Hr Hp]. cbn. rewrite Hp.
  set (i := position k) in *. destruct (rs !! i) as [[[record mid] msg]|] eqn:Hj.
  - pose proof (lookup_lt_Some _ _ _ Hj) as Hlt. rewrite (drop_S _ _ _ Hj). cbn. split; [done|].
    split; try done. unfold position. cbn. rewrite length_fmap, length_drop. lia.
  - apply lookup_ge_None in Hj. rewrite drop_ge by done. cbn.
    assert (Hpos : position k = length rs) by (unfold position; rewrite Hp, length_fmap, length_drop; fold i; lia).
    split; [done|]. split; [unfold position; cbn; lia|].
    eapply settled_alike; [..|exact Hset]; try done; [|by left]. cbn. rewrite Hp, drop_ge by done. done.
Qed.

(** What is left of the loop after a poll that finds no record, or with rounds to spare. *)
Lemma loop_cwp n : ∀ k,
  settled k → cwp kafka_handler serves_call safe (run_records self n) k
    (λ k' r, r = Ok true → handed_below k' (length rs)).
Proof.
  induction n as [|n IH]; intros k Hset; [by split; [apply settled_safe|]|].
  cbn [run_records]. unfold mbind, prog_mbind. apply cwp_bind, cwp_trigger; [by apply settled_safe|]. intros _.
  pose proof (settled_poll k Hset) as Hp. destruct (kafka_handler _ EPoll k) as [k1 r1].
  destruct (rs !! position k) as [[[record mid] msg]|] eqn:Hj.
  - destruct Hp as [-> Hp]. cbn [fst snd]. split; [by eapply polled_safe|].
    apply cwp_bind, cwp_trigger; [by eapply polled_safe|]. intros _.
    assert (Hrun : kafka_handler _ EIsRunning k1 = (k1, Ok true)).
    { unfold kafka_handler. cbn. rewrite (pol_running _ _ Hp). by destruct k1. }
    rewrite Hrun. cbn [fst snd]. split; [by eapply polled_safe|]. apply cwp_bind.
    eapply cwp_mono; [|by eapply delivery_cwp]. intros k2 [[]|x] Hset2; [by apply IH|done].
  - destruct Hp as (-> & Hpos & Hset1). cbn [fst snd]. pose proof (settled_safe _ Hset1) as Hs1.
    split; [done|]. split; [done|]. intros _. rewrite <- Hpos. apply Hset1.
Qed.

(** ** Restarts *)

Lemma restart_settled d k : (0 ≤ d)%Z → safe k → leases_over (restart d k) → settled (restart d k).
Proof.
  intros Hd [Hi Hh Ho Hb] Hl.
  assert (Hpos : position (restart d k) = k_offset k).
  { unfold position. cbn. rewrite length_fmap, length_drop. lia. }
  split; rewrite ?Hpos; [by apply elapse_inv| |exact Ho|done..].
  intros mid Hm. destruct (Hh mid Hm) as [|Hheld]; [by left|right]. intros p Hp.
  split; [|intros l Hle; unfold leases_over in Hl; rewrite Forall_forall in Hl; by eapply (Hl mid Hm)].
  cbn in Hp. destruct (elapse_view d (w_store (k_world k)) mid Hd Hi) as [[_ E]|[_ E]]; rewrite E in Hp; [|done].
  by apply Hheld.
Qed.

(** A restart forgets the metrics. *)
Definition same_but_metrics k k' : Prop :=
  ∃ r, k' = mkKafka (with_registry r (k_world k)) (k_offset k) (k_calls k).

#[export] Instance kafka_metrics_preorder : PreOrder same_but_metrics.
Proof.
  split; [intros [[] o c]; by eexists|]. intros k1 k2 k3 [r ->] [r' ->]. by exists r'.
Qed.

(** However a process is stopped, its successor starts as after a crash. *)
Lemma restart_stopped s d k :
  ∃ i, restart d (stop s k) = restart d (run_prefix kafka_handler i poll_loop k) ∧
    (served_until kafka_handler serves_call s poll_loop k → served kafka_handler serves_call i poll_loop k).
Proof.
  destruct (stopped_as_killed kafka_handler synchronous (@allowed)) with (alike := same_but_metrics)
    (s := s) (m := 5) (p := poll_loop) (w := k) as (i & [r Hr] & Hs).
  - intros X e k'. pose proof (ev_answers X e (k_world k')) as Ha. unfold kafka_handler.
    by destruct (ev_handler _ _ _ _).
  - apply ev_cancels.
  - apply _.
  - intros X e k' He. pose proof (sync_same_but_metrics X e (k_world k') He) as Ha. unfold kafka_handler.
    destruct (ev_handler _ _ _ _) as [w r]. cbn in Ha |- *. exists (w_registry w). by destruct e; try done; rewrite <- Ha.
  - apply interruptible_sync, interruptible_records.
  - exists i. split; [by rewrite Hr|]. apply Hs.
Qed.

Lemma incarnations_settled cs : ∀ k, settled k → orderly cs k → settled (incarnations cs k).
Proof.
  induction cs as [|[s d] cs IH]; intros k Hset; [done|]. intros (Hs & Hd & Hl & Ho). cbn [incarnations].
  apply IH; [|done]. destruct (restart_stopped s d k) as (i & E & Hsi). rewrite E in Hl |- *.
  apply restart_settled; [done| |done]. eapply cwp_prefix; [by apply loop_cwp|auto].
Qed.

(** A new process on a partition of new messages. *)
Definition first_start k : Prop :=
  st_inv (w_store (k_world k)) ∧ (∀ mid, mid ∈ ids rs → st_view (w_store (k_world k)) mid = None) ∧
  k_offset k = 0 ∧ w_poll (k_world k) = (λ r, r.1.1) <$> rs ∧ w_running (k_world k) = true.

Lemma first_settled k : first_start k → settled k.
Proof.
  intros (Hi & Hv & Ho & Hp & Hr).
  assert (Hpos : position k = 0) by (unfold position; rewrite Hp, length_fmap; lia).
  split; rewrite ?Hpos; [done| |intros i r m p Hlt; lia|lia|done|by rewrite Hp].
  intros mid Hm. right. intros p. by rewrite Hv.
Qed.

(** C6: what is committed has been handled, whatever crashes.  The consumer of a partition of new
    messages dies or is cancelled any number of times, each time after any number of calls, and is started again,
    when the leases of its claims are over, at the offset it had committed; handle() may return or
    raise, at any call.  Wherever the last process is cut off, the payload of every record below the
    committed offset has been handed to handle(), in the delivery of a record of its message; and if
    that process reaches the end of the partition, this holds of all its records. *)
Theorem committed_was_handed cs n k :
  first_start k → orderly cs k → served kafka_handler serves_call n poll_loop (incarnations cs k) →
  let k' := run_prefix kafka_handler n poll_loop (incarnations cs k) in
  handed_below k' (k_offset k') ∧
  ((∀ n', served kafka_handler serves_call n' poll_loop (incarnations cs k)) →
   ∀ k'', run kafka_handler poll_loop (incarnations cs k) = (k'', Ok true) → handed_below k'' (length rs)).
Proof.
  intros Hk Ho Hs k'. pose proof (incarnations_settled cs k (first_settled k Hk) Ho) as Hset.
  pose proof (loop_cwp (S (length rs)) _ Hset) as Hcwp. split.
  - apply safe_offset. by eapply cwp_prefix.
  - intros Hall k'' E. pose proof (cwp_run _ _ _ _ _ _ Hcwp Hall) as Hend.
    unfold poll_loop in E. rewrite E in Hend. by apply Hend.
Qed.

End Partition.

(** ** Evaluated: a payment, a refund, and the payment again *)

#[local] Existing Instances Memory.memory_store Memory.memory_view Memory.memory_laws.
#[local] Existing Instances json_text text_runtime.

Definition partition : list (consumer_record * string * payload) := take 3 payment_stream.

(** The first attempt at the refund raises. *)
Definition first_process : @kafka Memory.state :=
  mkKafka (mkWorld (Memory.init None) 1000000
    [Ok (PyJson (JInt 1)); Err (Exn "PaymentError" "declined" true); Ok (PyJson (JInt 2))]
    [] 0 [] ∅ ((λ r, r.1.1) <$> partition) true) 0 [].

(** Dead after the claim of the payment, then cancelled at the first call after that of the refund. *)
Definition deaths : list (stop_by * Z) :=
  [(Killed 4, 300000000%Z); (Cancelled 25 true, 300000000%Z)].

Lemma partition_keyed : Forall keyed partition.
Proof. apply Forall_take, payment_stream_keyed. Qed.

Abbreviation last_process :=
  (run_prefix (kafka_handler partition) 200 (poll_loop payments_consumer partition)
    (incarnations payments_consumer partition deaths first_process)).

Lemma first_process_start : first_start partition first_process.
Proof. split_and!; [apply (Memory.init_inv None)|done..]. Qed.

Lemma deaths_orderly : orderly payments_consumer partition deaths first_process.
Proof.
  split; [vm_compute; repeat split|]. split; [done|]. split; [repeat (apply Forall_cons; split; [lease_ends|]); apply Forall_nil_2|].
  split; [intros n; apply served_whole; vm_compute; repeat split|]. split; [done|].
  split; [repeat (apply Forall_cons; split; [lease_ends|]); apply Forall_nil_2|]. done.
Qed.

Lemma last_process_served :
  served (kafka_handler partition) serves_call 200 (poll_loop payments_consumer partition)
    (incarnations payments_consumer partition deaths first_process).
Proof. vm_compute. repeat split. Qed.

Lemma committed_was_handed_witness :
  k_offset last_process = 3 ∧ handed_below partition last_process (k_offset last_process).
Proof.
  split; [by vm_compute|].
  exact (proj1 (committed_was_handed payments_consumer partition partition_keyed ltac:(done) deaths 200 first_process
    first_process_start deaths_orderly last_process_served)).
Defined.
